(* ===== verification/_CoqProject ===== *)
-Q . S2P
Prelude.v
CMem.v
Queue.v
QueueRest.v
Bio.v
BioMem.v
Base64.v
CLib.v
Log.v
Url.v
Headers.v
HdrList.v
Compression.v
HttpReq.v
TlsEngine.v
Http.v
HttpInv.v
HttpSafety.v
HttpBehaviour.v
WebSocket.v
WsProofs.v
UvLink.v
UvLinkProofs.v
SslIo.v
MbedEngine.v
MbedCerts.v
MbedCtx.v
EngineMem.v
OsslMem.v
OpenSslEngine.v
OpenSslCtx.v
P11Errors.v
P11.v
Signatures.v
MbedKeys.v
MbedP11.v
OpenSslKeys.v
OpenSslCerts.v
OpenSslTrace.v
TlsLink.v
TlsLinkProofs.v
TlsEndToEnd.v
TcpSrc.v
TcpProofs.v
Stream.v
StreamProofs.v
