(* ===== verification/Prelude.v ===== *)
(** * A verification of tlsuv

    tlsuv is a C library for TLS over libuv: a byte stream, an HTTP client and a
    WebSocket client, over two TLS implementations and optional PKCS#11 keys.  This
    development models its C code as executable functions and proves what makes each part
    correct.  Paths are relative to src/.

    ** The program and the files

    - [Prelude]: record update, machine integers and bytes, outcomes of C code (a value or a
      fault), the state monad [M] with its weakest preconditions [wp], shared tactics.
    - [CLib]: the part of the C library the code uses (case-insensitive comparison, number
      parsing and printing, [strndup], [snprintf] and stores into buffers) and libuv's codes.
      [Log] (src/um_debug.c): the log and the function the user sets for it.
    - [CMem]: memory as C has it where pointers into structures matter: objects with cells,
      addresses of cells, [malloc] and [free].  [Queue] (include/tlsuv/queue.h): the macros of
      the doubly linked [LIST] and the tail queue [STAILQ] over it.  [QueueRest]: its other lists.
    - [Bio] (src/bio.c): the byte queue between the network and a TLS engine, as sequences; the
      interface [ByteFifo] that the engines use.  [BioMem]: the same functions on linked, allocated
      structures.
    - [Base64] (src/base64.c), [Url] ([tlsuv_parse_url] of src/http.c), [Headers] (header
      lists of src/http_req.c, as sequences) and [HdrList] (the same functions on linked,
      allocated structures, over [Queue]), [Compression] (src/compression.c).
    - [HttpReq] (src/http_req.c): a request, its head on the wire, the callbacks of the
      response parser.
    - [TlsEngine] (include/tlsuv/tls_engine.h, src/tls_engine.c): the interface of a TLS
      engine as the class [TlsEngine]; what its users rely on when they write
      ([TlsEngineLaws]) and read ([TlsReadLaws]); the default context.
    - [Http] (src/http.c): the HTTP client, all of its handlers over one state: requests by
      address, queue, connection, timers, the log of what the user and the network see.
      [HttpInv] its invariant, [HttpSafety] the step relation of API calls and callbacks and
      memory safety, [HttpBehaviour] what requests and bodies become.
    - [WebSocket] and [WsProofs] (src/websocket.c): frames, the upgrade, the client.
    - [UvLink] and [UvLinkProofs] (deps/uv_link_t): links by address in a chain, a method
      table for each kind of link, deferred closing, error attribution.
    - [TlsLink] and [TlsLinkProofs] (src/tls_link.c): the TLS link, over any [TlsEngine].
      [TlsEndToEnd]: two such links at the ends of a connection, with engines of their own.
    - [TcpSrc] and [TcpProofs] (src/tcp_src.c): the TCP source, in any state that has one
      (class [HasTcp]): handles and requests by address, the callbacks of libuv as steps.
    - [Stream] and [StreamProofs] (src/tlsuv.c): the TLS stream, which owns a source, a TLS
      link and a client link.
    - [SslIo]: a TLS library as a program that receives and sends over two queues.
    - [MbedEngine], [MbedCerts] and [MbedCtx] (src/mbedtls/engine.c): the mbedTLS engine, its
      certificate check, PKCS#7 messages, certificates as text, signing requests; the context
      with the keys, certificates and protocol lists it owns.  [EngineMem]: what an engine owns.
    - [MbedKeys] (src/mbedtls/keys.c) and [MbedP11] (src/mbedtls/mbed_p11.c, p11_ecdsa.c,
      p11_rsa.c): private and public keys, keys of tokens.
    - [OpenSslEngine] and [OpenSslCtx] (src/openssl/engine.c): the OpenSSL engine; trusted
      certificates, own key and certificate, application protocols.  [OpenSslCerts]:
      certificates and PKCS#7 messages as text, signing requests, the library's context.
      [OpenSslTrace]: the texts of the traces.  [OsslMem]: what an engine owns.
    - [OpenSslKeys] (src/openssl/keys.c): keys and keys of tokens, with the heap and the
      reference counts of the library.
    - [P11] (src/p11.c): keys and certificates on PKCS#11 tokens.  [P11Errors]: the names of codes.
    - [Signatures] (src/openssl/keys.c, src/mbedtls/engine.c and p11_ecdsa.c): verification, the
      two forms of ECDSA signatures, signatures made by tokens.

    An HTTP or WebSocket client and a stream sit on a chain of links: source, TLS link,
    client.  [TlsLink] calls an engine through [TlsEngine]; both engines are instances, and
    discharge both classes of laws ([mbed_laws], [mbed_read_laws], [ossl_laws],
    [ossl_read_laws], and [TlsPeer] of [TlsEndToEnd]), so that the theorems of the TLS link hold for them.  Both engines in
    turn use byte queues through [ByteFifo], which [tlsuv_BIO] and plain byte strings
    implement.

    ** How the code is modelled

    A C function is a function with its name.  State that functions share is a record;
    stateful code runs in [M], pure code that may misbehave in [outcome].  A fault is what C
    leaves undefined: a null or dangling pointer, an access out of bounds, a wrong cast, a
    failed assertion.  Objects that are freed or shared are addresses in a map, so that use
    after free and double release are faults.  Integers have the width of their type where it
    matters ([u8] to [i64]); buffers are lists of bytes, and a pointer into one an offset.
    Callbacks of the user are parameters that may do what a user may do, or events of a log.
    Calls of [UM_LOG] are left out of the functions that make them; [Log] says what they do.
    Loops that are not structural have fuel; theorems that need it say how much is
    enough (the size of the input for parsers and readers, the room of the buffer for
    the engines, the length of the chain for links), so that running out of it never stands for
    a result.

    What is not under src/ is a parameter: llhttp, zlib, libuv's sockets and resolver,
    mbedTLS, OpenSSL, PKCS#11 modules, [malloc].  The laws assumed of them are fields of
    classes or hypotheses, and each has an instance that satisfies it in the witnesses.

    ** What is proved

    - Memory safety: of the HTTP client in every reachable state ([client_memory_safe],
      [requests_owned_once]), of the TCP source under any interleaving with the network
      ([tcp_src_memory_safe]), of parsers on any input ([parse_url_sound], [pkcs7_parsed]), of
      private keys ([own_keys_freed_once]), of the mbedTLS context ([mbedtls_context_owned], which
      also says exactly what it leaves behind), of the engines from their making to their freeing
      ([mbedtls_engine_owned], [openssl_engine_owned]) and of token keys ([pkcs11_key_owned]).
    - What is sent and received is what was meant: request heads and bodies
      ([http_req_write_exact], [chunked_body_roundtrip]),
      WebSocket frames ([ws_write_roundtrip], [ws_upgrade]), TLS data
      ([tls_data_end_to_end], [tls_write_sends], [openssl_reads_stream]), decompressed bodies
      ([inflate_any_split]), protocols ([alpn_roundtrip]), certificates
      ([p11_cert_roundtrip], [ossl_certs_roundtrip]), keys ([mbed_key_roundtrip]).
    - Life cycles: completion, cancellation and closing notify once and release everything
      ([response_completes], [cancel_all_notifies], [stream_connects],
      [stream_close_releases], [close_chain_once], [tcp_connect_answered]).
    - Refinements: the byte queue in memory of a byte string ([BIO_memory_fifo]), the tail queue of
      queue.h of a sequence ([stailq_refines], and [simpleq_refines] and [deque_refines] for the queues
      the library does not use), header lists in memory of the sequences of
      [Headers] ([header_list_refines]) and those of a map ([set_http_header_is_map_update]), the
      mbedTLS engine over the queue of the engine over byte strings ([mbed_engine_refines]).
    - Trust: which certificates and signatures are accepted ([mbed_cert_verify],
      [process_chains_sorts], [signature_forms_agree]), which key of a token is used
      ([p11_load_key_finds], [mp11_finds_same_key]) and what it signs ([rsa_signs_digest_info]).
    - Where the code does not do what it means to, a theorem shows it on a concrete case, next
      to the part it is about.

    ** Not modelled

    The Windows branches; the configuration calls that only pass arguments
    to a TLS library; the vendored PKCS#11 headers but for
    their codes and the constants used; samples and tests. *)
From stdpp Require Import base list gmap strings option numbers.
From Stdlib Require Import ZArith Lia Ascii String Btauto.
Open Scope Z_scope.

Declare Scope tlsuv_scope.
Delimit Scope tlsuv_scope with tlsuv.

(** ** Record update

    [r <| f := v |>] is [r] with field [f] set to [v].  A record opts in with an
    [Updatable] instance giving its eta expansion; the setter of each field is
    derived from it by abstracting the projection. *)

Class Updatable (R : Type) := eta_expand : R → R.
Class Update {R T : Type} (f : R → T) := update_with : (T → T) → R → R.

Ltac derive_update :=
  lazymatch goal with
  | |- @Update ?R ?T ?f =>
    let inst := constr:(_ : Updatable R) in
    let body := eval hnf in inst in
    let abs := eval pattern f in body in
    lazymatch abs with
    | (fun _ => ?b) _ => fail "not a field of this record"
    | ?F _ =>
      let t := eval cbv beta in (fun (g : T → T) (r : R) => F (fun x => g (f x)) r) in
      exact t
    end
  end.
#[export] Hint Extern 0 (Update _) => derive_update : typeclass_instances.

#[warning="-postfix-notation-not-level-1"]
Notation "r <| f := v |>" := (update_with (f := f) (fun _ => v) r)
  (at level 12, left associativity, f constr, v constr at level 200,
   format "r  <| f  :=  v |>") : tlsuv_scope.
Open Scope tlsuv_scope.

(** ** Machine integers (LP64, two's complement, signed [char]) *)

Definition u8 (z : Z) : Z := z mod 256.
Definition u16 (z : Z) : Z := z mod 65536.
Definition u32 (z : Z) : Z := z mod 4294967296.
Definition u64 (z : Z) : Z := z mod 18446744073709551616.
Definition i32 (z : Z) : Z := (z + 2147483648) mod 4294967296 - 2147483648.
Definition i64 (z : Z) : Z :=
  (z + 9223372036854775808) mod 18446744073709551616 - 9223372036854775808.

Arguments u8 : simpl never.
Arguments u16 : simpl never.
Arguments u32 : simpl never.
Arguments u64 : simpl never.
Arguments i32 : simpl never.
Arguments i64 : simpl never.

(** The value of a [char] holding byte [b]. *)
Definition schar (b : Z) : Z := if b <? 128 then b else b - 256.

Lemma u8_small z : 0 ≤ z < 256 → u8 z = z.
Proof. apply Z.mod_small. Qed.
Lemma u16_small z : 0 ≤ z < 65536 → u16 z = z.
Proof. apply Z.mod_small. Qed.
Lemma u32_small z : 0 ≤ z < 4294967296 → u32 z = z.
Proof. apply Z.mod_small. Qed.
Lemma u64_small z : 0 ≤ z < 18446744073709551616 → u64 z = z.
Proof. apply Z.mod_small. Qed.
Lemma i32_small z : -2147483648 ≤ z < 2147483648 → i32 z = z.
Proof. intros. unfold i32. rewrite Z.mod_small; lia. Qed.
Lemma u8_bound z : 0 ≤ u8 z < 256.
Proof. apply Z.mod_pos_bound. lia. Qed.
Lemma u64_bound z : 0 ≤ u64 z < 18446744073709551616.
Proof. apply Z.mod_pos_bound. lia. Qed.
Lemma u64_sub_add a b : u64 (u64 a - b) = u64 (a - b).
Proof. unfold u64. rewrite Zminus_mod_idemp_l. done. Qed.
Lemma u64_add_idemp a b : u64 (u64 a + b) = u64 (a + b).
Proof. unfold u64. rewrite Zplus_mod_idemp_l. done. Qed.

Lemma i32_u64 z : i32 (u64 z) = i32 z.
Proof.
  unfold i32, u64. f_equal. rewrite <-(Zplus_mod_idemp_l z), <-(Zplus_mod_idemp_l (z mod _)). f_equal. f_equal.
  change 18446744073709551616 with (4294967296 * 4294967296). rewrite Z.rem_mul_r by lia.
  rewrite Z.mul_comm, Z.mod_add, Z.mod_mod by lia. done.
Qed.

(** A byte is an integer in [0, 256); buffers and C strings (without their
    terminating NUL) are lists of bytes. *)
Definition is_byte (b : Z) : Prop := 0 ≤ b < 256.
#[export] Instance is_byte_dec b : Decision (is_byte b).
Proof. unfold is_byte. apply _. Defined.

Definition bytes_ok (l : list Z) : Prop := Forall is_byte l.

(** A C string: bytes none of which is NUL. *)
Definition cstr_ok (l : list Z) : Prop := Forall (λ b, 0 < b < 256) l.

Lemma cstr_bytes l : cstr_ok l → bytes_ok l.
Proof. apply Forall_impl. unfold is_byte. lia. Qed.

(** ** Bits of bytes

    [bits8] proves an equation between bytes built from bytes and literals with
    [Z.lor], [Z.land], [Z.lxor], shifts and [u8], bit by bit. *)

Lemma testbit_byte_high b i : is_byte b → 8 ≤ i → Z.testbit b i = false.
Proof.
  intros [??] ?. destruct (decide (b = 0)) as [->|]; [apply Z.bits_0|].
  apply Z.bits_above_log2; [lia|]. apply Z.log2_lt_pow2; [lia|].
  apply Z.lt_le_trans with (2 ^ 8); [lia|]. by apply Z.pow_le_mono_r; lia.
Qed.
Lemma testbit_u8 z i : Z.testbit (u8 z) i = Z.testbit z i && (i <? 8).
Proof.
  unfold u8. change 256 with (2 ^ 8). destruct (Z.ltb_spec i 8).
  - rewrite Z.mod_pow2_bits_low by lia. by rewrite andb_true_r.
  - rewrite Z.mod_pow2_bits_high by lia. by rewrite andb_false_r.
Qed.
Ltac bits_step :=
  match goal with
  | |- context [Z.testbit ?a ?k] => rewrite (Z.testbit_neg_r a k) by lia
  | |- context [Z.testbit ?a ?k] => rewrite (testbit_byte_high a k) by first [assumption | lia | by split; lia]
  | |- context [Z.testbit (Z.lor ?a ?b) ?k] => rewrite (Z.lor_spec a b k)
  | |- context [Z.testbit (Z.land ?a ?b) ?k] => rewrite (Z.land_spec a b k)
  | |- context [Z.testbit (Z.lxor ?a ?b) ?k] => rewrite (Z.lxor_spec a b k)
  | |- context [Z.testbit (u8 ?a) ?k] => rewrite (testbit_u8 a k)
  | |- context [Z.testbit (Z.shiftl ?a ?n) ?k] => rewrite (Z.shiftl_spec a n k) by lia
  | |- context [Z.testbit (Z.shiftr ?a ?n) ?k] => rewrite (Z.shiftr_spec a n k) by lia
  | |- context [Z.ltb ?i 8] => replace (Z.ltb i 8) with false by lia
  end.
(** Evaluates ground indices, bits of literals and ground comparisons. *)
Ltac bits_ground :=
  match goal with
  | |- context [Z.testbit ?a ?k] =>
    let k' := eval vm_compute in k in
    (progress change (Z.testbit a k) with (Z.testbit a k')) ||
    (let b := eval vm_compute in (Z.testbit a k) in
     lazymatch b with true => idtac | false => idtac end; change (Z.testbit a k) with b)
  | |- context [Z.ltb ?i 8] =>
    let b := eval vm_compute in (Z.ltb i 8) in
    lazymatch b with true => idtac | false => idtac end; change (Z.ltb i 8) with b
  end.
Ltac bits8 :=
  let i := fresh "i" in let Hi := fresh "Hi" in let Hi2 := fresh "Hi" in
  apply Z.bits_inj'; intros i Hi;
  destruct (Z.lt_ge_cases i 8);
  [ assert (i = 0 ∨ i = 1 ∨ i = 2 ∨ i = 3 ∨ i = 4 ∨ i = 5 ∨ i = 6 ∨ i = 7) as Hi2 by lia;
    destruct Hi2 as [->|[->|[->|[->|[->|[->|[->| ->]]]]]]]
  | ]; repeat bits_step; repeat bits_ground; btauto.

(** String literals of the source. *)
Fixpoint bs (s : string) : list Z :=
  match s with
  | EmptyString => []
  | String c s' => Z.of_N (N_of_ascii c) :: bs s'
  end.
Arguments bs s%_string_scope.

(** ** Outcomes: a C function either returns or does something undefined *)

Inductive fault :=
  | NullDeref        (* dereference of a NULL pointer *)
  | UseAfterFree     (* access to a freed object *)
  | DoubleFree
  | OutOfBounds      (* access outside an allocated buffer *)
  | BadCast          (* object accessed at the wrong type *)
  | Uninitialised    (* read of memory never written *)
  | AssertFailed     (* CHECK(...) aborts the process *)
  | OutOfFuel.       (* the model's loop bound was reached *)

#[export] Instance fault_eq_dec : EqDecision fault.
Proof. solve_decision. Defined.

Inductive outcome (A : Type) :=
  | Ret (a : A)
  | Fault (f : fault).
Arguments Ret {A} a.
Arguments Fault {A} f.

#[export] Instance outcome_ret : MRet outcome := fun A a => Ret a.
#[export] Instance outcome_bind : MBind outcome := fun A B k m =>
  match m with Ret a => k a | Fault f => Fault f end.

(** Stateful code: [M S A] runs in a state [S] and may fault. *)
Definition M (S A : Type) : Type := S → outcome (A * S).

#[export] Instance M_ret {S} : MRet (M S) := fun A a s => Ret (a, s).
#[export] Instance M_bind {S} : MBind (M S) := fun A B k m s =>
  match m s with Ret (a, s') => k a s' | Fault f => Fault f end.

Definition fail_with {S A} (f : fault) : M S A := fun _ => Fault f.
Definition get {S} : M S S := fun s => Ret (s, s).
Definition gets {S A} (f : S → A) : M S A := fun s => Ret (f s, s).
Definition modify {S} (f : S → S) : M S unit := fun s => Ret (tt, f s).
Definition when {S} (b : bool) (m : M S unit) : M S unit := if b then m else mret tt.
Definition liftO {S A} (o : outcome A) : M S A := fun s =>
  match o with Ret a => Ret (a, s) | Fault f => Fault f end.
(** Dereference of a possibly absent object. *)
Definition from_opt {S A} (f : fault) (o : option A) : M S A :=
  match o with Some a => mret a | None => fail_with f end.

(** [wp m Q s]: started in [s], [m] does not fault and ends with [Q]. *)
Definition wp {S A} (m : M S A) (Q : A → S → Prop) (s : S) : Prop :=
  match m s with Ret (a, s') => Q a s' | Fault _ => False end.

Section wp_rules.
Context {S : Type}.
Implicit Types s : S.

Lemma wp_ret {A} (a : A) (Q : A → S → Prop) s : wp (mret a) Q s ↔ Q a s.
Proof. done. Qed.
Lemma wp_bind {A B} (m : M S A) (k : A → M S B) Q s :
  wp (m ≫= k) Q s ↔ wp m (λ a, wp (k a) Q) s.
Proof. unfold wp, mbind, M_bind. destruct (m s) as [[a s']|]; done. Qed.
Lemma wp_get (Q : S → S → Prop) s : wp get Q s ↔ Q s s.
Proof. done. Qed.
Lemma wp_gets {A} (f : S → A) (Q : A → S → Prop) s : wp (gets f) Q s ↔ Q (f s) s.
Proof. done. Qed.
Lemma wp_modify (f : S → S) (Q : unit → S → Prop) s : wp (modify f) Q s ↔ Q tt (f s).
Proof. done. Qed.
Lemma wp_from_opt {A} f (a : A) (Q : A → S → Prop) s :
  wp (from_opt f (Some a)) Q s ↔ Q a s.
Proof. done. Qed.
Lemma wp_liftO {A} (o : outcome A) a (Q : A → S → Prop) s : o = Ret a → Q a s → wp (liftO o) Q s.
Proof. by intros ->. Qed.
Lemma wp_mono {A} (m : M S A) (P Q : A → S → Prop) s :
  wp m P s → (∀ a s', P a s' → Q a s') → wp m Q s.
Proof. unfold wp. destruct (m s) as [[a s']|]; auto. Qed.
Lemma wp_conj {A} (m : M S A) (P Q : A → S → Prop) s :
  wp m P s → wp m Q s → wp m (λ a s', P a s' ∧ Q a s') s.
Proof. unfold wp. destruct (m s) as [[a s']|]; auto. Qed.
Lemma wp_run {A} (m : M S A) Q s :
  wp m Q s ↔ ∃ a s', m s = Ret (a, s') ∧ Q a s'.
Proof.
  unfold wp. destruct (m s) as [[a s']|f]; split.
  - intros HQ. by exists a, s'.
  - intros (a' & s'' & [= <- <-] & HQ). done.
  - done.
  - intros (a & s' & Hm & HQ). discriminate.
Qed.
End wp_rules.

Create HintDb tlsuv.
Create Rewrite HintDb wp.
#[export] Hint Rewrite @wp_ret @wp_bind @wp_get @wp_gets @wp_modify @wp_from_opt : wp.

(** Push [wp] through the monad's combinators. *)
Ltac wp_simpl := repeat (autorewrite with wp; cbn beta iota).

(** Splits hypotheses [Forall P (x :: l)]. *)
Ltac split_Forall :=
  repeat match goal with
  | H : Forall _ (_ :: _) |- _ => apply Forall_cons_1 in H as [? H]
  | H : bytes_ok (_ :: _) |- _ => apply Forall_cons_1 in H as [? H]
  | H : cstr_ok (_ :: _) |- _ => apply Forall_cons_1 in H as [? H]
  end.

(** Case analysis on the outermost conditional of the goal. *)
Ltac case_if := match goal with |- context [if ?b then _ else _] => destruct b eqn:? end.

(** Use a [wp] fact [t] for the next call, then continue after it. *)
Tactic Notation "wp_call" tactic3(t) := wp_simpl; eapply wp_mono; [t|]; cbn beta.
