(* ===== verification/CMem.v ===== *)
(** * A heap of C objects

    The parts of the program that link objects by pointers (src/include/tlsuv/queue.h and its
    users) run over this memory: an object is a structure with named fields or a buffer of
    bytes, and disappears when it is freed.  A field is named by its path, so that [&c->headers]
    is an address inside [*c].  Reading a field never written, a freed object or through NULL
    is a fault. *)
From S2P Require Import Prelude.
From stdpp Require Import base list gmap numbers strings.
From Stdlib Require Import ZArith Lia.
Open Scope Z_scope.

Abbreviation ptr := positive.
Abbreviation addr := (positive * list string)%type.

(** The content of a scalar field: [PTR p] points to the object [p], [ADDR a] to the field [a]
    of an object. *)
Inductive cval := UNDEF | NULL | PTR (p : ptr) | ADDR (a : addr) | INT (z : Z).
#[export] Instance cval_eq_dec : EqDecision cval.
Proof. solve_decision. Defined.

Inductive obj := OStruct (fs : gmap (list string) cval) | OBuf (b : list Z).

(** [brk] is the next address [malloc] returns: addresses are not used twice, so that a stale
    pointer is always told from a live one. *)
Record mem := mkmem { objs : gmap ptr obj; brk : ptr }.

(** ** Reading and writing *)

Definition cell (m : mem) (a : addr) : option cval :=
  match objs m !! a.1 with Some (OStruct fs) => fs !! a.2 | _ => None end.
Definition buf_at (m : mem) (p : ptr) : option (list Z) :=
  match objs m !! p with Some (OBuf b) => Some b | _ => None end.
Definition set_cell (m : mem) (a : addr) (v : cval) : mem :=
  match objs m !! a.1 with
  | Some (OStruct fs) => mkmem (<[a.1 := OStruct (<[a.2 := v]> fs)]> (objs m)) (brk m)
  | _ => m
  end.

(** The fault of an access to field [a] that is not there. *)
Definition bad_access (m : mem) (a : addr) : fault :=
  match objs m !! a.1 with None => UseAfterFree | Some _ => BadCast end.

Definition load (a : addr) : M mem cval := λ m,
  match cell m a with
  | Some UNDEF => Fault Uninitialised
  | Some v => Ret (v, m)
  | None => Fault (bad_access m a)
  end.
Definition store (a : addr) (v : cval) : M mem unit := λ m,
  match cell m a with
  | Some _ => Ret (tt, set_cell m a v)
  | None => Fault (bad_access m a)
  end.

(** [&v->f] for a path [f], and the target of a pointer to a field. *)
Definition fld (v : cval) (f : list string) : M mem addr :=
  match v with
  | PTR p => mret (p, f)
  | NULL => fail_with NullDeref
  | _ => fail_with BadCast
  end.
Definition deref (v : cval) : M mem addr :=
  match v with
  | ADDR a => mret a
  | NULL => fail_with NullDeref
  | _ => fail_with BadCast
  end.
(** [&a.f] *)
Definition sub (a : addr) (f : string) : addr := (a.1, a.2 ++ [f]).

Definition as_int (v : cval) : M mem Z :=
  match v with INT z => mret z | _ => fail_with BadCast end.
(** The bytes of the buffer [v] points to. *)
Definition load_buf (v : cval) : M mem (list Z) := λ m,
  match v with
  | PTR p => match objs m !! p with
             | Some (OBuf b) => Ret (b, m)
             | Some _ => Fault BadCast
             | None => Fault UseAfterFree
             end
  | NULL => Fault NullDeref
  | _ => Fault BadCast
  end.

(** ** Allocation *)

Definition alloc (o : obj) : M mem cval := λ m,
  Ret (PTR (brk m), mkmem (<[brk m := o]> (objs m)) (Pos.succ (brk m))).
(** [malloc] of a structure with the given fields, none of them written. *)
Definition struct_of (fs : list (list string)) : obj := OStruct (list_to_map (map (λ f, (f, UNDEF)) fs)).
Definition malloc (fs : list (list string)) : M mem cval := alloc (struct_of fs).
(** [strdup], and [malloc] followed by the [memcpy] that fills the buffer. *)
Definition strdup_ (b : list Z) : M mem cval := alloc (OBuf b).
Definition free (v : cval) : M mem unit := λ m,
  match v with
  | NULL => Ret (tt, m)
  | PTR p => match objs m !! p with
             | Some _ => Ret (tt, mkmem (delete p (objs m)) (brk m))
             | None => Fault DoubleFree
             end
  | _ => Fault BadCast
  end.

(** ** Laws *)

(** Every object was allocated before the next one. *)
Definition mem_ok (m : mem) : Prop := ∀ p, is_Some (objs m !! p) → (p < brk m)%positive.

Section laws.
Implicit Types (m : mem) (a b : addr) (p q : ptr) (v w : cval).

Lemma cell_set_eq m a v w : cell m a = Some w → cell (set_cell m a v) a = Some v.
Proof.
  unfold cell, set_cell. intros H. destruct (objs m !! a.1) as [[fs|]|] eqn:E; try done.
  cbn. by rewrite lookup_insert_eq, lookup_insert_eq.
Qed.
Lemma cell_set_ne m a b v : a ≠ b → cell (set_cell m a v) b = cell m b.
Proof.
  unfold cell, set_cell. intros H. destruct (objs m !! a.1) as [[fs|]|] eqn:E; try done.
  cbn. destruct (decide (a.1 = b.1)) as [Hp|Hp].
  - rewrite <-Hp, lookup_insert_eq, E. rewrite lookup_insert_ne; [done|].
    intros He. apply H. destruct a, b; cbn in *; congruence.
  - by rewrite lookup_insert_ne.
Qed.
Lemma objs_set_ne m a v q : q ≠ a.1 → objs (set_cell m a v) !! q = objs m !! q.
Proof.
  intros H. unfold set_cell. destruct (objs m !! a.1) as [[fs|]|]; try done.
  cbn. by rewrite lookup_insert_ne.
Qed.
Lemma buf_at_set m a v q : buf_at (set_cell m a v) q = buf_at m q.
Proof.
  unfold buf_at. destruct (decide (q = a.1)) as [->|]; [|by rewrite objs_set_ne].
  unfold set_cell. destruct (objs m !! a.1) as [[fs|]|] eqn:E; cbn; rewrite ?lookup_insert_eq, ?E; done.
Qed.
Lemma brk_set m a v : brk (set_cell m a v) = brk m.
Proof. unfold set_cell. by destruct (objs m !! a.1) as [[fs|]|]. Qed.
Lemma live_set m a v q : is_Some (objs (set_cell m a v) !! q) ↔ is_Some (objs m !! q).
Proof.
  destruct (decide (q = a.1)) as [->|]; [|by rewrite objs_set_ne].
  unfold set_cell. destruct (objs m !! a.1) as [[fs|]|] eqn:E; cbn; rewrite ?lookup_insert_eq, ?E;
    split; by eauto.
Qed.
Lemma mem_ok_set m a v : mem_ok m → mem_ok (set_cell m a v).
Proof. intros H p Hp. rewrite brk_set. apply H. by eapply live_set. Qed.

Lemma wp_load m a v (Q : cval → mem → Prop) :
  cell m a = Some v → v ≠ UNDEF → Q v m → wp (load a) Q m.
Proof. intros E ??. unfold wp, load. rewrite E. by destruct v. Qed.
Lemma wp_store m a v w (Q : unit → mem → Prop) :
  cell m a = Some w → Q tt (set_cell m a v) → wp (store a v) Q m.
Proof. intros E ?. unfold wp, store. by rewrite E. Qed.
Lemma wp_fld m p f (Q : addr → mem → Prop) : wp (fld (PTR p) f) Q m ↔ Q (p, f) m.
Proof. done. Qed.
Lemma wp_deref m a (Q : addr → mem → Prop) : wp (deref (ADDR a)) Q m ↔ Q a m.
Proof. done. Qed.
Lemma wp_as_int m z (Q : Z → mem → Prop) : wp (as_int (INT z)) Q m ↔ Q z m.
Proof. done. Qed.
Lemma wp_load_buf m p (b : list Z) (Q : list Z → mem → Prop) :
  buf_at m p = Some b → Q b m → wp (load_buf (PTR p)) Q m.
Proof.
  unfold buf_at, wp, load_buf. destruct (objs m !! p) as [[]|]; intros [= ->]; done.
Qed.
Lemma wp_alloc m o (Q : cval → mem → Prop) :
  Q (PTR (brk m)) (mkmem (<[brk m := o]> (objs m)) (Pos.succ (brk m))) → wp (alloc o) Q m.
Proof. done. Qed.
Lemma wp_free m p (Q : unit → mem → Prop) :
  is_Some (objs m !! p) → Q tt (mkmem (delete p (objs m)) (brk m)) → wp (free (PTR p)) Q m.
Proof. intros [o E] ?. unfold wp, free. by rewrite E. Qed.

(** Allocating and freeing an object leaves the others as they are. *)
Lemma cell_alloc m o n a : a.1 ≠ brk m → cell (mkmem (<[brk m := o]> (objs m)) n) a = cell m a.
Proof. intros. unfold cell. cbn. by rewrite lookup_insert_ne. Qed.
Lemma cell_alloc_new m o n f :
  cell (mkmem (<[brk m := o]> (objs m)) n) (brk m, f) =
  match o with OStruct fs => fs !! f | _ => None end.
Proof. unfold cell. cbn. by rewrite lookup_insert_eq. Qed.
Lemma struct_field (fs : list (list string)) f : f ∈ fs →
  (list_to_map (map (λ f, (f, UNDEF)) fs) : gmap (list string) cval) !! f = Some UNDEF.
Proof.
  induction fs as [|g fs IH]; [by intros ?%elem_of_nil|]. cbn. intros [<-|Hf]%elem_of_cons.
  - by rewrite lookup_insert_eq.
  - destruct (decide (g = f)) as [->|]; [by rewrite lookup_insert_eq|]. rewrite lookup_insert_ne by done. auto.
Qed.
Lemma cell_malloc m fs n f : f ∈ fs → cell (mkmem (<[brk m := struct_of fs]> (objs m)) n) (brk m, f) = Some UNDEF.
Proof. intros. rewrite cell_alloc_new. by apply struct_field. Qed.
Lemma cell_free m p n a : a.1 ≠ p → cell (mkmem (delete p (objs m)) n) a = cell m a.
Proof. intros. unfold cell. cbn. by rewrite lookup_delete_ne. Qed.
Lemma buf_at_free m p n q : q ≠ p → buf_at (mkmem (delete p (objs m)) n) q = buf_at m q.
Proof. intros. unfold buf_at. cbn. by rewrite lookup_delete_ne. Qed.
Lemma buf_at_alloc m o n q : q ≠ brk m → buf_at (mkmem (<[brk m := o]> (objs m)) n) q = buf_at m q.
Proof. intros. unfold buf_at. cbn. by rewrite lookup_insert_ne. Qed.
Lemma mem_ok_fresh m p : mem_ok m → is_Some (objs m !! p) → p ≠ brk m.
Proof. intros H Hp ->. apply H in Hp. lia. Qed.
Lemma mem_ok_alloc m o : mem_ok m → mem_ok (mkmem (<[brk m := o]> (objs m)) (Pos.succ (brk m))).
Proof.
  intros H p. cbn. destruct (decide (p = brk m)) as [->|]; [intros; lia|].
  rewrite lookup_insert_ne by done. intros Hp%H. lia.
Qed.
Lemma mem_ok_free m p : mem_ok m → mem_ok (mkmem (delete p (objs m)) (brk m)).
Proof. intros H q [o Ho]. cbn in *. apply lookup_delete_Some in Ho as [_ Ho]. apply H. eauto. Qed.
Lemma cell_live m a v : cell m a = Some v → is_Some (objs m !! a.1).
Proof. unfold cell. destruct (objs m !! a.1) eqn:E; [eauto|done]. Qed.
Lemma buf_live m p (b : list Z) : buf_at m p = Some b → is_Some (objs m !! p).
Proof. unfold buf_at. destruct (objs m !! p) eqn:E; [eauto|done]. Qed.
Lemma sub_inj a f b g : sub a f = sub b g → f = g.
Proof. unfold sub. intros [= _ H]. apply app_inj_tail in H. tauto. Qed.
Lemma sub_inj2 a f b : sub a f = sub b f → a = b.
Proof. unfold sub. destruct a, b. intros [= -> H]. apply app_inj_tail in H as [-> _]. done. Qed.
End laws.

(** [m'] is [m] but for the content of the fields [bs]. *)
Record touches (bs : list addr) (m m' : mem) : Prop := {
  t_cell b : b ∉ bs → cell m' b = cell m b;
  t_def b : is_Some (cell m b) → is_Some (cell m' b);
  t_buf p : buf_at m' p = buf_at m p;
  t_live p : is_Some (objs m' !! p) ↔ is_Some (objs m !! p);
  t_brk : brk m' = brk m
}.
Lemma touches_refl bs m : touches bs m m.
Proof. by split. Qed.
Lemma touches_trans bs m1 m2 m3 : touches bs m1 m2 → touches bs m2 m3 → touches bs m1 m3.
Proof.
  intros [A B C D E] [A' B' C' D' E']. split; intros.
  - by rewrite A', A.
  - by apply B', B.
  - by rewrite C', C.
  - by rewrite D', D.
  - by rewrite E', E.
Qed.
Lemma touches_set bs m a v : a ∈ bs → touches bs m (set_cell m a v).
Proof.
  intros Ha. split.
  - intros b Hb. apply cell_set_ne. intros ->. by apply Hb.
  - intros b Hb. destruct (decide (a = b)) as [<-|]; [|by rewrite cell_set_ne].
    destruct Hb as [w Hw]. erewrite cell_set_eq by done. eauto.
  - intros. apply buf_at_set.
  - intros. apply live_set.
  - apply brk_set.
Qed.
Lemma touches_mono bs bs' m m' : bs ⊆ bs' → touches bs m m' → touches bs' m m'.
Proof. intros H [A B C D E]. split; auto. Qed.
Lemma touches_ok bs m m' : touches bs m m' → mem_ok m → mem_ok m'.
Proof. intros [A B C D E] H p Hp. rewrite E. by apply H, D. Qed.

(** What an operation that owns objects may have done, [o] being its objects before it and [n]
    those after it: the objects alive are [n] and the ones outside [o], which have not changed but
    for the fields [ex]; what is new in [n] was not alive. *)
Record heap_step (ex : addr → Prop) (o n : list ptr) (m m' : mem) : Prop := {
  hs_live p : is_Some (objs m' !! p) ↔ p ∈ n ∨ (is_Some (objs m !! p) ∧ p ∉ o);
  hs_new p : p ∈ n → p ∈ o ∨ objs m !! p = None;
  hs_cell b : ¬ ex b → is_Some (objs m !! b.1) → b.1 ∉ o → cell m' b = cell m b;
  hs_buf p : is_Some (objs m !! p) → p ∉ o → buf_at m' p = buf_at m p
}.
Section steps.
Implicit Types (m : mem) (ex : addr → Prop) (o n : list ptr).

Lemma step_trans ex (o o2 o3 : list ptr) m1 m2 m3 :
  heap_step ex o o2 m1 m2 → heap_step ex o2 o3 m2 m3 → heap_step ex o o3 m1 m3.
Proof.
  intros [A B C D] [A' B' C' D'].
  assert (∀ p, is_Some (objs m1 !! p) → p ∉ o → is_Some (objs m2 !! p) ∧ p ∉ o2) as Hn.
  { intros p Hp Ho. split; [apply A; by right|]. intros [?|E]%B; [done|]. rewrite E in Hp. by destruct Hp. }
  split.
  - intros p. rewrite A', A. split.
    + intros [?|[[?|?] ?]]; [by left|done|by right].
    + intros [?|[H1 H2]]; [by left|]. right. split; [by right|by apply Hn].
  - intros p [Hp|Hp]%B'; [by apply B|]. destruct (decide (p ∈ o)) as [Ho|Ho]; [by left|right].
    destruct (objs m1 !! p) eqn:E; [|done]. destruct (Hn p) as [[? H] _]; [eauto|done|congruence].
  - intros b Hb H1 H2. destruct (Hn _ H1 H2) as [H3 H4]. rewrite C' by done. by apply C.
  - intros b H1 H2. destruct (Hn _ H1 H2) as [H3 H4]. rewrite D' by done. by apply D.
Qed.
Lemma step_touches ex o bs m m' :
  (∀ b, b ∈ bs → ex b ∨ b.1 ∈ o) → (∀ p, p ∈ o → is_Some (objs m !! p)) →
  touches bs m m' → heap_step ex o o m m'.
Proof.
  intros Hb Ho [A B C D E]. split.
  - intros p. rewrite D. destruct (decide (p ∈ o)); naive_solver.
  - by left.
  - intros b H1 _ H2. apply A. intros [?|?]%Hb; done.
  - intros p _ _. apply C.
Qed.
Lemma step_set ex o m a v :
  a.1 ∈ o → (∀ p, p ∈ o → is_Some (objs m !! p)) → heap_step ex o o m (set_cell m a v).
Proof.
  intros Ha Ho. apply step_touches with [a]; [|done|apply touches_set; left].
  intros b ->%list_elem_of_singleton. by right.
Qed.
Lemma step_alloc ex o m x :
  mem_ok m → (∀ p, p ∈ o → is_Some (objs m !! p)) →
  heap_step ex o (brk m :: o) m (mkmem (<[brk m := x]> (objs m)) (Pos.succ (brk m))).
Proof.
  intros Hok Ho. assert (objs m !! brk m = None) as Hn.
  { destruct (objs m !! brk m) eqn:E; [|done]. exfalso. by apply (mem_ok_fresh m (brk m)); [|eauto|]. }
  split.
  - intros p. cbn. rewrite elem_of_cons. destruct (decide (p = brk m)) as [->|Hp].
    + rewrite lookup_insert_eq. split; [by left; left|eauto].
    + rewrite lookup_insert_ne by done. destruct (decide (p ∈ o)); naive_solver.
  - intros p [->|Hp]%elem_of_cons; [by right|by left].
  - intros b _ Hb _. apply cell_alloc. intros E. rewrite E in Hb. rewrite Hn in Hb. by destruct Hb.
  - intros p Hp _. apply buf_at_alloc. by apply mem_ok_fresh.
Qed.
Lemma step_free ex o o2 m x :
  (∀ p, p ∈ o2 ↔ p ∈ o ∧ p ≠ x) → x ∈ o → (∀ p, p ∈ o → is_Some (objs m !! p)) →
  heap_step ex o o2 m (mkmem (delete x (objs m)) (brk m)).
Proof.
  intros Hp Hx Ho. split.
  - intros p. cbn. rewrite Hp. destruct (decide (p = x)) as [->|Hne].
    + rewrite lookup_delete_eq. split; [by intros []|]. intros [[]|[]]; done.
    + rewrite lookup_delete_ne by done. destruct (decide (p ∈ o)); naive_solver.
  - intros p [? _]%Hp. by left.
  - intros b _ _ Hb. apply cell_free. intros E. apply Hb. by rewrite E.
  - intros p _ Hb. apply buf_at_free. intros ->. done.
Qed.
Lemma step_equiv ex (o o' n n' : list ptr) m m' :
  (∀ p, p ∈ o ↔ p ∈ o') → (∀ p, p ∈ n ↔ p ∈ n') → heap_step ex o n m m' → heap_step ex o' n' m m'.
Proof.
  intros Ho Hn [A B C D]. split; intros p.
  - by rewrite A, Ho, Hn.
  - rewrite <-Ho, <-Hn. apply B.
  - rewrite <-Ho. apply C.
  - rewrite <-Ho. apply D.
Qed.
(** The order of the objects does not matter. *)
#[export] Instance heap_step_perm ex : Proper ((≡ₚ) ==> (≡ₚ) ==> (=) ==> (=) ==> iff) (heap_step ex).
Proof.
  intros o o' Ho n n' Hn m ? <- m' ? <-. split; apply step_equiv; intros p; by rewrite ?Ho, ?Hn.
Qed.
(** The objects of one part of a structure change, those of the others do not. *)
Lemma step_part (r o n : list ptr) m m' :
  heap_step (λ _, False) o n m m' → NoDup (r ++ o) → NoDup n → (∀ p, p ∈ r ++ o → is_Some (objs m !! p)) →
  NoDup (r ++ n) ∧ heap_step (λ _, False) (r ++ o) (r ++ n) m m' ∧ (∀ p, p ∈ r ++ n → is_Some (objs m' !! p)) ∧
  (∀ b, b.1 ∈ r → cell m' b = cell m b) ∧ (∀ p, p ∈ r → buf_at m' p = buf_at m p).
Proof.
  intros S Hro Hn Hl. pose proof S as [A B C D]. apply NoDup_app in Hro as (Hr & Hd & Ho).
  assert (∀ p, p ∈ r → is_Some (objs m !! p) ∧ p ∉ o) as Hp by (intros p Hp; split; [apply Hl, elem_of_app; by left|by apply Hd]).
  split_and!.
  - apply NoDup_app. split_and!; [done| |done]. intros p [Hlp Hpo]%Hp [?|E]%B; [done|]. rewrite E in Hlp. by destruct Hlp.
  - split.
    + intros p. rewrite A, !elem_of_app. destruct (decide (p ∈ r)) as [Hpr|]; [|tauto]. pose proof (Hp p Hpr). tauto.
    + intros p. rewrite !elem_of_app. intros [?|[?|?]%B]; tauto.
    + intros b Hb Hlb. rewrite elem_of_app. intros Hn'. apply C; tauto.
    + intros p Hlp. rewrite elem_of_app. intros Hn'. apply D; tauto.
  - intros p [Hpr|Hpn]%elem_of_app; apply A; [right; by apply Hp|by left].
  - intros b Hb%Hp. apply C; tauto.
  - intros p Hpp%Hp. apply D; tauto.
Qed.
End steps.

#[export] Hint Rewrite wp_fld wp_deref wp_as_int : wp.
