(* ===== verification/Queue.v ===== *)
(** * The intrusive lists of include/tlsuv/queue.h

    The macros the program uses on its header lists ([LIST]), request queues and BIO messages
    ([STAILQ]), with the ones beside them, run over the objects of [CMem].  An element carries
    its links in the field it is linked by; [le_prev] and [stqh_last] hold the address of a
    [next] field.  The abstract value of a list is the sequence of its elements, and each
    operation is shown to implement the operation on sequences, touching no object but the
    ones it names. *)
From S2P Require Import Prelude CMem.
From stdpp Require Import base list gmap numbers strings.
From Stdlib Require Import ZArith Lia.
Open Scope Z_scope.

Local Open Scope string_scope.
Local Open Scope list_scope.
Set Warnings "-clear-no-such-hyp".

(** ** Lists *)

Definition LIST_INIT (head : addr) : M mem unit := store (sub head "lh_first") NULL.

Definition LIST_INSERT_AFTER (listelm elm : cval) (field : string) : M mem unit :=
  ln ← fld listelm [field; "le_next"];
  en ← fld elm [field; "le_next"];
  v ← load ln;
  _ ← store en v;
  _ ← (if decide (v ≠ NULL) then
         nx ← load ln; p ← fld nx [field; "le_prev"]; store p (ADDR en)
       else mret tt);
  _ ← store ln elm;
  ep ← fld elm [field; "le_prev"];
  store ep (ADDR ln).

Definition LIST_INSERT_BEFORE (listelm elm : cval) (field : string) : M mem unit :=
  lp ← fld listelm [field; "le_prev"];
  ep ← fld elm [field; "le_prev"];
  v ← load lp;
  _ ← store ep v;
  en ← fld elm [field; "le_next"];
  _ ← store en listelm;
  pv ← load lp;
  a ← deref pv;
  _ ← store a elm;
  store lp (ADDR en).

Definition LIST_INSERT_HEAD (head : addr) (elm : cval) (field : string) : M mem unit :=
  let first := sub head "lh_first" in
  en ← fld elm [field; "le_next"];
  v ← load first;
  _ ← store en v;
  _ ← (if decide (v ≠ NULL) then
         nx ← load first; p ← fld nx [field; "le_prev"]; store p (ADDR en)
       else mret tt);
  _ ← store first elm;
  ep ← fld elm [field; "le_prev"];
  store ep (ADDR first).

Definition LIST_REMOVE (elm : cval) (field : string) : M mem unit :=
  en ← fld elm [field; "le_next"];
  ep ← fld elm [field; "le_prev"];
  v ← load en;
  _ ← (if decide (v ≠ NULL) then
         nx ← load en; p ← fld nx [field; "le_prev"]; pv ← load ep; store p pv
       else mret tt);
  pv ← load ep;
  a ← deref pv;
  v ← load en;
  store a v.

Definition LIST_EMPTY (head : addr) : M mem bool :=
  v ← load (sub head "lh_first"); mret (bool_decide (v = NULL)).
Definition LIST_FIRST (head : addr) : M mem cval := load (sub head "lh_first").
Definition LIST_NEXT (elm : cval) (field : string) : M mem cval :=
  a ← fld elm [field; "le_next"]; load a.

(** [for (var = first; var; var = next(var)) body], where [body] says whether it leaves the
    loop with [break]; the result is [var] after the loop. *)
Fixpoint foreach (fuel : nat) (next : cval → M mem cval) (body : cval → M mem bool) (var : cval)
  : M mem cval :=
  if decide (var = NULL) then mret NULL
  else match fuel with
       | O => fail_with OutOfFuel
       | S fuel =>
         brk ← body var;
         if (brk : bool) then mret var else v ← next var; foreach fuel next body v
       end.
Definition LIST_FOREACH (fuel : nat) (head : addr) (field : string) (body : cval → M mem bool)
  : M mem cval :=
  v ← load (sub head "lh_first"); foreach fuel (λ x, LIST_NEXT x field) body v.

(** ** Singly-linked tail queues *)

Definition STAILQ_INIT (head : addr) : M mem unit :=
  _ ← store (sub head "stqh_first") NULL;
  store (sub head "stqh_last") (ADDR (sub head "stqh_first")).

Definition STAILQ_INSERT_HEAD (head : addr) (elm : cval) (field : string) : M mem unit :=
  en ← fld elm [field; "stqe_next"];
  v ← load (sub head "stqh_first");
  _ ← store en v;
  _ ← (if decide (v = NULL) then store (sub head "stqh_last") (ADDR en) else mret tt);
  store (sub head "stqh_first") elm.

Definition STAILQ_INSERT_TAIL (head : addr) (elm : cval) (field : string) : M mem unit :=
  en ← fld elm [field; "stqe_next"];
  _ ← store en NULL;
  l ← load (sub head "stqh_last");
  a ← deref l;
  _ ← store a elm;
  store (sub head "stqh_last") (ADDR en).

Definition STAILQ_INSERT_AFTER (head : addr) (listelm elm : cval) (field : string) : M mem unit :=
  ln ← fld listelm [field; "stqe_next"];
  en ← fld elm [field; "stqe_next"];
  v ← load ln;
  _ ← store en v;
  _ ← (if decide (v = NULL) then store (sub head "stqh_last") (ADDR en) else mret tt);
  store ln elm.

Definition STAILQ_REMOVE_HEAD (head : addr) (field : string) : M mem unit :=
  f ← load (sub head "stqh_first");
  fn ← fld f [field; "stqe_next"];
  v ← load fn;
  _ ← store (sub head "stqh_first") v;
  if decide (v = NULL) then store (sub head "stqh_last") (ADDR (sub head "stqh_first")) else mret tt.

(** The [while] loop of [STAILQ_REMOVE]: the element whose successor is [elm]. *)
Fixpoint find_before (fuel : nat) (curelm elm : cval) (field : string) : M mem cval :=
  cn ← fld curelm [field; "stqe_next"];
  v ← load cn;
  if decide (v = elm) then mret curelm
  else match fuel with
       | O => fail_with OutOfFuel
       | S fuel => find_before fuel v elm field
       end.

Definition STAILQ_REMOVE (fuel : nat) (head : addr) (elm : cval) (field : string) : M mem unit :=
  f ← load (sub head "stqh_first");
  if decide (f = elm) then STAILQ_REMOVE_HEAD head field
  else
    cur0 ← load (sub head "stqh_first");
    curelm ← find_before fuel cur0 elm field;
    cn ← fld curelm [field; "stqe_next"];
    x ← load cn;
    xn ← fld x [field; "stqe_next"];
    v ← load xn;
    _ ← store cn v;
    if decide (v = NULL) then store (sub head "stqh_last") (ADDR cn) else mret tt.

Definition STAILQ_EMPTY (head : addr) : M mem bool :=
  v ← load (sub head "stqh_first"); mret (bool_decide (v = NULL)).
Definition STAILQ_FIRST (head : addr) : M mem cval := load (sub head "stqh_first").
Definition STAILQ_NEXT (elm : cval) (field : string) : M mem cval :=
  a ← fld elm [field; "stqe_next"]; load a.
Definition STAILQ_FOREACH (fuel : nat) (head : addr) (field : string) (body : cval → M mem bool)
  : M mem cval :=
  v ← load (sub head "stqh_first"); foreach fuel (λ x, STAILQ_NEXT x field) body v.

Definition STAILQ_CONCAT (head1 head2 : addr) : M mem unit :=
  e ← STAILQ_EMPTY head2;
  if (e : bool) then mret tt
  else
    l1 ← load (sub head1 "stqh_last");
    a ← deref l1;
    f2 ← load (sub head2 "stqh_first");
    _ ← store a f2;
    l2 ← load (sub head2 "stqh_last");
    _ ← store (sub head1 "stqh_last") l2;
    STAILQ_INIT head2.

(** ** Chains of [next] fields *)

Section chains.
Context (nf : list string).       (* the path of the next field *)
Implicit Types (m : mem) (a b : addr) (x y : ptr) (xs l : list ptr).

(** The field [a] holds the first of [xs], and so on to a NULL. *)
Fixpoint seg m a xs : Prop :=
  match xs with
  | [] => cell m a = Some NULL
  | x :: xs => cell m a = Some (PTR x) ∧ seg m (x, nf) xs
  end.
(** The same without the final NULL. *)
Fixpoint chain m a xs : Prop :=
  match xs with
  | [] => True
  | x :: xs => cell m a = Some (PTR x) ∧ chain m (x, nf) xs
  end.
(** Each element's field [pf] holds the address of the field that points to it. *)
Fixpoint backs (pf : list string) m a xs : Prop :=
  match xs with
  | [] => True
  | x :: xs => cell m (x, pf) = Some (ADDR a) ∧ backs pf m (x, nf) xs
  end.
(** The field that holds what follows [xs]. *)
Fixpoint slot a xs : addr :=
  match xs with [] => a | x :: xs => slot (x, nf) xs end.

Definition first_of xs : cval := match xs with [] => NULL | x :: _ => PTR x end.

Lemma seg_first m a xs : seg m a xs → cell m a = Some (first_of xs).
Proof. by destruct xs as [|x xs]; [|intros []]. Qed.
Lemma seg_app m a l xs : seg m a (l ++ xs) ↔ chain m a l ∧ seg m (slot a l) xs.
Proof. revert a. induction l as [|y l IH]; intros a; cbn; [tauto|]. rewrite IH. tauto. Qed.
Lemma backs_app pf m a l xs : backs pf m a (l ++ xs) ↔ backs pf m a l ∧ backs pf m (slot a l) xs.
Proof. revert a. induction l as [|y l IH]; intros a; cbn; [tauto|]. rewrite IH. tauto. Qed.
Lemma slot_app a l xs : slot a (l ++ xs) = slot (slot a l) xs.
Proof. revert a. induction l as [|y l IH]; intros a; cbn; auto. Qed.
Lemma slot_in a xs : slot a xs = a ∨ ∃ x, x ∈ xs ∧ slot a xs = (x, nf).
Proof.
  revert a. induction xs as [|x xs IH]; intros a; [by left|]. right. cbn.
  destruct (IH (x, nf)) as [->|(y & Hy & ->)]; [exists x; split; [left|done]|exists y; split; [by right|done]].
Qed.

Lemma seg_agree m m' a xs :
  cell m' a = cell m a → (∀ x, x ∈ xs → cell m' (x, nf) = cell m (x, nf)) → seg m a xs → seg m' a xs.
Proof.
  revert a. induction xs as [|x xs IH]; cbn; intros a Ha Hx; [by rewrite Ha|].
  intros [H1 H2]. rewrite Ha. split; [done|]. apply IH; [apply Hx; left| |done].
  intros y Hy. apply Hx. by right.
Qed.
(** The last field of a chain is not part of it. *)
Lemma chain_agree m m' a l :
  (∀ b, b = a ∨ (∃ x, x ∈ l ∧ b = (x, nf)) → b ≠ slot a l → cell m' b = cell m b) →
  NoDup l → a ∉ map (λ x, (x, nf)) l → chain m a l → chain m' a l.
Proof.
  revert a. induction l as [|x l IH]; cbn; intros a Hag Hd Ha; [done|].
  apply NoDup_cons in Hd as [Hx Hd]. apply not_elem_of_cons in Ha as [Hax Ha]. intros [H1 H2]. split.
  - rewrite Hag; [done|by left|]. destruct (slot_in (x, nf) l) as [->|(y & Hy & ->)]; [done|].
    intros ->. apply Ha. apply list_elem_of_fmap. by exists y.
  - apply IH; [|done|..|done].
    + intros b [->|(y & Hy & ->)] Hb; apply Hag; try done; right; [exists x|exists y]; split; try done;
        [left|by right].
    + intros (y & [= <-] & Hy)%list_elem_of_fmap. done.
Qed.
Lemma backs_agree pf m m' a xs :
  (∀ x, x ∈ xs → cell m' (x, pf) = cell m (x, pf)) → backs pf m a xs → backs pf m' a xs.
Proof.
  revert a. induction xs as [|x xs IH]; cbn; intros a Hx; [done|].
  intros [H1 H2]. rewrite Hx by left. split; [done|]. apply IH; [|done]. intros y Hy. apply Hx. by right.
Qed.
End chains.

(** ** The representation of a list *)

Section lists.
Context (field : string).
Implicit Types (m : mem) (hd : addr) (x y : ptr) (xs l : list ptr).

Abbreviation nxt := [field; "le_next"].
Abbreviation prv := [field; "le_prev"].

Record list_rep hd xs m : Prop := {
  lr_nodup : NoDup xs;
  lr_seg : seg nxt m (sub hd "lh_first") xs;
  lr_backs : backs nxt prv m (sub hd "lh_first") xs
}.

(** The fields a list consists of. *)
Definition list_cells hd xs : list addr :=
  sub hd "lh_first" :: flat_map (λ x, [(x, nxt); (x, prv)]) xs.

Lemma list_cells_elem hd xs b : b ∈ list_cells hd xs ↔
  b = sub hd "lh_first" ∨ ∃ x, x ∈ xs ∧ (b = (x, nxt) ∨ b = (x, prv)).
Proof.
  unfold list_cells. rewrite elem_of_cons. f_equiv.
  rewrite list_elem_of_In, in_flat_map. setoid_rewrite <-list_elem_of_In.
  f_equiv; intros x. rewrite !elem_of_cons, elem_of_nil. tauto.
Qed.

Lemma first_ne_next hd x : sub hd "lh_first" ≠ (x, nxt).
Proof. intros H. by apply (sub_inj hd _ (x, [field]) "le_next") in H. Qed.
Lemma first_ne_prev hd x : sub hd "lh_first" ≠ (x, prv).
Proof. intros H. by apply (sub_inj hd _ (x, [field]) "le_prev") in H. Qed.

(** A list does not depend on the other fields. *)
Lemma list_rep_agree hd xs m m' :
  (∀ b, b ∈ list_cells hd xs → cell m' b = cell m b) → list_rep hd xs m → list_rep hd xs m'.
Proof.
  intros Hag [A B C]. split; [done|..].
  - apply seg_agree with m; [|intros x Hx|done]; apply Hag, list_cells_elem; eauto.
  - apply backs_agree with m; [intros x Hx|done]. apply Hag, list_cells_elem; eauto.
Qed.
Lemma list_rep_touches bs hd xs m m' :
  (∀ b, b ∈ bs → b ∉ list_cells hd xs) → touches bs m m' → list_rep hd xs m → list_rep hd xs m'.
Proof. intros Hd Ht. apply list_rep_agree. intros b Hb. apply (t_cell _ _ _ Ht). intros H. by eapply Hd. Qed.

Lemma slot_in_cells hd l xs : slot nxt (sub hd "lh_first") l ∈ list_cells hd (l ++ xs).
Proof.
  apply list_cells_elem. destruct (slot_in nxt (sub hd "lh_first") l) as [->|(y & Hy & ->)]; [by left|].
  right. exists y. split; [apply elem_of_app|]; by left.
Qed.
Lemma next_notin_cells hd l x : x ∉ l → (x, nxt) ∉ list_cells hd l.
Proof.
  intros Hx. rewrite list_cells_elem. intros [H|(y & Hy & H)]; [by apply symmetry, first_ne_next in H|].
  destruct H; simplify_eq; done.
Qed.
Lemma prev_notin_cells hd l x : x ∉ l → (x, prv) ∉ list_cells hd l.
Proof.
  intros Hx. rewrite list_cells_elem. intros [H|(y & Hy & H)]; [by apply symmetry, first_ne_prev in H|].
  destruct H; simplify_eq; done.
Qed.
End lists.

(** Solves inequalities of addresses and the memberships they come from. *)
Ltac elem := first [ done | apply list_elem_of_here | apply list_elem_of_further; elem ].
Ltac notin :=
  let H := fresh in
  first [ done
        | intros H;
          match goal with
          | A : ∀ x, x ∈ ?l → x ∉ _, _ : ?w ∈ ?l |- False => apply (A w); [done|elem]
          | A : ?w ∉ ?l |- False => apply A; elem
          end ].
Ltac addr_ne :=
  first
  [ done | congruence
  | apply first_ne_next | apply first_ne_prev
  | apply not_eq_sym; first [apply first_ne_next | apply first_ne_prev]
  | match goal with N : ∀ w, w ∉ _ → _ ≠ (w, _) |- _ => first [apply N | apply not_eq_sym, N]; notin end
  | match goal with N : ∀ w, _ ≠ (w, _) |- _ => first [apply N | apply not_eq_sym, N] end
  | let H := fresh in intros H; injection H; intros; subst;
    match goal with A : ?w ∉ ?l |- False => apply A; elem end ].
(** Reads a field through writes to other ones. *)
Ltac cells := repeat first [ erewrite cell_set_eq by (cells; done) | rewrite cell_set_ne by addr_ne ].
(** A sequence of writes to fields of a list. *)
Ltac in_cells :=
  first [ apply slot_in_cells
        | apply list_cells_elem;
          first [ by left
                | right; eexists; split; [|by left]; clear; set_solver
                | right; eexists; split; [|by right]; clear; set_solver ] ].
Ltac touch :=
  repeat (eapply touches_trans; [|apply touches_set; in_cells]); apply touches_refl.

(** Chains that are not written to. *)
Ltac agree :=
  cells;
  first [ done
        | eapply seg_agree; [| |eassumption]; intros; cells; done
        | eapply backs_agree; [|eassumption]; intros; cells; done ].

Lemma LIST_INIT_rep field hd m :
  is_Some (cell m (sub hd "lh_first")) →
  wp (LIST_INIT hd) (λ _ m', list_rep field hd [] m' ∧ touches [sub hd "lh_first"] m m') m.
Proof.
  intros [v Hv]. eapply wp_store; [done|]. split; [|by apply touches_set; left].
  split; [by constructor|by eapply cell_set_eq|done].
Qed.

Lemma LIST_INSERT_HEAD_rep field hd x xs m :
  list_rep field hd xs m → x ∉ xs →
  is_Some (cell m (x, [field; "le_next"])) → is_Some (cell m (x, [field; "le_prev"])) →
  wp (LIST_INSERT_HEAD hd (PTR x) field)
    (λ _ m', list_rep field hd (x :: xs) m' ∧ touches (list_cells field hd (x :: xs)) m m') m.
Proof.
  intros [A B C] Hx [vn Hn] [vp Hp]. unfold LIST_INSERT_HEAD. wp_simpl.
  pose proof (seg_first _ _ _ _ B) as Hf.
  eapply wp_load; [exact Hf|by destruct xs|]. wp_simpl. eapply wp_store; [exact Hn|]. wp_simpl.
  destruct xs as [|y xs]; cbn [first_of].
  - rewrite decide_False by tauto. wp_simpl.
    eapply wp_store; [cells; done|]. wp_simpl. eapply wp_store; [cells; done|]. split; [|touch].
    split; cbn [seg backs]; [by apply NoDup_singleton|cells..]; done.
  - rewrite decide_True by done. wp_simpl. apply NoDup_cons in A as [Hy A].
    apply not_elem_of_cons in Hx as [Hxy Hx]. destruct B as [B1 B2], C as [C1 C2].
    eapply wp_load; [cells; done|done|]. wp_simpl. eapply wp_store; [cells; done|]. wp_simpl.
    eapply wp_store; [cells; done|]. wp_simpl. eapply wp_store; [cells; done|]. split; [|touch].
    split; cbn [seg backs]; [by rewrite !NoDup_cons, elem_of_cons; naive_solver|split_and!; agree..].
Qed.

(** The field that points to the element after [l]. *)
Lemma slot_cases field hd l : let a := slot [field; "le_next"] (sub hd "lh_first") l in
  (∀ w, w ∉ l → a ≠ (w, [field; "le_next"])) ∧ (∀ w, a ≠ (w, [field; "le_prev"])) ∧
  (a = sub hd "lh_first" ∨ ∃ x, x ∈ l ∧ a = (x, [field; "le_next"])).
Proof.
  intros a. destruct (slot_in [field; "le_next"] (sub hd "lh_first") l) as [E|(y & Hy & E)];
    fold a in E; rewrite E.
  - split_and!; [intros; apply first_ne_next|intros; apply first_ne_prev|by left].
  - split_and!; [intros w Hw [= ->]; done|done|right; by exists y].
Qed.

(** The part of a list before one of its elements. *)
Record front field hd l m : Prop := {
  fr_nodup : NoDup l;
  fr_chain : chain [field; "le_next"] m (sub hd "lh_first") l;
  fr_backs : backs [field; "le_next"] [field; "le_prev"] m (sub hd "lh_first") l
}.
Lemma list_rep_app field hd l xs m : list_rep field hd (l ++ xs) m ↔
  let a := slot [field; "le_next"] (sub hd "lh_first") l in
  front field hd l m ∧ (∀ x, x ∈ l → x ∉ xs) ∧ NoDup xs ∧
  seg [field; "le_next"] m a xs ∧ backs [field; "le_next"] [field; "le_prev"] m a xs.
Proof.
  split.
  - intros [A B C]. apply NoDup_app in A as (?&?&?). apply seg_app in B as [??]. apply backs_app in C as [??].
    by split_and!.
  - intros ([] & ? & ? & ? & ?). split; [by apply NoDup_app|by apply seg_app|by apply backs_app].
Qed.
(** It does not depend on the field that points to what follows. *)
Lemma front_set field hd l m b v :
  (b = slot [field; "le_next"] (sub hd "lh_first") l ∨ b ∉ list_cells field hd l) →
  front field hd l m → front field hd l (set_cell m b v).
Proof.
  intros Hb [A B C]. destruct (slot_cases field hd l) as (N1 & N2 & N3).
  assert (sub hd "lh_first" ∉ map (λ x, (x, [field; "le_next"])) l) as Hn.
  { intros (y & Hy & _)%list_elem_of_fmap. by apply first_ne_next in Hy. }
  rewrite list_cells_elem in Hb. split; [done|..].
  - apply chain_agree with m; [|done..]. intros c Hc Hs. apply cell_set_ne. intros <-.
    destruct Hb as [->|Hb]; [done|]. apply Hb. destruct Hc as [->|(x & Hx & ->)]; eauto.
  - apply backs_agree with m; [|done]. intros x Hx. apply cell_set_ne. intros ->.
    destruct Hb as [Hb|Hb]; [by apply (N2 x)|]. eauto 6.
Qed.

Ltac front_writes :=
  repeat (apply front_set;
          [first [by left | right; first [apply next_notin_cells | apply prev_notin_cells]; done]|]); done.

Lemma LIST_REMOVE_rep field hd l x l2 m :
  list_rep field hd (l ++ x :: l2) m →
  wp (LIST_REMOVE (PTR x) field)
    (λ _ m', list_rep field hd (l ++ l2) m' ∧ touches (list_cells field hd (l ++ l2)) m m') m.
Proof.
  intros (F & A2 & A3 & [B2 B3] & [C2 C3])%list_rep_app.
  destruct (slot_cases field hd l) as (N1 & N2 & N3). set (a := slot _ _ l) in *.
  apply NoDup_cons in A3 as [A3 A4]. assert (x ∉ l) as Hxl by (intros H; apply (A2 x H); left).
  unfold LIST_REMOVE. wp_simpl. pose proof (seg_first _ _ _ _ B3) as Hf.
  eapply wp_load; [exact Hf|by destruct l2|]. wp_simpl.
  destruct l2 as [|y l2]; cbn [first_of] in *.
  - rewrite decide_False by tauto. wp_simpl. eapply wp_load; [exact C2|done|]. wp_simpl.
    eapply wp_load; [exact Hf|done|]. eapply wp_store; [exact B2|]. split; [apply list_rep_app|touch].
    split_and!; [front_writes|set_solver|done|cbn; agree|done].
  - rewrite decide_True by done. wp_simpl. eapply wp_load; [exact Hf|done|]. wp_simpl.
    eapply wp_load; [exact C2|done|]. wp_simpl. destruct B3 as [_ B4], C3 as [C3 C4].
    apply NoDup_cons in A4 as [A4 A5]. apply not_elem_of_cons in A3 as [A3 A6].
    assert (y ∉ l) as Hyl by (intros H; apply (A2 y H); right; left).
    eapply wp_store; [exact C3|]. wp_simpl. eapply wp_load; [cells; exact C2|done|]. wp_simpl.
    eapply wp_load; [cells; exact Hf|done|]. eapply wp_store; [cells; exact B2|]. split; [apply list_rep_app|touch].
    split_and!; [front_writes|clear -A2; set_solver|by apply NoDup_cons|..].
    + cbn. split; agree.
    + cbn. split; agree.
Qed.

Lemma LIST_INSERT_AFTER_rep field hd l x y l2 m :
  list_rep field hd (l ++ x :: l2) m → y ∉ (l ++ x :: l2) →
  is_Some (cell m (y, [field; "le_next"])) → is_Some (cell m (y, [field; "le_prev"])) →
  wp (LIST_INSERT_AFTER (PTR x) (PTR y) field)
    (λ _ m', list_rep field hd (l ++ x :: y :: l2) m' ∧
             touches (list_cells field hd (l ++ x :: y :: l2)) m m') m.
Proof.
  intros (F & A2 & A3 & [B2 B3] & [C2 C3])%list_rep_app Hy [vn Hn] [vp Hp].
  destruct (slot_cases field hd l) as (N1 & N2 & N3). set (a := slot _ _ l) in *.
  apply NoDup_cons in A3 as [A3 A4]. assert (x ∉ l) as Hxl by (intros H; apply (A2 x H); left).
  apply not_elem_of_app in Hy as [Hyl Hy]. apply not_elem_of_cons in Hy as [Hyx Hy].
  unfold LIST_INSERT_AFTER. wp_simpl. pose proof (seg_first _ _ _ _ B3) as Hf.
  eapply wp_load; [exact Hf|by destruct l2|]. wp_simpl. eapply wp_store; [exact Hn|]. wp_simpl.
  destruct l2 as [|z l2]; cbn [first_of] in *.
  - rewrite decide_False by tauto. wp_simpl. eapply wp_store; [cells; done|]. wp_simpl.
    eapply wp_store; [cells; done|]. split; [apply list_rep_app|touch].
    split_and!; [front_writes|clear -A2 Hyl; set_solver|by rewrite NoDup_cons, list_elem_of_singleton; split; [congruence|apply NoDup_singleton]|..];
      cbn; split_and!; agree.
  - rewrite decide_True by done. wp_simpl. apply not_elem_of_cons in Hy as [Hyz Hy].
    eapply wp_load; [cells; done|done|]. wp_simpl. destruct B3 as [_ B4], C3 as [C3 C4].
    apply NoDup_cons in A4 as [A4 A5]. apply not_elem_of_cons in A3 as [A3 A6].
    assert (z ∉ l) as Hzl by (intros H; apply (A2 z H); right; left).
    eapply wp_store; [cells; done|]. wp_simpl. eapply wp_store; [cells; done|]. wp_simpl.
    eapply wp_store; [cells; done|]. split; [apply list_rep_app|touch].
    split_and!; [front_writes|clear -A2 Hyl; set_solver|rewrite !NoDup_cons, !elem_of_cons; naive_solver|..];
      cbn; split_and!; agree.
Qed.

Lemma LIST_INSERT_BEFORE_rep field hd l x y l2 m :
  list_rep field hd (l ++ x :: l2) m → y ∉ (l ++ x :: l2) →
  is_Some (cell m (y, [field; "le_next"])) → is_Some (cell m (y, [field; "le_prev"])) →
  wp (LIST_INSERT_BEFORE (PTR x) (PTR y) field)
    (λ _ m', list_rep field hd (l ++ y :: x :: l2) m' ∧
             touches (list_cells field hd (l ++ y :: x :: l2)) m m') m.
Proof.
  intros (F & A2 & A3 & [B2 B3] & [C2 C3])%list_rep_app Hy [vn Hn] [vp Hp].
  destruct (slot_cases field hd l) as (N1 & N2 & N3). set (a := slot _ _ l) in *.
  apply NoDup_cons in A3 as [A3 A4]. assert (x ∉ l) as Hxl by (intros H; apply (A2 x H); left).
  apply not_elem_of_app in Hy as [Hyl Hy]. apply not_elem_of_cons in Hy as [Hyx Hy].
  unfold LIST_INSERT_BEFORE. wp_simpl. eapply wp_load; [exact C2|done|]. wp_simpl.
  eapply wp_store; [exact Hp|]. wp_simpl. eapply wp_store; [cells; done|]. wp_simpl.
  eapply wp_load; [cells; done|done|]. wp_simpl. eapply wp_store; [cells; done|]. wp_simpl.
  eapply wp_store; [cells; done|]. split; [apply list_rep_app|touch].
  split_and!; [front_writes|clear -A2 Hyl; set_solver|rewrite !NoDup_cons, !elem_of_cons; naive_solver|..];
    cbn; split_and!; agree.
Qed.

(** ** Walking a list *)

Lemma LIST_EMPTY_rep field hd xs m :
  list_rep field hd xs m → wp (LIST_EMPTY hd) (λ b m', b = bool_decide (xs = []) ∧ m' = m) m.
Proof.
  intros [A B C]. unfold LIST_EMPTY. wp_simpl. eapply wp_load; [by eapply seg_first|by destruct xs|]. wp_simpl.
  split; [|done]. apply bool_decide_ext. by destruct xs.
Qed.
Lemma LIST_FIRST_rep field hd xs m :
  list_rep field hd xs m → wp (LIST_FIRST hd) (λ v m', v = first_of xs ∧ m' = m) m.
Proof. intros [A B C]. eapply wp_load; [by eapply seg_first|by destruct xs|done]. Qed.

(** The first element that satisfies [p], as a pointer. *)
Definition find_ptr (p : ptr → bool) (xs : list ptr) : cval :=
  match list_find (λ x, p x = true) xs with Some (_, x) => PTR x | None => NULL end.
Lemma find_ptr_cons p x xs : find_ptr p (x :: xs) = if p x then PTR x else find_ptr p xs.
Proof.
  unfold find_ptr. cbn. destruct (decide (p x = true)) as [->|Hp]; [done|].
  destruct (p x); [done|]. destruct (list_find _ xs) as [[]|]; done.
Qed.

(** A loop whose body only looks at the elements ends at the first it leaves at. *)
Lemma foreach_seg nf next body p fuel a xs m :
  seg nf m a xs → (length xs ≤ fuel)%nat →
  (∀ x v, cell m (x, nf) = Some v → v ≠ UNDEF → next (PTR x) m = Ret (v, m)) →
  (∀ x, x ∈ xs → body (PTR x) m = Ret (p x, m)) →
  foreach fuel next body (first_of xs) m = Ret (find_ptr p xs, m).
Proof.
  revert a fuel. induction xs as [|x xs IH]; intros a fuel Hs Hl Hn Hb.
  { by destruct fuel. }
  destruct fuel as [|fuel]; cbn in Hl; [lia|]. destruct Hs as [Hs1 Hs2].
  cbn [foreach first_of]. rewrite decide_False by done. unfold mbind, M_bind.
  rewrite Hb by left. rewrite find_ptr_cons. destruct (p x); [done|].
  rewrite (Hn x (first_of xs)); [|by eapply seg_first|by destruct xs].
  eapply IH; [done|lia|done|]. intros y Hy. apply Hb. by right.
Qed.

Lemma next_reads a v m : cell m a = Some v → v ≠ UNDEF → load a m = Ret (v, m).
Proof. intros Hc Hv. unfold load. rewrite Hc. by destruct v. Qed.

Lemma LIST_FOREACH_rep field hd xs body p fuel m :
  list_rep field hd xs m → (length xs ≤ fuel)%nat → (∀ x, x ∈ xs → body (PTR x) m = Ret (p x, m)) →
  LIST_FOREACH fuel hd field body m = Ret (find_ptr p xs, m).
Proof.
  intros [A B C] Hf Hb. unfold LIST_FOREACH, mbind, M_bind. rewrite (next_reads _ (first_of xs)).
  - eapply foreach_seg; eauto. intros x v. cbn. apply next_reads.
  - by eapply seg_first.
  - by destruct xs.
Qed.

(** ** The representation of a tail queue *)

Section stailq.
Context (field : string).
Implicit Types (m : mem) (hd : addr) (x y : ptr) (xs l : list ptr).

Abbreviation snx := [field; "stqe_next"].
Abbreviation sfirst hd := (sub hd "stqh_first").
Abbreviation slast hd := (sub hd "stqh_last").

Record stailq_rep hd xs m : Prop := {
  sq_nodup : NoDup xs;
  sq_seg : seg snx m (sfirst hd) xs;
  sq_last : cell m (slast hd) = Some (ADDR (slot snx (sfirst hd) xs))
}.
Definition stailq_cells hd xs : list addr := sfirst hd :: slast hd :: map (λ x, (x, snx)) xs.

Lemma sfirst_ne_next hd x : sfirst hd ≠ (x, snx).
Proof. intros H. by apply (sub_inj hd _ (x, [field]) "stqe_next") in H. Qed.
Lemma slast_ne_next hd x : slast hd ≠ (x, snx).
Proof. intros H. by apply (sub_inj hd _ (x, [field]) "stqe_next") in H. Qed.
Lemma sfirst_ne_slast hd hd' : sfirst hd ≠ slast hd'.
Proof. by intros H%sub_inj. Qed.

Lemma stailq_cells_elem hd xs b : b ∈ stailq_cells hd xs ↔
  b = sfirst hd ∨ b = slast hd ∨ ∃ x, x ∈ xs ∧ b = (x, snx).
Proof. unfold stailq_cells. rewrite !elem_of_cons, list_elem_of_fmap. naive_solver. Qed.

Lemma stailq_rep_agree hd xs m m' :
  (∀ b, b ∈ stailq_cells hd xs → cell m' b = cell m b) → stailq_rep hd xs m → stailq_rep hd xs m'.
Proof.
  intros Hag [A B C]. split; [done|..].
  - apply seg_agree with m; [|intros x Hx|done]; apply Hag, stailq_cells_elem; eauto.
  - rewrite Hag; [done|]. apply stailq_cells_elem; eauto.
Qed.

(** The field that points to the element after [l]. *)
Lemma sslot_cases hd l : let a := slot snx (sfirst hd) l in
  (∀ w, w ∉ l → a ≠ (w, snx)) ∧ (a ≠ slast hd) ∧ (∀ xs, a ∈ stailq_cells hd (l ++ xs)).
Proof.
  intros a. assert (∀ xs, a ∈ stailq_cells hd (l ++ xs)) as Hin.
  { intros xs. apply stailq_cells_elem. destruct (slot_in snx (sfirst hd) l) as [E|(y & Hy & E)];
      fold a in E; rewrite E; [by left|]. right. right. exists y. split; [apply elem_of_app; by left|done]. }
  destruct (slot_in snx (sfirst hd) l) as [E|(y & Hy & E)]; fold a in E; rewrite E in *.
  - split_and!; [intros; apply sfirst_ne_next|apply sfirst_ne_slast|done].
  - split_and!; [intros w Hw [= ->]; done|apply not_eq_sym, slast_ne_next|done].
Qed.

(** The part of a queue before one of its elements. *)
Record sfront hd l m : Prop := { sf_nodup : NoDup l; sf_chain : chain snx m (sfirst hd) l }.
Lemma stailq_rep_app hd l xs m : stailq_rep hd (l ++ xs) m ↔
  let a := slot snx (sfirst hd) l in
  sfront hd l m ∧ (∀ x, x ∈ l → x ∉ xs) ∧ NoDup xs ∧ seg snx m a xs ∧
  cell m (slast hd) = Some (ADDR (slot snx a xs)).
Proof.
  cbn. rewrite <-slot_app. split.
  - intros [A B C]. apply NoDup_app in A as (?&?&?). apply seg_app in B as [??]. by split_and!.
  - intros ([] & ? & ? & ? & ?). split; [by apply NoDup_app|by apply seg_app|done].
Qed.
Lemma sfront_set hd l m b v :
  (b = slot snx (sfirst hd) l ∨ b ≠ sfirst hd ∧ (∀ x, x ∈ l → b ≠ (x, snx))) →
  sfront hd l m → sfront hd l (set_cell m b v).
Proof.
  intros Hb [A B]. split; [done|].
  assert (sfirst hd ∉ map (λ x, (x, snx)) l) as Hn.
  { intros (y & Hy & _)%list_elem_of_fmap. by apply sfirst_ne_next in Hy. }
  apply chain_agree with m; [|done..]. intros c Hc Hs. apply cell_set_ne. intros ->.
  destruct Hb as [->|[Hb1 Hb2]]; [done|]. destruct Hc as [->|(y & Hy & ->)]; [done|by eapply Hb2].
Qed.
End stailq.

Ltac addr_ne ::=
  first
  [ done | congruence
  | apply first_ne_next | apply first_ne_prev | apply sfirst_ne_next | apply slast_ne_next | apply sfirst_ne_slast
  | apply not_eq_sym;
    first [apply first_ne_next | apply first_ne_prev | apply sfirst_ne_next | apply slast_ne_next | apply sfirst_ne_slast ]
  | match goal with N : ∀ w, w ∉ _ → _ ≠ (w, _) |- _ => first [apply N | apply not_eq_sym, N]; notin end
  | match goal with N : ∀ w, _ ≠ (w, _) |- _ => first [apply N | apply not_eq_sym, N] end
  | let H := fresh in intros H; injection H; intros; subst;
    match goal with A : ?w ∉ ?l |- False => apply A; elem end ].
Ltac in_cells ::=
  first [ done | apply slot_in_cells
        | match goal with N : ∀ xs, ?a ∈ _ |- ?a ∈ _ => apply N end
        | apply list_cells_elem;
          first [ by left
                | right; eexists; split; [|by left]; clear; set_solver
                | right; eexists; split; [|by right]; clear; set_solver ]
        | apply stailq_cells_elem;
          first [ by left | by right; left | right; right; eexists; split; [|done]; clear; set_solver ] ].
Ltac sfront_writes :=
  repeat (apply sfront_set;
          [first [by left | right; split; [|intros ??]; addr_ne]|]); done.

Lemma STAILQ_INIT_rep field hd m :
  is_Some (cell m (sub hd "stqh_first")) → is_Some (cell m (sub hd "stqh_last")) →
  wp (STAILQ_INIT hd) (λ _ m', stailq_rep field hd [] m' ∧ touches (stailq_cells field hd []) m m') m.
Proof.
  intros [v Hv] [w Hw]. unfold STAILQ_INIT. wp_simpl. eapply wp_store; [done|]. wp_simpl.
  eapply wp_store; [cells; done|]. split; [|touch]. split; [by constructor|cbn; cells; done..].
Qed.

Lemma STAILQ_INSERT_HEAD_rep field hd x xs m :
  stailq_rep field hd xs m → x ∉ xs → is_Some (cell m (x, [field; "stqe_next"])) →
  wp (STAILQ_INSERT_HEAD hd (PTR x) field)
    (λ _ m', stailq_rep field hd (x :: xs) m' ∧ touches (stailq_cells field hd (x :: xs)) m m') m.
Proof.
  intros [A B C] Hx [vn Hn]. unfold STAILQ_INSERT_HEAD. wp_simpl. pose proof (seg_first _ _ _ _ B) as Hf.
  eapply wp_load; [exact Hf|by destruct xs|]. wp_simpl. eapply wp_store; [exact Hn|]. wp_simpl.
  destruct xs as [|y xs]; cbn [first_of] in *.
  - rewrite decide_True by done. eapply wp_store; [cells; done|]. wp_simpl.
    eapply wp_store; [cells; done|]. split; [|touch]. split; [apply NoDup_singleton|cbn; split_and?; agree..].
  - rewrite decide_False by done. wp_simpl. apply NoDup_cons in A as [Hy A]. destruct B as [B1 B2].
    apply not_elem_of_cons in Hx as [Hxy Hx].
    eapply wp_store; [cells; done|]. split; [|touch].
    split; [rewrite !NoDup_cons, elem_of_cons; naive_solver|cbn; split_and?; agree..].
Qed.

Lemma STAILQ_INSERT_TAIL_rep field hd x xs m :
  stailq_rep field hd xs m → x ∉ xs → is_Some (cell m (x, [field; "stqe_next"])) →
  wp (STAILQ_INSERT_TAIL hd (PTR x) field)
    (λ _ m', stailq_rep field hd (xs ++ [x]) m' ∧ touches (stailq_cells field hd (xs ++ [x])) m m') m.
Proof.
  intros Hr Hx [vn Hn]. rewrite <-(app_nil_r xs) in Hr.
  apply stailq_rep_app in Hr as (F & A1 & A2 & B & C). destruct (sslot_cases field hd xs) as (N1 & N2 & N3).
  set (a := slot _ _ xs) in *. cbn in B, C. unfold STAILQ_INSERT_TAIL. wp_simpl.
  eapply wp_store; [exact Hn|]. wp_simpl. eapply wp_load; [cells; done|done|]. wp_simpl.
  eapply wp_store; [cells; done|]. wp_simpl. eapply wp_store; [cells; done|].
  split; [apply stailq_rep_app|touch].
  split_and!; [sfront_writes|clear -Hx; set_solver|apply NoDup_singleton|cbn; split_and?; agree..].
Qed.

Lemma STAILQ_REMOVE_HEAD_rep field hd x xs m :
  stailq_rep field hd (x :: xs) m →
  wp (STAILQ_REMOVE_HEAD hd field)
    (λ _ m', stailq_rep field hd xs m' ∧ touches (stailq_cells field hd []) m m') m.
Proof.
  intros [A [B1 B2] C]. apply NoDup_cons in A as [Hx A]. unfold STAILQ_REMOVE_HEAD. wp_simpl.
  eapply wp_load; [done|done|]. wp_simpl. pose proof (seg_first _ _ _ _ B2) as Hf.
  eapply wp_load; [exact Hf|by destruct xs|]. wp_simpl. eapply wp_store; [done|]. wp_simpl.
  destruct xs as [|y xs]; cbn [first_of] in *.
  - rewrite decide_True by done. eapply wp_store; [cells; done|]. split; [|touch].
    split; [by constructor|cbn; agree..].
  - rewrite decide_False by done. wp_simpl. split; [|touch]. destruct B2 as [_ B2].
    apply not_elem_of_cons in Hx as [Hxy Hx].
    split; [done|cbn; split_and?; agree..].
Qed.

Lemma STAILQ_INSERT_AFTER_rep field hd l x y l2 m :
  stailq_rep field hd (l ++ x :: l2) m → y ∉ (l ++ x :: l2) →
  is_Some (cell m (y, [field; "stqe_next"])) →
  wp (STAILQ_INSERT_AFTER hd (PTR x) (PTR y) field)
    (λ _ m', stailq_rep field hd (l ++ x :: y :: l2) m' ∧
             touches (stailq_cells field hd (l ++ x :: y :: l2)) m m') m.
Proof.
  intros (F & A2 & A3 & [B1 B2] & C)%stailq_rep_app Hy [vn Hn].
  destruct (sslot_cases field hd l) as (N1 & N2 & N3). set (a := slot _ _ l) in *.
  apply NoDup_cons in A3 as [A3 A4]. assert (x ∉ l) as Hxl by (intros H; apply (A2 x H); left).
  apply not_elem_of_app in Hy as [Hyl Hy]. apply not_elem_of_cons in Hy as [Hyx Hy].
  unfold STAILQ_INSERT_AFTER. wp_simpl. pose proof (seg_first _ _ _ _ B2) as Hf.
  eapply wp_load; [exact Hf|by destruct l2|]. wp_simpl. eapply wp_store; [exact Hn|]. wp_simpl.
  destruct l2 as [|z l2]; cbn [first_of] in *.
  - rewrite decide_True by done. eapply wp_store; [cells; done|]. wp_simpl.
    eapply wp_store; [cells; done|]. split; [apply stailq_rep_app|touch].
    split_and!; [sfront_writes|clear -A2 Hyl; set_solver|rewrite !NoDup_cons, !elem_of_cons; naive_solver|cbn; split_and?; agree..].
  - rewrite decide_False by done. wp_simpl. apply not_elem_of_cons in Hy as [Hyz Hy]. destruct B2 as [_ B2].
    apply NoDup_cons in A4 as [A4 A5]. apply not_elem_of_cons in A3 as [A3 A6].
    eapply wp_store; [cells; done|]. split; [apply stailq_rep_app|touch].
    split_and!; [sfront_writes|clear -A2 Hyl; set_solver|rewrite !NoDup_cons, !elem_of_cons; naive_solver|cbn; split_and?; agree..].
Qed.

(** The loop of [STAILQ_REMOVE] stops at the element before the one removed. *)
Lemma find_before_spec field fuel a l y x l2 m :
  seg [field; "stqe_next"] m a (l ++ y :: x :: l2) → x ∉ (l ++ [y]) → (length l ≤ fuel)%nat →
  find_before fuel (first_of (l ++ y :: x :: l2)) (PTR x) field m = Ret (PTR y, m).
Proof.
  revert a fuel. induction l as [|z l IH]; intros a fuel Hs Hx Hl; destruct fuel as [|fuel];
    cbn in Hl; try lia; cbn [app first_of] in *; cbn [find_before fld]; unfold mbind, M_bind, mret, M_ret.
  1-2: destruct Hs as (_ & Hs & _); rewrite (next_reads _ _ _ Hs) by done;
       by rewrite decide_True.
  destruct Hs as (_ & Hs). pose proof (seg_first _ _ _ _ Hs) as Hf.
  rewrite (next_reads _ _ _ Hf) by (by destruct l).
  apply not_elem_of_cons in Hx as [Hxz Hx]. rewrite decide_False; [by eapply IH; eauto with lia|].
  destruct l; cbn in Hx |- *; intros [= ->]; set_solver.
Qed.

Lemma STAILQ_REMOVE_rep field hd l x l2 fuel m :
  stailq_rep field hd (l ++ x :: l2) m → (length l ≤ fuel)%nat →
  wp (STAILQ_REMOVE fuel hd (PTR x) field)
    (λ _ m', stailq_rep field hd (l ++ l2) m' ∧ touches (stailq_cells field hd (l ++ l2)) m m') m.
Proof.
  intros Hr Hl. unfold STAILQ_REMOVE. wp_simpl.
  eapply wp_load; [eapply seg_first, Hr|by destruct l|]. wp_simpl.
  destruct l as [|z l0] using rev_ind; cbn [app].
  { rewrite decide_True by done. eapply wp_mono; [by eapply STAILQ_REMOVE_HEAD_rep|].
    intros _ m' [??]. split; [done|]. eapply touches_mono; [|done]. intros b.
    rewrite !stailq_cells_elem. clear. set_solver. }
  clear IHl0. rewrite <-!app_assoc in *. cbn [app] in *.
  assert (NoDup (l0 ++ z :: x :: l2)) as Hd by apply Hr.
  assert (x ∉ (l0 ++ [z])) as Hx.
  { apply NoDup_app in Hd as (_ & H1 & H2). apply NoDup_cons in H2 as [H2 _]. clear -H1 H2. set_solver. }
  rewrite decide_False by (destruct l0; cbn in Hx |- *; intros [= ->]; clear -Hx; set_solver).
  wp_simpl. eapply wp_load; [eapply seg_first, Hr|by destruct l0|]. wp_simpl.
  unfold wp at 1. erewrite find_before_spec; [|apply Hr|done|rewrite length_app in Hl; cbn in Hl; lia].
  wp_simpl. apply stailq_rep_app in Hr as (F & A2 & A3 & (B1 & B2 & B3) & C).
  destruct (sslot_cases field hd l0) as (N1 & N2 & N3). set (a := slot _ _ l0) in *.
  assert (z ∉ l0) as Hzl by (intros H; apply (A2 z H); left).
  apply NoDup_cons in A3 as [A3 A4]. apply not_elem_of_cons in A3 as [Hzx A3]. apply NoDup_cons in A4 as [A4 A5].
  eapply wp_load; [exact B2|done|]. wp_simpl. pose proof (seg_first _ _ _ _ B3) as Hf.
  eapply wp_load; [exact Hf|by destruct l2|]. wp_simpl. eapply wp_store; [exact B2|]. wp_simpl.
  destruct l2 as [|y l2]; cbn [first_of] in *.
  - rewrite decide_True by done. eapply wp_store; [cells; done|]. split; [apply stailq_rep_app|touch].
    split_and!; [sfront_writes|clear -A2; set_solver|apply NoDup_singleton|cbn; split_and?; agree..].
  - rewrite decide_False by done. wp_simpl. split; [apply stailq_rep_app|touch]. destruct B3 as [_ B3].
    split_and!; [sfront_writes|clear -A2; set_solver|by apply NoDup_cons|cbn; split_and?; agree..].
Qed.

(** Removing an element that is not in the queue runs off its end. *)
Lemma find_before_missing field fuel a xs x m :
  seg [field; "stqe_next"] m a xs → x ∉ xs → (length xs ≤ fuel)%nat →
  find_before fuel (first_of xs) (PTR x) field m = Fault NullDeref.
Proof.
  revert a fuel. induction xs as [|y xs IH]; intros a fuel Hs Hx Hl; [by destruct fuel|].
  destruct fuel as [|fuel]; cbn in Hl; [lia|]. destruct Hs as [_ Hs].
  cbn [find_before first_of fld]; unfold mbind, M_bind, mret, M_ret.
  rewrite (next_reads _ _ _ (seg_first _ _ _ _ Hs)) by (by destruct xs).
  apply not_elem_of_cons in Hx as [_ Hx]. rewrite decide_False; [eapply IH; eauto with lia|].
  destruct xs; cbn; [done|]. intros [= ->]. apply Hx. left.
Qed.
Lemma STAILQ_REMOVE_missing field hd xs x fuel m :
  stailq_rep field hd xs m → x ∉ xs → (length xs ≤ fuel)%nat →
  STAILQ_REMOVE fuel hd (PTR x) field m = Fault NullDeref.
Proof.
  intros [A B C] Hx Hl. unfold STAILQ_REMOVE, mbind, M_bind.
  rewrite (next_reads _ _ _ (seg_first _ _ _ _ B)) by (by destruct xs).
  rewrite decide_False by (destruct xs; [done|intros [= ->]; apply Hx; left]).
  rewrite (next_reads _ _ _ (seg_first _ _ _ _ B)) by (by destruct xs).
  by erewrite find_before_missing.
Qed.

Lemma STAILQ_EMPTY_rep field hd xs m :
  stailq_rep field hd xs m → STAILQ_EMPTY hd m = Ret (bool_decide (xs = []), m).
Proof.
  intros [A B C]. unfold STAILQ_EMPTY, mbind, M_bind.
  rewrite (next_reads _ _ _ (seg_first _ _ _ _ B)) by (by destruct xs). unfold mret, M_ret.
  do 2 f_equal. apply bool_decide_ext. by destruct xs.
Qed.
Lemma STAILQ_FIRST_rep field hd xs m :
  stailq_rep field hd xs m → STAILQ_FIRST hd m = Ret (first_of xs, m).
Proof. intros [A B C]. apply next_reads; [by eapply seg_first|by destruct xs]. Qed.
Lemma STAILQ_FOREACH_rep field hd xs body p fuel m :
  stailq_rep field hd xs m → (length xs ≤ fuel)%nat → (∀ x, x ∈ xs → body (PTR x) m = Ret (p x, m)) →
  STAILQ_FOREACH fuel hd field body m = Ret (find_ptr p xs, m).
Proof.
  intros [A B C] Hf Hb. unfold STAILQ_FOREACH, mbind, M_bind. rewrite (next_reads _ (first_of xs)).
  - eapply foreach_seg; eauto. intros x v. cbn. apply next_reads.
  - by eapply seg_first.
  - by destruct xs.
Qed.

Lemma STAILQ_CONCAT_rep field hd1 hd2 xs1 xs2 m :
  hd1 ≠ hd2 → stailq_rep field hd1 xs1 m → stailq_rep field hd2 xs2 m → (∀ x, x ∈ xs1 → x ∉ xs2) →
  wp (STAILQ_CONCAT hd1 hd2)
    (λ _ m', stailq_rep field hd1 (xs1 ++ xs2) m' ∧ stailq_rep field hd2 [] m' ∧
             touches (stailq_cells field hd1 xs1 ++ stailq_cells field hd2 []) m m') m.
Proof.
  intros Hne H1 H2 Hd. unfold STAILQ_CONCAT. wp_simpl. unfold wp at 1. erewrite STAILQ_EMPTY_rep by done.
  destruct xs2 as [|y xs2].
  { rewrite bool_decide_eq_true_2 by done. rewrite app_nil_r. split_and!; [done..|apply touches_refl]. }
  rewrite bool_decide_eq_false_2 by done. destruct H2 as [A [B1 B2] C]. cbn [slot] in C.
  assert (∀ f, sub hd1 f ≠ sub hd2 f) as Hs by (intros f H%sub_inj2; done).
  rewrite <-(app_nil_r xs1) in H1. apply stailq_rep_app in H1 as (F & _ & _ & B & D).
  destruct (sslot_cases field hd1 xs1) as (N1 & N2 & N3). set (a := slot _ _ xs1) in *. cbn in B, D.
  assert (y ∉ xs1) as Hy by (intros H; apply (Hd y H); left). apply NoDup_cons in A as [A1 A2].
  assert (a ≠ sub hd2 "stqh_first") as Ha1.
  { intros E. destruct (slot_in [field; "stqe_next"] (sub hd1 "stqh_first") xs1) as [E2|(z & _ & E2)];
      fold a in E2; rewrite E2 in E; [by apply Hs in E|by apply symmetry, sfirst_ne_next in E]. }
  assert (a ≠ sub hd2 "stqh_last") as Ha2.
  { intros E. destruct (slot_in [field; "stqe_next"] (sub hd1 "stqh_first") xs1) as [E2|(z & _ & E2)];
      fold a in E2; rewrite E2 in E; [by apply sfirst_ne_slast in E|by apply symmetry, slast_ne_next in E]. }
  pose proof (N3 []) as N4. rewrite app_nil_r in N4. pose proof (Hs "stqh_first") as Hs1. pose proof (Hs "stqh_last") as Hs2.
  wp_simpl. eapply wp_load; [done|done|]. wp_simpl. eapply wp_load; [done|done|]. wp_simpl.
  eapply wp_store; [done|]. wp_simpl. eapply wp_load; [cells; done|done|]. wp_simpl.
  eapply wp_store; [cells; done|]. unfold STAILQ_INIT. wp_simpl.
  eapply wp_store; [cells; done|]. wp_simpl. eapply wp_store; [cells; done|]. split_and!.
  - apply stailq_rep_app. split_and!; [|done|by apply NoDup_cons|cbn; split_and?; agree..].
    sfront_writes.
  - split; [by constructor|cbn; agree..].
  - repeat (eapply touches_trans; [|apply touches_set, elem_of_app; first [left; in_cells|right; in_cells]]).
    apply touches_refl.
Qed.

(** ** Sequences of operations on a tail queue *)

Inductive stailq_op :=
  | InsertHead (x : ptr) | InsertTail (x : ptr) | InsertAfter (y x : ptr) | RemoveHead | Remove (x : ptr).

Definition run_stailq (fuel : nat) (hd : addr) (field : string) (op : stailq_op) : M mem unit :=
  match op with
  | InsertHead x => STAILQ_INSERT_HEAD hd (PTR x) field
  | InsertTail x => STAILQ_INSERT_TAIL hd (PTR x) field
  | InsertAfter y x => STAILQ_INSERT_AFTER hd (PTR y) (PTR x) field
  | RemoveHead => STAILQ_REMOVE_HEAD hd field
  | Remove x => STAILQ_REMOVE fuel hd (PTR x) field
  end.
Fixpoint run_stailqs (fuel : nat) (hd : addr) (field : string) (ops : list stailq_op) : M mem unit :=
  match ops with
  | [] => mret tt
  | op :: ops => _ ← run_stailq fuel hd field op; run_stailqs fuel hd field ops
  end.

(** The same on the sequence of the elements; [None] when an element inserted is already in the
    queue, or the one removed or inserted after is not. *)
Fixpoint insert_after (y x : ptr) (xs : list ptr) : option (list ptr) :=
  match xs with
  | [] => None
  | z :: xs => if decide (z = y) then Some (z :: x :: xs) else cons z <$> insert_after y x xs
  end.
Definition apply_stailq (xs : list ptr) (op : stailq_op) : option (list ptr) :=
  match op with
  | InsertHead x => if decide (x ∈ xs) then None else Some (x :: xs)
  | InsertTail x => if decide (x ∈ xs) then None else Some (xs ++ [x])
  | InsertAfter y x => if decide (x ∈ xs) then None else insert_after y x xs
  | RemoveHead => match xs with [] => None | _ :: xs => Some xs end
  | Remove x => if decide (x ∈ xs) then Some (filter (x ≠.) xs) else None
  end.
Definition apply_stailqs (xs : list ptr) (ops : list stailq_op) : option (list ptr) :=
  fold_left (λ o op, o ≫= λ xs, apply_stailq xs op) ops (Some xs).

(** The elements an operation puts into the queue. *)
Definition inserted (op : stailq_op) : list ptr :=
  match op with InsertHead x | InsertTail x | InsertAfter _ x => [x] | _ => [] end.

Lemma filter_all (P : ptr → Prop) `{!∀ x, Decision (P x)} xs : Forall P xs → filter P xs = xs.
Proof. induction 1; [done|]. by rewrite filter_cons_True, IHForall. Qed.
Lemma filter_ne_app (l l2 : list ptr) x : NoDup (l ++ x :: l2) → filter (x ≠.) (l ++ x :: l2) = (l ++ l2).
Proof.
  intros (H1 & H2 & [H3 H4]%NoDup_cons)%NoDup_app. rewrite filter_app, filter_cons_False by naive_solver.
  rewrite !filter_all; [done|..]; apply Forall_forall; intros y Hy ->; [done|]. apply (H2 y Hy). left.
Qed.
Lemma insert_after_Some y x xs xs' :
  insert_after y x xs = Some xs' → ∃ l l2, xs = l ++ y :: l2 ∧ xs' = l ++ y :: x :: l2.
Proof.
  revert xs'. induction xs as [|z xs IH]; cbn; intros xs'; [done|]. case_decide as Hz.
  - intros [= <-]. subst. by exists [], xs.
  - destruct (insert_after y x xs) as [l'|]; [|done]. intros [= <-].
    destruct (IH _ eq_refl) as (l & l2 & -> & ->). by exists (z :: l), l2.
Qed.

(** One operation, within any set of fields that has those of the queue before and after it. *)
Lemma run_stailq_spec fuel hd field xs xs' op m :
  stailq_rep field hd xs m → apply_stailq xs op = Some xs' → (length xs ≤ fuel)%nat →
  (∀ x, x ∈ inserted op → is_Some (cell m (x, [field; "stqe_next"]))) →
  wp (run_stailq fuel hd field op)
    (λ _ m', stailq_rep field hd xs' m' ∧ touches (stailq_cells field hd (inserted op ++ xs)) m m') m.
Proof.
  intros Hr Ha Hf Hi.
  assert (∀ zs m', (∀ x, x ∈ zs → x ∈ (inserted op ++ xs)) → touches (stailq_cells field hd zs) m m' →
    touches (stailq_cells field hd (inserted op ++ xs)) m m') as Hw.
  { intros zs m' Hz. apply touches_mono. intros b. rewrite !stailq_cells_elem. naive_solver. }
  destruct op as [x|x|y x| |x]; cbn in Ha, Hi; repeat case_decide; simplify_eq; cbn [run_stailq].
  - eapply wp_mono; [apply STAILQ_INSERT_HEAD_rep; [done..|apply Hi; left]|]. intros _ m' [??]. eauto.
  - eapply wp_mono; [apply STAILQ_INSERT_TAIL_rep; [done..|apply Hi; left]|]. intros _ m' [? T]. split; [done|].
    eapply Hw, T. clear. cbn. set_solver.
  - apply insert_after_Some in Ha as (l & l2 & -> & ->).
    eapply wp_mono; [apply STAILQ_INSERT_AFTER_rep; [done..|apply Hi; left]|].
    intros _ m' [R T]. split; [done|]. eapply Hw, T. clear. cbn. set_solver.
  - destruct xs as [|x xs]; simplify_eq. eapply wp_mono; [by eapply STAILQ_REMOVE_HEAD_rep|].
    intros _ m' [? T]. split; [done|]. eapply Hw, T. by intros ? ?%elem_of_nil.
  - apply list_elem_of_split in H as (l & l2 & ->). rewrite filter_ne_app by apply Hr.
    rewrite length_app in Hf. eapply wp_mono; [eapply STAILQ_REMOVE_rep; [done|lia]|].
    intros _ m' [? T]. split; [done|]. eapply Hw, T. cbn. clear. set_solver.
Qed.
Lemma apply_stailq_length xs op xs' : apply_stailq xs op = Some xs' → (length xs' ≤ S (length xs))%nat.
Proof.
  destruct op as [x|x|y x| |x]; cbn; repeat case_decide; intros Ha; simplify_eq; cbn; rewrite ?length_app; cbn; try lia.
  - apply insert_after_Some in Ha as (l & l2 & -> & ->). rewrite !length_app. cbn. lia.
  - destruct xs; simplify_eq. cbn. lia.
  - pose proof (length_filter (x ≠.) xs). lia.
Qed.
Lemma apply_stailq_elem xs op xs' x : apply_stailq xs op = Some xs' → x ∈ xs' → x ∈ (inserted op ++ xs).
Proof.
  destruct op as [y|y|z y| |y]; cbn; repeat case_decide; intros Ha; simplify_eq; try (clear; set_solver).
  - apply insert_after_Some in Ha as (l & l2 & -> & ->). clear. set_solver.
  - destruct xs; simplify_eq. intros. by right.
  - intros [_ ?]%list_elem_of_filter. done.
Qed.

Lemma run_stailqs_spec fuel hd field ops xs xs' m :
  stailq_rep field hd xs m → apply_stailqs xs ops = Some xs' → (length xs + length ops ≤ fuel)%nat →
  (∀ x, x ∈ flat_map inserted ops → is_Some (cell m (x, [field; "stqe_next"]))) →
  wp (run_stailqs fuel hd field ops)
    (λ _ m', stailq_rep field hd xs' m' ∧ touches (stailq_cells field hd (flat_map inserted ops ++ xs)) m m') m.
Proof.
  revert xs m. induction ops as [|op ops IH]; intros xs m Hr Ha Hf Hi; cbn [run_stailqs].
  { injection Ha as <-. wp_simpl. split; [done|apply touches_refl]. }
  unfold apply_stailqs in Ha. cbn in Ha, Hf, Hi. destruct (apply_stailq xs op) as [ys|] eqn:E; cycle 1.
  { exfalso. clear -Ha. induction ops as [|o ops IH]; cbn in Ha; [done|auto]. }
  wp_call (eapply run_stailq_spec; [done|exact E|lia|intros x Hx; apply Hi; by apply elem_of_app; left]).
  intros _ m1 [R1 T1]. pose proof (apply_stailq_length _ _ _ E). eapply wp_mono; [eapply IH; [done|exact Ha|lia|]|].
  { intros x Hx. apply (t_def _ _ _ T1), Hi. by apply elem_of_app; right. }
  intros _ m2 [R2 T2]. split; [done|]. pose proof (λ x, apply_stailq_elem _ _ _ x E) as He.
  eapply touches_trans; (eapply touches_mono; [|eassumption]); intros b; rewrite !stailq_cells_elem; cbn; set_solver.
Qed.

(** ** Properties *)

(** C35: The tail queue of queue.h implements a sequence: any sequence of insertions at the head,
    at the tail or after an element and of removals at the head or of an element, that is
    meaningful for the sequence, runs without a fault, leaves the sequence it computes in memory
    ([stqh_last] holding the address of the last link), walks in that order, and writes to
    nothing but the links; removing an element that is not queued dereferences NULL. *)
Theorem stailq_refines fuel hd field ops xs xs' m :
  stailq_rep field hd xs m → apply_stailqs xs ops = Some xs' → (length xs + length ops ≤ fuel)%nat →
  (∀ x, x ∈ flat_map inserted ops → is_Some (cell m (x, [field; "stqe_next"]))) →
  ∃ m', run_stailqs fuel hd field ops m = Ret (tt, m') ∧ stailq_rep field hd xs' m' ∧
    touches (stailq_cells field hd (flat_map inserted ops ++ xs)) m m' ∧
    (∀ p, STAILQ_FOREACH (length xs') hd field (λ v, mret (match v with PTR x => p x | _ => false end)) m' =
          Ret (find_ptr p xs', m')) ∧
    (∀ x, x ∉ xs' → STAILQ_REMOVE (length xs') hd (PTR x) field m' = Fault NullDeref).
Proof.
  intros Hr Ha Hf Hi. pose proof (run_stailqs_spec _ _ _ _ _ _ _ Hr Ha Hf Hi) as ([] & m' & E & R & T)%wp_run.
  exists m'. split_and!; try done.
  - intros p. by apply STAILQ_FOREACH_rep.
  - intros x Hx. by eapply STAILQ_REMOVE_missing.
Qed.

(** Three requests queued, one of them cancelled in the middle. *)
Lemma stailq_refines_witness :
  let hd : addr := (1%positive, ["requests"]) in
  let req := OStruct {[["_next"; "stqe_next"] := UNDEF]} in
  let m := mkmem (list_to_map [(1%positive, OStruct (list_to_map [(["requests"; "stqh_first"], NULL);
                     (["requests"; "stqh_last"], ADDR (1%positive, ["requests"; "stqh_first"]))]));
                  (2%positive, req); (3%positive, req); (4%positive, req); (5%positive, req)]) 6 in
  let ops := [InsertTail 2; InsertTail 3; InsertTail 4; Remove 3; InsertAfter 4 5; RemoveHead; Remove 5] in
  ∃ m', run_stailqs 7 hd "_next" ops m = Ret (tt, m') ∧ stailq_rep "_next" hd [4%positive] m' ∧
        STAILQ_REMOVE 1 hd (PTR 3) "_next" m' = Fault NullDeref.
Proof.
  intros hd req m ops. destruct (stailq_refines 7 hd "_next" ops [] [4%positive] m) as (m' & E & R & _ & _ & Hm).
  - split; [constructor|vm_compute; reflexivity|vm_compute; reflexivity].
  - vm_compute. reflexivity.
  - cbn. lia.
  - intros x Hx. cbn in Hx. repeat (apply elem_of_cons in Hx as [->|Hx]; [vm_compute; by eexists|]).
    by apply elem_of_nil in Hx.
  - exists m'. split; [exact E|]. split; [exact R|]. apply (Hm 3%positive). intros Hx%list_elem_of_singleton. discriminate.
Defined.
