(* ===== verification/QueueRest.v ===== *)
(** * The other lists of include/tlsuv/queue.h

    Singly-linked lists ([SLIST]), simple queues ([SIMPLEQ]), tail queues ([TAILQ]) and circular
    queues ([CIRCLEQ]), over the memory of [CMem] as the lists of [Queue] are.  A simple queue is
    the tail queue [STAILQ] under other names, and its theorems are those of [STAILQ] under a
    renaming of fields.  The other lists are chains of fields; two lemmas say what an insertion
    into and a removal from a chain do, and the operations are instances of them. *)
From S2P Require Import Prelude CMem Queue.
From stdpp Require Import base list gmap numbers strings.
From Stdlib Require Import ZArith Lia.
Open Scope Z_scope.

Local Open Scope string_scope.
Local Open Scope list_scope.
Set Warnings "-clear-no-such-hyp".

(** ** Singly-linked lists *)

Definition SLIST_INIT (head : addr) : M mem unit := store (sub head "slh_first") NULL.
Definition SLIST_INSERT_AFTER (slistelm elm : cval) (field : string) : M mem unit :=
  sn ← fld slistelm [field; "sle_next"];
  en ← fld elm [field; "sle_next"];
  v ← load sn;
  _ ← store en v;
  store sn elm.
Definition SLIST_INSERT_HEAD (head : addr) (elm : cval) (field : string) : M mem unit :=
  en ← fld elm [field; "sle_next"];
  v ← load (sub head "slh_first");
  _ ← store en v;
  store (sub head "slh_first") elm.
Definition SLIST_REMOVE_HEAD (head : addr) (field : string) : M mem unit :=
  f ← load (sub head "slh_first");
  fn ← fld f [field; "sle_next"];
  v ← load fn;
  store (sub head "slh_first") v.
(** [while (curelm->next != elm) curelm = curelm->next] of the removals; [next] is the name of
    the field. *)
Fixpoint walk_to (next : string) (fuel : nat) (curelm elm : cval) (field : string) : M mem cval :=
  cn ← fld curelm [field; next];
  v ← load cn;
  if decide (v = elm) then mret curelm
  else match fuel with
       | O => fail_with OutOfFuel
       | S fuel => walk_to next fuel v elm field
       end.
Definition SLIST_REMOVE (fuel : nat) (head : addr) (elm : cval) (field : string) : M mem unit :=
  f ← load (sub head "slh_first");
  if decide (f = elm) then SLIST_REMOVE_HEAD head field
  else
    cur0 ← load (sub head "slh_first");
    curelm ← walk_to "sle_next" fuel cur0 elm field;
    cn ← fld curelm [field; "sle_next"];
    x ← load cn;
    xn ← fld x [field; "sle_next"];
    v ← load xn;
    store cn v.
Definition SLIST_EMPTY (head : addr) : M mem bool :=
  v ← load (sub head "slh_first"); mret (bool_decide (v = NULL)).
Definition SLIST_FIRST (head : addr) : M mem cval := load (sub head "slh_first").
Definition SLIST_NEXT (elm : cval) (field : string) : M mem cval :=
  a ← fld elm [field; "sle_next"]; load a.
Definition SLIST_FOREACH (fuel : nat) (head : addr) (field : string) (body : cval → M mem bool) : M mem cval :=
  v ← load (sub head "slh_first"); foreach fuel (λ x, SLIST_NEXT x field) body v.

(** ** Simple queues *)

Definition SIMPLEQ_INIT (head : addr) : M mem unit :=
  _ ← store (sub head "sqh_first") NULL;
  store (sub head "sqh_last") (ADDR (sub head "sqh_first")).
Definition SIMPLEQ_INSERT_HEAD (head : addr) (elm : cval) (field : string) : M mem unit :=
  en ← fld elm [field; "sqe_next"];
  v ← load (sub head "sqh_first");
  _ ← store en v;
  _ ← (if decide (v = NULL) then store (sub head "sqh_last") (ADDR en) else mret tt);
  store (sub head "sqh_first") elm.
Definition SIMPLEQ_INSERT_TAIL (head : addr) (elm : cval) (field : string) : M mem unit :=
  en ← fld elm [field; "sqe_next"];
  _ ← store en NULL;
  l ← load (sub head "sqh_last");
  a ← deref l;
  _ ← store a elm;
  store (sub head "sqh_last") (ADDR en).
Definition SIMPLEQ_INSERT_AFTER (head : addr) (listelm elm : cval) (field : string) : M mem unit :=
  ln ← fld listelm [field; "sqe_next"];
  en ← fld elm [field; "sqe_next"];
  v ← load ln;
  _ ← store en v;
  _ ← (if decide (v = NULL) then store (sub head "sqh_last") (ADDR en) else mret tt);
  store ln elm.
Definition SIMPLEQ_REMOVE_HEAD (head : addr) (field : string) : M mem unit :=
  f ← load (sub head "sqh_first");
  fn ← fld f [field; "sqe_next"];
  v ← load fn;
  _ ← store (sub head "sqh_first") v;
  if decide (v = NULL) then store (sub head "sqh_last") (ADDR (sub head "sqh_first")) else mret tt.
Definition SIMPLEQ_REMOVE (fuel : nat) (head : addr) (elm : cval) (field : string) : M mem unit :=
  f ← load (sub head "sqh_first");
  if decide (f = elm) then SIMPLEQ_REMOVE_HEAD head field
  else
    cur0 ← load (sub head "sqh_first");
    curelm ← walk_to "sqe_next" fuel cur0 elm field;
    cn ← fld curelm [field; "sqe_next"];
    x ← load cn;
    xn ← fld x [field; "sqe_next"];
    v ← load xn;
    _ ← store cn v;
    if decide (v = NULL) then store (sub head "sqh_last") (ADDR cn) else mret tt.
Definition SIMPLEQ_EMPTY (head : addr) : M mem bool :=
  v ← load (sub head "sqh_first"); mret (bool_decide (v = NULL)).
Definition SIMPLEQ_FIRST (head : addr) : M mem cval := load (sub head "sqh_first").
Definition SIMPLEQ_NEXT (elm : cval) (field : string) : M mem cval :=
  a ← fld elm [field; "sqe_next"]; load a.
Definition SIMPLEQ_FOREACH (fuel : nat) (head : addr) (field : string) (body : cval → M mem bool) : M mem cval :=
  v ← load (sub head "sqh_first"); foreach fuel (λ x, SIMPLEQ_NEXT x field) body v.

(** ** Tail queues *)

Definition TAILQ_INIT (head : addr) : M mem unit :=
  _ ← store (sub head "tqh_first") NULL;
  store (sub head "tqh_last") (ADDR (sub head "tqh_first")).
Definition TAILQ_INSERT_HEAD (head : addr) (elm : cval) (field : string) : M mem unit :=
  en ← fld elm [field; "tqe_next"];
  v ← load (sub head "tqh_first");
  _ ← store en v;
  _ ← (if decide (v ≠ NULL) then
         f ← load (sub head "tqh_first"); p ← fld f [field; "tqe_prev"]; store p (ADDR en)
       else store (sub head "tqh_last") (ADDR en));
  _ ← store (sub head "tqh_first") elm;
  ep ← fld elm [field; "tqe_prev"];
  store ep (ADDR (sub head "tqh_first")).
Definition TAILQ_INSERT_TAIL (head : addr) (elm : cval) (field : string) : M mem unit :=
  en ← fld elm [field; "tqe_next"];
  _ ← store en NULL;
  ep ← fld elm [field; "tqe_prev"];
  l ← load (sub head "tqh_last");
  _ ← store ep l;
  l ← load (sub head "tqh_last");
  a ← deref l;
  _ ← store a elm;
  store (sub head "tqh_last") (ADDR en).
Definition TAILQ_INSERT_AFTER (head : addr) (listelm elm : cval) (field : string) : M mem unit :=
  ln ← fld listelm [field; "tqe_next"];
  en ← fld elm [field; "tqe_next"];
  v ← load ln;
  _ ← store en v;
  _ ← (if decide (v ≠ NULL) then
         nx ← load en; p ← fld nx [field; "tqe_prev"]; store p (ADDR en)
       else store (sub head "tqh_last") (ADDR en));
  _ ← store ln elm;
  ep ← fld elm [field; "tqe_prev"];
  store ep (ADDR ln).
Definition TAILQ_INSERT_BEFORE (listelm elm : cval) (field : string) : M mem unit :=
  lp ← fld listelm [field; "tqe_prev"];
  ep ← fld elm [field; "tqe_prev"];
  v ← load lp;
  _ ← store ep v;
  en ← fld elm [field; "tqe_next"];
  _ ← store en listelm;
  pv ← load lp;
  a ← deref pv;
  _ ← store a elm;
  store lp (ADDR en).
Definition TAILQ_REMOVE (head : addr) (elm : cval) (field : string) : M mem unit :=
  en ← fld elm [field; "tqe_next"];
  ep ← fld elm [field; "tqe_prev"];
  v ← load en;
  _ ← (if decide (v ≠ NULL) then
         nx ← load en; p ← fld nx [field; "tqe_prev"]; pv ← load ep; store p pv
       else pv ← load ep; store (sub head "tqh_last") pv);
  pv ← load ep;
  a ← deref pv;
  v ← load en;
  store a v.
Definition TAILQ_EMPTY (head : addr) : M mem bool :=
  v ← load (sub head "tqh_first"); mret (bool_decide (v = NULL)).
Definition TAILQ_FIRST (head : addr) : M mem cval := load (sub head "tqh_first").
Definition TAILQ_NEXT (elm : cval) (field : string) : M mem cval :=
  a ← fld elm [field; "tqe_next"]; load a.
Definition TAILQ_FOREACH (fuel : nat) (head : addr) (field : string) (body : cval → M mem bool) : M mem cval :=
  v ← load (sub head "tqh_first"); foreach fuel (λ x, TAILQ_NEXT x field) body v.
Definition TAILQ_CONCAT (head1 head2 : addr) (field : string) : M mem unit :=
  e ← TAILQ_EMPTY head2;
  if (e : bool) then mret tt
  else
    l1 ← load (sub head1 "tqh_last");
    a ← deref l1;
    f2 ← load (sub head2 "tqh_first");
    _ ← store a f2;
    f2 ← load (sub head2 "tqh_first");
    p ← fld f2 [field; "tqe_prev"];
    l1 ← load (sub head1 "tqh_last");
    _ ← store p l1;
    l2 ← load (sub head2 "tqh_last");
    _ ← store (sub head1 "tqh_last") l2;
    TAILQ_INIT head2.

(** [((struct headname * )a)->tqh_last]: a head and an entry are two pointers each, so that the
    address of the first of an entry is taken for a head. *)
Definition pair_last (a : addr) : M mem addr :=
  match last a.2 with
  | Some f => if decide (f = "tqh_first") then mret (a.1, removelast a.2 ++ ["tqh_last"])
              else if decide (f = "tqe_next") then mret (a.1, removelast a.2 ++ ["tqe_prev"])
              else fail_with BadCast
  | None => fail_with BadCast
  end.
(** [( *(((struct headname * )(v))->tqh_last))] *)
Definition via_pair (v : cval) : M mem cval :=
  a ← deref v; b ← pair_last a; w ← load b; c ← deref w; load c.
Definition TAILQ_LAST (head : addr) : M mem cval := v ← load (sub head "tqh_last"); via_pair v.
Definition TAILQ_PREV (elm : cval) (field : string) : M mem cval :=
  a ← fld elm [field; "tqe_prev"]; v ← load a; via_pair v.
Definition TAILQ_FOREACH_REVERSE (fuel : nat) (head : addr) (field : string) (body : cval → M mem bool) : M mem cval :=
  v ← TAILQ_LAST head; foreach fuel (λ x, TAILQ_PREV x field) body v.

(** ** Circular queues *)

Definition CIRCLEQ_INIT (head : addr) : M mem unit :=
  _ ← store (sub head "cqh_first") (ADDR head);
  store (sub head "cqh_last") (ADDR head).
Definition CIRCLEQ_INSERT_AFTER (head : addr) (listelm elm : cval) (field : string) : M mem unit :=
  ln ← fld listelm [field; "cqe_next"];
  en ← fld elm [field; "cqe_next"];
  v ← load ln;
  _ ← store en v;
  ep ← fld elm [field; "cqe_prev"];
  _ ← store ep listelm;
  v ← load ln;
  _ ← (if decide (v = ADDR head) then store (sub head "cqh_last") elm
       else nx ← load ln; p ← fld nx [field; "cqe_prev"]; store p elm);
  store ln elm.
Definition CIRCLEQ_INSERT_BEFORE (head : addr) (listelm elm : cval) (field : string) : M mem unit :=
  lp ← fld listelm [field; "cqe_prev"];
  en ← fld elm [field; "cqe_next"];
  _ ← store en listelm;
  ep ← fld elm [field; "cqe_prev"];
  v ← load lp;
  _ ← store ep v;
  v ← load lp;
  _ ← (if decide (v = ADDR head) then store (sub head "cqh_first") elm
       else pv ← load lp; p ← fld pv [field; "cqe_next"]; store p elm);
  store lp elm.
Definition CIRCLEQ_INSERT_HEAD (head : addr) (elm : cval) (field : string) : M mem unit :=
  en ← fld elm [field; "cqe_next"];
  v ← load (sub head "cqh_first");
  _ ← store en v;
  ep ← fld elm [field; "cqe_prev"];
  _ ← store ep (ADDR head);
  l ← load (sub head "cqh_last");
  _ ← (if decide (l = ADDR head) then store (sub head "cqh_last") elm
       else f ← load (sub head "cqh_first"); p ← fld f [field; "cqe_prev"]; store p elm);
  store (sub head "cqh_first") elm.
Definition CIRCLEQ_INSERT_TAIL (head : addr) (elm : cval) (field : string) : M mem unit :=
  en ← fld elm [field; "cqe_next"];
  _ ← store en (ADDR head);
  ep ← fld elm [field; "cqe_prev"];
  v ← load (sub head "cqh_last");
  _ ← store ep v;
  f ← load (sub head "cqh_first");
  _ ← (if decide (f = ADDR head) then store (sub head "cqh_first") elm
       else l ← load (sub head "cqh_last"); p ← fld l [field; "cqe_next"]; store p elm);
  store (sub head "cqh_last") elm.
Definition CIRCLEQ_REMOVE (head : addr) (elm : cval) (field : string) : M mem unit :=
  en ← fld elm [field; "cqe_next"];
  ep ← fld elm [field; "cqe_prev"];
  n ← load en;
  _ ← (if decide (n = ADDR head) then p ← load ep; store (sub head "cqh_last") p
       else nx ← load en; a ← fld nx [field; "cqe_prev"]; p ← load ep; store a p);
  p ← load ep;
  if decide (p = ADDR head) then n ← load en; store (sub head "cqh_first") n
  else pv ← load ep; a ← fld pv [field; "cqe_next"]; n ← load en; store a n.
(** [for (var = first; var != (const void * )(head); var = next(var))] *)
Fixpoint foreach_ring (fuel : nat) (head : addr) (next : cval → M mem cval) (body : cval → M mem bool) (var : cval)
  : M mem cval :=
  if decide (var = ADDR head) then mret var
  else match fuel with
       | O => fail_with OutOfFuel
       | S fuel => brk ← body var;
                   if (brk : bool) then mret var else v ← next var; foreach_ring fuel head next body v
       end.
Definition CIRCLEQ_EMPTY (head : addr) : M mem bool :=
  v ← load (sub head "cqh_first"); mret (bool_decide (v = ADDR head)).
Definition CIRCLEQ_FIRST (head : addr) : M mem cval := load (sub head "cqh_first").
Definition CIRCLEQ_LAST (head : addr) : M mem cval := load (sub head "cqh_last").
Definition CIRCLEQ_NEXT (elm : cval) (field : string) : M mem cval :=
  a ← fld elm [field; "cqe_next"]; load a.
Definition CIRCLEQ_PREV (elm : cval) (field : string) : M mem cval :=
  a ← fld elm [field; "cqe_prev"]; load a.
Definition CIRCLEQ_FOREACH (fuel : nat) (head : addr) (field : string) (body : cval → M mem bool) : M mem cval :=
  v ← CIRCLEQ_FIRST head; foreach_ring fuel head (λ x, CIRCLEQ_NEXT x field) body v.
Definition CIRCLEQ_FOREACH_REVERSE (fuel : nat) (head : addr) (field : string) (body : cval → M mem bool) : M mem cval :=
  v ← CIRCLEQ_LAST head; foreach_ring fuel head (λ x, CIRCLEQ_PREV x field) body v.
Definition CIRCLEQ_LOOP_NEXT (head : addr) (elm : cval) (field : string) : M mem cval :=
  n ← CIRCLEQ_NEXT elm field;
  if decide (n = ADDR head) then CIRCLEQ_FIRST head else CIRCLEQ_NEXT elm field.
Definition CIRCLEQ_LOOP_PREV (head : addr) (elm : cval) (field : string) : M mem cval :=
  p ← CIRCLEQ_PREV elm field;
  if decide (p = ADDR head) then CIRCLEQ_LAST head else CIRCLEQ_PREV elm field.

(** ** Chains of fields

    [linked e m a xs]: the field [a] holds the first of [xs], and so on to the value [e]. *)

Lemma sub_fld hd f x field g : f ≠ g → sub hd f ≠ (x, [field; g]).
Proof. intros Hfg H. by apply (sub_inj hd f (x, [field]) g) in H. Qed.
Lemma sub_sub hd hd' f g : f ≠ g → sub hd f ≠ sub hd' g.
Proof. by intros ? ?%sub_inj. Qed.

Section linked.
Context (nf : list string) (e : cval).
Implicit Types (m : mem) (a b : addr) (x y z : ptr) (xs l r : list ptr).

Definition linked m a xs : Prop := chain nf m a xs ∧ cell m (slot nf a xs) = Some e.
(** What the field before [r] holds. *)
Definition head_or r : cval := match r with [] => e | x :: _ => PTR x end.
(** The fields of the chain that hold elements of it. *)
Definition holds a xs b : Prop := b = a ∨ ∃ y, y ∈ xs ∧ b = (y, nf).

Lemma chain_app m a l r : chain nf m a (l ++ r) ↔ chain nf m a l ∧ chain nf m (slot nf a l) r.
Proof. revert a. induction l as [|y l IH]; intros a; cbn; [tauto|]. rewrite IH. tauto. Qed.
Lemma linked_app m a l r : linked m a (l ++ r) ↔ chain nf m a l ∧ linked m (slot nf a l) r.
Proof. unfold linked. rewrite chain_app, slot_app. tauto. Qed.
Lemma linked_cons m a x r : linked m a (x :: r) ↔ cell m a = Some (PTR x) ∧ linked m (x, nf) r.
Proof. unfold linked. cbn. tauto. Qed.
Lemma linked_head m a r : linked m a r → cell m a = Some (head_or r).
Proof. destruct r; intros [H1 H2]; [done|by destruct H1]. Qed.
Lemma linked_at m a l r : linked m a (l ++ r) → cell m (slot nf a l) = Some (head_or r).
Proof. intros [_ H]%linked_app. by apply linked_head. Qed.

(** The rest of a chain, after another field. *)
Lemma linked_move m m' a b r : linked m a r → cell m' b = cell m a → (∀ z, z ∈ r → cell m' (z, nf) = cell m (z, nf)) → linked m' b r.
Proof.
  revert a b. induction r as [|x r IH]; intros a b [H1 H2] Hb Hr; [split; [done|]; cbn in *; by rewrite Hb|].
  apply linked_cons. destruct H1 as [H0 H1]. split; [by rewrite Hb|]. apply (IH (x, nf)); [by split|apply Hr; left|].
  intros z Hz. apply Hr. by right.
Qed.
Lemma slot_ne a l b : b ≠ a → (∀ y, y ∈ l → b ≠ (y, nf)) → slot nf a l ≠ b.
Proof. intros Ha Hl. destruct (slot_in nf a l) as [->|(y & Hy & ->)]; [done|]. intros <-. by eapply Hl. Qed.

Context (a : addr) (Ha : ∀ y, a ≠ (y, nf)).
Lemma slot_next l z : z ∉ l → slot nf a l ≠ (z, nf).
Proof. intros Hz. apply slot_ne; [by apply not_eq_sym|]. by intros y Hy [= ->]. Qed.

(** Two parts of a chain, of which only the field after the first has changed, with the second
    part after another field. *)
Lemma linked_parts m m' l r c b : NoDup (l ++ r) → chain nf m a l → linked m c r →
  (∀ d, holds a (l ++ r) d → d ≠ slot nf a l → cell m' d = cell m d) → cell m' b = Some (head_or r) →
  chain nf m' a l ∧ linked m' b r.
Proof.
  intros (Hd & Hlr & _)%NoDup_app H1 H2 Hag Hb. split.
  - apply chain_agree with m; [|done|intros (y & Hy & _)%list_elem_of_fmap; by apply Ha in Hy|done].
    intros d Hc Hs. apply Hag; [|done]. destruct Hc as [->|(y & Hy & ->)]; [by left|]. right. exists y. split; [apply elem_of_app; by left|done].
  - apply (linked_move m _ c); [done|by rewrite Hb, (linked_head _ _ _ H2)|]. intros z Hz. apply Hag.
    + right. exists z. split; [apply elem_of_app; by right|done].
    + apply not_eq_sym, slot_next. intros ?. by eapply Hlr.
Qed.
Lemma linked_insert m m' l r x : NoDup (l ++ r) → linked m a (l ++ r) →
  cell m' (slot nf a l) = Some (PTR x) → cell m' (x, nf) = Some (head_or r) →
  (∀ d, holds a (l ++ r) d → d ≠ slot nf a l → cell m' d = cell m d) → linked m' a (l ++ x :: r).
Proof.
  intros Hd [H1 H2]%linked_app Hs Hx Hag. destruct (linked_parts m m' l r _ (x, nf) Hd H1 H2) as [Hc Hr]; [done..|].
  apply linked_app. split; [done|]. by apply linked_cons.
Qed.
Lemma linked_remove m m' l r x : NoDup (l ++ r) → linked m a (l ++ x :: r) → cell m' (slot nf a l) = Some (head_or r) →
  (∀ d, holds a (l ++ r) d → d ≠ slot nf a l → cell m' d = cell m d) → linked m' a (l ++ r).
Proof.
  intros Hd [H1 [_ H2]%linked_cons]%linked_app Hs Hag. apply linked_app. by apply (linked_parts m m' l r (x, nf)).
Qed.
End linked.

(** Links back to the fields that hold the elements. *)
Section backs.
Context (nf pf : list string) (a : addr).
Implicit Types (m : mem) (x y z : ptr) (l r : list ptr).

Lemma backs_insert m m' l r x : backs nf pf m a (l ++ r) →
  cell m' (x, pf) = Some (ADDR (slot nf a l)) → (∀ y r', r = y :: r' → cell m' (y, pf) = Some (ADDR (x, nf))) →
  (∀ z, z ∈ l ∨ z ∈ tail r → cell m' (z, pf) = cell m (z, pf)) → backs nf pf m' a (l ++ x :: r).
Proof.
  intros [H1 H2]%backs_app Hx Hy Hag. apply backs_app. split; [apply backs_agree with m; auto|]. cbn. split; [done|].
  destruct r as [|y r]; [done|]. destruct H2 as [_ H2]. split; [by eapply Hy|]. apply backs_agree with m; auto.
Qed.
Lemma backs_remove m m' l r x : backs nf pf m a (l ++ x :: r) →
  (∀ y r', r = y :: r' → cell m' (y, pf) = Some (ADDR (slot nf a l))) →
  (∀ z, z ∈ l ∨ z ∈ tail r → cell m' (z, pf) = cell m (z, pf)) → backs nf pf m' a (l ++ r).
Proof.
  intros [H1 [_ H2]]%backs_app Hy Hag. apply backs_app. split; [apply backs_agree with m; auto|].
  destruct r as [|y r]; [done|]. destruct H2 as [_ H2]. split; [by eapply Hy|]. apply backs_agree with m; auto.
Qed.
End backs.

(** Addresses that differ, and fields read through writes to others. *)
Ltac ne_step :=
  first [ done | congruence
        | apply sub_fld; done | apply sub_sub; done
        | match goal with
          | N : ∀ w, w ∉ _ → _ ≠ (w, _) |- _ => apply N; assumption
          | N : ∀ w, _ ≠ (w, _) |- _ => apply N
          | N : ∀ w, w ∈ _ → ?u ≠ w |- (?u, _) ≠ (?w, _) => intros [= ->]; by eapply N
          end ].
Ltac ne := first [ ne_step | apply not_eq_sym; ne_step ].
Ltac fields := repeat first [ erewrite cell_set_eq by (fields; done) | rewrite cell_set_ne by ne ].

Lemma NoDup_insert (l r : list ptr) x : NoDup (l ++ r) → x ∉ (l ++ r) → NoDup (l ++ x :: r).
Proof. intros H Hx. by rewrite <-Permutation_middle, NoDup_cons. Qed.
Lemma snoc_app (l r : list ptr) y : l ++ y :: r = (l ++ [y]) ++ r.
Proof. by rewrite <-app_assoc. Qed.
Lemma NoDup_middle (l r : list ptr) x : NoDup (l ++ x :: r) → (x ∉ l ++ r) ∧ NoDup (l ++ r).
Proof. by rewrite <-Permutation_middle, NoDup_cons. Qed.

Lemma linked_seg nf m a xs : linked nf NULL m a xs ↔ seg nf m a xs.
Proof. rewrite <-(app_nil_r xs) at 2. by rewrite seg_app. Qed.

(** The walk of the removals stops at the element before the one removed. *)
Lemma walk_to_spec next field fuel a l y x r m : linked [field; next] NULL m a (l ++ y :: x :: r) → x ∉ (l ++ [y]) → (length l ≤ fuel)%nat →
  walk_to next fuel (head_or NULL (l ++ y :: x :: r)) (PTR x) field m = Ret (PTR y, m).
Proof.
  revert a fuel. induction l as [|z l IH]; intros a fuel [_ Hs]%linked_cons Hx Hl; destruct fuel as [|fuel]; cbn in Hl; try lia; cbn [app head_or] in *;
    cbn [walk_to fld]; unfold mbind, M_bind, mret, M_ret; rewrite (next_reads _ _ _ (linked_head _ _ _ _ _ Hs)) by (first [done|by destruct l]).
  1-2: cbn [head_or]; by rewrite decide_True.
  apply not_elem_of_cons in Hx as [Hxz Hx]. rewrite decide_False; [by eapply IH; eauto with lia|]. destruct l; cbn in Hx |- *; intros [= ->]; set_solver.
Qed.

(** ** Singly-linked lists *)

Section slist.
Context (field : string).
Implicit Types (m : mem) (hd : addr) (x y : ptr) (xs l r : list ptr).
Abbreviation nxt := [field; "sle_next"].

Record slist_rep hd xs m : Prop := { sl_nodup : NoDup xs; sl_linked : linked nxt NULL m (sub hd "slh_first") xs }.
Definition slist_cells hd xs : list addr := sub hd "slh_first" :: map (λ x, (x, nxt)) xs.

Lemma slist_first_ne hd y : sub hd "slh_first" ≠ (y, nxt).
Proof. ne. Qed.
Lemma slot_slist hd l r : slot nxt (sub hd "slh_first") l ∈ slist_cells hd (l ++ r).
Proof.
  unfold slist_cells. rewrite elem_of_cons, list_elem_of_fmap. destruct (slot_in nxt (sub hd "slh_first") l) as [->|(y & Hy & ->)]; [by left|].
  right. exists y. split; [done|]. apply elem_of_app. by left.
Qed.

(** An element put after [l], and taken out after [l]. *)
Lemma slist_put hd l r x m : slist_rep hd (l ++ r) m → x ∉ (l ++ r) → is_Some (cell m (x, nxt)) →
  let a := slot nxt (sub hd "slh_first") l in let m' := set_cell (set_cell m (x, nxt) (head_or NULL r)) a (PTR x) in
  slist_rep hd (l ++ x :: r) m' ∧ touches (slist_cells hd (l ++ x :: r)) m m'.
Proof.
  intros [Hd Hl] Hx [v Hv] a m'. pose proof (linked_at _ _ _ _ _ _ Hl) as Ha. fold a in Ha.
  assert (a ≠ (x, nxt)) as Hax by (apply slot_next; [apply slist_first_ne|clear -Hx; set_solver]).
  split; [split; [by apply NoDup_insert|]|].
  - apply (linked_insert _ _ _ (slist_first_ne hd) m); fold a; unfold m'; [done|done|fields; done|fields; done|].
    by intros d [->|(y & Hy & ->)] Hda; fields.
  - unfold m'. eapply touches_trans; apply touches_set; [|apply slot_slist]. right. apply list_elem_of_fmap. exists x. split; [done|]. clear. set_solver.
Qed.
Lemma slist_take hd l r x m : slist_rep hd (l ++ x :: r) m →
  let a := slot nxt (sub hd "slh_first") l in let m' := set_cell m a (head_or NULL r) in
  cell m a = Some (PTR x) ∧ cell m (x, nxt) = Some (head_or NULL r) ∧
  slist_rep hd (l ++ r) m' ∧ touches (slist_cells hd (l ++ r)) m m'.
Proof.
  intros [Hd Hl] a m'. pose proof (linked_at _ _ _ _ _ _ Hl) as Ha. fold a in Ha. apply NoDup_middle in Hd as [Hx Hd].
  split; [done|]. split; [apply linked_app in Hl as [_ [_ Hr]%linked_cons]; by apply linked_head in Hr|]. split; [split; [done|]|].
  - apply (linked_remove _ _ _ (slist_first_ne hd) m _ _ _ x); fold a; unfold m'; [done|done|fields; done|]. intros d _ Hda. fields. done.
  - apply touches_set, slot_slist.
Qed.

Lemma SLIST_INIT_rep hd m : is_Some (cell m (sub hd "slh_first")) →
  wp (SLIST_INIT hd) (λ _ m', slist_rep hd [] m' ∧ touches (slist_cells hd []) m m') m.
Proof.
  intros [v Hv]. eapply wp_store; [done|]. split; [split; [constructor|split; [done|by eapply cell_set_eq]]|by apply touches_set; left].
Qed.
Lemma SLIST_INSERT_HEAD_rep hd x xs m : slist_rep hd xs m → x ∉ xs → is_Some (cell m (x, nxt)) →
  wp (SLIST_INSERT_HEAD hd (PTR x) field) (λ _ m', slist_rep hd (x :: xs) m' ∧ touches (slist_cells hd (x :: xs)) m m') m.
Proof.
  intros Hr Hx Hn. destruct (slist_put hd [] xs x m Hr Hx Hn) as [H1 H2]. pose proof (linked_head _ _ _ _ _ (sl_linked _ _ _ Hr)) as Hf.
  destruct Hn as [v Hv]. unfold SLIST_INSERT_HEAD. wp_simpl. eapply wp_load; [done|by destruct xs|]. wp_simpl.
  eapply wp_store; [done|]. wp_simpl. by eapply wp_store; [fields|].
Qed.
Lemma SLIST_INSERT_AFTER_rep hd l x y r m : slist_rep hd (l ++ y :: r) m → x ∉ (l ++ y :: r) → is_Some (cell m (x, nxt)) →
  wp (SLIST_INSERT_AFTER (PTR y) (PTR x) field)
    (λ _ m', slist_rep hd (l ++ y :: x :: r) m' ∧ touches (slist_cells hd (l ++ y :: x :: r)) m m') m.
Proof.
  intros Hr Hx Hn. rewrite (snoc_app l r) in Hr, Hx. rewrite (snoc_app l (x :: r)).
  destruct (slist_put hd (l ++ [y]) r x m Hr Hx Hn) as [H1 H2]. rewrite slot_app in H1, H2. cbn [slot] in H1, H2.
  pose proof (linked_at _ _ _ _ _ _ (sl_linked _ _ _ Hr)) as Hf. rewrite slot_app in Hf. cbn [slot] in Hf. destruct Hn as [v Hv].
  unfold SLIST_INSERT_AFTER. wp_simpl. eapply wp_load; [done|by destruct r|]. wp_simpl. eapply wp_store; [done|]. wp_simpl.
  assert (x ≠ y) by (clear -Hx; set_solver). by eapply wp_store; [fields|].
Qed.
Lemma SLIST_REMOVE_HEAD_rep hd x xs m : slist_rep hd (x :: xs) m →
  wp (SLIST_REMOVE_HEAD hd field) (λ _ m', slist_rep hd xs m' ∧ touches (slist_cells hd xs) m m') m.
Proof.
  intros Hr. destruct (slist_take hd [] xs x m Hr) as (H1 & H2 & H3 & H4). unfold SLIST_REMOVE_HEAD. wp_simpl.
  eapply wp_load; [done|done|]. wp_simpl. eapply wp_load; [done|by destruct xs|]. by eapply wp_store.
Qed.
Lemma SLIST_REMOVE_rep hd l x r fuel m : slist_rep hd (l ++ x :: r) m → (length l ≤ fuel)%nat →
  wp (SLIST_REMOVE fuel hd (PTR x) field) (λ _ m', slist_rep hd (l ++ r) m' ∧ touches (slist_cells hd (l ++ r)) m m') m.
Proof.
  intros Hr Hl. unfold SLIST_REMOVE. wp_simpl. pose proof (linked_head _ _ _ _ _ (sl_linked _ _ _ Hr)) as Hf.
  eapply wp_load; [exact Hf|by destruct l|]. wp_simpl. destruct l as [|z l _] using rev_ind.
  { rewrite decide_True by done. by eapply SLIST_REMOVE_HEAD_rep. }
  pose proof (NoDup_middle _ _ _ (sl_nodup _ _ _ Hr)) as [Hx _]. destruct (slist_take hd (l ++ [z]) r x m Hr) as (H1 & H2 & H3 & H4).
  rewrite slot_app in H1, H3, H4. cbn [slot] in H1, H3, H4. rewrite length_app in Hl. cbn [length] in Hl.
  rewrite <-app_assoc in Hr, Hf. cbn [app] in Hr, Hf. rewrite <-app_assoc. cbn [app].
  rewrite decide_False by (destruct l; cbn in Hx |- *; intros [= ->]; clear -Hx; set_solver). wp_simpl.
  eapply wp_load; [exact Hf|by destruct l|]. wp_simpl. unfold wp at 1.
  erewrite walk_to_spec; [|apply Hr|clear -Hx; set_solver|lia]. wp_simpl.
  eapply wp_load; [done|done|]. wp_simpl. eapply wp_load; [done|by destruct r|]. by eapply wp_store.
Qed.
Lemma SLIST_FOREACH_rep hd xs body p fuel m : slist_rep hd xs m → (length xs ≤ fuel)%nat → (∀ x, x ∈ xs → body (PTR x) m = Ret (p x, m)) →
  SLIST_FOREACH fuel hd field body m = Ret (find_ptr p xs, m).
Proof.
  intros [_ Hs%linked_seg] Hf Hb. unfold SLIST_FOREACH, mbind, M_bind. rewrite (next_reads _ (first_of xs)); [|by eapply seg_first|by destruct xs].
  eapply foreach_seg; eauto. intros x v. cbn. apply next_reads.
Qed.
End slist.

(** ** Simple queues: the same as tail queues, under other names

    [ren] exchanges the names; code that does the same under the other names [follows]. *)

Definition ren (s : string) : string :=
  if decide (s = "sqh_first") then "stqh_first" else if decide (s = "stqh_first") then "sqh_first"
  else if decide (s = "sqh_last") then "stqh_last" else if decide (s = "stqh_last") then "sqh_last"
  else if decide (s = "sqe_next") then "stqe_next" else if decide (s = "stqe_next") then "sqe_next" else s.
Definition ren_addr (a : addr) : addr := (a.1, map ren a.2).
Definition ren_val (v : cval) : cval := match v with ADDR a => ADDR (ren_addr a) | v => v end.
Definition ren_obj (o : obj) : obj :=
  match o with OStruct fs => OStruct (kmap (map ren) (ren_val <$> fs)) | OBuf b => OBuf b end.
Definition ren_mem (m : mem) : mem := mkmem (ren_obj <$> objs m) (brk m).
Definition ren_out {A} (f : A → A) (o : outcome (A * mem)) : outcome (A * mem) :=
  match o with Ret (x, m) => Ret (f x, ren_mem m) | Fault e => Fault e end.
Definition follows {A} (f : A → A) (c c' : M mem A) : Prop := ∀ m, c' (ren_mem m) = ren_out f (c m).

Lemma ren_ren s : ren (ren s) = s.
Proof. unfold ren. repeat case_decide; congruence. Qed.
Lemma map_ren_ren l : map ren (map ren l) = l.
Proof. rewrite map_map. rewrite <-(map_id l) at 2. apply map_ext, ren_ren. Qed.
#[local] Instance map_ren_inj : Inj (=) (=) (map ren).
Proof. intros l l' H. by rewrite <-(map_ren_ren l), <-(map_ren_ren l'), H. Qed.
#[local] Instance ren_addr_inj : Inj (=) (=) ren_addr.
Proof. intros [p l] [p' l'] [= -> ?%(inj (map ren))]. by subst. Qed.
#[local] Instance ren_val_inj : Inj (=) (=) ren_val.
Proof. intros [] []; cbn; intros H; try congruence. f_equal. apply (inj ren_addr). congruence. Qed.
Lemma ren_sub a f : ren_addr (sub a f) = sub (ren_addr a) (ren f).
Proof. unfold ren_addr, sub. cbn. by rewrite map_app. Qed.

Lemma cell_ren m a : cell (ren_mem m) (ren_addr a) = ren_val <$> cell m a.
Proof.
  unfold cell. cbn. rewrite lookup_fmap. destruct (objs m !! a.1) as [[fs|]|]; [|done..]. cbn. by rewrite lookup_kmap, lookup_fmap by apply _.
Qed.
Lemma set_cell_ren m a v : set_cell (ren_mem m) (ren_addr a) (ren_val v) = ren_mem (set_cell m a v).
Proof.
  unfold set_cell. cbn. rewrite lookup_fmap. destruct (objs m !! a.1) as [[fs|]|]; [|done..]. cbn. unfold ren_mem. cbn.
  by rewrite fmap_insert, <-kmap_insert, <-fmap_insert by apply _.
Qed.
Lemma bad_access_ren m a : bad_access (ren_mem m) (ren_addr a) = bad_access m a.
Proof. unfold bad_access. cbn. rewrite lookup_fmap. by destruct (objs m !! a.1). Qed.

Lemma follows_ret {A} (f : A → A) x : follows f (mret x) (mret (f x)).
Proof. done. Qed.
Lemma follows_bind {A B} (f : A → A) (g : B → B) c c' k k' : follows f c c' → (∀ x, follows g (k x) (k' (f x))) →
  follows g (x ← c; k x) (x ← c'; k' x).
Proof. intros Hc Hk m. unfold mbind, M_bind. rewrite Hc. destruct (c m) as [[x m1]|]; [|done]. cbn. apply Hk. Qed.
Lemma follows_load a : follows ren_val (load a) (load (ren_addr a)).
Proof. intros m. unfold load. rewrite cell_ren, bad_access_ren. by destruct (cell m a) as [[]|]. Qed.
Lemma follows_store a v : follows id (store a v) (store (ren_addr a) (ren_val v)).
Proof. intros m. unfold store. rewrite cell_ren, bad_access_ren, set_cell_ren. by destruct (cell m a). Qed.
Lemma follows_fld v f : follows ren_addr (fld v f) (fld (ren_val v) (map ren f)).
Proof. intros m. by destruct v. Qed.
Lemma follows_deref v : follows ren_addr (deref v) (deref (ren_val v)).
Proof. intros m. by destruct v. Qed.
Lemma follows_if {A} (f : A → A) v w c1 c2 c1' c2' : follows f c1 c1' → follows f c2 c2' →
  follows f (if decide (v = w) then c1 else c2) (if decide (ren_val v = ren_val w) then c1' else c2').
Proof. intros H1 H2. destruct (decide (v = w)) as [->|Hn]; [by rewrite decide_True|]. rewrite decide_False by (by intros ?%(inj ren_val)). done. Qed.

Lemma ren_first hd : sub (ren_addr hd) "stqh_first" = ren_addr (sub hd "sqh_first").
Proof. by rewrite ren_sub. Qed.
Lemma ren_last hd : sub (ren_addr hd) "stqh_last" = ren_addr (sub hd "sqh_last").
Proof. by rewrite ren_sub. Qed.
Create HintDb follows.
Ltac follow :=
  rewrite ?ren_first, ?ren_last;
  repeat first
  [ solve [eauto 1 with follows nocore]
  | eapply follows_bind; [|intros ?; cbn beta]
  | eapply (follows_if _ _ NULL) | eapply (follows_if _ _ (PTR _)) | eapply follows_if
  | apply (follows_ret id) | apply follows_load | apply follows_deref
  | eapply (follows_fld _ [_; "sqe_next"]) | eapply (follows_fld (PTR _) [_; "sqe_next"])
  | apply (follows_store _ NULL) | apply (follows_store _ (ADDR _)) | apply (follows_store _ (PTR _)) | apply follows_store ].

Lemma walk_follows fuel cur elm field :
  follows ren_val (walk_to "sqe_next" fuel cur elm field) (find_before fuel (ren_val cur) (ren_val elm) (ren field)).
Proof.
  revert cur. induction fuel as [|fuel IH]; intros cur; cbn [walk_to find_before]; follow; try apply (follows_ret ren_val); done.
Qed.
Lemma walk_follows_ptr fuel cur x field :
  follows ren_val (walk_to "sqe_next" fuel cur (PTR x) field) (find_before fuel (ren_val cur) (PTR x) (ren field)).
Proof. apply (walk_follows fuel cur (PTR x)). Qed.
#[local] Hint Resolve walk_follows_ptr : follows.

(** The operations on a simple queue, of which [stailq_op] names one each. *)
Definition run_simpleq (fuel : nat) (hd : addr) (field : string) (op : stailq_op) : M mem unit :=
  match op with
  | InsertHead x => SIMPLEQ_INSERT_HEAD hd (PTR x) field
  | InsertTail x => SIMPLEQ_INSERT_TAIL hd (PTR x) field
  | InsertAfter y x => SIMPLEQ_INSERT_AFTER hd (PTR y) (PTR x) field
  | RemoveHead => SIMPLEQ_REMOVE_HEAD hd field
  | Remove x => SIMPLEQ_REMOVE fuel hd (PTR x) field
  end.
Fixpoint run_simpleqs (fuel : nat) (hd : addr) (field : string) (ops : list stailq_op) : M mem unit :=
  match ops with
  | [] => mret tt
  | op :: ops => _ ← run_simpleq fuel hd field op; run_simpleqs fuel hd field ops
  end.
Lemma SIMPLEQ_REMOVE_HEAD_follows hd field :
  follows id (SIMPLEQ_REMOVE_HEAD hd field) (STAILQ_REMOVE_HEAD (ren_addr hd) (ren field)).
Proof. unfold SIMPLEQ_REMOVE_HEAD, STAILQ_REMOVE_HEAD. follow. Qed.
#[local] Hint Resolve SIMPLEQ_REMOVE_HEAD_follows : follows.
Lemma run_simpleq_follows fuel hd field op :
  follows id (run_simpleq fuel hd field op) (run_stailq fuel (ren_addr hd) (ren field) op).
Proof.
  destruct op; cbn [run_simpleq run_stailq]; try apply SIMPLEQ_REMOVE_HEAD_follows;
    unfold SIMPLEQ_INSERT_HEAD, STAILQ_INSERT_HEAD, SIMPLEQ_INSERT_TAIL, STAILQ_INSERT_TAIL, SIMPLEQ_INSERT_AFTER, STAILQ_INSERT_AFTER, SIMPLEQ_REMOVE, STAILQ_REMOVE.
  all: follow.
Qed.
Lemma run_simpleqs_follows fuel hd field ops :
  follows id (run_simpleqs fuel hd field ops) (run_stailqs fuel (ren_addr hd) (ren field) ops).
Proof.
  induction ops as [|op ops IH]; cbn [run_simpleqs run_stailqs]; [done|]. eapply follows_bind; [apply run_simpleq_follows|done].
Qed.

Record simpleq_rep (field : string) (hd : addr) (xs : list ptr) (m : mem) : Prop := {
  siq_nodup : NoDup xs;
  siq_linked : linked [field; "sqe_next"] NULL m (sub hd "sqh_first") xs;
  siq_last : cell m (sub hd "sqh_last") = Some (ADDR (slot [field; "sqe_next"] (sub hd "sqh_first") xs))
}.
Definition simpleq_cells (field : string) (hd : addr) (xs : list ptr) : list addr :=
  sub hd "sqh_first" :: sub hd "sqh_last" :: map (λ x, (x, [field; "sqe_next"])) xs.

Lemma slot_ren nf a xs : slot (map ren nf) (ren_addr a) xs = ren_addr (slot nf a xs).
Proof. revert a. induction xs as [|x xs IH]; intros a; [done|]. apply (IH (x, nf)). Qed.
Lemma cell_ren_Some m a v : cell (ren_mem m) (ren_addr a) = Some (ren_val v) ↔ cell m a = Some v.
Proof. rewrite cell_ren. destruct (cell m a) as [w|]; cbn; [|done]. split; [|congruence]. by intros [= ->%(inj ren_val)]. Qed.
Lemma seg_ren nf m a xs : seg (map ren nf) (ren_mem m) (ren_addr a) xs ↔ seg nf m a xs.
Proof.
  revert a. induction xs as [|x xs IH]; intros a; cbn [seg]; [apply (cell_ren_Some _ _ NULL)|].
  rewrite (cell_ren_Some _ _ (PTR x)). f_equiv. apply (IH (x, nf)).
Qed.
Lemma simpleq_rep_ren field hd xs m : stailq_rep (ren field) (ren_addr hd) xs (ren_mem m) ↔ simpleq_rep field hd xs m.
Proof.
  pose proof (seg_ren [field; "sqe_next"] m (sub hd "sqh_first") xs) as Hs. rewrite ren_sub, <-(linked_seg [field; "sqe_next"] m) in Hs.
  pose proof (cell_ren_Some m (sub hd "sqh_last") (ADDR (slot [field; "sqe_next"] (sub hd "sqh_first") xs))) as Hl.
  cbn [ren_val] in Hl. rewrite <-slot_ren, !ren_sub in Hl.
  split; intros [A B C]; (split; [done|by apply Hs|by apply Hl]).
Qed.
Lemma simpleq_cells_ren field hd xs : stailq_cells (ren field) (ren_addr hd) xs = map ren_addr (simpleq_cells field hd xs).
Proof. unfold stailq_cells, simpleq_cells. cbn [map]. rewrite !ren_sub, map_map. done. Qed.
Lemma touches_ren bs m m' : touches (map ren_addr bs) (ren_mem m) (ren_mem m') → touches bs m m'.
Proof.
  intros [A B C D E]. assert (∀ m b, is_Some (cell (ren_mem m) (ren_addr b)) ↔ is_Some (cell m b)) as Hc
    by (intros m1 b; rewrite cell_ren; apply fmap_is_Some).
  assert (∀ m p, is_Some (objs (ren_mem m) !! p) ↔ is_Some (objs m !! p)) as Hl by (intros m1 p; cbn; rewrite lookup_fmap; apply fmap_is_Some).
  assert (∀ m p, buf_at (ren_mem m) p = buf_at m p) as Hb by (intros m1 p; unfold buf_at; cbn; rewrite lookup_fmap; by destruct (objs m1 !! p) as [[]|]).
  split; [|intros b Hs; apply (Hc m'), B, (Hc m), Hs|intros p; rewrite <-(Hb m), <-(Hb m'); apply C|intros p; rewrite <-(Hl m), <-(Hl m'); apply D|exact E].
  intros b Hn. specialize (A (ren_addr b)). rewrite !cell_ren in A. apply (inj (fmap ren_val)), A.
  intros (b' & <-%(inj ren_addr) & ?)%list_elem_of_fmap. done.
Qed.

(** A simple queue implements a sequence, as a tail queue does ([stailq_refines]). *)
Theorem simpleq_refines fuel hd field ops xs xs' m :
  simpleq_rep field hd xs m → apply_stailqs xs ops = Some xs' → (length xs + length ops ≤ fuel)%nat →
  (∀ x, x ∈ flat_map inserted ops → is_Some (cell m (x, [field; "sqe_next"]))) →
  ∃ m', run_simpleqs fuel hd field ops m = Ret (tt, m') ∧ simpleq_rep field hd xs' m' ∧
    touches (simpleq_cells field hd (flat_map inserted ops ++ xs)) m m' ∧
    ∀ p, SIMPLEQ_FOREACH (length xs') hd field (λ v, mret (match v with PTR x => p x | _ => false end)) m' = Ret (find_ptr p xs', m').
Proof.
  intros Hr Ha Hf Hi. pose proof (run_stailqs_spec fuel (ren_addr hd) (ren field) ops xs xs' (ren_mem m)) as Hs.
  apply wp_run in Hs as ([] & m1 & E & R & T); [|by apply simpleq_rep_ren|done|done|].
  2: { intros x Hx%Hi. pose proof (cell_ren m (x, [field; "sqe_next"])) as Hc. cbn in Hc. unfold ren_addr in Hc. cbn in Hc.
       change (ren "sqe_next") with "stqe_next" in Hc. rewrite Hc. by apply fmap_is_Some. }
  rewrite run_simpleqs_follows in E. destruct (run_simpleqs fuel hd field ops m) as [[[] m']|] eqn:Hrun; [|done]. injection E as <-.
  rewrite simpleq_cells_ren in T. apply touches_ren in T. apply simpleq_rep_ren in R.
  exists m'. split_and!; try done. intros p. destruct R as [_ Hl%linked_seg _]. unfold SIMPLEQ_FOREACH, mbind, M_bind.
  rewrite (next_reads _ (first_of xs')); [|by eapply seg_first|by destruct xs']. eapply foreach_seg; [done|done| |done].
  intros x v. cbn. apply next_reads.
Qed.

(** ** Tail queues *)

Section tailq.
Context (field : string).
Implicit Types (m : mem) (hd : addr) (x y z : ptr) (xs l r : list ptr).
Abbreviation tnx := [field; "tqe_next"].
Abbreviation tpv := [field; "tqe_prev"].
Abbreviation tfirst hd := (sub hd "tqh_first").
Abbreviation tlast hd := (sub hd "tqh_last").

Record tailq_rep hd xs m : Prop := {
  tq_nodup : NoDup xs;
  tq_linked : linked tnx NULL m (tfirst hd) xs;
  tq_backs : backs tnx tpv m (tfirst hd) xs;
  tq_last : cell m (tlast hd) = Some (ADDR (slot tnx (tfirst hd) xs))
}.
Definition tailq_cells hd xs : list addr := tfirst hd :: tlast hd :: flat_map (λ x, [(x, tnx); (x, tpv)]) xs.
(** The field that holds the address of the field before [r]. *)
Definition back_cell hd r : addr := match r with [] => tlast hd | y :: _ => (y, tpv) end.

Lemma tfirst_ne hd y : tfirst hd ≠ (y, tnx).
Proof. ne. Qed.
Lemma tailq_cells_elem hd xs b : b ∈ tailq_cells hd xs ↔ b = tfirst hd ∨ b = tlast hd ∨ ∃ x, x ∈ xs ∧ (b = (x, tnx) ∨ b = (x, tpv)).
Proof.
  unfold tailq_cells. rewrite !elem_of_cons, list_elem_of_In, in_flat_map. setoid_rewrite <-list_elem_of_In.
  setoid_rewrite elem_of_cons. setoid_rewrite list_elem_of_singleton. done.
Qed.
Lemma tslot_elem hd l r : slot tnx (tfirst hd) l ∈ tailq_cells hd (l ++ r).
Proof.
  apply tailq_cells_elem. destruct (slot_in tnx (tfirst hd) l) as [->|(y & Hy & ->)]; [by left|].
  right; right. exists y. split; [apply elem_of_app|]; by left.
Qed.
Lemma tslot_last hd hd' l : slot tnx (tfirst hd) l ≠ tlast hd'.
Proof. destruct (slot_in tnx (tfirst hd) l) as [->|(y & Hy & ->)]; ne. Qed.
Lemma tslot_prev hd l w : slot tnx (tfirst hd) l ≠ (w, tpv).
Proof. destruct (slot_in tnx (tfirst hd) l) as [->|(y & Hy & ->)]; ne. Qed.

(** A queue as what is before a place in it and what is after. *)
Lemma tailq_back hd l r m : tailq_rep hd (l ++ r) m → cell m (back_cell hd r) = Some (ADDR (slot tnx (tfirst hd) l)).
Proof.
  intros [_ _ B C]. destruct r as [|y r]; cbn [back_cell]; [by rewrite app_nil_r in C|]. by apply backs_app in B as [_ [B _]].
Qed.
Lemma elem_of_tail z r : z ∈ tail r → z ∈ r.
Proof. destruct r; [done|by right]. Qed.

(** An element put after [l], in any order of the writes it takes. *)
Lemma tailq_put hd l r x m m' : tailq_rep hd (l ++ r) m → x ∉ (l ++ r) → let a := slot tnx (tfirst hd) l in
  cell m' a = Some (PTR x) → cell m' (x, tnx) = Some (head_or NULL r) → cell m' (x, tpv) = Some (ADDR a) →
  cell m' (back_cell hd r) = Some (ADDR (x, tnx)) →
  (∀ d, d ≠ a → d ≠ (x, tnx) → d ≠ (x, tpv) → d ≠ back_cell hd r → cell m' d = cell m d) → tailq_rep hd (l ++ x :: r) m'.
Proof.
  intros [A B C D] Hx a H1 H2 H3 H4 Hag. assert (∀ d, d ≠ (x, tpv) → (∃ y, d = (y, tpv)) → d ≠ back_cell hd r → cell m' d = cell m d) as Hp.
  { intros d Hd [y ->] Hr. apply Hag; [apply not_eq_sym, tslot_prev|done..]. }
  pose proof (NoDup_app l r) as [(Hl & Hlr & Hr) _]; [done|]. split.
  - by apply NoDup_insert.
  - apply (linked_insert _ _ _ (tfirst_ne hd) m); [done..|]. intros d Hd Hda.
    apply Hag; [done|..]; destruct Hd as [->|(y & Hy & ->)]; try ne; destruct r; ne.
  - apply (backs_insert _ _ _ m); [done|done|by intros y r' ->|]. intros z Hz. apply Hp; [|by exists z|].
    + intros [= ->]. apply Hx, elem_of_app. destruct Hz as [Hz|Hz]; [by left|right]. by apply elem_of_tail.
    + destruct r as [|y r]; [ne|]. intros [= ->]. apply NoDup_cons in Hr as [Hy _]. destruct Hz as [Hz|Hz]; [|done]. apply (Hlr _ Hz). by left.
  - rewrite slot_app. cbn [slot]. destruct r as [|y r]; [done|]. cbn [slot]. rewrite slot_app in D. cbn [slot] in D.
    rewrite Hag; [done|..]; try ne. apply not_eq_sym, tslot_last.
Qed.
(** The element after [l] taken out. *)
Lemma tailq_take hd l r x m m' : tailq_rep hd (l ++ x :: r) m → let a := slot tnx (tfirst hd) l in
  cell m' a = Some (head_or NULL r) → cell m' (back_cell hd r) = Some (ADDR a) →
  (∀ d, d ≠ a → d ≠ back_cell hd r → cell m' d = cell m d) → tailq_rep hd (l ++ r) m'.
Proof.
  intros [A B C D] a H1 H2 Hag. apply NoDup_middle in A as [Hx A]. pose proof (NoDup_app l r) as [(Hl & Hlr & Hr) _]; [done|]. split.
  - done.
  - apply (linked_remove _ _ _ (tfirst_ne hd) m _ _ _ x); [done..|]. intros d Hd Hda. apply Hag; [done|].
    destruct Hd as [->|(y & Hy & ->)]; destruct r; ne.
  - apply (backs_remove _ _ _ m _ _ _ x); [done|by intros y r' ->|]. intros z Hz. apply Hag; [apply not_eq_sym, tslot_prev|].
    destruct r as [|y r]; [ne|]. intros [= ->]. apply NoDup_cons in Hr as [Hy _]. destruct Hz as [Hz|Hz]; [|done]. apply (Hlr _ Hz). by left.
  - rewrite slot_app. destruct r as [|y r]; [done|]. cbn [slot]. rewrite slot_app in D. cbn [slot] in D.
    rewrite Hag; [done|..]; try ne. apply not_eq_sym, tslot_last.
Qed.
(** The fields of the element after [l]. *)
Lemma tailq_at hd l r x m : tailq_rep hd (l ++ x :: r) m → let a := slot tnx (tfirst hd) l in
  cell m a = Some (PTR x) ∧ cell m (x, tnx) = Some (head_or NULL r) ∧ cell m (x, tpv) = Some (ADDR a) ∧
  cell m (back_cell hd r) = Some (ADDR (x, tnx)).
Proof.
  intros Hr a. pose proof (tailq_back hd l (x :: r) m Hr) as H1. rewrite (snoc_app l r) in Hr. pose proof (tailq_back hd (l ++ [x]) r m Hr) as H2.
  rewrite slot_app in H2. destruct Hr as [_ B _ _]. rewrite <-snoc_app in B. apply linked_app in B as [_ [B1 B2%linked_head]%linked_cons]. done.
Qed.
End tailq.

Ltac telem :=
  first [ apply tslot_elem
        | apply tailq_cells_elem; first [ by left | by right; left
            | right; right; eexists; split; [|by left]; clear; set_solver | right; right; eexists; split; [|by right]; clear; set_solver ] ].
Ltac ttouch := repeat (eapply touches_trans; [|apply touches_set; telem]); apply touches_refl.
(** Distinct elements of a queue, and those of a place in it. *)
Ltac tdistinct :=
  repeat match goal with
  | H : _ ∉ _ ++ _ |- _ => apply not_elem_of_app in H as [? ?]
  | H : _ ∉ _ :: _ |- _ => apply not_elem_of_cons in H as [? ?]
  end.
Ltac tnotin := rewrite ?not_elem_of_app, ?not_elem_of_cons; split_and?; first [done|by apply not_elem_of_nil].
(** The goals of [tailq_put] and [tailq_take]. *)
Ltac tq_done := intros; fields; try done.

Lemma TAILQ_INIT_rep field hd m : is_Some (cell m (sub hd "tqh_first")) → is_Some (cell m (sub hd "tqh_last")) →
  wp (TAILQ_INIT hd) (λ _ m', tailq_rep field hd [] m' ∧ touches (tailq_cells field hd []) m m') m.
Proof.
  intros [v Hv] [w Hw]. unfold TAILQ_INIT. wp_simpl. eapply wp_store; [done|]. wp_simpl. eapply wp_store; [fields; done|].
  split; [|ttouch]. split; [constructor|split; [done|cbn; fields; done]|done|cbn; fields; done].
Qed.
Lemma TAILQ_INSERT_HEAD_rep field hd x xs m :
  tailq_rep field hd xs m → x ∉ xs → is_Some (cell m (x, [field; "tqe_next"])) → is_Some (cell m (x, [field; "tqe_prev"])) →
  wp (TAILQ_INSERT_HEAD hd (PTR x) field) (λ _ m', tailq_rep field hd (x :: xs) m' ∧ touches (tailq_cells field hd (x :: xs)) m m') m.
Proof.
  intros Hr Hx [v Hv] [w Hw]. pose proof (linked_head _ _ _ _ _ (tq_linked _ _ _ _ Hr)) as Hf. pose proof (tailq_back _ _ [] _ _ Hr) as Hb.
  unfold TAILQ_INSERT_HEAD. wp_simpl. eapply wp_load; [done|by destruct xs|]. wp_simpl. eapply wp_store; [done|]. wp_simpl.
  destruct xs as [|y xs]; cbn [head_or back_cell] in *; tdistinct.
  - rewrite decide_False by (intros []; done). eapply wp_store; [fields; done|]. wp_simpl. eapply wp_store; [fields; done|]. wp_simpl.
    eapply wp_store; [fields; done|]. split; [|ttouch]. apply (tailq_put field hd [] [] x m); [done|by apply not_elem_of_nil|cbn; tq_done..].
  - rewrite decide_True by done. wp_simpl. eapply wp_load; [fields; done|done|]. wp_simpl. eapply wp_store; [fields; done|]. wp_simpl.
    eapply wp_store; [fields; done|]. wp_simpl. eapply wp_store; [fields; done|]. split; [|ttouch].
    apply (tailq_put field hd [] (y :: xs) x m); [done|by apply not_elem_of_cons|cbn; tq_done..].
Qed.
Lemma TAILQ_INSERT_TAIL_rep field hd x xs m :
  tailq_rep field hd xs m → x ∉ xs → is_Some (cell m (x, [field; "tqe_next"])) → is_Some (cell m (x, [field; "tqe_prev"])) →
  wp (TAILQ_INSERT_TAIL hd (PTR x) field) (λ _ m', tailq_rep field hd (xs ++ [x]) m' ∧ touches (tailq_cells field hd (xs ++ [x])) m m') m.
Proof.
  intros Hr Hx [v Hv] [w Hw]. pose proof (tq_last _ _ _ _ Hr) as Hb. rewrite <-(app_nil_r xs) in Hr. pose proof (linked_at _ _ _ _ _ _ (tq_linked _ _ _ _ Hr)) as Hf.
  pose proof (tslot_last field hd hd xs) as N1. pose proof (tslot_prev field hd xs) as N2. pose proof (slot_next _ _ (tfirst_ne field hd) xs) as N3.
  set (a := slot _ _ xs) in *. unfold TAILQ_INSERT_TAIL. wp_simpl. eapply wp_store; [done|]. wp_simpl. eapply wp_load; [fields; done|done|]. wp_simpl.
  eapply wp_store; [fields; done|]. wp_simpl. eapply wp_load; [fields; done|done|]. wp_simpl. eapply wp_store; [fields; done|]. wp_simpl.
  eapply wp_store; [fields; done|]. split; [|ttouch].
  apply (tailq_put field hd xs [] x m); [done|by rewrite app_nil_r|fold a; cbn; tq_done..].
Qed.
Lemma TAILQ_INSERT_AFTER_rep field hd l x y r m : tailq_rep field hd (l ++ x :: r) m → y ∉ (l ++ x :: r) →
  is_Some (cell m (y, [field; "tqe_next"])) → is_Some (cell m (y, [field; "tqe_prev"])) →
  wp (TAILQ_INSERT_AFTER hd (PTR x) (PTR y) field)
    (λ _ m', tailq_rep field hd (l ++ x :: y :: r) m' ∧ touches (tailq_cells field hd (l ++ x :: y :: r)) m m') m.
Proof.
  intros Hr Hy [v Hv] [w Hw]. destruct (tailq_at _ _ _ _ _ _ Hr) as (_ & Hf & _ & Hb). pose proof (tq_nodup _ _ _ _ Hr) as Hd.
  rewrite (snoc_app l r) in Hr. rewrite (snoc_app l (y :: r)).
  unfold TAILQ_INSERT_AFTER. wp_simpl. apply NoDup_app in Hd as (_ & _ & [Hxr _]%NoDup_cons). tdistinct.
  eapply wp_load; [done|by destruct r|]. wp_simpl. eapply wp_store; [done|]. wp_simpl. destruct r as [|z r]; cbn [head_or back_cell] in *; tdistinct.
  - rewrite decide_False by (intros []; done). eapply wp_store; [fields; done|]. wp_simpl. eapply wp_store; [fields; done|]. wp_simpl.
    eapply wp_store; [fields; done|]. split; [|ttouch]. apply (tailq_put field hd (l ++ [x]) [] y m); [done|tnotin|rewrite ?slot_app; cbn; tq_done..].
  - rewrite decide_True by done. wp_simpl. eapply wp_load; [fields; done|done|]. wp_simpl. eapply wp_store; [fields; done|]. wp_simpl.
    eapply wp_store; [fields; done|]. wp_simpl. eapply wp_store; [fields; done|]. split; [|ttouch].
    apply (tailq_put field hd (l ++ [x]) (z :: r) y m); [done|tnotin|rewrite ?slot_app; cbn; tq_done..].
Qed.
Lemma TAILQ_INSERT_BEFORE_rep field hd l x y r m : tailq_rep field hd (l ++ x :: r) m → y ∉ (l ++ x :: r) →
  is_Some (cell m (y, [field; "tqe_next"])) → is_Some (cell m (y, [field; "tqe_prev"])) →
  wp (TAILQ_INSERT_BEFORE (PTR x) (PTR y) field)
    (λ _ m', tailq_rep field hd (l ++ y :: x :: r) m' ∧ touches (tailq_cells field hd (l ++ y :: x :: r)) m m') m.
Proof.
  intros Hr Hy [v Hv] [w Hw]. destruct (tailq_at _ _ _ _ _ _ Hr) as (Hf & _ & Hb & _).
  pose proof (tslot_prev field hd l) as N2. pose proof (slot_next _ _ (tfirst_ne field hd) l) as N3.
  set (a := slot _ _ l) in *. tdistinct. unfold TAILQ_INSERT_BEFORE. wp_simpl.
  eapply wp_load; [done|done|]. wp_simpl. eapply wp_store; [done|]. wp_simpl. eapply wp_store; [fields; done|]. wp_simpl.
  eapply wp_load; [fields; done|done|]. wp_simpl. eapply wp_store; [fields; done|]. wp_simpl. eapply wp_store; [fields; done|].
  split; [|ttouch]. apply (tailq_put field hd l (x :: r) y m); [done|tnotin|fold a; cbn; tq_done..].
Qed.
Lemma TAILQ_REMOVE_rep field hd l x r m : tailq_rep field hd (l ++ x :: r) m →
  wp (TAILQ_REMOVE hd (PTR x) field) (λ _ m', tailq_rep field hd (l ++ r) m' ∧ touches (tailq_cells field hd (l ++ r)) m m') m.
Proof.
  intros Hr. destruct (tailq_at _ _ _ _ _ _ Hr) as (Hf & Hn & Hp & Hb). pose proof (NoDup_middle _ _ _ (tq_nodup _ _ _ _ Hr)) as [Hx _].
  pose proof (tslot_last field hd hd l) as N1. pose proof (tslot_prev field hd l) as N2. pose proof (slot_next _ _ (tfirst_ne field hd) l) as N3.
  set (a := slot _ _ l) in *. tdistinct. unfold TAILQ_REMOVE. wp_simpl. eapply wp_load; [done|by destruct r|]. wp_simpl.
  destruct r as [|z r]; cbn [head_or back_cell] in *; tdistinct.
  - rewrite decide_False by (intros []; done). wp_simpl. eapply wp_load; [done|done|]. wp_simpl. eapply wp_store; [done|]. wp_simpl.
    eapply wp_load; [fields; done|done|]. wp_simpl. eapply wp_load; [fields; done|done|]. eapply wp_store; [fields; done|].
    split; [|ttouch]. apply (tailq_take field hd l [] x m); [done|fold a; cbn; tq_done..].
  - rewrite decide_True by done. wp_simpl. eapply wp_load; [done|done|]. wp_simpl. eapply wp_load; [done|done|]. wp_simpl. eapply wp_store; [done|]. wp_simpl.
    eapply wp_load; [fields; done|done|]. wp_simpl. eapply wp_load; [fields; done|done|]. eapply wp_store; [fields; done|].
    split; [|ttouch]. apply (tailq_take field hd l (z :: r) x m); [done|fold a; cbn; tq_done..].
Qed.

(** ** Walking a tail queue, forwards and backwards *)

Definition last_of (xs : list ptr) : cval := match last xs with Some x => PTR x | None => NULL end.

Lemma TAILQ_EMPTY_rep field hd xs m : tailq_rep field hd xs m → TAILQ_EMPTY hd m = Ret (bool_decide (xs = []), m).
Proof.
  intros [_ Hl _ _]. unfold TAILQ_EMPTY, mbind, M_bind. rewrite (next_reads _ _ _ (linked_head _ _ _ _ _ Hl)) by (by destruct xs).
  unfold mret, M_ret. do 2 f_equal. apply bool_decide_ext. by destruct xs.
Qed.
Lemma TAILQ_FOREACH_rep field hd xs body p fuel m :
  tailq_rep field hd xs m → (length xs ≤ fuel)%nat → (∀ x, x ∈ xs → body (PTR x) m = Ret (p x, m)) →
  TAILQ_FOREACH fuel hd field body m = Ret (find_ptr p xs, m).
Proof.
  intros [_ Hl%linked_seg _ _] Hf Hb. unfold TAILQ_FOREACH, mbind, M_bind. rewrite (next_reads _ (first_of xs)); [|by eapply seg_first|by destruct xs].
  eapply foreach_seg; eauto. intros x v. cbn. apply next_reads.
Qed.

(** What is reached through the field before a place in the queue, taken for a head. *)
Lemma via_pair_rep field hd l r m : tailq_rep field hd (l ++ r) m →
  via_pair (ADDR (slot [field; "tqe_next"] (sub hd "tqh_first") l)) m = Ret (last_of l, m).
Proof.
  intros Hr. destruct l as [|z l _] using rev_ind.
  - cbn [slot last_of last]. unfold via_pair, mbind, M_bind. cbn [deref]. unfold mret, M_ret.
    assert (pair_last (sub hd "tqh_first") m = Ret (sub hd "tqh_last", m)) as ->.
    { unfold pair_last, sub. cbn [fst snd]. by rewrite last_snoc, removelast_last. }
    rewrite (next_reads _ _ _ (tq_last _ _ _ _ Hr)) by done. cbn. destruct Hr as [_ [_ H] _ _]. by apply next_reads.
  - unfold last_of. rewrite last_snoc, slot_app. cbn [slot]. rewrite <-snoc_app in Hr. destruct (tailq_at _ _ _ _ _ _ Hr) as (H1 & _ & H2 & _).
    unfold via_pair, mbind, M_bind. cbn [deref]. unfold mret, M_ret.
    assert (pair_last (z, [field; "tqe_next"]) m = Ret ((z, [field; "tqe_prev"]), m)) as -> by done.
    rewrite (next_reads _ _ _ H2) by done. cbn. by apply next_reads.
Qed.
Lemma TAILQ_LAST_rep field hd xs m : tailq_rep field hd xs m → TAILQ_LAST hd m = Ret (last_of xs, m).
Proof.
  intros Hr. unfold TAILQ_LAST, mbind, M_bind. rewrite (next_reads _ _ _ (tq_last _ _ _ _ Hr)) by done.
  apply (via_pair_rep field hd xs []). by rewrite app_nil_r.
Qed.
Lemma TAILQ_PREV_rep field hd l x r m : tailq_rep field hd (l ++ x :: r) m → TAILQ_PREV (PTR x) field m = Ret (last_of l, m).
Proof.
  intros Hr. destruct (tailq_at _ _ _ _ _ _ Hr) as (_ & _ & H & _). unfold TAILQ_PREV, mbind, M_bind. cbn [fld]. unfold mret, M_ret.
  rewrite (next_reads _ _ _ H) by done. by eapply via_pair_rep.
Qed.
Lemma foreach_back field hd body p fuel m l : ∀ r, tailq_rep field hd (l ++ r) m → (length l ≤ fuel)%nat →
  (∀ x, x ∈ l → body (PTR x) m = Ret (p x, m)) →
  foreach fuel (λ x, TAILQ_PREV x field) body (last_of l) m = Ret (find_ptr p (rev l), m).
Proof.
  revert fuel. induction l as [|z l IH] using rev_ind; intros fuel r Hr Hf Hb; [by destruct fuel|].
  rewrite length_app in Hf. cbn [length] in Hf. destruct fuel as [|fuel]; [lia|]. unfold last_of. rewrite last_snoc, rev_app_distr. cbn [rev app].
  rewrite find_ptr_cons. cbn [foreach]. rewrite decide_False by done. unfold mbind at 1, M_bind at 1. rewrite Hb by (apply elem_of_app; right; left).
  destruct (p z); [done|]. rewrite <-snoc_app in Hr. unfold mbind, M_bind. rewrite (TAILQ_PREV_rep _ _ _ _ _ _ Hr).
  apply (IH _ (z :: r)); [done|lia|]. intros x Hx. apply Hb, elem_of_app. by left.
Qed.
(** The backward walk visits the elements from the last to the first. *)
Lemma TAILQ_FOREACH_REVERSE_rep field hd xs body p fuel m :
  tailq_rep field hd xs m → (length xs ≤ fuel)%nat → (∀ x, x ∈ xs → body (PTR x) m = Ret (p x, m)) →
  TAILQ_FOREACH_REVERSE fuel hd field body m = Ret (find_ptr p (rev xs), m).
Proof.
  intros Hr Hf Hb. unfold TAILQ_FOREACH_REVERSE, mbind, M_bind. rewrite (TAILQ_LAST_rep _ _ _ _ Hr).
  apply (foreach_back field hd _ _ _ _ _ []); [by rewrite app_nil_r|done..].
Qed.

Lemma TAILQ_CONCAT_rep field hd1 hd2 xs1 xs2 m :
  hd1 ≠ hd2 → tailq_rep field hd1 xs1 m → tailq_rep field hd2 xs2 m → (∀ x, x ∈ xs1 → x ∉ xs2) →
  wp (TAILQ_CONCAT hd1 hd2 field) (λ _ m', tailq_rep field hd1 (xs1 ++ xs2) m' ∧ tailq_rep field hd2 [] m' ∧
    touches (tailq_cells field hd1 (xs1 ++ xs2) ++ tailq_cells field hd2 []) m m') m.
Proof.
  intros Hne H1 H2 Hd. unfold TAILQ_CONCAT. wp_simpl. unfold wp at 1. rewrite (TAILQ_EMPTY_rep _ _ _ _ H2). destruct xs2 as [|y ys].
  { rewrite bool_decide_eq_true_2 by done. rewrite app_nil_r. split_and!; [done..|apply touches_refl]. }
  rewrite bool_decide_eq_false_2 by done. assert (∀ f, sub hd1 f ≠ sub hd2 f) as Hs by (intros f ?%sub_inj2; done).
  pose proof (tslot_last field hd1 hd1 xs1) as N1. pose proof (tslot_last field hd1 hd2 xs1) as N2. pose proof (tslot_prev field hd1 xs1) as N3.
  pose proof (slot_next _ _ (tfirst_ne field hd1) xs1) as N4.
  assert (slot [field; "tqe_next"] (sub hd1 "tqh_first") xs1 ≠ sub hd2 "tqh_first") as N5 by (apply slot_ne; [by apply not_eq_sym|intros; ne]).
  destruct H1 as [A1 B1 C1 D1]. destruct H2 as [[Hy A2]%NoDup_cons [B2 B3]%linked_cons [C2 C3] D2]. cbn [slot] in D2.
  pose proof (proj2 B1) as E1. set (a := slot _ _ xs1) in *. pose proof (Hs "tqh_first") as Hs1. pose proof (Hs "tqh_last") as Hs2.
  wp_simpl. eapply wp_load; [done|done|]. wp_simpl. eapply wp_load; [done|done|]. wp_simpl. eapply wp_store; [done|]. wp_simpl.
  eapply wp_load; [fields; done|done|]. wp_simpl. eapply wp_load; [fields; done|done|]. wp_simpl. eapply wp_store; [fields; done|]. wp_simpl.
  eapply wp_load; [fields; done|done|]. wp_simpl. eapply wp_store; [fields; done|]. unfold TAILQ_INIT. wp_simpl.
  eapply wp_store; [fields; done|]. wp_simpl. eapply wp_store; [fields; done|].
  assert (y ∉ xs1) as Hy1 by (intros Hz; apply (Hd y Hz); left). assert (∀ z, z ∈ xs1 → z ≠ y) as Hz1 by (intros z Hz ->; apply (Hd y Hz); left). assert (∀ z, z ∈ ys → z ∉ xs1) as Hz2 by (intros z Hz Hz'; apply (Hd z Hz'); by right).
  split_and!.
  - split; [by apply NoDup_app; split_and!; [done|done|apply NoDup_cons]|..].
    + apply linked_app. split; [|apply linked_cons; split; [fold a; fields; done|]].
      * apply chain_agree with m; [|done|intros (z & Hz & _)%list_elem_of_fmap; by apply tfirst_ne in Hz|apply B1].
        intros b [->|(z & Hz & ->)] Hb; fold a in Hb; fields; done.
      * eapply linked_move; [exact B3|fields; done|]. intros z Hz. specialize (Hz2 z Hz). fields. done.
    + apply backs_app. split; [eapply backs_agree; [|exact C1]; intros z Hz; specialize (Hz1 z Hz); fields; done|]. cbn [backs]. fold a.
      split; [fields; done|]. eapply backs_agree; [|exact C3]. intros z Hz. assert (z ≠ y) by (by intros ->). fields. done.
    + rewrite slot_app. cbn [slot]. fields. done.
  - split; [constructor|split; [done|cbn; fields; done]|done|cbn; fields; done].
  - repeat (eapply touches_trans; [|apply touches_set, elem_of_app; first [left; telem|right; telem]]). apply touches_refl.
Qed.

(** ** Circular queues *)

Section circleq.
Context (field : string).
Implicit Types (m : mem) (hd : addr) (x y z : ptr) (xs l r : list ptr).
Abbreviation cnx := [field; "cqe_next"].
Abbreviation cpv := [field; "cqe_prev"].
Abbreviation cfirst hd := (sub hd "cqh_first").
Abbreviation clast hd := (sub hd "cqh_last").

(** A chain of the elements in order and one in the reverse order, both ending at the head. *)
Record circleq_rep hd xs m : Prop := {
  cq_nodup : NoDup xs;
  cq_next : linked cnx (ADDR hd) m (cfirst hd) xs;
  cq_prev : linked cpv (ADDR hd) m (clast hd) (rev xs)
}.
Definition circleq_cells hd xs : list addr := cfirst hd :: clast hd :: flat_map (λ x, [(x, cnx); (x, cpv)]) xs.
(** The fields before and after a place in the queue. *)
Definition fore_slot hd l : addr := slot cnx (cfirst hd) l.
Definition back_slot hd r : addr := slot cpv (clast hd) (rev r).

Lemma cfirst_ne hd y : cfirst hd ≠ (y, cnx).
Proof. ne. Qed.
Lemma clast_ne hd y : clast hd ≠ (y, cpv).
Proof. ne. Qed.
Lemma rev_place l r : rev (l ++ r) = rev r ++ rev l.
Proof. apply rev_app_distr. Qed.
Lemma rev_place_cons l x r : rev (l ++ x :: r) = rev r ++ x :: rev l.
Proof. rewrite rev_app_distr. cbn [rev]. by rewrite <-app_assoc. Qed.
Lemma NoDup_rev_place l r : NoDup (l ++ r) → NoDup (rev r ++ rev l).
Proof. rewrite <-rev_place. intros. by rewrite <-Permutation_rev. Qed.
Lemma elem_of_rev x l : x ∈ rev l ↔ x ∈ l.
Proof. by rewrite <-Permutation_rev. Qed.

Lemma circleq_cells_elem hd xs b : b ∈ circleq_cells hd xs ↔ b = cfirst hd ∨ b = clast hd ∨ ∃ x, x ∈ xs ∧ (b = (x, cnx) ∨ b = (x, cpv)).
Proof.
  unfold circleq_cells. rewrite !elem_of_cons, list_elem_of_In, in_flat_map. setoid_rewrite <-list_elem_of_In.
  setoid_rewrite elem_of_cons. setoid_rewrite list_elem_of_singleton. done.
Qed.
Lemma fore_slot_elem hd l r : fore_slot hd l ∈ circleq_cells hd (l ++ r).
Proof.
  apply circleq_cells_elem. unfold fore_slot. destruct (slot_in cnx (cfirst hd) l) as [->|(y & Hy & ->)]; [by left|].
  right; right. exists y. split; [apply elem_of_app|]; by left.
Qed.
Lemma back_slot_elem hd l r : back_slot hd r ∈ circleq_cells hd (l ++ r).
Proof.
  apply circleq_cells_elem. unfold back_slot. destruct (slot_in cpv (clast hd) (rev r)) as [->|(y & Hy & ->)]; [by right; left|].
  right; right. exists y. split; [|by right]. apply elem_of_app. right. by apply elem_of_rev.
Qed.
(** The two chains have no field in common. *)
Lemma fore_ne hd l : (∀ w, fore_slot hd l ≠ (w, cpv)) ∧ fore_slot hd l ≠ clast hd.
Proof. unfold fore_slot. destruct (slot_in cnx (cfirst hd) l) as [->|(y & Hy & ->)]; split; intros; ne. Qed.
Lemma back_ne hd r : (∀ w, back_slot hd r ≠ (w, cnx)) ∧ back_slot hd r ≠ cfirst hd.
Proof. unfold back_slot. destruct (slot_in cpv (clast hd) (rev r)) as [->|(y & Hy & ->)]; split; intros; ne. Qed.

Lemma circleq_at hd l r m : circleq_rep hd (l ++ r) m →
  cell m (fore_slot hd l) = Some (head_or (ADDR hd) r) ∧ cell m (back_slot hd r) = Some (head_or (ADDR hd) (rev l)).
Proof. intros [_ B C]. rewrite rev_place in C. split; by eapply linked_at. Qed.

(** An element put between [l] and [r], in any order of the writes it takes. *)
Lemma circleq_put hd l r x m m' : circleq_rep hd (l ++ r) m → x ∉ (l ++ r) →
  cell m' (fore_slot hd l) = Some (PTR x) → cell m' (x, cnx) = Some (head_or (ADDR hd) r) →
  cell m' (back_slot hd r) = Some (PTR x) → cell m' (x, cpv) = Some (head_or (ADDR hd) (rev l)) →
  (∀ d, d ≠ fore_slot hd l → d ≠ (x, cnx) → d ≠ back_slot hd r → d ≠ (x, cpv) → cell m' d = cell m d) → circleq_rep hd (l ++ x :: r) m'.
Proof.
  intros [A B C] Hx H1 H2 H3 H4 Hag. rewrite rev_place in C. destruct (fore_ne hd l) as [F1 F2], (back_ne hd r) as [G1 G2].
  split; [by apply NoDup_insert|..].
  - apply (linked_insert _ _ _ (cfirst_ne hd) m); [done..|]. intros d Hd Hda.
    apply Hag; [done|destruct Hd as [->|(y & Hy & ->)]; ne..].
  - rewrite rev_place_cons. apply (linked_insert _ _ _ (clast_ne hd) m); [by apply NoDup_rev_place|done..|]. intros d Hd Hda.
    assert (∀ y, y ∈ (rev r ++ rev l) → y ≠ x) as Hy by (intros y Hy ->; apply Hx; by rewrite <-rev_place, elem_of_rev in Hy).
    apply Hag; [destruct Hd as [->|(y & Hyy & ->)]; ne..|done|]. destruct Hd as [->|(y & Hyy & ->)]; [ne|]. intros [= ->]. by apply (Hy x).
Qed.
Lemma circleq_take hd l r x m m' : circleq_rep hd (l ++ x :: r) m →
  cell m' (fore_slot hd l) = Some (head_or (ADDR hd) r) → cell m' (back_slot hd r) = Some (head_or (ADDR hd) (rev l)) →
  (∀ d, d ≠ fore_slot hd l → d ≠ back_slot hd r → cell m' d = cell m d) → circleq_rep hd (l ++ r) m'.
Proof.
  intros [A B C] H1 H2 Hag. apply NoDup_middle in A as [Hx A]. rewrite rev_place_cons in C.
  destruct (fore_ne hd l) as [F1 F2], (back_ne hd r) as [G1 G2]. split; [done|..].
  - apply (linked_remove _ _ _ (cfirst_ne hd) m _ _ _ x); [done..|]. intros d Hd Hda. apply Hag; [done|destruct Hd as [->|(y & Hy & ->)]; ne..].
  - rewrite rev_place. apply (linked_remove _ _ _ (clast_ne hd) m _ _ _ x); [by apply NoDup_rev_place|done..|]. intros d Hd Hda.
    apply Hag; [destruct Hd as [->|(y & Hy & ->)]; ne|done].
Qed.
End circleq.
Lemma back_slot_cons field hd y r : back_slot field hd (y :: r) = (y, [field; "cqe_prev"]).
Proof. unfold back_slot. cbn [rev]. by rewrite slot_app. Qed.
Lemma fore_slot_snoc field hd l z : fore_slot field hd (l ++ [z]) = (z, [field; "cqe_next"]).
Proof. unfold fore_slot. by rewrite slot_app. Qed.
Lemma back_slot_nil field hd : back_slot field hd [] = sub hd "cqh_last".
Proof. done. Qed.
Lemma fore_slot_nil field hd : fore_slot field hd [] = sub hd "cqh_first".
Proof. done. Qed.

Ltac celem :=
  apply circleq_cells_elem; first [ by left | by right; left
    | right; right; eexists; split; [|by left]; clear; set_solver | right; right; eexists; split; [|by right]; clear; set_solver ].
Ltac ctouch := repeat (eapply touches_trans; [|apply touches_set; celem]); apply touches_refl.
(** The place of an operation as fields. *)
Ltac cplace := rewrite ?back_slot_cons, ?fore_slot_snoc, ?back_slot_nil, ?fore_slot_nil, ?rev_unit in *; cbn [head_or rev] in *.
Ltac cq_done := intros; cplace; fields; try done.

Lemma CIRCLEQ_INIT_rep field hd m : is_Some (cell m (sub hd "cqh_first")) → is_Some (cell m (sub hd "cqh_last")) →
  wp (CIRCLEQ_INIT hd) (λ _ m', circleq_rep field hd [] m' ∧ touches (circleq_cells field hd []) m m') m.
Proof.
  intros [v Hv] [w Hw]. unfold CIRCLEQ_INIT. wp_simpl. eapply wp_store; [done|]. wp_simpl. eapply wp_store; [fields; done|].
  split; [|ctouch]. split; [constructor|split; [done|cbn; fields; done]..].
Qed.
Lemma CIRCLEQ_INSERT_HEAD_rep field hd x xs m :
  circleq_rep field hd xs m → x ∉ xs → is_Some (cell m (x, [field; "cqe_next"])) → is_Some (cell m (x, [field; "cqe_prev"])) →
  wp (CIRCLEQ_INSERT_HEAD hd (PTR x) field) (λ _ m', circleq_rep field hd (x :: xs) m' ∧ touches (circleq_cells field hd (x :: xs)) m m') m.
Proof.
  intros Hr Hx [v Hv] [w Hw]. destruct (circleq_at field hd [] xs m Hr) as [Hf Hb]. pose proof (linked_head _ _ _ _ _ (cq_prev _ _ _ _ Hr)) as Hl.
  unfold CIRCLEQ_INSERT_HEAD. cplace. wp_simpl. eapply wp_load; [done|by destruct xs|]. wp_simpl. eapply wp_store; [done|]. wp_simpl. eapply wp_store; [fields; done|]. wp_simpl.
  eapply wp_load; [fields; done|by destruct (rev xs)|]. wp_simpl. destruct xs as [|y xs]; cplace; tdistinct.
  - rewrite decide_True by done. eapply wp_store; [fields; done|]. wp_simpl. eapply wp_store; [fields; done|]. split; [|ctouch].
    apply (circleq_put field hd [] [] x m); [done|tnotin|cq_done..].
  - rewrite decide_False by (by destruct (rev xs)). wp_simpl. eapply wp_load; [fields; done|done|]. wp_simpl. eapply wp_store; [fields; done|]. wp_simpl.
    eapply wp_store; [fields; done|]. split; [|ctouch]. apply (circleq_put field hd [] (y :: xs) x m); [done|tnotin|cq_done..].
Qed.
Lemma CIRCLEQ_INSERT_TAIL_rep field hd x xs m :
  circleq_rep field hd xs m → x ∉ xs → is_Some (cell m (x, [field; "cqe_next"])) → is_Some (cell m (x, [field; "cqe_prev"])) →
  wp (CIRCLEQ_INSERT_TAIL hd (PTR x) field) (λ _ m', circleq_rep field hd (xs ++ [x]) m' ∧ touches (circleq_cells field hd (xs ++ [x])) m m') m.
Proof.
  intros Hr Hx [v Hv] [w Hw]. pose proof (linked_head _ _ _ _ _ (cq_next _ _ _ _ Hr)) as Hf. rewrite <-(app_nil_r xs) in Hr.
  destruct (circleq_at field hd xs [] m Hr) as [Ha Hb]. unfold CIRCLEQ_INSERT_TAIL. rewrite back_slot_nil in Hb. wp_simpl.
  eapply wp_store; [done|]. wp_simpl. eapply wp_load; [fields; done|by destruct (rev xs)|]. wp_simpl. eapply wp_store; [fields; done|]. wp_simpl.
  eapply wp_load; [fields; done|by destruct xs|]. wp_simpl. destruct xs as [|z l _] using rev_ind; cplace; tdistinct.
  - rewrite decide_True by done. eapply wp_store; [fields; done|]. wp_simpl. eapply wp_store; [fields; done|]. split; [|ctouch].
    apply (circleq_put field hd [] [] x m); [done|tnotin|cq_done..].
  - rewrite decide_False by (by destruct l). wp_simpl. eapply wp_load; [fields; done|done|]. wp_simpl. eapply wp_store; [fields; done|]. wp_simpl.
    eapply wp_store; [fields; done|]. split; [|ctouch]. apply (circleq_put field hd (l ++ [z]) [] x m); [done|tnotin|cq_done..].
Qed.
Lemma CIRCLEQ_INSERT_AFTER_rep field hd l x y r m : circleq_rep field hd (l ++ x :: r) m → y ∉ (l ++ x :: r) →
  is_Some (cell m (y, [field; "cqe_next"])) → is_Some (cell m (y, [field; "cqe_prev"])) →
  wp (CIRCLEQ_INSERT_AFTER hd (PTR x) (PTR y) field)
    (λ _ m', circleq_rep field hd (l ++ x :: y :: r) m' ∧ touches (circleq_cells field hd (l ++ x :: y :: r)) m m') m.
Proof.
  intros Hr Hy [v Hv] [w Hw]. rewrite (snoc_app l r) in Hr, Hy. rewrite (snoc_app l (y :: r)). destruct (circleq_at field hd (l ++ [x]) r m Hr) as [Ha Hb].
  unfold CIRCLEQ_INSERT_AFTER. cplace. wp_simpl. tdistinct. eapply wp_load; [done|by destruct r|]. wp_simpl. eapply wp_store; [done|]. wp_simpl.
  eapply wp_store; [fields; done|]. wp_simpl. eapply wp_load; [fields; done|by destruct r|]. wp_simpl. destruct r as [|z r]; cplace; tdistinct.
  - rewrite decide_True by done. eapply wp_store; [fields; done|]. wp_simpl. eapply wp_store; [fields; done|]. split; [|ctouch].
    apply (circleq_put field hd (l ++ [x]) [] y m); [done|tnotin|cq_done..].
  - rewrite decide_False by done. wp_simpl. eapply wp_load; [fields; done|done|]. wp_simpl. eapply wp_store; [fields; done|]. wp_simpl.
    eapply wp_store; [fields; done|]. split; [|ctouch]. apply (circleq_put field hd (l ++ [x]) (z :: r) y m); [done|tnotin|cq_done..].
Qed.
Lemma CIRCLEQ_INSERT_BEFORE_rep field hd l x y r m : circleq_rep field hd (l ++ x :: r) m → y ∉ (l ++ x :: r) →
  is_Some (cell m (y, [field; "cqe_next"])) → is_Some (cell m (y, [field; "cqe_prev"])) →
  wp (CIRCLEQ_INSERT_BEFORE hd (PTR x) (PTR y) field)
    (λ _ m', circleq_rep field hd (l ++ y :: x :: r) m' ∧ touches (circleq_cells field hd (l ++ y :: x :: r)) m m') m.
Proof.
  intros Hr Hy [v Hv] [w Hw]. destruct (circleq_at field hd l (x :: r) m Hr) as [Ha Hb]. unfold CIRCLEQ_INSERT_BEFORE. rewrite back_slot_cons in Hb.
  wp_simpl. tdistinct. eapply wp_store; [done|]. wp_simpl. eapply wp_load; [fields; done|by destruct (rev l)|]. wp_simpl. eapply wp_store; [fields; done|]. wp_simpl.
  eapply wp_load; [fields; done|by destruct (rev l)|]. wp_simpl. destruct l as [|z l _] using rev_ind; cplace; tdistinct.
  - rewrite decide_True by done. eapply wp_store; [fields; done|]. wp_simpl. eapply wp_store; [fields; done|]. split; [|ctouch].
    apply (circleq_put field hd [] (x :: r) y m); [done|tnotin|cq_done..].
  - rewrite decide_False by done. wp_simpl. eapply wp_load; [fields; done|done|]. wp_simpl. eapply wp_store; [fields; done|]. wp_simpl.
    eapply wp_store; [fields; done|]. split; [|ctouch]. apply (circleq_put field hd (l ++ [z]) (x :: r) y m); [done|tnotin|cq_done..].
Qed.
Lemma CIRCLEQ_REMOVE_rep field hd l x r m : circleq_rep field hd (l ++ x :: r) m →
  wp (CIRCLEQ_REMOVE hd (PTR x) field) (λ _ m', circleq_rep field hd (l ++ r) m' ∧ touches (circleq_cells field hd (l ++ r)) m m') m.
Proof.
  intros Hr. pose proof (NoDup_middle _ _ _ (cq_nodup _ _ _ _ Hr)) as [Hx _]. destruct (circleq_at field hd l (x :: r) m Hr) as [Ha Hp].
  pose proof Hr as Hr2. rewrite (snoc_app l r) in Hr2. destruct (circleq_at field hd (l ++ [x]) r m Hr2) as [Hn Hb]. clear Hr2.
  unfold CIRCLEQ_REMOVE. rewrite back_slot_cons in Hp. rewrite fore_slot_snoc in Hn. wp_simpl. eapply wp_load; [done|by destruct r|]. wp_simpl.
  destruct r as [|z r]; destruct l as [|w l _] using rev_ind; cplace; tdistinct;
    repeat first [rewrite decide_True by done; wp_simpl | rewrite decide_False by done; wp_simpl
                 | eapply wp_load; [fields; done|done|]; wp_simpl | eapply wp_store; [fields; done|]; wp_simpl ];
    (split; [|ctouch]); (eapply (circleq_take field hd _ _ x m); [exact Hr|cq_done..]).
Qed.

(** The first element that satisfies [p], or the value [e] at the end. *)
Definition find_or (e : cval) (p : ptr → bool) (xs : list ptr) : cval :=
  match list_find (λ x, p x = true) xs with Some (_, x) => PTR x | None => e end.
Lemma find_or_cons e p x xs : find_or e p (x :: xs) = if p x then PTR x else find_or e p xs.
Proof.
  unfold find_or. cbn. destruct (decide (p x = true)) as [->|Hp]; [done|]. destruct (p x); [done|]. by destruct (list_find _ xs) as [[]|].
Qed.
Lemma foreach_ring_spec nf hd next body p fuel a xs m : linked nf (ADDR hd) m a xs → (length xs ≤ fuel)%nat →
  (∀ x v, cell m (x, nf) = Some v → v ≠ UNDEF → next (PTR x) m = Ret (v, m)) → (∀ x, x ∈ xs → body (PTR x) m = Ret (p x, m)) →
  foreach_ring fuel hd next body (head_or (ADDR hd) xs) m = Ret (find_or (ADDR hd) p xs, m).
Proof.
  revert a fuel. induction xs as [|x xs IH]; intros a fuel Hs Hl Hn Hb; cbn [head_or].
  { destruct fuel; cbn [foreach_ring]; by rewrite decide_True. }
  destruct fuel as [|fuel]; cbn in Hl; [lia|]. apply linked_cons in Hs as [_ Hs]. cbn [foreach_ring]. rewrite decide_False by done. unfold mbind, M_bind.
  rewrite Hb by left. rewrite find_or_cons. destruct (p x); [done|]. rewrite (Hn x (head_or (ADDR hd) xs)); [|by eapply linked_head|by destruct xs].
  eapply IH; [done|lia|done|]. intros y Hy. apply Hb. by right.
Qed.
Lemma CIRCLEQ_FOREACH_rep field hd xs body p fuel m :
  circleq_rep field hd xs m → (length xs ≤ fuel)%nat → (∀ x, x ∈ xs → body (PTR x) m = Ret (p x, m)) →
  CIRCLEQ_FOREACH fuel hd field body m = Ret (find_or (ADDR hd) p xs, m).
Proof.
  intros [_ H _] Hf Hb. unfold CIRCLEQ_FOREACH, CIRCLEQ_FIRST, mbind, M_bind. rewrite (next_reads _ _ _ (linked_head _ _ _ _ _ H)) by (by destruct xs).
  eapply foreach_ring_spec; [exact H|done| |done]. intros x v. cbn. apply next_reads.
Qed.
Lemma CIRCLEQ_FOREACH_REVERSE_rep field hd xs body p fuel m :
  circleq_rep field hd xs m → (length xs ≤ fuel)%nat → (∀ x, x ∈ xs → body (PTR x) m = Ret (p x, m)) →
  CIRCLEQ_FOREACH_REVERSE fuel hd field body m = Ret (find_or (ADDR hd) p (rev xs), m).
Proof.
  intros [_ _ H] Hf Hb. unfold CIRCLEQ_FOREACH_REVERSE, CIRCLEQ_LAST, mbind, M_bind. rewrite (next_reads _ _ _ (linked_head _ _ _ _ _ H)) by (by destruct (rev xs)).
  eapply foreach_ring_spec; [exact H|by rewrite length_rev| |intros x Hx; by apply Hb, elem_of_rev]. intros x v. cbn. apply next_reads.
Qed.

(** The neighbours of an element on the ring. *)
Lemma CIRCLEQ_LOOP_NEXT_rep field hd l x r m : circleq_rep field hd (l ++ x :: r) m →
  CIRCLEQ_LOOP_NEXT hd (PTR x) field m = Ret (head_or (ADDR hd) (r ++ l ++ [x]), m).
Proof.
  intros Hr. pose proof (linked_head _ _ _ _ _ (cq_next _ _ _ _ Hr)) as Hf. rewrite (snoc_app l r) in Hr. destruct (circleq_at _ _ _ _ _ Hr) as [Hn _].
  rewrite fore_slot_snoc in Hn. unfold CIRCLEQ_LOOP_NEXT, CIRCLEQ_NEXT, CIRCLEQ_FIRST, mbind, M_bind. cbn [fld]. unfold mret, M_ret.
  rewrite (next_reads _ _ _ Hn) by (by destruct r). destruct r as [|y r]; cbn [head_or app].
  - rewrite decide_True by done. by rewrite (next_reads _ _ _ Hf) by (by destruct l).
  - rewrite decide_False by done. by rewrite (next_reads _ _ _ Hn).
Qed.
Lemma CIRCLEQ_LOOP_PREV_rep field hd l x r m : circleq_rep field hd (l ++ x :: r) m →
  CIRCLEQ_LOOP_PREV hd (PTR x) field m = Ret (head_or (ADDR hd) (rev l ++ rev r ++ [x]), m).
Proof.
  intros Hr. pose proof (linked_head _ _ _ _ _ (cq_prev _ _ _ _ Hr)) as Hf. rewrite rev_place_cons in Hf. destruct (circleq_at _ _ _ _ _ Hr) as [_ Hp].
  rewrite back_slot_cons in Hp. unfold CIRCLEQ_LOOP_PREV, CIRCLEQ_PREV, CIRCLEQ_LAST, mbind, M_bind. cbn [fld]. unfold mret, M_ret.
  rewrite (next_reads _ _ _ Hp) by (by destruct (rev l)). destruct (rev l) as [|y l']; cbn [head_or app] in *.
  - rewrite decide_True by done. by rewrite (next_reads _ _ _ Hf) by (by destruct (rev r)).
  - rewrite decide_False by done. by rewrite (next_reads _ _ _ Hp).
Qed.

(** ** Double-ended queues

    What a tail queue and a circular queue promise: the operations of a sequence of elements,
    and a walk in both directions. *)

Inductive deque_op :=
  | PushHead (x : ptr) | PushTail (x : ptr) | PutAfter (y x : ptr) | PutBefore (y x : ptr) | TakeOut (x : ptr).
Definition dq_put (op : deque_op) : list ptr :=
  match op with PushHead x | PushTail x | PutAfter _ x | PutBefore _ x => [x] | TakeOut _ => [] end.
Fixpoint insert_before (y x : ptr) (xs : list ptr) : option (list ptr) :=
  match xs with
  | [] => None
  | z :: xs => if decide (z = y) then Some (x :: z :: xs) else cons z <$> insert_before y x xs
  end.
Definition apply_deque (xs : list ptr) (op : deque_op) : option (list ptr) :=
  match op with
  | PushHead x => if decide (x ∈ xs) then None else Some (x :: xs)
  | PushTail x => if decide (x ∈ xs) then None else Some (xs ++ [x])
  | PutAfter y x => if decide (x ∈ xs) then None else insert_after y x xs
  | PutBefore y x => if decide (x ∈ xs) then None else insert_before y x xs
  | TakeOut x => if decide (x ∈ xs) then Some (filter (x ≠.) xs) else None
  end.
Definition apply_deques (xs : list ptr) (ops : list deque_op) : option (list ptr) :=
  fold_left (λ o op, o ≫= λ xs, apply_deque xs op) ops (Some xs).

Class Deque := {
  dq_next : string;
  dq_prev : string;
  dq_rep : string → addr → list ptr → mem → Prop;
  dq_cells : string → addr → list ptr → list addr;
  dq_run : string → addr → deque_op → M mem unit;
  dq_walk : nat → addr → string → (cval → M mem bool) → M mem cval;
  dq_walk_back : nat → addr → string → (cval → M mem bool) → M mem cval;
  dq_end : addr → cval;
}.
Class DequeLaws `{Deque} := {
  dq_cells_mono field hd xs ys : xs ⊆ ys → dq_cells field hd xs ⊆ dq_cells field hd ys;
  dq_run_spec field hd xs xs' op m : dq_rep field hd xs m → apply_deque xs op = Some xs' →
    (∀ x, x ∈ dq_put op → is_Some (cell m (x, [field; dq_next])) ∧ is_Some (cell m (x, [field; dq_prev]))) →
    wp (dq_run field hd op) (λ _ m', dq_rep field hd xs' m' ∧ touches (dq_cells field hd (dq_put op ++ xs)) m m') m;
  dq_walk_spec field hd xs body p fuel m : dq_rep field hd xs m → (length xs ≤ fuel)%nat → (∀ x, x ∈ xs → body (PTR x) m = Ret (p x, m)) →
    dq_walk fuel hd field body m = Ret (find_or (dq_end hd) p xs, m) ∧
    dq_walk_back fuel hd field body m = Ret (find_or (dq_end hd) p (rev xs), m);
}.

Section deque.
Context `{DequeLaws}.
Fixpoint run_deques (field : string) (hd : addr) (ops : list deque_op) : M mem unit :=
  match ops with
  | [] => mret tt
  | op :: ops => _ ← dq_run field hd op; run_deques field hd ops
  end.

Lemma insert_before_Some y x xs xs' : insert_before y x xs = Some xs' → ∃ l r, xs = l ++ y :: r ∧ xs' = l ++ x :: y :: r.
Proof.
  revert xs'. induction xs as [|z xs IH]; cbn; intros xs'; [done|]. case_decide as Hz; [intros [= <-]; subst; by exists [], xs|].
  destruct (insert_before y x xs) as [l'|]; [|done]. intros [= <-]. destruct (IH _ eq_refl) as (l & r & -> & ->). by exists (z :: l), r.
Qed.
Lemma apply_deque_elem xs op xs' : apply_deque xs op = Some xs' → xs' ⊆ dq_put op ++ xs.
Proof.
  destruct op as [y|y|z y|z y|y]; cbn; repeat case_decide; intros Ha; simplify_eq; try (clear; set_solver).
  - apply insert_after_Some in Ha as (l & l2 & -> & ->). clear. set_solver.
  - apply insert_before_Some in Ha as (l & l2 & -> & ->). clear. set_solver.
  - intros x [_ ?]%list_elem_of_filter. done.
Qed.

Lemma run_deques_spec field hd ops xs xs' m : dq_rep field hd xs m → apply_deques xs ops = Some xs' →
  (∀ x, x ∈ flat_map dq_put ops → is_Some (cell m (x, [field; dq_next])) ∧ is_Some (cell m (x, [field; dq_prev]))) →
  wp (run_deques field hd ops) (λ _ m', dq_rep field hd xs' m' ∧ touches (dq_cells field hd (flat_map dq_put ops ++ xs)) m m') m.
Proof.
  revert xs m. induction ops as [|op ops IH]; intros xs m Hr Ha Hi; cbn [run_deques].
  { injection Ha as <-. wp_simpl. split; [done|apply touches_refl]. }
  unfold apply_deques in Ha. cbn in Ha, Hi. destruct (apply_deque xs op) as [ys|] eqn:E; cycle 1.
  { exfalso. clear -Ha. induction ops as [|o ops IH]; cbn in Ha; [done|auto]. }
  wp_call (eapply dq_run_spec; [done|exact E|intros x Hx; apply Hi; by apply elem_of_app; left]). intros _ m1 [R1 T1].
  eapply wp_mono; [eapply IH; [done|exact Ha|]|].
  { intros x Hx. destruct (Hi x) as [H1 H2]; [by apply elem_of_app; right|]. split; by apply (t_def _ _ _ T1). }
  intros _ m2 [R2 T2]. split; [done|]. pose proof (apply_deque_elem _ _ _ E) as He.
  eapply touches_trans; (eapply touches_mono; [apply dq_cells_mono|eassumption]); cbn; set_solver.
Qed.

(** A double-ended queue of queue.h implements a sequence: any sequence of insertions at the ends
    and next to an element and of removals, that is meaningful for the sequence, runs without a
    fault and leaves the sequence it computes in memory; walking visits its elements in order,
    and in the reverse order; nothing but the links is written to. *)
Theorem deque_refines field hd ops xs xs' m : dq_rep field hd xs m → apply_deques xs ops = Some xs' →
  (∀ x, x ∈ flat_map dq_put ops → is_Some (cell m (x, [field; dq_next])) ∧ is_Some (cell m (x, [field; dq_prev]))) →
  ∃ m', run_deques field hd ops m = Ret (tt, m') ∧ dq_rep field hd xs' m' ∧ touches (dq_cells field hd (flat_map dq_put ops ++ xs)) m m' ∧
    ∀ p, let body := λ v : cval, mret (match v with PTR x => p x | _ => false end) in
      dq_walk (length xs') hd field body m' = Ret (find_or (dq_end hd) p xs', m') ∧
      dq_walk_back (length xs') hd field body m' = Ret (find_or (dq_end hd) p (rev xs'), m').
Proof.
  intros Hr Ha Hi. pose proof (run_deques_spec _ _ _ _ _ _ Hr Ha Hi) as ([] & m' & E & R & T)%wp_run. exists m'. split_and!; try done.
  intros p body. by apply dq_walk_spec.
Qed.
End deque.

#[export] Instance tailq_deque : Deque := {|
  dq_next := "tqe_next"; dq_prev := "tqe_prev"; dq_rep := tailq_rep; dq_cells := tailq_cells;
  dq_run := λ field hd op,
    match op with
    | PushHead x => TAILQ_INSERT_HEAD hd (PTR x) field
    | PushTail x => TAILQ_INSERT_TAIL hd (PTR x) field
    | PutAfter y x => TAILQ_INSERT_AFTER hd (PTR y) (PTR x) field
    | PutBefore y x => TAILQ_INSERT_BEFORE (PTR y) (PTR x) field
    | TakeOut x => TAILQ_REMOVE hd (PTR x) field
    end;
  dq_walk := TAILQ_FOREACH; dq_walk_back := TAILQ_FOREACH_REVERSE; dq_end := λ _, NULL |}.
#[export] Instance circleq_deque : Deque := {|
  dq_next := "cqe_next"; dq_prev := "cqe_prev"; dq_rep := circleq_rep; dq_cells := circleq_cells;
  dq_run := λ field hd op,
    match op with
    | PushHead x => CIRCLEQ_INSERT_HEAD hd (PTR x) field
    | PushTail x => CIRCLEQ_INSERT_TAIL hd (PTR x) field
    | PutAfter y x => CIRCLEQ_INSERT_AFTER hd (PTR y) (PTR x) field
    | PutBefore y x => CIRCLEQ_INSERT_BEFORE hd (PTR y) (PTR x) field
    | TakeOut x => CIRCLEQ_REMOVE hd (PTR x) field
    end;
  dq_walk := CIRCLEQ_FOREACH; dq_walk_back := CIRCLEQ_FOREACH_REVERSE; dq_end := ADDR |}.

(** One case of the law: the lemma of the operation, and the fields it may write to. *)
Lemma wp_cells {A} (C : list ptr → list addr) (c : M mem A) (P : mem → Prop) zs ys m : (∀ xs ys, xs ⊆ ys → C xs ⊆ C ys) → zs ⊆ ys →
  wp c (λ _ m', P m' ∧ touches (C zs) m m') m → wp c (λ _ m', P m' ∧ touches (C ys) m m') m.
Proof. intros HC Hz Hc. eapply wp_mono; [exact Hc|]. intros _ m' [? T]. split; [done|]. eapply touches_mono; [|exact T]. by apply HC. Qed.
Ltac deque_case op_rep mono := eapply wp_cells; [intros; by apply mono| |by eapply op_rep; eauto].

Lemma tailq_cells_mono field hd xs ys : xs ⊆ ys → tailq_cells field hd xs ⊆ tailq_cells field hd ys.
Proof. intros Hs b. rewrite !tailq_cells_elem. intros [->|[->|(x & Hx & Hb)]]; [by left|by right; left|]. right; right. exists x. auto. Qed.
Lemma circleq_cells_mono field hd xs ys : xs ⊆ ys → circleq_cells field hd xs ⊆ circleq_cells field hd ys.
Proof. intros Hs b. rewrite !circleq_cells_elem. intros [->|[->|(x & Hx & Hb)]]; [by left|by right; left|]. right; right. exists x. auto. Qed.

(** What an operation does to the sequence, with the place it does it at. *)
Lemma apply_deque_cases xs op xs' : NoDup xs → apply_deque xs op = Some xs' →
  match op with
  | PushHead x => (x ∉ xs) ∧ xs' = x :: xs
  | PushTail x => (x ∉ xs) ∧ xs' = xs ++ [x]
  | PutAfter y x => (x ∉ xs) ∧ ∃ l r, xs = l ++ y :: r ∧ xs' = l ++ y :: x :: r
  | PutBefore y x => (x ∉ xs) ∧ ∃ l r, xs = l ++ y :: r ∧ xs' = l ++ x :: y :: r
  | TakeOut x => ∃ l r, xs = l ++ x :: r ∧ xs' = l ++ r
  end.
Proof.
  intros Hd. destruct op; cbn; case_decide as Hx; intros Ha; simplify_eq; [done|done| | |].
  - split; [done|]. by apply insert_after_Some.
  - split; [done|]. by apply insert_before_Some.
  - apply list_elem_of_split in Hx as (l & r & ->). exists l, r. by rewrite filter_ne_app.
Qed.
#[export] Instance tailq_deque_laws : @DequeLaws tailq_deque.
Proof.
  split; [apply tailq_cells_mono| |intros; split; [by apply TAILQ_FOREACH_rep|by apply TAILQ_FOREACH_REVERSE_rep]].
  intros field hd xs xs' op m Hr Ha Hi. apply apply_deque_cases in Ha; [|apply Hr]. destruct op as [x|x|y x|y x|x]; cbn in *;
    try (destruct (Hi x) as [H1 H2]; [by left|]).
  - destruct Ha as [Hx ->]. deque_case TAILQ_INSERT_HEAD_rep tailq_cells_mono. done.
  - destruct Ha as [Hx ->]. deque_case TAILQ_INSERT_TAIL_rep tailq_cells_mono. clear. set_solver.
  - destruct Ha as (Hx & l & r & -> & ->). deque_case TAILQ_INSERT_AFTER_rep tailq_cells_mono. clear. set_solver.
  - destruct Ha as (Hx & l & r & -> & ->). deque_case TAILQ_INSERT_BEFORE_rep tailq_cells_mono. clear. set_solver.
  - destruct Ha as (l & r & -> & ->). deque_case TAILQ_REMOVE_rep tailq_cells_mono. clear. set_solver.
Qed.
#[export] Instance circleq_deque_laws : @DequeLaws circleq_deque.
Proof.
  split; [apply circleq_cells_mono| |intros; split; [by apply CIRCLEQ_FOREACH_rep|by apply CIRCLEQ_FOREACH_REVERSE_rep]].
  intros field hd xs xs' op m Hr Ha Hi. apply apply_deque_cases in Ha; [|apply Hr]. destruct op as [x|x|y x|y x|x]; cbn in *;
    try (destruct (Hi x) as [H1 H2]; [by left|]).
  - destruct Ha as [Hx ->]. deque_case CIRCLEQ_INSERT_HEAD_rep circleq_cells_mono. done.
  - destruct Ha as [Hx ->]. deque_case CIRCLEQ_INSERT_TAIL_rep circleq_cells_mono. clear. set_solver.
  - destruct Ha as (Hx & l & r & -> & ->). deque_case CIRCLEQ_INSERT_AFTER_rep circleq_cells_mono. clear. set_solver.
  - destruct Ha as (Hx & l & r & -> & ->). deque_case CIRCLEQ_INSERT_BEFORE_rep circleq_cells_mono. clear. set_solver.
  - destruct Ha as (l & r & -> & ->). deque_case CIRCLEQ_REMOVE_rep circleq_cells_mono. clear. set_solver.
Qed.

(** A circular queue in use: three elements, the middle one taken out, one put before the last. *)
Lemma deque_refines_witness :
  let hd : addr := (1%positive, ["ring"]) in
  let elem := OStruct (list_to_map [(["link"; "cqe_next"], UNDEF); (["link"; "cqe_prev"], UNDEF)]) in
  let m := mkmem (list_to_map [(1%positive, OStruct (list_to_map [(["ring"; "cqh_first"], ADDR (1%positive, ["ring"]));
                     (["ring"; "cqh_last"], ADDR (1%positive, ["ring"]))]));
                  (2%positive, elem); (3%positive, elem); (4%positive, elem); (5%positive, elem)]) 6 in
  ∃ m', run_deques (H := circleq_deque) "link" hd [PushTail 3; PushTail 4; PushHead 2; TakeOut 3; PutBefore 4 5] m = Ret (tt, m') ∧
    circleq_rep "link" hd [2; 5; 4]%positive m' ∧
    CIRCLEQ_FOREACH_REVERSE 3 hd "link" (λ v, mret (match v with PTR x => (x <? 5)%positive | _ => false end)) m' = Ret (PTR 4, m').
Proof.
  intros hd elem m.
  destruct (deque_refines (H := circleq_deque) "link" hd [PushTail 3; PushTail 4; PushHead 2; TakeOut 3; PutBefore 4 5] [] [2; 5; 4]%positive m) as (m' & E & R & _ & Hw).
  - split; [constructor|split; [done|reflexivity]..].
  - vm_compute. reflexivity.
  - intros x Hx. cbn in Hx. repeat (apply elem_of_cons in Hx as [->|Hx]; [split; vm_compute; by eexists|]). by apply elem_of_nil in Hx.
  - exists m'. split; [exact E|]. split; [exact R|]. apply (proj2 (Hw (λ x, (x <? 5)%positive))).
Defined.
