(* ===== verification/Bio.v ===== *)
(** * The in-memory byte queue of the mbedTLS engine (src/bio.c, src/bio.h)

    A [tlsuv_BIO] is a queue of heap messages with a read offset into the first
    one.  [tlsuv_BIO_put] appends a copy of a buffer, [tlsuv_BIO_read] copies at
    most [len] bytes out and frees the messages it exhausts.  The abstract
    specification is a byte FIFO ([ByteFifo] below): the engine code is verified
    against that interface and [tlsuv_BIO] implements it. *)
From S2P Require Import Prelude.
From stdpp Require Import base list numbers.
From Stdlib Require Import ZArith Lia.
Open Scope Z_scope.

(** [struct msg]: [buf] with [len = length buf]; the queue links are the list. *)
Record msg := mkmsg { msg_buf : list Z }.
Definition msg_len (m : msg) : Z := Z.of_nat (length (msg_buf m)).

Record tlsuv_BIO := mkBIO {
  available : Z;           (* size_t *)
  headoffset : Z;          (* size_t *)
  qlen : Z;                (* unsigned int *)
  message_q : list msg     (* STAILQ *)
}.
#[export] Instance tlsuv_BIO_upd : Updatable tlsuv_BIO := fun b =>
  mkBIO (available b) (headoffset b) (qlen b) (message_q b).

Definition tlsuv_BIO_new : tlsuv_BIO := mkBIO 0 0 0 [].

Definition tlsuv_BIO_available (b : tlsuv_BIO) : Z := available b.

(** [msg_ok] and [buf_ok] are the results of the two [malloc] calls. *)
Definition tlsuv_BIO_put (msg_ok buf_ok : bool) (bio : tlsuv_BIO) (buf : list Z)
  : Z * tlsuv_BIO :=
  if negb msg_ok then (-1, bio)
  else if negb buf_ok then (-1, bio)
  else
    let m := mkmsg buf in
    (0, bio <| message_q := message_q bio ++ [m] |>
            <| available := u64 (available bio + Z.of_nat (length buf)) |>
            <| qlen := u32 (qlen bio + 1) |>).

(** [memcpy(_, src + off, n)]: the bytes read, if [src] holds them. *)
Definition read_slice (src : list Z) (off n : Z) : outcome (list Z) :=
  if (0 <=? off) && (0 <=? n) && (off + n <=? Z.of_nat (length src))
  then Ret (take (Z.to_nat n) (drop (Z.to_nat off) src))
  else Fault OutOfBounds.

(** The loop of [tlsuv_BIO_read]; [out] are the [total] bytes copied so far. *)
Fixpoint BIO_read_loop (fuel : nat) (bio : tlsuv_BIO) (len total : Z) (out : list Z)
  : outcome (tlsuv_BIO * Z * list Z) :=
  match message_q bio with
  | [] => Ret (bio, total, out)
  | m :: rest =>
    if total <? len then
      match fuel with
      | O => Fault OutOfFuel
      | S fuel =>
        let recv_size := Z.min (u64 (len - total)) (u64 (msg_len m - headoffset bio)) in
        bytes ← read_slice (msg_buf m) (headoffset bio) recv_size;
        let bio := bio <| headoffset := u64 (headoffset bio + recv_size) |>
                       <| available := u64 (available bio - recv_size) |> in
        let total := u64 (total + recv_size) in
        let bio := if headoffset bio =? msg_len m
                   then bio <| message_q := rest |> <| headoffset := 0 |>
                            <| qlen := u32 (qlen bio - 1) |>
                   else bio in
        BIO_read_loop fuel bio len total (out ++ bytes)
      end
    else Ret (bio, total, out)
  end.

(** Returns the [int] result, the bytes stored in the caller's buffer (whose
    capacity is [len]) and the new state. *)
Definition tlsuv_BIO_read (bio : tlsuv_BIO) (len : Z) : outcome (Z * list Z * tlsuv_BIO) :=
  '(bio, total, out) ← BIO_read_loop (S (length (message_q bio))) bio len 0 [];
  Ret (i32 total, out, bio).

(** [tlsuv_BIO_free]: the messages freed, in order, then the BIO itself. *)
Fixpoint tlsuv_BIO_free_loop (q : list msg) (freed : list msg) : list msg :=
  match q with
  | [] => freed
  | m :: q => tlsuv_BIO_free_loop q (freed ++ [m])
  end.
Definition tlsuv_BIO_free (bio : tlsuv_BIO) : list msg :=
  tlsuv_BIO_free_loop (message_q bio) [].

(** ** The byte-FIFO interface *)

Class ByteFifo (B : Type) := {
  fifo_new : B;
  fifo_put : B → list Z → B;
  fifo_read : B → Z → outcome (Z * list Z * B);
  fifo_available : B → Z;
  fifo_content : B → list Z;
  fifo_ok : B → Prop;
  fifo_new_ok : fifo_ok fifo_new;
  fifo_new_content : fifo_content fifo_new = [];
  fifo_put_ok b d : fifo_ok b → Z.of_nat (length d) < 18446744073709551616 →
    fifo_ok (fifo_put b d);
  fifo_put_content b d : fifo_ok b → Z.of_nat (length d) < 18446744073709551616 →
    fifo_content (fifo_put b d) = fifo_content b ++ d;
  fifo_read_spec b n : fifo_ok b → 0 ≤ n < 2147483648 →
    ∃ b', fifo_read b n = Ret (Z.of_nat (length (take (Z.to_nat n) (fifo_content b))),
                               take (Z.to_nat n) (fifo_content b), b') ∧
          fifo_ok b' ∧ fifo_content b' = drop (Z.to_nat n) (fifo_content b);
  fifo_available_spec b : fifo_ok b →
    fifo_available b = u64 (Z.of_nat (length (fifo_content b)))
}.

(** ** The representation invariant *)

Definition msg_bytes (q : list msg) : list Z := concat (map msg_buf q).
Arguments msg_bytes : simpl never.

(** The unread bytes. *)
Definition content (b : tlsuv_BIO) : list Z :=
  drop (Z.to_nat (headoffset b)) (msg_bytes (message_q b)).

Definition msg_sized (m : msg) : Prop := msg_len m < 18446744073709551616.

(** The read offset is 0 or strictly inside the first message. *)
Definition head_ok (b : tlsuv_BIO) : Prop :=
  headoffset b = 0 ∨
  ∃ m q, message_q b = m :: q ∧ 0 ≤ headoffset b < msg_len m.

Record bio_wf (b : tlsuv_BIO) : Prop := {
  wf_head : head_ok b;
  wf_sized : Forall msg_sized (message_q b);
  wf_available : available b = u64 (Z.of_nat (length (content b)));
  wf_qlen : qlen b = u32 (Z.of_nat (length (message_q b)))
}.

Lemma msg_bytes_app q1 q2 : msg_bytes (q1 ++ q2) = msg_bytes q1 ++ msg_bytes q2.
Proof. unfold msg_bytes. by rewrite map_app, concat_app. Qed.

Lemma msg_bytes_cons m q : msg_bytes (m :: q) = msg_buf m ++ msg_bytes q.
Proof. done. Qed.

Lemma head_ok_bound b : head_ok b →
  0 ≤ headoffset b ≤ Z.of_nat (length (msg_bytes (message_q b))).
Proof.
  intros [->|(m & q & -> & ?)]; [lia|].
  rewrite msg_bytes_cons, length_app. unfold msg_len in *. lia.
Qed.

Lemma bio_new_wf : bio_wf tlsuv_BIO_new.
Proof. split; try done. by left. Qed.

Lemma put_content b buf : head_ok b →
  content (tlsuv_BIO_put true true b buf).2 = content b ++ buf.
Proof.
  intros H%head_ok_bound. unfold content. cbn.
  rewrite msg_bytes_app, msg_bytes_cons. cbn. rewrite app_nil_r.
  rewrite drop_app_le by lia. done.
Qed.

Lemma put_wf b buf : bio_wf b → Z.of_nat (length buf) < 18446744073709551616 →
  bio_wf (tlsuv_BIO_put true true b buf).2.
Proof.
  intros [Hh Hs Ha Hq] Hlen. split.
  - destruct Hh as [H|(m & q & Hm & H)]; [by left|right].
    exists m, (q ++ [mkmsg buf]). cbn. by rewrite Hm.
  - cbn. apply Forall_app. split; [done|]. by constructor.
  - rewrite put_content by done. cbn. rewrite Ha, u64_add_idemp, length_app.
    f_equal. lia.
  - cbn. rewrite Hq, length_app. cbn. unfold u32.
    rewrite Zplus_mod_idemp_l. f_equal. lia.
Qed.

Lemma read_slice_ok src off n :
  0 ≤ off → 0 ≤ n → off + n ≤ Z.of_nat (length src) →
  read_slice src off n = Ret (take (Z.to_nat n) (drop (Z.to_nat off) src)).
Proof.
  intros. unfold read_slice.
  destruct (0 <=? off) eqn:?, (0 <=? n) eqn:?, (off + n <=? _) eqn:?; try done; lia.
Qed.

(** One iteration of the loop that exhausts the first message. *)
Lemma content_cons b m q : message_q b = m :: q →
  0 ≤ headoffset b ≤ msg_len m →
  content b = drop (Z.to_nat (headoffset b)) (msg_buf m) ++ msg_bytes q.
Proof.
  intros Hq H. unfold content. rewrite Hq, msg_bytes_cons.
  unfold msg_len in *. by rewrite drop_app_le by lia.
Qed.

(** The state after copying [r] bytes of the first message [m] when messages
    remain in it, and after exhausting it. *)
Definition bio_advance (b : tlsuv_BIO) (r : Z) : tlsuv_BIO :=
  b <| headoffset := u64 (headoffset b + r) |> <| available := u64 (available b - r) |>.
Definition bio_pop (b : tlsuv_BIO) (r : Z) (q : list msg) : tlsuv_BIO :=
  bio_advance b r <| message_q := q |> <| headoffset := 0 |> <| qlen := u32 (qlen b - 1) |>.

Lemma head_off_bound b m q : head_ok b → message_q b = m :: q →
  0 ≤ headoffset b ≤ msg_len m.
Proof.
  intros [->|(m' & q' & Hm & ?)] Hq; [unfold msg_len; lia|].
  rewrite Hq in Hm. simplify_eq. lia.
Qed.

Lemma bio_pop_wf b m q r : bio_wf b → message_q b = m :: q →
  r = msg_len m - headoffset b → bio_wf (bio_pop b r q) ∧ content (bio_pop b r q) = msg_bytes q.
Proof.
  intros [Hh Hs Ha Hq] Hm ->. pose proof (head_off_bound _ _ _ Hh Hm) as Hoff.
  assert (content (bio_pop b (msg_len m - headoffset b) q) = msg_bytes q) as Hc.
  { unfold content. cbn. by rewrite drop_0. }
  split; [|done]. rewrite Hm in Hs. split.
  - by left.
  - cbn. by apply Forall_cons_1 in Hs as [_ Hs].
  - rewrite Hc. cbn. rewrite Ha, u64_sub_add, (content_cons b m q) by done.
    rewrite length_app, length_drop. unfold msg_len in *. f_equal. lia.
  - cbn. rewrite Hq, Hm. cbn. unfold u32. rewrite Zminus_mod_idemp_l. f_equal. lia.
Qed.

Lemma bio_advance_wf b m q r : bio_wf b → message_q b = m :: q →
  0 ≤ r → headoffset b + r < msg_len m →
  bio_wf (bio_advance b r) ∧ content (bio_advance b r) = drop (Z.to_nat r) (content b).
Proof.
  intros [Hh Hs Ha Hq] Hm Hr Hlt. pose proof (head_off_bound _ _ _ Hh Hm) as Hoff.
  assert (msg_sized m) as Hsz by (rewrite Hm in Hs; by apply Forall_cons_1 in Hs as [? _]).
  unfold msg_sized in Hsz.
  assert (u64 (headoffset b + r) = headoffset b + r) as Hu by (apply u64_small; lia).
  assert (content (bio_advance b r) = drop (Z.to_nat r) (content b)) as Hc.
  { unfold content. cbn. rewrite Hu, drop_drop. f_equal. lia. }
  split; [|done]. split.
  - right. exists m, q. cbn. rewrite Hu. split; [done|lia].
  - done.
  - rewrite Hc. cbn. rewrite Ha, u64_sub_add, (content_cons b m q) by done.
    rewrite length_drop, length_app, length_drop. unfold msg_len in *. f_equal. lia.
  - done.
Qed.

Lemma BIO_read_loop_spec fuel b len total out :
  bio_wf b → (length (message_q b) < fuel)%nat →
  0 ≤ total ≤ len → len < 18446744073709551616 →
  ∃ b', BIO_read_loop fuel b len total out =
          Ret (b', total + Z.of_nat (length (take (Z.to_nat (len - total)) (content b))),
               out ++ take (Z.to_nat (len - total)) (content b)) ∧
        bio_wf b' ∧ content b' = drop (Z.to_nat (len - total)) (content b).
Proof.
  revert b total out. induction fuel as [|fuel IH]; intros b total out Hwf Hf Ht Hl; [lia|].
  cbn. destruct (message_q b) as [|m q] eqn:Hq.
  { exists b. assert (content b = []) as ->.
    { unfold content. rewrite Hq. apply drop_nil. }
    rewrite take_nil, drop_nil, app_nil_r. cbn. rewrite Z.add_0_r. done. }
  destruct (total <? len) eqn:Htl; last first.
  { exists b. assert (len - total = 0) as -> by lia. cbn. rewrite Z.add_0_r, app_nil_r. done. }
  pose proof (head_off_bound _ _ _ (wf_head _ Hwf) Hq) as Hoff.
  assert (msg_sized m) as Hsz
    by (pose proof (wf_sized _ Hwf) as Hs; rewrite Hq in Hs; by apply Forall_cons_1 in Hs as [? _]).
  unfold msg_sized in Hsz.
  rewrite (u64_small (len - total)), (u64_small (msg_len m - headoffset b)) by lia.
  remember (Z.min (len - total) (msg_len m - headoffset b)) as r eqn:Hrdef.
  rewrite read_slice_ok by (unfold msg_len in *; lia). cbn.
  rewrite (u64_small (headoffset b + r)), (u64_small (total + r)) by lia.
  pose proof (content_cons b m q Hq Hoff) as Hcons.
  destruct (headoffset b + r =? msg_len m) eqn:He.
  - destruct (bio_pop_wf b m q r Hwf Hq ltac:(lia)) as [Hwf' Hc'].
    change (BIO_read_loop fuel _ len) with (BIO_read_loop fuel (bio_pop b r q) len).
    destruct (IH (bio_pop b r q) (total + r) (out ++ take (Z.to_nat r) (drop (Z.to_nat (headoffset b)) (msg_buf m))))
      as (b' & Hrun & Hwfb & Hcb); [done|cbn; cbn in Hf; lia|lia|done|].
    assert (take (Z.to_nat r) (drop (Z.to_nat (headoffset b)) (msg_buf m))
            = drop (Z.to_nat (headoffset b)) (msg_buf m)) as Htk.
    { apply take_ge. rewrite length_drop. unfold msg_len in *. lia. }
    rewrite Htk, Hc' in Hrun. rewrite Htk. exists b'. rewrite Hrun, Hcb, Hc', Hcons.
    assert (Z.to_nat (len - total) =
      (length (drop (Z.to_nat (headoffset b)) (msg_buf m)) + Z.to_nat (len - (total + r)))%nat) as ->.
    { rewrite length_drop. unfold msg_len in *. lia. }
    rewrite take_app_add, drop_app_add. split_and!; [|done|done].
    rewrite <-app_assoc, length_app, length_drop. do 3 f_equal. unfold msg_len in *. lia.
  - assert (r = len - total) as Hr by lia.
    destruct (bio_advance_wf b m q r Hwf Hq ltac:(lia) ltac:(lia)) as [Hwf' Hc'].
    exists (bio_advance b r). rewrite <-Hr.
    rewrite Hcons, take_app_le by (rewrite length_drop; unfold msg_len in *; lia).
    rewrite <-Hcons.
    split_and!; [|done|done].
    assert (u64 (headoffset b + r) = headoffset b + r) as Hu by (apply u64_small; lia).
    unfold bio_advance. rewrite Hu.
    destruct fuel; cbn; rewrite Hq; assert ((total + r <? len) = false) as -> by lia;
      do 3 f_equal; rewrite length_take, length_drop; unfold msg_len in *; lia.
Qed.

(** ** What the queue promises *)

(** [tlsuv_BIO_read] for any request size. *)
Lemma BIO_read_correct b n : bio_wf b → 0 ≤ n < 2147483648 →
  ∃ b', tlsuv_BIO_read b n =
          Ret (Z.of_nat (length (take (Z.to_nat n) (content b))),
               take (Z.to_nat n) (content b), b') ∧
        bio_wf b' ∧ content b' = drop (Z.to_nat n) (content b).
Proof.
  intros Hwf Hn.
  destruct (BIO_read_loop_spec (S (length (message_q b))) b n 0 [] Hwf)
    as (b' & Hrun & Hwf' & Hc'); [lia..|].
  rewrite Z.sub_0_r in *. exists b'. split_and!; [|done|done].
  unfold tlsuv_BIO_read. rewrite Hrun. cbn.
  rewrite i32_small by (rewrite length_take; lia). done.
Qed.

#[export] Program Instance tlsuv_BIO_fifo : ByteFifo tlsuv_BIO := {|
  fifo_new := tlsuv_BIO_new;
  fifo_put b d := (tlsuv_BIO_put true true b d).2;
  fifo_read := tlsuv_BIO_read;
  fifo_available := tlsuv_BIO_available;
  fifo_content := content;
  fifo_ok := bio_wf
|}.
Next Obligation. apply bio_new_wf. Qed.
Next Obligation. done. Qed.
Next Obligation. intros. by apply put_wf. Qed.
Next Obligation. intros b d Hwf _. apply put_content, wf_head, Hwf. Qed.
Next Obligation. intros. by apply BIO_read_correct. Qed.
Next Obligation. intros b Hwf. apply wf_available, Hwf. Qed.

(** Any interleaving of puts and reads. *)
Inductive fifo_op := OpPut (d : list Z) | OpRead (n : Z).

Definition fifo_op_ok (o : fifo_op) : Prop :=
  match o with
  | OpPut d => Z.of_nat (length d) < 18446744073709551616
  | OpRead n => 0 ≤ n < 2147483648
  end.

(** All the bytes put, in order. *)
Definition puts (ops : list fifo_op) : list Z :=
  concat (map (λ o, match o with OpPut d => d | OpRead _ => [] end) ops).

Section fifo_runs.
Context {B : Type} `{!ByteFifo B}.

(** Runs the operations; returns all the bytes read, in order. *)
Fixpoint fifo_run (ops : list fifo_op) (b : B) : outcome (list Z * B) :=
  match ops with
  | [] => Ret ([], b)
  | OpPut d :: ops => fifo_run ops (fifo_put b d)
  | OpRead n :: ops =>
    '(_, out, b) ← fifo_read b n;
    '(outs, b) ← fifo_run ops b;
    Ret (out ++ outs, b)
  end.

Lemma fifo_run_stream ops b : fifo_ok b → Forall fifo_op_ok ops →
  ∃ out b', fifo_run ops b = Ret (out, b') ∧ fifo_ok b' ∧
            out ++ fifo_content b' = fifo_content b ++ puts ops.
Proof.
  revert b. induction ops as [|[d|n] ops IH]; intros b Hb Hops.
  - exists [], b. cbn. by rewrite app_nil_r.
  - apply Forall_cons_1 in Hops as [Hd Hops].
    destruct (IH (fifo_put b d)) as (out & b' & Hrun & Hok & Hc);
      [by apply fifo_put_ok|done|].
    exists out, b'. cbn. split_and!; [done..|].
    rewrite Hc, fifo_put_content by done. by rewrite <-app_assoc.
  - apply Forall_cons_1 in Hops as [Hn Hops].
    destruct (fifo_read_spec b n Hb Hn) as (b1 & Hr & Hb1 & Hc1).
    destruct (IH b1 Hb1 Hops) as (out & b' & Hrun & Hok & Hc).
    eexists _, b'. cbn. rewrite Hr. cbn. rewrite Hrun. cbn.
    split_and!; [done..|]. rewrite <-app_assoc, Hc, Hc1, app_assoc, take_drop. done.
Qed.
End fifo_runs.

(** Reading [n] bytes from a well-formed BIO never faults and returns exactly
    the first [min n available] unread bytes with their count; what is left is
    the rest of the stream, and the queue, offset and counters stay consistent. *)
Theorem BIO_read_spec b n : bio_wf b → 0 ≤ n < 2147483648 →
  ∃ b', tlsuv_BIO_read b n =
          Ret (Z.of_nat (length (take (Z.to_nat n) (content b))),
               take (Z.to_nat n) (content b), b') ∧
        bio_wf b' ∧ content b' = drop (Z.to_nat n) (content b).
Proof. apply BIO_read_correct. Qed.

Lemma BIO_read_spec_witness :
  ∃ b', tlsuv_BIO_read (tlsuv_BIO_put true true tlsuv_BIO_new [1; 2; 3]).2 2 =
          Ret (2, [1; 2], b') ∧ bio_wf b' ∧ content b' = [3].
Proof.
  apply (BIO_read_spec (tlsuv_BIO_put true true tlsuv_BIO_new [1; 2; 3]).2 2).
  - apply put_wf; [apply bio_new_wf|cbn; lia].
  - lia.
Defined.

(** The BIO is a lossless FIFO: for every interleaving of puts and reads
    starting from a new BIO no operation faults, and the bytes read followed by
    the bytes still queued are exactly the bytes put, in order. *)
Theorem BIO_stream_refines_fifo ops : Forall fifo_op_ok ops →
  ∃ out b, fifo_run ops tlsuv_BIO_new = Ret (out, b) ∧ bio_wf b ∧
           out ++ content b = puts ops.
Proof. intros Hops. exact (fifo_run_stream ops tlsuv_BIO_new bio_new_wf Hops). Qed.

Lemma BIO_stream_refines_fifo_witness :
  ∃ out b, fifo_run [OpPut [1; 2]; OpRead 1; OpPut [3]; OpRead 5] tlsuv_BIO_new = Ret (out, b) ∧
           bio_wf b ∧ out ++ content b = [1; 2; 3].
Proof.
  apply (BIO_stream_refines_fifo [OpPut [1; 2]; OpRead 1; OpPut [3]; OpRead 5]).
  repeat constructor; cbn; lia.
Defined.

(** [tlsuv_BIO_put] reports -1 and leaves the BIO unchanged when either
    allocation fails; otherwise it returns 0, appends exactly [buf] to the
    unread bytes and preserves well-formedness. *)
Theorem BIO_put_spec msg_ok buf_ok b buf :
  bio_wf b → Z.of_nat (length buf) < 18446744073709551616 →
  let '(rc, b') := tlsuv_BIO_put msg_ok buf_ok b buf in
  if msg_ok && buf_ok then rc = 0 ∧ bio_wf b' ∧ content b' = content b ++ buf
  else rc = -1 ∧ b' = b.
Proof.
  intros Hwf Hl. destruct msg_ok, buf_ok; cbn; try done.
  pose proof (put_wf b buf Hwf Hl). pose proof (put_content b buf (wf_head b Hwf)). done.
Qed.

Lemma BIO_put_spec_witness :
  let '(rc, b') := tlsuv_BIO_put true true tlsuv_BIO_new [7] in
  rc = 0 ∧ bio_wf b' ∧ content b' = [7].
Proof. apply (BIO_put_spec true true tlsuv_BIO_new [7]); [apply bio_new_wf|cbn; lia]. Defined.
