(* ===== verification/BioMem.v ===== *)
(** * The byte queue in memory (src/bio.c over include/tlsuv/queue.h)

    [Bio] treats the messages of a [tlsuv_BIO] as a sequence.  Here its functions run on the
    structures the code allocates: the BIO with its counters and the head of a [STAILQ], and for
    each message a [struct msg] and a buffer.  Each function is shown to compute what its
    counterpart in [Bio] does, without a fault, to change no object but its own, and to own
    afterwards exactly the objects of the messages that are left. *)
From S2P Require Import Prelude CMem Queue Bio.
From stdpp Require Import base list gmap numbers strings.
From Stdlib Require Import ZArith Lia.
Local Open Scope string_scope.
Local Open Scope list_scope.
Open Scope Z_scope.
Set Warnings "-clear-no-such-hyp".

(** ** The functions *)

(** [calloc] of the BIO, whose fields are 0 and NULL then; [struct msg]. *)
Definition bio_zero : obj := OStruct (list_to_map
  [(["available"], INT 0); (["headoffset"], INT 0); (["qlen"], INT 0);
   (["message_q"; "stqh_first"], NULL); (["message_q"; "stqh_last"], NULL)]).
Definition msg_fields : list (list string) := [["len"]; ["buf"]; ["next"; "stqe_next"]].

Definition load_int (v : cval) (f : string) : M mem Z := a ← fld v [f]; x ← load a; as_int x.
Definition store_int (v : cval) (f : string) (z : Z) : M mem unit := a ← fld v [f]; store a (INT z).

(** [ok] is whether [calloc] had the memory: its result is not looked at. *)
Definition mem_BIO_new (ok : bool) : M mem cval :=
  bio ← (if ok then alloc bio_zero else mret NULL);
  _ ← store_int bio "available" 0;
  _ ← store_int bio "headoffset" 0;
  _ ← store_int bio "qlen" 0;
  q ← fld bio ["message_q"];
  _ ← STAILQ_INIT q;
  mret bio.

(** [free(m->buf); free(m);] *)
Definition free_msg (m : cval) : M mem unit :=
  a ← fld m ["buf"]; b ← load a; _ ← free b; free m.

Fixpoint mem_free_msgs (fuel : nat) (bio : cval) : M mem unit :=
  q ← fld bio ["message_q"];
  e ← STAILQ_EMPTY q;
  if (e : bool) then mret tt
  else match fuel with
       | O => fail_with OutOfFuel
       | S fuel =>
         m ← STAILQ_FIRST q;
         _ ← STAILQ_REMOVE_HEAD q "next";
         _ ← free_msg m;
         mem_free_msgs fuel bio
       end.
Definition mem_BIO_free (fuel : nat) (bio : cval) : M mem unit :=
  _ ← mem_free_msgs fuel bio; free bio.

Definition mem_BIO_available (bio : cval) : M mem Z := load_int bio "available".

(** The message [m] gets its buffer, with a copy of [buf], and its length. *)
Definition fill_msg (m : cval) (buf : list Z) : M mem unit :=
  a ← fld m ["buf"]; b ← strdup_ buf; _ ← store a b;
  store_int m "len" (Z.of_nat (length buf)).
(** [msg_ok] and [buf_ok] are the results of the two [malloc] calls. *)
Definition mem_BIO_put (msg_ok buf_ok : bool) (bio : cval) (buf : list Z) : M mem Z :=
  if negb msg_ok then mret (-1)
  else
    m ← malloc msg_fields;
    if negb buf_ok then _ ← free m; mret (-1)
    else
      _ ← fill_msg m buf;
      q ← fld bio ["message_q"];
      _ ← STAILQ_INSERT_TAIL q m "next";
      av ← load_int bio "available";
      _ ← store_int bio "available" (u64 (av + Z.of_nat (length buf)));
      ql ← load_int bio "qlen";
      _ ← store_int bio "qlen" (u32 (ql + 1));
      mret 0.

(** The end of an iteration: the first message [m] is dropped when it was read to its end. *)
Definition mem_drop_read (bio m : cval) : M mem unit :=
  off ← load_int bio "headoffset";
  len ← load_int m "len";
  if off =? len then
    q ← fld bio ["message_q"];
    _ ← STAILQ_REMOVE_HEAD q "next";
    _ ← store_int bio "headoffset" 0;
    ql ← load_int bio "qlen";
    _ ← store_int bio "qlen" (u32 (ql - 1));
    free_msg m
  else mret tt.
(** One copy out of [m]: the number of bytes and the bytes. *)
Definition mem_copy (bio m : cval) (room : Z) : M mem (Z * list Z) :=
  len ← load_int m "len";
  off ← load_int bio "headoffset";
  let recv_size := Z.min room (u64 (len - off)) in
  a ← fld m ["buf"]; p ← load a; buf ← load_buf p;
  bytes ← liftO (read_slice buf off recv_size);
  off ← load_int bio "headoffset";
  _ ← store_int bio "headoffset" (u64 (off + recv_size));
  av ← load_int bio "available";
  _ ← store_int bio "available" (u64 (av - recv_size));
  mret (recv_size, bytes).
Fixpoint mem_read_loop (fuel : nat) (bio : cval) (len total : Z) (out : list Z) : M mem (Z * list Z) :=
  q ← fld bio ["message_q"];
  e ← STAILQ_EMPTY q;
  if (e : bool) then mret (total, out)
  else if total <? len then
    match fuel with
    | O => fail_with OutOfFuel
    | S fuel =>
      m ← STAILQ_FIRST q;
      '(recv_size, bytes) ← mem_copy bio m (u64 (len - total));
      _ ← mem_drop_read bio m;
      mem_read_loop fuel bio len (u64 (total + recv_size)) (out ++ bytes)
    end
  else mret (total, out).
Definition mem_BIO_read (fuel : nat) (bio : cval) (len : Z) : M mem (Z * list Z) :=
  '(total, out) ← mem_read_loop fuel bio len 0 []; mret (i32 total, out).

(** ** The representation *)

(** The objects of one message. *)
Record mnode := mkmnode { mn_obj : ptr; mn_buf : ptr }.
Definition msgs_owned (ns : list mnode) : list ptr := flat_map (λ n, [mn_obj n; mn_buf n]) ns.
Arguments msgs_owned : simpl never.

Record msg_rep (m : mem) (n : mnode) (g : msg) : Prop := {
  mr_len : cell m (mn_obj n, ["len"]) = Some (INT (msg_len g));
  mr_buf : cell m (mn_obj n, ["buf"]) = Some (PTR (mn_buf n));
  mr_bytes : buf_at m (mn_buf n) = Some (msg_buf g)
}.
Abbreviation bio_q p := ((p, ["message_q"]) : addr).

Record bio_rep (p : ptr) (ns : list mnode) (b : tlsuv_BIO) (m : mem) : Prop := {
  br_queue : stailq_rep "next" (bio_q p) (map mn_obj ns) m;
  br_msgs : Forall2 (msg_rep m) ns (message_q b);
  br_available : cell m (p, ["available"]) = Some (INT (available b));
  br_headoffset : cell m (p, ["headoffset"]) = Some (INT (headoffset b));
  br_qlen : cell m (p, ["qlen"]) = Some (INT (qlen b));
  br_sep : NoDup (p :: msgs_owned ns);
  br_ok : mem_ok m
}.

(** An operation of a BIO with the messages [ns] that leaves the messages [ns']. *)
Abbreviation bio_step p ns ns' := (heap_step (λ _, False) (p :: msgs_owned ns) (p :: msgs_owned ns')).

Section lemmas.
Implicit Types (m : mem) (p x : ptr) (n : mnode) (ns : list mnode) (b : tlsuv_BIO) (g : msg).

Lemma msgs_owned_cons n ns : msgs_owned (n :: ns) = mn_obj n :: mn_buf n :: msgs_owned ns.
Proof. done. Qed.
Lemma msgs_owned_app ns1 ns2 : msgs_owned (ns1 ++ ns2) = msgs_owned ns1 ++ msgs_owned ns2.
Proof. unfold msgs_owned. by rewrite flat_map_app. Qed.
Lemma msg_obj_owned x ns : x ∈ map mn_obj ns → x ∈ msgs_owned ns.
Proof.
  intros (n & -> & Hn)%list_elem_of_fmap. unfold msgs_owned. apply list_elem_of_In, in_flat_map. exists n.
  split; [by apply list_elem_of_In|by left].
Qed.

Lemma msgs_live ns q m x : Forall2 (msg_rep m) ns q → x ∈ msgs_owned ns → is_Some (objs m !! x).
Proof.
  induction 1 as [|n g ns q [A B C] F IH]; rewrite ?msgs_owned_cons; [by intros ?%elem_of_nil|].
  rewrite !elem_of_cons. intros [->|[->|Hx]]; [by eapply (cell_live m (_, _))|by eapply buf_live|auto].
Qed.
Lemma bio_live p ns b m x : bio_rep p ns b m → x ∈ p :: msgs_owned ns → is_Some (objs m !! x).
Proof.
  intros [_ F A _ _ _ _] [->|Hx]%elem_of_cons; [by eapply (cell_live m (_, _))|by eapply msgs_live].
Qed.

(** The cells of the queue are links: no counter, length or pointer to a buffer is one of them. *)
Lemma bio_cells p ns c : c ∈ stailq_cells "next" (bio_q p) (map mn_obj ns) →
  c.1 ∈ p :: msgs_owned ns ∧ length c.2 = 2%nat.
Proof.
  rewrite stailq_cells_elem. intros [->|[->|(x & Hx%msg_obj_owned & ->)]]; split; try done; cbn; [left..|by right].
Qed.

Lemma msgs_agree m m' ns q :
  (∀ x f, x ∈ msgs_owned ns → cell m' (x, [f]) = cell m (x, [f])) →
  (∀ x, x ∈ msgs_owned ns → buf_at m' x = buf_at m x) →
  Forall2 (msg_rep m) ns q → Forall2 (msg_rep m') ns q.
Proof.
  intros Hc Hb H. revert Hc Hb. induction H as [|n g ns q [A B C] F IH]; intros Hc Hb; constructor.
  - rewrite msgs_owned_cons in *. split; rewrite ?Hc, ?Hb by (clear; set_solver); done.
  - apply IH; intros; [apply Hc|apply Hb]; rewrite msgs_owned_cons; by do 2 right.
Qed.
Lemma bio_agree p ns b m m' :
  (∀ c, c.1 ∈ p :: msgs_owned ns → cell m' c = cell m c) →
  (∀ x, x ∈ msgs_owned ns → buf_at m' x = buf_at m x) → mem_ok m' →
  bio_rep p ns b m → bio_rep p ns b m'.
Proof.
  intros Hc Hb Ok [Q F A B C S _].
  split; rewrite ?Hc by (cbn; left); try done.
  - eapply stailq_rep_agree; [|exact Q]. intros c [? _]%bio_cells. by apply Hc.
  - eapply msgs_agree; [..|exact F]; [|done]. intros. apply Hc. by right.
Qed.

(** ** The counters *)

Inductive counter := Available | Headoffset | Qlen.
Definition counter_name (c : counter) : string :=
  match c with Available => "available" | Headoffset => "headoffset" | Qlen => "qlen" end.
Definition counter_get (c : counter) b : Z :=
  match c with Available => available b | Headoffset => headoffset b | Qlen => qlen b end.
Definition counter_set (c : counter) (z : Z) b : tlsuv_BIO :=
  match c with
  | Available => b <| available := z |>
  | Headoffset => b <| headoffset := z |>
  | Qlen => b <| qlen := z |>
  end.

Lemma counter_cell c p ns b m : bio_rep p ns b m → cell m (p, [counter_name c]) = Some (INT (counter_get c b)).
Proof. intros []. by destruct c. Qed.
Lemma wp_load_int m x f z (Q : Z → mem → Prop) :
  cell m (x, [f]) = Some (INT z) → Q z m → wp (load_int (PTR x) f) Q m.
Proof. intros E HQ. unfold load_int. wp_simpl. by eapply wp_load. Qed.
Lemma wp_load_counter c p ns b m (Q : Z → mem → Prop) :
  bio_rep p ns b m → Q (counter_get c b) m → wp (load_int (PTR p) (counter_name c)) Q m.
Proof. intros R HQ. eapply wp_load_int; [by eapply counter_cell|done]. Qed.

Lemma bio_set_counter c z p ns b m : bio_rep p ns b m →
  bio_rep p ns (counter_set c z b) (set_cell m (p, [counter_name c]) (INT z)).
Proof.
  intros R. pose proof (counter_cell c _ _ _ _ R) as E. destruct R as [Q F A B C S Ok].
  assert (p ∉ msgs_owned ns) as Hp by (by apply NoDup_cons in S as [? _]).
  split.
  - eapply stailq_rep_agree; [|exact Q]. intros a [_ Ha]%bio_cells. apply cell_set_ne. by intros <-.
  - replace (message_q (counter_set c z b)) with (message_q b) by (by destruct c).
    eapply msgs_agree; [..|exact F]; intros; [|by apply buf_at_set]. apply cell_set_ne. intros [= -> _]. done.
  - destruct c; [by erewrite cell_set_eq|by rewrite cell_set_ne..].
  - destruct c; [by rewrite cell_set_ne|by erewrite cell_set_eq|by rewrite cell_set_ne].
  - destruct c; [by rewrite cell_set_ne..|by erewrite cell_set_eq].
  - done.
  - by apply mem_ok_set.
Qed.
Lemma wp_store_counter c z p ns b m (Q : unit → mem → Prop) : bio_rep p ns b m →
  (∀ m', bio_rep p ns (counter_set c z b) m' → touches [(p, [counter_name c])] m m' → Q tt m') →
  wp (store_int (PTR p) (counter_name c) z) Q m.
Proof.
  intros R HQ. unfold store_int. wp_simpl. eapply wp_store; [by eapply counter_cell|].
  apply HQ; [by apply bio_set_counter|by apply touches_set; left].
Qed.
(** A write to a field of an object that is owned. *)
Lemma step_field (o : list ptr) x f m m' :
  x ∈ o → (∀ y, y ∈ o → is_Some (objs m !! y)) → touches [(x, f)] m m' → heap_step (λ _, False) o o m m'.
Proof. intros Hx Ho. apply step_touches; [|done]. intros b ->%list_elem_of_singleton. by right. Qed.
Lemma bio_step_counter c p ns b m m' :
  bio_rep p ns b m → touches [(p, [counter_name c])] m m' → bio_step p ns ns m m'.
Proof. intros R. apply step_field; [left|]. intros y. by apply (bio_live _ _ b). Qed.

(** ** Adding a message *)

Lemma bio_alloc p ns b m o : bio_rep p ns b m →
  bio_rep p ns b (mkmem (<[brk m := o]> (objs m)) (Pos.succ (brk m))).
Proof.
  intros R. pose proof (br_ok _ _ _ _ R) as Ok.
  assert (∀ x, x ∈ p :: msgs_owned ns → x ≠ brk m) as Hf by (intros x Hx; eapply mem_ok_fresh, bio_live; done).
  eapply bio_agree; [..|exact R]; intros.
  - by apply cell_alloc, Hf.
  - apply buf_at_alloc, Hf. by right.
  - by apply mem_ok_alloc.
Qed.
Lemma brk_notin p ns b m : bio_rep p ns b m → brk m ∉ p :: msgs_owned ns.
Proof. intros R Hx. by eapply (mem_ok_fresh m (brk m)); [eapply br_ok|eapply bio_live|]. Qed.

(** A message beside the BIO: allocated, not yet linked. *)
Record loose_msg p ns n g m : Prop := {
  lm_rep : msg_rep m n g;
  lm_next : is_Some (cell m (mn_obj n, ["next"; "stqe_next"]));
  lm_sep : NoDup (p :: msgs_owned (n :: ns))
}.
Lemma msg_rep_agree m m' n g :
  (∀ f, cell m' (mn_obj n, [f]) = cell m (mn_obj n, [f])) → buf_at m' (mn_buf n) = buf_at m (mn_buf n) →
  msg_rep m n g → msg_rep m' n g.
Proof. intros Hc Hb [A B C]. split; by rewrite ?Hc, ?Hb. Qed.

Lemma malloc_spec p ns b m : bio_rep p ns b m →
  wp (malloc msg_fields) (λ v m', ∃ x, v = PTR x ∧ bio_rep p ns b m' ∧ (x ∉ p :: msgs_owned ns) ∧
    (∀ f, f ∈ msg_fields → cell m' (x, f) = Some UNDEF) ∧
    heap_step (λ _, False) (p :: msgs_owned ns) (x :: p :: msgs_owned ns) m m') m.
Proof.
  intros R. apply wp_alloc. exists (brk m). split_and!; [done|by apply bio_alloc|by eapply brk_notin|..].
  - intros f Hf. by apply cell_malloc.
  - apply step_alloc; [by eapply br_ok|]. intros z. by eapply bio_live.
Qed.
Lemma fill_spec p ns b buf x m : bio_rep p ns b m → x ∉ p :: msgs_owned ns →
  (∀ f, f ∈ msg_fields → cell m (x, f) = Some UNDEF) →
  wp (fill_msg (PTR x) buf) (λ _ m', ∃ y, bio_rep p ns b m' ∧ loose_msg p ns (mkmnode x y) (mkmsg buf) m' ∧
    heap_step (λ _, False) (x :: p :: msgs_owned ns) (p :: msgs_owned (mkmnode x y :: ns)) m m') m.
Proof.
  intros R Hx Hf. unfold fill_msg, store_int. wp_simpl. apply wp_alloc.
  assert (∀ z, z ∈ x :: p :: msgs_owned ns → is_Some (objs m !! z)) as Hl.
  { intros z [->|Hz]%elem_of_cons; [|by eapply bio_live]. eapply (cell_live m (x, ["len"])), Hf. elem. }
  pose proof (br_ok _ _ _ _ R) as Ok. pose proof (step_alloc (λ _, False) _ m (OBuf buf) Ok Hl) as S1.
  pose proof (bio_alloc _ _ _ _ (OBuf buf) R) as R1. set (m1 := mkmem _ _) in *.
  assert (∀ z, z ∈ x :: p :: msgs_owned ns → z ≠ brk m) as Hy by (intros z Hz; eapply mem_ok_fresh, Hl; done).
  assert (∀ f, f ∈ msg_fields → cell m1 (x, f) = Some UNDEF) as Hf1.
  { intros f Hin. unfold m1. rewrite cell_alloc; [by apply Hf|]. cbn. apply Hy. left. }
  wp_simpl. eapply wp_store; [apply Hf1; elem|]. wp_simpl.
  eapply wp_store; [rewrite cell_set_ne by done; apply Hf1; elem|].
  set (m2 := set_cell _ _ _). assert (touches [(x, ["buf"]); (x, ["len"])] m1 m2) as T.
  { eapply touches_trans; apply touches_set; elem. }
  assert (∀ c, c ∈ [(x, ["buf"]); (x, ["len"])] → c.1 = x ∧ length c.2 = 1%nat) as Hc.
  { intros c. rewrite !elem_of_cons, elem_of_nil. by intros [->|[->|[]]]. }
  exists (brk m). split_and!.
  - eapply bio_agree; [..|exact R1].
    + intros c Hin. apply (t_cell _ _ _ T). intros [E _]%Hc. by rewrite E in Hin.
    + intros z _. apply (t_buf _ _ _ T).
    + eapply touches_ok; [exact T|]. by eapply br_ok.
  - split; cbn [mn_obj mn_buf].
    + split; cbn [mn_obj mn_buf].
      * eapply cell_set_eq. rewrite cell_set_ne by done. apply Hf1. elem.
      * unfold m2. rewrite cell_set_ne by done. eapply cell_set_eq, Hf1. elem.
      * rewrite (t_buf _ _ _ T). unfold buf_at, m1. cbn. by rewrite lookup_insert_eq.
    + rewrite (t_cell _ _ _ T) by (by intros [_ ?]%Hc). rewrite Hf1 by elem. eauto.
    + eapply NoDup_Permutation_proper; [|apply (NoDup_cons_2 (brk m)); [|apply (NoDup_cons_2 x _ Hx (br_sep _ _ _ _ R))]];
        [rewrite msgs_owned_cons; cbn; solve_Permutation|]. by intros ?%Hy.
  - eapply step_trans; [exact S1|]. eapply step_equiv; [done| |eapply step_touches; [..|exact T]].
    + intros z. rewrite msgs_owned_cons. cbn. rewrite !elem_of_cons. tauto.
    + intros c [-> _]%Hc. right. right. left.
    + intros z Hz. apply S1. by left.
Qed.

Lemma insert_spec p ns b n g m : bio_rep p ns b m → loose_msg p ns n g m →
  wp (STAILQ_INSERT_TAIL (bio_q p) (PTR (mn_obj n)) "next") (λ _ m',
    bio_rep p (ns ++ [n]) (b <| message_q := message_q b ++ [g] |>) m' ∧ bio_step p (n :: ns) (ns ++ [n]) m m') m.
Proof.
  intros R [G [w Hn] Sep]. pose proof (λ z, bio_live _ _ _ _ z R) as Hl. destruct R as [Q F A B C S Ok].
  assert (mn_obj n ∉ map mn_obj ns) as Hni.
  { intros ?%msg_obj_owned. rewrite msgs_owned_cons in Sep. apply NoDup_cons in Sep as [_ [Sep _]%NoDup_cons].
    apply Sep. by right. }
  eapply wp_mono; [eapply STAILQ_INSERT_TAIL_rep; eauto|]. intros _ m' [Q' T].
  change [mn_obj n] with (map mn_obj [n]) in *. rewrite <-map_app in Q', T.
  assert (∀ z f, cell m' (z, [f]) = cell m (z, [f])) as Hc.
  { intros z f. apply (t_cell _ _ _ T). by intros [_ ?]%bio_cells. }
  assert (∀ z, z ∈ msgs_owned (n :: ns) ↔ z ∈ msgs_owned (ns ++ [n])) as Hm.
  { intros z. rewrite msgs_owned_app, !msgs_owned_cons. unfold msgs_owned at 3. cbn. set_solver. }
  split; [split|]; rewrite ?Hc; try done.
  - apply Forall2_app; [|constructor; [|constructor]].
    + eapply msgs_agree; [..|exact F]; intros; [apply Hc|apply (t_buf _ _ _ T)].
    + eapply msg_rep_agree; [..|exact G]; intros; [apply Hc|apply (t_buf _ _ _ T)].
  - eapply NoDup_Permutation_proper; [|exact Sep]. rewrite msgs_owned_app, !msgs_owned_cons. unfold msgs_owned at 2. cbn. solve_Permutation.
  - by eapply touches_ok.
  - eapply (step_equiv _ _ _ (p :: msgs_owned (n :: ns))); [done|intros z; by rewrite !elem_of_cons, Hm|].
    eapply step_touches; [..|exact T].
    + intros c [Hc1 _]%bio_cells. right. by rewrite elem_of_cons, Hm, <-elem_of_cons.
    + intros z. rewrite msgs_owned_cons, !elem_of_cons. destruct G. intros [->|[->|[->|Hz]]];
        [apply Hl; left|by eapply (cell_live m (_, _))|by eapply buf_live|apply Hl; by right].
Qed.

(** Freeing an object beside the BIO. *)
Lemma bio_free p ns b m x : bio_rep p ns b m → x ∉ p :: msgs_owned ns →
  bio_rep p ns b (mkmem (delete x (objs m)) (brk m)).
Proof.
  intros R Hx. eapply bio_agree; [..|exact R].
  - intros c Hc. apply cell_free. intros E. by rewrite E in Hc.
  - intros z Hz. apply buf_at_free. intros ->. apply Hx. by right.
  - by eapply mem_ok_free, br_ok.
Qed.
Lemma step_free_head (o : list ptr) m x :
  x ∉ o → (∀ z, z ∈ x :: o → is_Some (objs m !! z)) →
  heap_step (λ _, False) (x :: o) o m (mkmem (delete x (objs m)) (brk m)).
Proof.
  intros Hx Hl. apply step_free; [|left|done]. intros z. rewrite elem_of_cons.
  split; [|naive_solver]. intros Hz. split; [by right|]. by intros ->.
Qed.

Lemma mem_put_spec msg_ok buf_ok p ns b buf m : bio_rep p ns b m →
  wp (mem_BIO_put msg_ok buf_ok (PTR p) buf) (λ rc m', ∃ ns',
    rc = (tlsuv_BIO_put msg_ok buf_ok b buf).1 ∧
    bio_rep p ns' (tlsuv_BIO_put msg_ok buf_ok b buf).2 m' ∧ bio_step p ns ns' m m') m.
Proof.
  intros R. pose proof (λ z, bio_live _ _ _ _ z R) as Hl. unfold mem_BIO_put. destruct msg_ok; cbn [negb]; last first.
  { wp_simpl. exists ns. split_and!; [done..|]. by eapply (step_touches _ _ []); [intros ? ?%elem_of_nil| |apply touches_refl]. }
  wp_call (by eapply malloc_spec). intros v m1 (x & -> & R1 & Hx & Hf & S1). destruct buf_ok; cbn [negb]; last first.
  { wp_simpl. assert (∀ z, z ∈ x :: p :: msgs_owned ns → is_Some (objs m1 !! z)) as Hl1 by (intros; apply S1; by left).
    apply wp_free; [apply Hl1; left|]. wp_simpl. exists ns. split_and!; [done|by apply bio_free|].
    eapply step_trans; [exact S1|]. by apply step_free_head. }
  wp_call (by eapply fill_spec). intros _ m2 (y & R2 & L2 & S2). wp_call (exact (insert_spec _ _ _ _ _ _ R2 L2)).
  intros _ m3 (R3 & S3). wp_simpl. eapply (wp_load_counter Available); [done|]. wp_simpl.
  eapply (wp_store_counter Available); [done|]. intros m4 R4 T4. wp_simpl.
  eapply (wp_load_counter Qlen); [done|]. wp_simpl. eapply (wp_store_counter Qlen); [done|]. intros m5 R5 T5. wp_simpl.
  eexists. split_and!; [done|exact R5|]. eapply step_trans; [exact S1|]. eapply step_trans; [exact S2|].
  eapply step_trans; [exact S3|]. eapply step_trans; [by eapply (bio_step_counter Available)|].
  by eapply (bio_step_counter Qlen).
Qed.

(** ** Removing a message *)

Lemma remove_spec p n ns b g q m : bio_rep p (n :: ns) b m → message_q b = g :: q →
  wp (STAILQ_REMOVE_HEAD (bio_q p) "next") (λ _ m',
    bio_rep p ns (b <| message_q := q |>) m' ∧ msg_rep m' n g ∧ bio_step p (n :: ns) (n :: ns) m m') m.
Proof.
  intros R E. pose proof (λ z, bio_live _ _ _ _ z R) as Hl. destruct R as [Q F A B C S Ok].
  eapply wp_mono; [by eapply STAILQ_REMOVE_HEAD_rep|]. intros _ m' [Q' T].
  rewrite E in F. apply Forall2_cons_1 in F as [G F].
  assert (∀ z f, cell m' (z, [f]) = cell m (z, [f])) as Hc.
  { intros z f. apply (t_cell _ _ _ T). by intros [_ ?]%(bio_cells p []). }
  split_and!; [split|..]; rewrite ?Hc; try done.
  - eapply msgs_agree; [..|exact F]; intros; [apply Hc|apply (t_buf _ _ _ T)].
  - rewrite msgs_owned_cons in S. eapply sublist_NoDup; [exact S|]. by do 3 constructor.
  - by eapply touches_ok.
  - eapply msg_rep_agree; [..|exact G]; intros; [apply Hc|apply (t_buf _ _ _ T)].
  - eapply step_touches; [|done|exact T]. intros c [Hc1 _]%(bio_cells p []). right.
    apply elem_of_cons in Hc1 as [->|?%elem_of_nil]; [left|done].
Qed.
Lemma free_msg_spec p n ns b g m : bio_rep p ns b m → msg_rep m n g → NoDup (p :: msgs_owned (n :: ns)) →
  wp (free_msg (PTR (mn_obj n))) (λ _ m', bio_rep p ns b m' ∧ bio_step p (n :: ns) ns m m') m.
Proof.
  intros R [A B C] S. rewrite msgs_owned_cons in S. unfold free_msg. wp_simpl. eapply wp_load; [exact B|done|].
  assert (NoDup (mn_buf n :: mn_obj n :: p :: msgs_owned ns)) as [H1 [H2 _]%NoDup_cons]%NoDup_cons.
  { eapply NoDup_Permutation_proper; [|exact S]. solve_Permutation. }
  apply not_elem_of_cons in H1 as [H0 H1].
  assert (∀ z, z ∈ mn_buf n :: mn_obj n :: p :: msgs_owned ns → is_Some (objs m !! z)) as Hl.
  { intros z. rewrite elem_of_cons, elem_of_cons. intros [->|[->|Hz]];
      [by eapply buf_live|by eapply (cell_live m (_, _))|by eapply bio_live]. }
  wp_simpl. apply wp_free; [apply Hl; left|]. pose proof (bio_free _ _ _ _ _ R H1) as R1.
  assert (heap_step (λ _, False) (mn_buf n :: mn_obj n :: p :: msgs_owned ns) (mn_obj n :: p :: msgs_owned ns)
            m (mkmem (delete (mn_buf n) (objs m)) (brk m))) as S1.
  { apply step_free_head; [|done]. by intros [?|?]%elem_of_cons. }
  set (m1 := mkmem _ _) in *.
  assert (∀ z, z ∈ mn_obj n :: p :: msgs_owned ns → is_Some (objs m1 !! z)) as Hl1 by (intros; apply S1; by left).
  apply wp_free; [apply Hl1; left|]. split; [by apply bio_free|].
  eapply step_equiv; [|done|eapply step_trans; [exact S1|by apply step_free_head]].
  intros z. rewrite msgs_owned_cons, !elem_of_cons. tauto.
Qed.

(** ** Reading *)

Lemma first_msg p n ns b g q m : bio_rep p (n :: ns) b m → message_q b = g :: q → msg_rep m n g.
Proof. intros [_ F _ _ _ _ _] E. rewrite E in F. by apply Forall2_cons_1 in F as [? _]. Qed.
Lemma msg_rep_counter c p n g m m' : touches [(p, [counter_name c])] m m' → p ≠ mn_obj n →
  msg_rep m n g → msg_rep m' n g.
Proof.
  intros T Hp. apply msg_rep_agree; [|apply (t_buf _ _ _ T)]. intros f. apply (t_cell _ _ _ T).
  by intros [= ? _]%list_elem_of_singleton.
Qed.

Lemma bio_copy_spec p n ns b g q room bytes m : bio_rep p (n :: ns) b m → message_q b = g :: q →
  let r := Z.min room (u64 (msg_len g - headoffset b)) in
  read_slice (msg_buf g) (headoffset b) r = Ret bytes →
  wp (mem_copy (PTR p) (PTR (mn_obj n)) room) (λ res m', res = (r, bytes) ∧
    bio_rep p (n :: ns) (b <| headoffset := u64 (headoffset b + r) |> <| available := u64 (available b - r) |>) m' ∧
    bio_step p (n :: ns) (n :: ns) m m') m.
Proof.
  intros R E r Hs. destruct (first_msg _ _ _ _ _ _ _ R E) as [A B C]. unfold mem_copy. wp_simpl.
  eapply wp_load_int; [exact A|]. wp_simpl. eapply (wp_load_counter Headoffset); [done|]. wp_simpl.
  eapply wp_load; [exact B|done|]. wp_simpl. eapply wp_load_buf; [exact C|]. wp_simpl.
  eapply wp_liftO; [exact Hs|]. wp_simpl. eapply (wp_load_counter Headoffset); [done|]. wp_simpl.
  eapply (wp_store_counter Headoffset); [done|]. intros m1 R1 T1. wp_simpl.
  eapply (wp_load_counter Available); [done|]. wp_simpl. eapply (wp_store_counter Available); [done|].
  intros m2 R2 T2. wp_simpl. split_and!; [done|exact R2|].
  eapply step_trans; [by eapply (bio_step_counter Headoffset)|by eapply (bio_step_counter Available)].
Qed.

(** The BIO after an iteration that read up to its head offset. *)
Definition drop_read b g q : tlsuv_BIO :=
  if headoffset b =? msg_len g then b <| message_q := q |> <| headoffset := 0 |> <| qlen := u32 (qlen b - 1) |> else b.
Lemma drop_read_spec p n ns b g q m : bio_rep p (n :: ns) b m → message_q b = g :: q →
  wp (mem_drop_read (PTR p) (PTR (mn_obj n))) (λ _ m', ∃ ns',
    bio_rep p ns' (drop_read b g q) m' ∧ bio_step p (n :: ns) ns' m m') m.
Proof.
  intros R E. pose proof (λ z, bio_live _ _ _ _ z R) as Hl. unfold mem_drop_read, drop_read. wp_simpl.
  eapply (wp_load_counter Headoffset); [done|]. wp_simpl. eapply wp_load_int; [by eapply first_msg|]. cbn [counter_get].
  destruct (headoffset b =? msg_len g).
  - pose proof (br_sep _ _ _ _ R) as S. assert (p ≠ mn_obj n) as Hp.
    { intros ->. rewrite msgs_owned_cons in S. apply NoDup_cons in S as [S _]. apply S. left. }
    wp_call (by eapply remove_spec). intros _ m1 (R1 & G1 & S1).
    wp_simpl. eapply (wp_store_counter Headoffset); [done|]. intros m2 R2 T2. wp_simpl.
    eapply (wp_load_counter Qlen); [done|]. wp_simpl. eapply (wp_store_counter Qlen); [done|]. intros m3 R3 T3.
    assert (msg_rep m3 n g) as G3 by (eapply (msg_rep_counter Qlen), (msg_rep_counter Headoffset); done).
    eapply wp_mono; [exact (free_msg_spec _ _ _ _ _ _ R3 G3 S)|]. intros _ m4 [R4 S4]. exists ns. split; [exact R4|].
    assert (∀ z, z ∈ p :: msgs_owned (n :: ns) → is_Some (objs m1 !! z)) as Hl1 by (intros; apply S1; by left).
    eapply step_trans; [exact S1|]. eapply step_trans; [by eapply step_field; [left| |exact T2]|].
    eapply step_trans; [|exact S4]. eapply step_field; [left| |exact T3]. intros z Hz. by apply (t_live _ _ _ T2), Hl1.
  - wp_simpl. exists (n :: ns). split; [done|].
    by eapply (step_touches _ _ []); [intros ? ?%elem_of_nil| |apply touches_refl].
Qed.

Lemma read_loop_shrinks fuel : ∀ b len total out b' total' out',
  BIO_read_loop fuel b len total out = Ret (b', total', out') → (length (message_q b') ≤ length (message_q b))%nat.
Proof.
  induction fuel as [|fuel IH]; intros b len total out b' total' out'; cbn; destruct (message_q b) as [|g q] eqn:E;
    [|destruct (total <? len)| |destruct (total <? len)]; try by intros [= <- <- <-]; rewrite E.
  destruct (read_slice _ _ _) as [bytes|]; [|done]. cbn. intros H%IH. etrans; [exact H|]. case_if; cbn; [|rewrite E]; cbn; lia.
Qed.
Lemma mem_empty_spec p ns b m : bio_rep p ns b m →
  STAILQ_EMPTY (bio_q p) m = Ret (bool_decide (message_q b = []), m).
Proof.
  intros [Q F _ _ _ _ _]. erewrite STAILQ_EMPTY_rep by exact Q. do 2 f_equal. apply bool_decide_ext.
  by destruct F.
Qed.
Lemma mem_read_loop_spec fuel : ∀ p ns b len total out m b' total' out', bio_rep p ns b m →
  BIO_read_loop fuel b len total out = Ret (b', total', out') →
  wp (mem_read_loop fuel (PTR p) len total out) (λ r m', r = (total', out') ∧ ∃ ns',
    bio_rep p ns' b' m' ∧ bio_step p ns ns' m m') m.
Proof.
  induction fuel as [|fuel IH]; intros p ns b len total out m b' total' out' R;
    pose proof (λ z, bio_live _ _ _ _ z R) as Hl;
    assert (bio_step p ns ns m m) as S0 by (by eapply (step_touches _ _ []); [intros ? ?%elem_of_nil| |apply touches_refl]);
    cbn [mem_read_loop BIO_read_loop]; wp_simpl; unfold wp at 1; erewrite mem_empty_spec by done;
    pose proof (br_msgs _ _ _ _ R) as F; destruct (message_q b) as [|g q] eqn:E;
    [|destruct (total <? len)| |destruct (total <? len)]; try done;
    try (intros [= <- <- <-]; first [rewrite bool_decide_eq_true_2 by done | rewrite bool_decide_eq_false_2 by done];
         wp_simpl; by eauto).
  inversion F as [|n ? ns0 ? G F0]; subst. destruct (read_slice _ _ _) as [bytes|] eqn:Hs; [|done].
  cbn [mbind outcome_bind]. intros Hloop. rewrite bool_decide_eq_false_2 by done. wp_simpl.
  unfold wp at 1. erewrite STAILQ_FIRST_rep by (by eapply br_queue). cbn [map first_of].
  wp_call (by eapply bio_copy_spec). intros x m1 (-> & R1 & S1). wp_call (by eapply drop_read_spec).
  intros _ m2 (ns2 & R2 & S2). eapply wp_mono; [eapply IH; [exact R2|exact Hloop]|].
  intros r m3 (-> & ns3 & R3 & S3). split; [done|]. exists ns3. split; [done|].
  eapply step_trans; [exact S1|]. by eapply step_trans.
Qed.
(** With fuel for every message: the bytes, their count and the rest of a FIFO. *)
Lemma mem_read_spec p ns b len fuel m : bio_rep p ns b m → bio_wf b → 0 ≤ len < 2147483648 →
  (length ns < fuel)%nat →
  wp (mem_BIO_read fuel (PTR p) len) (λ r m', ∃ ns' b',
    r = (Z.of_nat (length (take (Z.to_nat len) (content b))), take (Z.to_nat len) (content b)) ∧
    bio_rep p ns' b' m' ∧ bio_wf b' ∧ content b' = drop (Z.to_nat len) (content b) ∧
    (length ns' ≤ length ns)%nat ∧ bio_step p ns ns' m m') m.
Proof.
  intros R Hwf Hlen Hf. pose proof (Forall2_length _ _ _ (br_msgs _ _ _ _ R)) as Hq.
  destruct (BIO_read_loop_spec fuel b len 0 [] Hwf) as (b' & E & Hwf' & Hc); [lia..|]. rewrite Z.sub_0_r in *.
  unfold mem_BIO_read. wp_call (by eapply mem_read_loop_spec). intros r m1 (-> & ns' & R' & S'). wp_simpl.
  cbn [app]. exists ns', b'. rewrite i32_small by (rewrite length_take; lia). split_and!; try done.
  rewrite (Forall2_length _ _ _ (br_msgs _ _ _ _ R')), Hq. by eapply read_loop_shrinks.
Qed.

(** ** The life of a BIO *)

Lemma bio_zero_cells m k : let m1 := mkmem (<[brk m := bio_zero]> (objs m)) k in
  cell m1 (brk m, ["available"]) = Some (INT 0) ∧ cell m1 (brk m, ["headoffset"]) = Some (INT 0) ∧
  cell m1 (brk m, ["qlen"]) = Some (INT 0) ∧ cell m1 (sub (bio_q (brk m)) "stqh_first") = Some NULL ∧
  cell m1 (sub (bio_q (brk m)) "stqh_last") = Some NULL.
Proof. cbn zeta. unfold sub. cbn [fst snd app]. by rewrite !cell_alloc_new. Qed.
Lemma mem_new_spec m : mem_ok m →
  wp (mem_BIO_new true) (λ v m', ∃ p, v = PTR p ∧ bio_rep p [] tlsuv_BIO_new m' ∧
    heap_step (λ _, False) [] [p] m m') m.
Proof.
  intros Ok. unfold mem_BIO_new, store_int. wp_simpl. apply wp_alloc.
  pose proof (step_alloc (λ _, False) [] m bio_zero Ok ltac:(by intros ? ?%elem_of_nil)) as S1.
  pose proof (mem_ok_alloc m bio_zero Ok) as Ok1.
  pose proof (bio_zero_cells m (Pos.succ (brk m))) as (A & B & C & D & E).
  set (p := brk m) in *. set (m1 := mkmem _ _) in *. wp_simpl.
  do 3 (eapply wp_store; [cells; eassumption|]; wp_simpl).
  wp_call (eapply (STAILQ_INIT_rep "next"); [eexists; cells; eassumption..]). intros _ m3 [Q T]. wp_simpl.
  pose proof (λ f, t_cell _ _ _ T (p, [f]) ltac:(by intros [_ ?]%(bio_cells p []))) as Hf.
  exists p. split; [done|]. split; [split|]; rewrite ?Hf; try (cells; done).
  - apply NoDup_singleton.
  - eapply touches_ok; [exact T|]. by do 3 apply mem_ok_set.
  - eapply step_trans; [exact S1|].
    eapply (step_touches _ _ ([(p, ["available"]); (p, ["headoffset"]); (p, ["qlen"])] ++ stailq_cells "next" (bio_q p) [])).
    + intros c [Hc1|[Hc1 _]%(bio_cells p [])]%elem_of_app; right; [|done].
      rewrite !elem_of_cons, elem_of_nil in Hc1. by destruct Hc1 as [->|[->|[->|[]]]]; left.
    + intros z Hz. apply S1. by left.
    + eapply touches_trans; [|eapply touches_mono; [|exact T]; set_solver].
      do 2 (eapply touches_trans; [|apply touches_set; elem]). apply touches_set; elem.
Qed.

Lemma mem_free_msgs_spec fuel : ∀ p ns b m, bio_rep p ns b m → (length ns ≤ fuel)%nat →
  wp (mem_free_msgs fuel (PTR p)) (λ _ m', bio_rep p [] (b <| message_q := [] |>) m' ∧ bio_step p ns [] m m') m.
Proof.
  induction fuel as [|fuel IH]; intros p ns b m R Hf; pose proof (λ z, bio_live _ _ _ _ z R) as Hl;
    cbn [mem_free_msgs]; wp_simpl; unfold wp at 1; erewrite mem_empty_spec by done;
    pose proof (br_msgs _ _ _ _ R) as F; destruct (message_q b) as [|g q] eqn:E; inversion F as [|n ? ns0 ? G F0]; subst;
    cbn in Hf; try lia.
  1-2: rewrite bool_decide_eq_true_2 by done; wp_simpl; split;
    [destruct b; cbn in E; by subst|by eapply (step_touches _ _ []); [intros ? ?%elem_of_nil| |apply touches_refl]].
  rewrite bool_decide_eq_false_2 by done. wp_simpl.
  unfold wp at 1. erewrite STAILQ_FIRST_rep by (by eapply br_queue). cbn [map first_of].
  pose proof (br_sep _ _ _ _ R) as S. wp_call (by eapply remove_spec). intros _ m1 (R1 & G1 & S1).
  wp_call (exact (free_msg_spec _ _ _ _ _ _ R1 G1 S)). intros _ m2 [R2 S2].
  eapply wp_mono; [eapply IH; [exact R2|lia]|]. intros _ m3 [R3 S3]. split; [exact R3|].
  eapply step_trans; [exact S1|]. by eapply step_trans.
Qed.
Lemma bio_free_spec fuel p ns b m : bio_rep p ns b m → (length ns ≤ fuel)%nat →
  wp (mem_BIO_free fuel (PTR p)) (λ _ m', mem_ok m' ∧ heap_step (λ _, False) (p :: msgs_owned ns) [] m m') m.
Proof.
  intros R Hf. unfold mem_BIO_free. wp_call (by eapply mem_free_msgs_spec). intros _ m1 [R1 S1].
  apply wp_free; [eapply bio_live; [done|left]|]. split; [by eapply mem_ok_free, br_ok|].
  eapply step_trans; [exact S1|]. apply step_free_head; [by intros ?%elem_of_nil|]. intros z Hz. exact (bio_live _ _ _ _ _ R1 Hz).
Qed.
Lemma mem_available_spec p ns b m : bio_rep p ns b m → mem_BIO_available (PTR p) m = Ret (available b, m).
Proof.
  intros R. unfold mem_BIO_available, load_int, mbind, M_bind. cbn. unfold load.
  by rewrite (br_available _ _ _ _ R).
Qed.
Lemma bio_set_other p ns b m a v : bio_rep p ns b m → a.1 ∉ p :: msgs_owned ns → bio_rep p ns b (set_cell m a v).
Proof.
  intros R Ha. eapply bio_agree; [..|exact R]; [|intros; apply buf_at_set|by eapply mem_ok_set, br_ok].
  intros c Hc. apply cell_set_ne. by intros ->.
Qed.
(** A BIO depends on its own objects only. *)
Lemma bio_frame p ns b m m' : (∀ c, c.1 ∈ p :: msgs_owned ns → cell m' c = cell m c) →
  (∀ x, x ∈ p :: msgs_owned ns → buf_at m' x = buf_at m x) → mem_ok m' → bio_rep p ns b m → bio_rep p ns b m'.
Proof. intros Hc Hb. apply bio_agree; [done|]. intros x Hx. apply Hb. by right. Qed.
End lemmas.

(** ** Sequences of operations *)

(** The operations of [fifo_op] on a BIO in memory; returns all the bytes read, in order. *)
Fixpoint mem_run (fuel : nat) (bio : cval) (ops : list fifo_op) : M mem (list Z) :=
  match ops with
  | [] => mret []
  | OpPut d :: ops => _ ← mem_BIO_put true true bio d; mem_run fuel bio ops
  | OpRead n :: ops =>
    '(_, out) ← mem_BIO_read fuel bio n;
    outs ← mem_run fuel bio ops;
    mret (out ++ outs)
  end.

Lemma mem_run_spec fuel p ops : Forall fifo_op_ok ops → ∀ ns b m, bio_rep p ns b m → bio_wf b →
  (length ns + length ops < fuel)%nat →
  wp (mem_run fuel (PTR p) ops) (λ out m', ∃ ns' b', bio_rep p ns' b' m' ∧ bio_wf b' ∧
    out ++ content b' = content b ++ puts ops ∧ (length ns' ≤ length ns + length ops)%nat ∧ bio_step p ns ns' m m') m.
Proof.
  induction 1 as [|[d|n] ops Ho Hops IH]; intros ns b m R Hwf Hf; cbn [mem_run] in *; cbn [length] in Hf.
  - wp_simpl. exists ns, b. cbn. rewrite app_nil_r. split_and!; try done; [lia|].
    eapply (step_touches _ _ []); [by intros ? ?%elem_of_nil| |apply touches_refl]. intros z. by eapply bio_live.
  - wp_call (by eapply mem_put_spec). intros _ m1 (ns1 & _ & R1 & S1).
    assert (length ns1 = S (length ns)) as Hl.
    { pose proof (Forall2_length _ _ _ (br_msgs _ _ _ _ R)). pose proof (Forall2_length _ _ _ (br_msgs _ _ _ _ R1)) as H1.
      cbn in H1. rewrite length_app in H1. cbn in H1. lia. }
    eapply wp_mono; [eapply IH; [exact R1|by apply put_wf|lia]|]. intros out m2 (ns2 & b2 & R2 & W2 & C2 & L2 & S2).
    exists ns2, b2. split_and!; try done; [|cbn; lia|by eapply step_trans].
    rewrite C2, put_content by (apply wf_head, Hwf). by rewrite <-app_assoc.
  - wp_call (eapply mem_read_spec; [done..|lia]). intros r m1 (ns1 & b1 & -> & R1 & W1 & C1 & L1 & S1).
    wp_call (eapply IH; [exact R1|done|lia]). intros outs m2 (ns2 & b2 & R2 & W2 & C2 & L2 & S2). wp_simpl.
    exists ns2, b2. split_and!; try done; [|cbn; lia|by eapply step_trans].
    rewrite <-app_assoc, C2, C1, app_assoc, take_drop. done.
Qed.

(** ** Properties *)

(** C33: The byte queue in memory is a lossless FIFO, from [tlsuv_BIO_new] to [tlsuv_BIO_free]: any
    interleaving of puts and reads runs without a fault, the bytes read followed by those still
    queued are the bytes put, in order, and [tlsuv_BIO_available] is the number of the latter (in
    a [size_t]).  No other object is changed meanwhile, and freeing the queue leaves exactly the
    objects that were there before it was made: no message or buffer is leaked, freed twice or
    used after it was freed. *)
Theorem BIO_memory_fifo ops fuel m : mem_ok m → Forall fifo_op_ok ops → (length ops < fuel)%nat →
  ∃ bio m1 out m2 rest m3,
    mem_BIO_new true m = Ret (bio, m1) ∧
    mem_run fuel bio ops m1 = Ret (out, m2) ∧ out ++ rest = puts ops ∧
    mem_BIO_available bio m2 = Ret (u64 (Z.of_nat (length rest)), m2) ∧
    mem_BIO_free fuel bio m2 = Ret (tt, m3) ∧
    (∀ p, is_Some (objs m3 !! p) ↔ is_Some (objs m !! p)) ∧
    (∀ p, is_Some (objs m !! p) → buf_at m2 p = buf_at m p ∧ buf_at m3 p = buf_at m p) ∧
    (∀ a, is_Some (objs m !! a.1) → cell m2 a = cell m a ∧ cell m3 a = cell m a).
Proof.
  intros Ok Hops Hf.
  pose proof (mem_new_spec m Ok) as (bio & m1 & E1 & p & -> & R1 & S1)%wp_run.
  pose proof (mem_run_spec fuel p ops Hops _ _ _ R1 bio_new_wf Hf) as (out & m2 & E2 & ns & b & R2 & W2 & C2 & L2 & S2)%wp_run.
  pose proof (bio_free_spec fuel p ns b m2 R2 ltac:(cbn in L2; lia)) as ([] & m3 & E3 & _ & S3)%wp_run.
  pose proof (step_trans _ _ _ _ _ _ _ S1 S2) as S12. pose proof (step_trans _ _ _ _ _ _ _ S12 S3) as [A _ C D].
  exists (PTR p), m1, out, m2, (content b), m3. split_and!; try done.
  - erewrite mem_available_spec by done. by rewrite (wf_available _ W2).
  - intros q. rewrite A, elem_of_nil. tauto.
  - intros q Hq. split; [apply S12|apply D]; try done; by intros ?%elem_of_nil.
  - intros a Ha. split; [apply S12|apply C]; try done; try (by intros ?%elem_of_nil); tauto.
Qed.

(** A memory with one other object, and reads that end inside and at the end of a message. *)
Lemma BIO_memory_fifo_witness :
  let m := mkmem {[1%positive := OBuf [9]]} 2 in
  let ops := [OpPut [1; 2; 3]; OpRead 2; OpPut [4]; OpRead 2; OpPut [5; 6]] in
  ∃ bio m1 out m2 rest m3, mem_BIO_new true m = Ret (bio, m1) ∧ mem_run 6 bio ops m1 = Ret (out, m2) ∧
    out ++ rest = [1; 2; 3; 4; 5; 6] ∧ mem_BIO_available bio m2 = Ret (u64 (Z.of_nat (length rest)), m2) ∧
    mem_BIO_free 6 bio m2 = Ret (tt, m3) ∧ (∀ p, is_Some (objs m3 !! p) ↔ is_Some (objs m !! p)).
Proof.
  intros m ops. destruct (BIO_memory_fifo ops 6 m) as (bio & m1 & out & m2 & rest & m3 & H1 & H2 & H3 & H4 & H5 & H6 & _).
  - intros p [o Ho]. cbn in Ho. apply lookup_singleton_Some in Ho as [<- _]. cbn. lia.
  - repeat constructor; cbn; lia.
  - cbn. lia.
  - exists bio, m1, out, m2, rest, m3. split_and!; [exact H1|exact H2|exact H3|exact H4|exact H5|exact H6].
Defined.

(** [tlsuv_BIO_new] writes through the result of [calloc] without looking at it. *)
Lemma BIO_new_without_memory m : mem_BIO_new false m = Fault NullDeref.
Proof. reflexivity. Qed.
(** A BIO that could not store a message is as it was, and what [tlsuv_BIO_put] had allocated is freed. *)
Lemma BIO_put_without_memory msg_ok p ns b buf m : bio_rep p ns b m →
  ∃ m' ns', mem_BIO_put msg_ok false (PTR p) buf m = Ret (-1, m') ∧ bio_rep p ns' b m' ∧ bio_step p ns ns' m m'.
Proof.
  intros R. pose proof (mem_put_spec msg_ok false p ns b buf m R) as (rc & m' & E & ns' & -> & R' & S')%wp_run.
  exists m', ns'. by destruct msg_ok.
Qed.
