(* ===== verification/Base64.v ===== *)
(** * base64url decoding (src/base64.c)

    The input is a NUL-terminated string: its memory is [s ++ [0]].  Reads outside
    it and writes outside the allocated output buffer are [OutOfBounds] faults, so
    the absence of faults is memory safety. *)
From S2P Require Import Prelude.
From stdpp Require Import base list numbers.
From Stdlib Require Import ZArith Lia.
Open Scope Z_scope.

Definition pr2six : list Z := [
  64; 64; 64; 64; 64; 64; 64; 64; 64; 64; 64; 64; 64; 64; 64; 64;
  64; 64; 64; 64; 64; 64; 64; 64; 64; 64; 64; 64; 64; 64; 64; 64;
  64; 64; 64; 64; 64; 64; 64; 64; 64; 64; 64; 64; 64; 62; 64; 63;
  52; 53; 54; 55; 56; 57; 58; 59; 60; 61; 64; 64; 64; 64; 64; 64;
  64;  0;  1;  2;  3;  4;  5;  6;  7;  8;  9; 10; 11; 12; 13; 14;
  15; 16; 17; 18; 19; 20; 21; 22; 23; 24; 25; 64; 64; 64; 64; 63;
  64; 26; 27; 28; 29; 30; 31; 32; 33; 34; 35; 36; 37; 38; 39; 40;
  41; 42; 43; 44; 45; 46; 47; 48; 49; 50; 51; 64; 64; 64; 64; 64;
  64; 64; 64; 64; 64; 64; 64; 64; 64; 64; 64; 64; 64; 64; 64; 64;
  64; 64; 64; 64; 64; 64; 64; 64; 64; 64; 64; 64; 64; 64; 64; 64;
  64; 64; 64; 64; 64; 64; 64; 64; 64; 64; 64; 64; 64; 64; 64; 64;
  64; 64; 64; 64; 64; 64; 64; 64; 64; 64; 64; 64; 64; 64; 64; 64;
  64; 64; 64; 64; 64; 64; 64; 64; 64; 64; 64; 64; 64; 64; 64; 64;
  64; 64; 64; 64; 64; 64; 64; 64; 64; 64; 64; 64; 64; 64; 64; 64;
  64; 64; 64; 64; 64; 64; 64; 64; 64; 64; 64; 64; 64; 64; 64; 64;
  64; 64; 64; 64; 64; 64; 64; 64; 64; 64; 64; 64; 64; 64; 64; 64].

(** [pr2six[c]] for an [unsigned char] [c]. *)
Definition six (c : Z) : Z := nth (Z.to_nat c) pr2six 64.
Arguments six : simpl never.

(** [while (pr2six[*(bufin++)] <= 63);] followed by [(bufin - start) - 1]. *)
Fixpoint scan (bufin : list Z) (n : Z) : outcome Z :=
  match bufin with
  | [] => Fault OutOfBounds
  | c :: bufin => if six c <=? 63 then scan bufin (n + 1) else Ret n
  end.

Definition base64url_decode_len (s : list Z) : outcome Z :=
  nprbytes ← scan (s ++ [0]) 0;
  Ret (u64 ((nprbytes + 3) / 4 * 3)).

(** [bufin[i]] *)
Definition rd (bufin : list Z) (i : nat) : outcome Z :=
  match bufin !! i with Some c => Ret c | None => Fault OutOfBounds end.
(** [*(bufout++) = (unsigned char) v] into a buffer of [cap] bytes. *)
Definition wr (cap : Z) (out : list Z) (v : Z) : outcome (list Z) :=
  if Z.of_nat (length out) <? cap then Ret (out ++ [u8 v]) else Fault OutOfBounds.

Definition byte0 (a b : Z) : Z := Z.lor (Z.shiftl (six a) 2) (Z.shiftr (six b) 4).
Definition byte1 (b c : Z) : Z := Z.lor (Z.shiftl (six b) 4) (Z.shiftr (six c) 2).
Definition byte2 (c d : Z) : Z := Z.lor (Z.shiftl (six c) 6) (six d).

(** The main loop: four characters become three bytes. *)
Fixpoint decode_loop (fuel : nat) (cap : Z) (bufin : list Z) (nprbytes : Z) (out : list Z)
  : outcome (list Z * Z * list Z) :=
  if nprbytes >? 4 then
    match fuel with
    | O => Fault OutOfFuel
    | S fuel =>
      c0 ← rd bufin 0; c1 ← rd bufin 1; c2 ← rd bufin 2; c3 ← rd bufin 3;
      out ← wr cap out (byte0 c0 c1);
      out ← wr cap out (byte1 c1 c2);
      out ← wr cap out (byte2 c2 c3);
      decode_loop fuel cap (drop 4 bufin) (nprbytes - 4) out
    end
  else Ret (bufin, nprbytes, out).

Definition decode_tail (cap : Z) (bufin : list Z) (nprbytes : Z) (out : list Z)
  : outcome (list Z) :=
  out ← (if nprbytes >? 1 then
           c0 ← rd bufin 0; c1 ← rd bufin 1; wr cap out (byte0 c0 c1) else Ret out);
  out ← (if nprbytes >? 2 then
           c1 ← rd bufin 1; c2 ← rd bufin 2; wr cap out (byte1 c1 c2) else Ret out);
  if nprbytes >? 3 then
    c2 ← rd bufin 2; c3 ← rd bufin 3; wr cap out (byte2 c2 c3) else Ret out.

(** Returns the decoded buffer; its length is both [*out_len] and the result. *)
Definition tlsuv_base64url_decode (s : list Z) : outcome (list Z * Z) :=
  cap ← base64url_decode_len s;
  nprbytes ← scan (s ++ [0]) 0;
  '(bufin, nprbytes, out) ← decode_loop (length s) cap (s ++ [0]) nprbytes [];
  out ← decode_tail cap bufin nprbytes out;
  Ret (out, Z.of_nat (length out)).

(** ** Reference semantics (RFC 4648, section 5, without padding) *)

Fixpoint dec6 (l : list Z) : list Z :=
  match l with
  | a :: b :: c :: d :: t =>
    u8 (Z.lor (Z.shiftl a 2) (Z.shiftr b 4)) ::
    u8 (Z.lor (Z.shiftl b 4) (Z.shiftr c 2)) ::
    u8 (Z.lor (Z.shiftl c 6) d) :: dec6 t
  | [a; b; c] =>
    [u8 (Z.lor (Z.shiftl a 2) (Z.shiftr b 4)); u8 (Z.lor (Z.shiftl b 4) (Z.shiftr c 2))]
  | [a; b] => [u8 (Z.lor (Z.shiftl a 2) (Z.shiftr b 4))]
  | _ => []
  end.

Definition b64url_char (v : Z) : Z :=
  if v <? 26 then 65 + v
  else if v <? 52 then 97 + (v - 26)
  else if v <? 62 then 48 + (v - 52)
  else if v =? 62 then 45 else 95.

Fixpoint enc6 (l : list Z) : list Z :=
  match l with
  | a :: b :: c :: t =>
    Z.shiftr a 2 :: Z.lor (Z.shiftl (Z.land a 3) 4) (Z.shiftr b 4) ::
    Z.lor (Z.shiftl (Z.land b 15) 2) (Z.shiftr c 6) :: Z.land c 63 :: enc6 t
  | [a; b] =>
    [Z.shiftr a 2; Z.lor (Z.shiftl (Z.land a 3) 4) (Z.shiftr b 4);
     Z.shiftl (Z.land b 15) 2]
  | [a] => [Z.shiftr a 2; Z.shiftl (Z.land a 3) 4]
  | [] => []
  end.
Definition base64url_encode (l : list Z) : list Z := map b64url_char (enc6 l).

(** The accepted prefix of a string: the characters before the first one outside
    the alphabet. *)
Definition in_alphabet (c : Z) : bool := six c <=? 63.
Fixpoint accepted (s : list Z) : list Z :=
  match s with
  | [] => []
  | c :: s => if in_alphabet c then c :: accepted s else []
  end.

Lemma scan_accepted s k : scan (s ++ [0]) k = Ret (k + Z.of_nat (length (accepted s))).
Proof.
  revert k. induction s as [|c s IH]; intros k; cbn.
  - by rewrite Z.add_0_r.
  - unfold in_alphabet. destruct (six c <=? 63); [|by rewrite Z.add_0_r].
    rewrite IH. cbn. f_equal. lia.
Qed.

Lemma accepted_prefix s : ∃ rest, s = accepted s ++ rest.
Proof.
  induction s as [|c s [rest IH]]; [by exists []|]. cbn.
  destruct (in_alphabet c); [|by exists (c :: s)].
  exists rest. cbn. by rewrite <-IH.
Qed.

(** Induction by groups of four. *)
Lemma list_ind4 {A} (P : list A → Prop) :
  (∀ l, (length l ≤ 4)%nat → P l) →
  (∀ a b c d e l, P (e :: l) → P (a :: b :: c :: d :: e :: l)) → ∀ l, P l.
Proof.
  intros Hs Hc l. remember (length l) as n eqn:Hn. revert l Hn.
  induction n as [n IH] using lt_wf_ind. intros l ->.
  destruct l as [|a [|b [|c [|d [|e l]]]]]; try (apply Hs; cbn; lia).
  apply Hc. apply (IH (length (e :: l))); [cbn; lia|done].
Qed.

Lemma length_dec6 l : Z.of_nat (length (dec6 l)) = Z.of_nat (length l) * 3 / 4.
Proof.
  induction l as [l Hl|a b c d e l IH] using list_ind4.
  - destruct l as [|a [|b [|c [|d [|e l]]]]]; try done. cbn in Hl. lia.
  - change (dec6 (a :: b :: c :: d :: e :: l)) with
      (u8 (Z.lor (Z.shiftl a 2) (Z.shiftr b 4)) ::
       u8 (Z.lor (Z.shiftl b 4) (Z.shiftr c 2)) ::
       u8 (Z.lor (Z.shiftl c 6) d) :: dec6 (e :: l)).
    cbn [length] in *. Z.div_mod_to_equations. lia.
Qed.

Lemma wr_ok cap out v : Z.of_nat (length out) < cap → wr cap out v = Ret (out ++ [u8 v]).
Proof. intros. unfold wr. by destruct (Z.ltb_spec (Z.of_nat (length out)) cap); [|lia]. Qed.

(** Decides comparisons of literal lengths. *)
Ltac ground_gtb :=
  repeat match goal with
  | |- context [Z.of_nat ?n >? ?m] =>
    let b := eval vm_compute in (Z.of_nat n >? m) in change (Z.of_nat n >? m) with b
  end; cbn.

Lemma decode_loop_stop fuel cap p n out : n ≤ 4 → decode_loop fuel cap p n out = Ret (p, n, out).
Proof. intros. destruct fuel; cbn; by destruct (Z.gtb_spec n 4); [lia|]. Qed.

(** The loop and the tail together compute [dec6] of the accepted characters. *)
Lemma decode_run fuel cap l tl out :
  (length l ≤ fuel)%nat → Z.of_nat (length out) + Z.of_nat (length (dec6 (map six l))) ≤ cap →
  ('(bufin, n, out) ← decode_loop fuel cap (l ++ tl) (Z.of_nat (length l)) out;
   decode_tail cap bufin n out) = Ret (out ++ dec6 (map six l)).
Proof.
  revert fuel out. induction l as [l Hl|a b c d e l IH] using list_ind4; intros fuel out Hf Hcap.
  - rewrite decode_loop_stop by lia. cbn. unfold decode_tail, byte0, byte1, byte2.
    destruct l as [|a [|b [|c [|d [|e l]]]]]; cbn in *; try lia; ground_gtb;
      repeat (rewrite wr_ok by (rewrite ?length_app; cbn; lia); cbn);
      by rewrite ?app_nil_r, <-?app_assoc.
  - destruct fuel as [|fuel]; [cbn in Hf; lia|].
    assert (1 ≤ length (e :: l))%nat as He by (cbn; lia). remember (e :: l) as e' eqn:He'.
    cbn -[Z.of_nat Z.gtb Z.sub].
    assert ((Z.of_nat (S (S (S (S (length e'))))) >? 4) = true) as -> by (apply Z.gtb_lt; lia).
    cbn [map dec6] in Hcap. rewrite !length_cons in Hcap. cbn [length] in Hcap.
    unfold byte0, byte1, byte2.
    rewrite wr_ok by lia. cbn -[Z.of_nat Z.gtb Z.sub decode_loop].
    rewrite wr_ok by (rewrite length_app; cbn; lia). cbn -[Z.of_nat Z.gtb Z.sub decode_loop].
    rewrite wr_ok by (rewrite !length_app; cbn; lia). cbn -[Z.of_nat Z.gtb Z.sub decode_loop].
    rewrite drop_0.
    replace (Z.of_nat (S (S (S (S (length e'))))) - 4) with (Z.of_nat (length e')) by lia.
    rewrite (IH fuel) by (rewrite ?length_app in *; cbn in *; lia).
    by rewrite <-!app_assoc.
Qed.

Lemma decode_eq s : Z.of_nat (length s) < 9223372036854775808 →
  tlsuv_base64url_decode s =
  Ret (dec6 (map six (accepted s)), Z.of_nat (length (dec6 (map six (accepted s))))).
Proof.
  intros Hs. unfold tlsuv_base64url_decode, base64url_decode_len.
  rewrite scan_accepted. cbn [mbind outcome_bind].
  destruct (accepted_prefix s) as [rest Hp].
  assert (length (accepted s) ≤ length s)%nat as Hle by (rewrite Hp at 2; rewrite length_app; lia).
  set (acc := accepted s) in *. rewrite Z.add_0_l.
  set (cap := u64 _).
  assert (Z.of_nat (length (dec6 (map six acc))) ≤ cap) as Hcap.
  { subst cap. rewrite length_dec6, length_map.
    rewrite u64_small; Z.div_mod_to_equations; lia. }
  pose proof (decode_run (length s) cap acc (rest ++ [0]) [] Hle ltac:(cbn; lia)) as Hrun.
  rewrite app_assoc, <-Hp in Hrun. cbn [app] in Hrun.
  destruct (decode_loop _ _ _ _ _) as [[[p n] out]|f]; cbn in *; [|done].
  rewrite Hrun. done.
Qed.

Lemma six_char_all :
  forallb (λ v, (six (b64url_char v) =? v)) (seqZ 0 64) = true.
Proof. vm_compute. done. Qed.

Lemma six_char v : 0 ≤ v < 64 → six (b64url_char v) = v.
Proof.
  intros Hv. pose proof (proj1 (forallb_forall _ _) six_char_all v) as H.
  apply Z.eqb_eq, H. apply list_elem_of_In, elem_of_seqZ. lia.
Qed.

(** Every value of the encoder is a sextet; two bytes determine each of them. *)
Definition sextets (a b : Z) : list Z :=
  [Z.shiftr a 2; Z.lor (Z.shiftl (Z.land a 3) 4) (Z.shiftr b 4);
   Z.lor (Z.shiftl (Z.land a 15) 2) (Z.shiftr b 6); Z.land a 63;
   Z.shiftl (Z.land a 3) 4; Z.shiftl (Z.land a 15) 2].

Lemma sextets_all :
  forallb (λ a, forallb (λ b, forallb (λ v, (0 <=? v) && (v <? 64)) (sextets a b))
                        (seqZ 0 256)) (seqZ 0 256) = true.
Proof. vm_compute. done. Qed.

Lemma sextets_range a b : is_byte a → is_byte b → Forall (λ v, 0 ≤ v < 64) (sextets a b).
Proof.
  unfold is_byte. intros Ha Hb. pose proof sextets_all as H.
  rewrite forallb_forall in H. specialize (H a ltac:(apply list_elem_of_In, elem_of_seqZ; lia)).
  rewrite forallb_forall in H. specialize (H b ltac:(apply list_elem_of_In, elem_of_seqZ; lia)).
  apply Forall_forall. intros v Hv.
  rewrite forallb_forall in H. specialize (H v Hv). lia.
Qed.

Lemma list_ind3 {A} (P : list A → Prop) :
  P [] → (∀ a, P [a]) → (∀ a b, P [a; b]) →
  (∀ a b c l, P l → P (a :: b :: c :: l)) → ∀ l, P l.
Proof.
  intros H0 H1 H2 H3. fix IH 1. intros [|a [|b [|c l]]]; [done|done|done|]. apply H3, IH.
Qed.

Lemma enc6_range l : bytes_ok l → Forall (λ v, 0 ≤ v < 64) (enc6 l).
Proof.
  induction l as [|a|a b|a b c l IH] using list_ind3; intros Hl; cbn; split_Forall;
    [constructor|pose proof (sextets_range a a)
     |pose proof (sextets_range a b); pose proof (sextets_range b b)
     |pose proof (sextets_range a b); pose proof (sextets_range b c);
      pose proof (sextets_range c c)];
    repeat match goal with H : _ → _ |- _ => specialize (H ltac:(assumption)) end;
    unfold sextets in *; split_Forall; repeat (apply Forall_cons_2; [assumption|]);
    try constructor; done.
Qed.

Lemma dec6_enc6 l : bytes_ok l → dec6 (enc6 l) = l.
Proof.
  induction l as [|a|a b|a b c l IH] using list_ind3; intros Hl;
    split_Forall; cbn; try done;
    repeat first [f_equal; [bits8|] | f_equal; bits8].
  by apply IH.
Qed.

Lemma six_encode l : bytes_ok l → map six (base64url_encode l) = enc6 l.
Proof.
  intros H%enc6_range. unfold base64url_encode. rewrite map_map.
  induction H as [|v t Hv _ IH]; [done|]. cbn. by rewrite six_char, IH.
Qed.

Lemma accepted_encode l rest : bytes_ok l → accepted rest = [] →
  accepted (base64url_encode l ++ rest) = base64url_encode l.
Proof.
  intros H%enc6_range Hr. unfold base64url_encode.
  induction H as [|v t Hv _ IH]; [done|]. cbn. unfold in_alphabet.
  rewrite six_char by done. destruct (Z.leb_spec v 63); [by rewrite IH|lia].
Qed.

(** C39: Round trip: decoding the unpadded base64url encoding of any byte string
    returns exactly those bytes and their count; anything that follows the
    encoding and starts outside the alphabet (padding, end of string) is ignored. *)
Theorem base64url_roundtrip l rest : bytes_ok l → accepted rest = [] →
  Z.of_nat (length (base64url_encode l ++ rest)) < 9223372036854775808 →
  tlsuv_base64url_decode (base64url_encode l ++ rest) = Ret (l, Z.of_nat (length l)).
Proof.
  intros Hl Hr Hlen. rewrite decode_eq by done.
  by rewrite accepted_encode, six_encode, dec6_enc6 by done.
Qed.

Lemma base64url_roundtrip_witness :
  tlsuv_base64url_decode (base64url_encode [255; 0; 17; 9] ++ [61; 61]) = Ret ([255; 0; 17; 9], 4).
Proof.
  apply (base64url_roundtrip [255; 0; 17; 9] [61; 61]);
    [repeat constructor; lia|vm_compute; done|vm_compute; done].
Defined.

(** Memory safety and size for arbitrary input: decoding any string never
    reads past its terminator nor writes past the allocated buffer, and yields
    3/4 of the length of the accepted prefix, in bytes. *)
Theorem base64url_decode_safe s : Z.of_nat (length s) < 9223372036854775808 →
  ∃ out, tlsuv_base64url_decode s = Ret (out, Z.of_nat (length out)) ∧
         Z.of_nat (length out) = Z.of_nat (length (accepted s)) * 3 / 4 ∧
         ∃ cap, base64url_decode_len s = Ret cap ∧ Z.of_nat (length out) ≤ cap.
Proof.
  intros Hs. eexists. split; [by apply decode_eq|].
  rewrite length_dec6, length_map. split; [done|].
  unfold base64url_decode_len. rewrite scan_accepted. eexists. split; [done|].
  destruct (accepted_prefix s) as [rest Hp].
  assert (length (accepted s) ≤ length s)%nat by (rewrite Hp at 2; rewrite length_app; lia).
  rewrite u64_small; Z.div_mod_to_equations; lia.
Qed.

Lemma base64url_decode_safe_witness :
  ∃ out, tlsuv_base64url_decode [65; 66; 33; 67] = Ret (out, Z.of_nat (length out)) ∧
         Z.of_nat (length out) = 1 ∧
         ∃ cap, base64url_decode_len [65; 66; 33; 67] = Ret cap ∧ Z.of_nat (length out) ≤ cap.
Proof. apply (base64url_decode_safe [65; 66; 33; 67]). cbn. lia. Defined.
