(* ===== verification/CLib.v ===== *)
(** * The C library functions the sources use

    Strings are passed without their NUL.  Only what the callers observe is
    modelled: [strcasecmp] and friends are tested against 0, so they are boolean. *)
From S2P Require Import Prelude.
From stdpp Require Import base list numbers.
From Stdlib Require Import ZArith Lia.
Open Scope Z_scope.

(** ** <ctype.h> and <string.h> in the "C" locale *)

Definition isupper (c : Z) : bool := (65 <=? c) && (c <=? 90).
Definition isdigit (c : Z) : bool := (48 <=? c) && (c <=? 57).
Definition isspace (c : Z) : bool := (c =? 32) || ((9 <=? c) && (c <=? 13)).
Definition isprint (c : Z) : bool := (32 <=? c) && (c <=? 126).
Definition tolower (c : Z) : Z := if isupper c then c + 32 else c.

(** [strcmp(a, b) == 0] *)
Definition streq (a b : list Z) : bool := bool_decide (a = b).

(** [strcasecmp(a, b) == 0] *)
Fixpoint strcaseeq (a b : list Z) : bool :=
  match a, b with
  | [], [] => true
  | c :: a, d :: b => (tolower c =? tolower d) && strcaseeq a b
  | _, _ => false
  end.

(** [strncasecmp(a, b, n) == 0] *)
Fixpoint strncaseeq (a b : list Z) (n : nat) : bool :=
  match n with
  | O => true
  | S n =>
    match a, b with
    | [], [] => true
    | c :: a, d :: b => (tolower c =? tolower d) && strncaseeq a b n
    | _, _ => false
    end
  end.

Lemma strcaseeq_spec a b : strcaseeq a b = true ↔ map tolower a = map tolower b.
Proof.
  revert b. induction a as [|c a IH]; intros [|d b]; cbn; try done.
  rewrite andb_true_iff, Z.eqb_eq, IH. split; [intros [-> ->]; done|]. by intros [= -> ->].
Qed.

Lemma strncaseeq_spec a b n :
  strncaseeq a b n = true ↔ take n (map tolower a) = take n (map tolower b).
Proof.
  revert a b. induction n as [|n IH]; intros [|c a] [|d b]; cbn; try done.
  rewrite andb_true_iff, Z.eqb_eq, IH. split; [intros [-> ->]; done|]. by intros [= -> ->].
Qed.

(** Case-insensitive equality is an equivalence; [strcaseeq] decides it. *)
Definition caseless (a b : list Z) : Prop := map tolower a = map tolower b.
#[export] Instance caseless_equiv : Equivalence caseless.
Proof. split; unfold caseless; congruence. Qed.
#[export] Instance strcaseeq_proper : Proper (caseless ==> caseless ==> eq) strcaseeq.
Proof.
  intros a a' Ha b b' Hb. apply eq_true_iff_eq. rewrite !strcaseeq_spec.
  unfold caseless in *. by rewrite Ha, Hb.
Qed.
Lemma strcaseeq_caseless a b : strcaseeq a b = true ↔ caseless a b.
Proof. apply strcaseeq_spec. Qed.
Lemma strcaseeq_refl a : strcaseeq a a = true.
Proof. by apply strcaseeq_spec. Qed.

(** ** Numbers as text: [%d], [%ld], [%zx], [strtol] *)

Definition digit_char (d : Z) : Z := if d <? 10 then 48 + d else 97 + (d - 10).
Definition digit_val (c : Z) : Z := if c <? 58 then c - 48 else c - 87.

Fixpoint digits (fuel : nat) (base n : Z) (acc : list Z) : list Z :=
  match fuel with
  | O => acc
  | S fuel =>
    let acc := digit_char (n mod base) :: acc in
    if n <? base then acc else digits fuel base (n / base) acc
  end.

(** The digits of [n >= 0] in [base], most significant first. *)
Definition print_base (base n : Z) : list Z := digits (S (Z.to_nat (Z.log2 n))) base n [].
(** [%d] / [%ld] *)
Definition print_dec (n : Z) : list Z :=
  if n <? 0 then 45 :: print_base 10 (- n) else print_base 10 n.
(** [%zx] *)
Definition print_hex (n : Z) : list Z := print_base 16 n.

Definition parse_base (base : Z) (l : list Z) : Z :=
  fold_left (λ acc c, acc * base + digit_val c) l 0.

Lemma digit_roundtrip d : 0 ≤ d < 16 → digit_val (digit_char d) = d.
Proof.
  intros. unfold digit_char, digit_val.
  destruct (Z.ltb_spec d 10).
  - destruct (Z.ltb_spec (48 + d) 58); lia.
  - destruct (Z.ltb_spec (97 + (d - 10)) 58); lia.
Qed.

Lemma parse_base_acc base l k :
  fold_left (λ acc c, acc * base + digit_val c) l k =
  k * base ^ Z.of_nat (length l) + parse_base base l.
Proof.
  unfold parse_base. revert k. induction l as [|c l IH]; intros k; cbn [fold_left length].
  - rewrite Z.pow_0_r. lia.
  - rewrite (IH (k * base + digit_val c)), (IH (0 * base + digit_val c)).
    rewrite Nat2Z.inj_succ, Z.pow_succ_r by lia. ring.
Qed.

Lemma parse_base_cons base c l :
  parse_base base (c :: l) = digit_val c * base ^ Z.of_nat (length l) + parse_base base l.
Proof. unfold parse_base at 1. cbn [fold_left]. rewrite parse_base_acc. ring. Qed.

Lemma digits_parse fuel base n acc :
  2 ≤ base ≤ 16 → 0 ≤ n < 2 ^ Z.of_nat fuel →
  parse_base base (digits fuel base n acc) =
  n * base ^ Z.of_nat (length acc) + parse_base base acc.
Proof.
  intros Hb. revert n acc. induction fuel as [|fuel IH]; intros n acc Hn; cbn [digits].
  - change (2 ^ Z.of_nat 0) with 1 in Hn. replace n with 0 by lia. ring.
  - pose proof (Z.mod_pos_bound n base). pose proof (Z.div_mod n base).
    destruct (Z.ltb_spec n base).
    + rewrite parse_base_cons, digit_roundtrip by lia. by rewrite Z.mod_small by lia.
    + rewrite IH.
      * rewrite parse_base_cons, digit_roundtrip by lia. cbn [length].
        rewrite Nat2Z.inj_succ, Z.pow_succ_r by lia. nia.
      * rewrite Nat2Z.inj_succ, Z.pow_succ_r in Hn by lia. split; [apply Z.div_pos; lia|].
        apply Z.div_lt_upper_bound; nia.
Qed.

Lemma print_base_fuel n : 0 ≤ n → n < 2 ^ Z.of_nat (S (Z.to_nat (Z.log2 n))).
Proof.
  intros. destruct (decide (n = 0)) as [->|]; [done|].
  pose proof (Z.log2_nonneg n). rewrite Nat2Z.inj_succ, Z2Nat.id by lia.
  apply Z.log2_spec. lia.
Qed.

Lemma parse_print base n : 2 ≤ base ≤ 16 → 0 ≤ n → parse_base base (print_base base n) = n.
Proof.
  intros. unfold print_base. rewrite digits_parse by (auto using print_base_fuel with lia).
  cbn. change (parse_base base []) with 0. lia.
Qed.

(** The characters printed are digits of the base; there is at least one, and at
    most [k] when the number is below [base ^ k]. *)
Definition base_digit (base c : Z) : Prop := ∃ d, 0 ≤ d < base ∧ c = digit_char d.

Lemma digits_chars fuel base n acc : 2 ≤ base → 0 ≤ n →
  Forall (base_digit base) acc → Forall (base_digit base) (digits fuel base n acc).
Proof.
  intros Hb. revert n acc. induction fuel as [|fuel IH]; intros n acc Hn Hacc; cbn; [done|].
  assert (Forall (base_digit base) (digit_char (n mod base) :: acc)).
  { apply Forall_cons_2; [|done]. exists (n mod base). split; [|done].
    apply Z.mod_pos_bound. lia. }
  destruct (n <? base); [done|]. apply IH; [|done]. apply Z.div_pos; lia.
Qed.

Lemma digits_length fuel base n acc k : 2 ≤ base → 0 ≤ n < base ^ Z.of_nat (S k) →
  (length (digits fuel base n acc) ≤ S k + length acc)%nat.
Proof.
  intros Hb. revert n acc k. induction fuel as [|fuel IH]; intros n acc k Hn; cbn; [lia|].
  destruct (Z.ltb_spec n base); [cbn; lia|].
  destruct k as [|k]; [rewrite Z.pow_1_r in Hn; lia|].
  assert (n / base < base ^ Z.of_nat (S k)).
  { apply Z.div_lt_upper_bound; [lia|]. rewrite <-Z.pow_succ_r by lia.
    rewrite <-Nat2Z.inj_succ. lia. }
  pose proof (Z.div_pos n base).
  specialize (IH (n / base) (digit_char (n mod base) :: acc) k ltac:(lia)). cbn in *. lia.
Qed.

Lemma digits_nonempty fuel base n acc : (0 < length acc)%nat →
  (0 < length (digits fuel base n acc))%nat.
Proof.
  revert n acc. induction fuel as [|fuel IH]; intros n acc Hacc; cbn; [done|].
  destruct (n <? base); [cbn; lia|]. apply IH. cbn. lia.
Qed.

Lemma print_base_chars base n : 2 ≤ base → 0 ≤ n →
  Forall (base_digit base) (print_base base n).
Proof. intros. apply digits_chars; [done|done|constructor]. Qed.

Lemma print_base_length base n k : 2 ≤ base → 0 ≤ n < base ^ Z.of_nat (S k) →
  (length (print_base base n) ≤ S k)%nat.
Proof. intros Hb Hn. pose proof (digits_length (S (Z.to_nat (Z.log2 n))) base n [] k Hb Hn).
  unfold print_base. cbn [length] in *. lia. Qed.

Lemma print_base_nonempty base n : print_base base n ≠ [].
Proof.
  assert (0 < length (print_base base n))%nat.
  { unfold print_base. cbn [digits]. destruct (n <? base); [cbn; lia|].
    apply digits_nonempty. cbn. lia. }
  by destruct (print_base base n); cbn in *; [lia|].
Qed.

(** The longest prefix satisfying [p], and the rest. *)
Fixpoint span (p : Z → bool) (s : list Z) : list Z * list Z :=
  match s with
  | c :: s' => if p c then let '(a, b) := span p s' in (c :: a, b) else ([], s)
  | [] => ([], [])
  end.

(** [strtol(s, &end, 10)]: the saturated value and [end - s]. *)
Definition strtol10 (s : list Z) : Z * nat :=
  let '(ws, r) := span isspace s in
  let '(neg, sgn, r) :=
    match r with
    | c :: r' => if c =? 45 then (true, 1%nat, r')
                 else if c =? 43 then (false, 1%nat, r') else (false, 0%nat, r)
    | [] => (false, 0%nat, r)
    end in
  let '(ds, _) := span isdigit r in
  match ds with
  | [] => (0, 0%nat)
  | _ =>
    let v := parse_base 10 ds in
    (Z.max (-9223372036854775808) (Z.min 9223372036854775807 (if (neg : bool) then - v else v)),
     (length ws + sgn + length ds)%nat)
  end.

(** [sscanf(s, "%*[^stop]%n", &count)]: the return value and the new [count],
    if it is stored. *)
Definition sscanf_not (stop : list Z) (s : list Z) : Z * option nat :=
  match s with
  | [] => (-1, None)
  | _ =>
    match length (span (λ c, negb (bool_decide (c ∈ stop))) s).1 with
    | O => (0, None)
    | n => (0, Some n)
    end
  end.

Definition stops (p : Z → bool) (rest : list Z) : Prop :=
  match rest with [] => True | c :: _ => p c = false end.

Lemma span_app p l rest : Forall (λ c, p c = true) l → stops p rest →
  span p (l ++ rest) = (l, rest).
Proof.
  intros Hl Hr. induction Hl as [|c l Hc Hl IH]; cbn.
  - destruct rest as [|c rest]; [done|]. cbn in *. by rewrite Hr.
  - by rewrite Hc, IH.
Qed.

Lemma span_eq p s : s = (span p s).1 ++ (span p s).2.
Proof.
  induction s as [|c s IH]; [done|]. cbn. destruct (p c); [|done].
  destruct (span p s). cbn in *. by rewrite IH.
Qed.

Lemma span_prefix p s : Forall (λ c, p c = true) (span p s).1.
Proof.
  induction s as [|c s IH]; cbn; [constructor|]. destruct (p c) eqn:Hp; [|constructor].
  destruct (span p s). cbn in *. by constructor.
Qed.

Lemma span_stops p s : stops p (span p s).2.
Proof.
  induction s as [|c s IH]; cbn; [done|]. destruct (p c) eqn:Hp; [|done].
  by destruct (span p s).
Qed.

Lemma base_digit_isdigit c : base_digit 10 c →
  isdigit c = true ∧ isspace c = false ∧ c ≠ 45 ∧ c ≠ 43.
Proof.
  intros (d & Hd & ->). unfold digit_char, isdigit, isspace.
  destruct (Z.ltb_spec d 10); [|lia]. lia.
Qed.

Lemma strtol10_print n rest : 0 ≤ n < 9223372036854775808 → stops isdigit rest →
  strtol10 (print_base 10 n ++ rest) = (n, length (print_base 10 n)).
Proof.
  intros Hn Hr. pose proof (print_base_chars 10 n ltac:(lia) ltac:(lia)) as Hc.
  pose proof (print_base_nonempty 10 n) as Hne.
  pose proof (parse_print 10 n ltac:(lia) ltac:(lia)) as Hp.
  destruct (print_base 10 n) as [|c l] eqn:E; [done|].
  assert (Forall (λ c, isdigit c = true) (c :: l)) as Hd.
  { eapply Forall_impl; [|exact Hc]. intros x Hx. by apply base_digit_isdigit. }
  split_Forall. destruct (base_digit_isdigit c) as (? & Hs & ? & ?); [done|].
  unfold strtol10. cbn [app span]. rewrite Hs. cbn -[span parse_base Z.max Z.min].
  destruct (Z.eqb_spec c 45), (Z.eqb_spec c 43); try done.
  change (c :: l ++ rest) with ((c :: l) ++ rest).
  rewrite span_app by (done || by constructor). rewrite Hp. f_equal. lia.
Qed.

Lemma span_length p s : (length (span p s).1 + length (span p s).2 = length s)%nat.
Proof. rewrite (span_eq p s) at 3. by rewrite length_app. Qed.

Lemma strtol10_consumed s : ((strtol10 s).2 ≤ length s)%nat.
Proof.
  unfold strtol10. pose proof (span_length isspace s). destruct (span isspace s) as [ws r].
  cbn [fst snd] in *.
  set (t := match r with [] => _ | _ :: _ => _ end).
  assert (t.1.2 + length t.2 = length r)%nat as Ht.
  { subst t. destruct r as [|c r]; [done|].
    destruct (c =? 45); [done|]. by destruct (c =? 43). }
  destruct t as [[neg sgn] r']. cbn [fst snd] in *.
  pose proof (span_length isdigit r'). destruct (span isdigit r') as [[|d ds] r'']; cbn in *; lia.
Qed.

(** The last element of a list, and what is before it. *)
Lemma last_split {A} (l : list A) : ∃ l', l = l' ++ option_list (list.last l) ∧ length l' = pred (length l).
Proof.
  destruct (list.last l) as [p|] eqn:Hl.
  - apply last_Some in Hl as [l' ->]. exists l'. split; [done|]. rewrite length_app. cbn. lia.
  - apply last_None in Hl as ->. by exists [].
Qed.

(** ** String copies and bounded formatting *)

(** [strndup(s, n)] (and [strncpy] into a zeroed buffer of [n + 1] bytes): at most
    [n] bytes, up to the first NUL. *)
Definition strndup (s : list Z) (n : nat) : list Z := (span (λ c, negb (c =? 0)) (take n s)).1.

Lemma strndup_all s n : cstr_ok s → (length s <= n)%nat → strndup s n = s.
Proof.
  intros Hs Hn. unfold strndup. rewrite take_ge by lia.
  pose proof (span_app (λ c, negb (c =? 0)) s [] ) as H. rewrite app_nil_r in H.
  rewrite H; [done| |done]. eapply Forall_impl; [|exact Hs]. cbn. intros c ?.
  destruct (Z.eqb_spec c 0); [lia|done].
Qed.

(** A store of [bytes] at offset [off] of a buffer; outside of it is undefined. *)
Definition buf_write (buf : list Z) (off : Z) (bytes : list Z) : outcome (list Z) :=
  if (0 <=? off) && (off + Z.of_nat (length bytes) <=? Z.of_nat (length buf)) then
    Ret (take (Z.to_nat off) buf ++ bytes ++ drop (Z.to_nat off + length bytes) buf)
  else Fault OutOfBounds.

(** [snprintf(buf + off, n, ...)] printing [text]: at most [n - 1] characters and a
    NUL are stored (nothing when [n = 0]); the result is the untruncated length. *)
Definition snprintf (buf : list Z) (off n : Z) (text : list Z) : outcome (Z * list Z) :=
  if n =? 0 then Ret (Z.of_nat (length text), buf)
  else buf ← buf_write buf off (take (Z.to_nat (n - 1)) text ++ [0]);
       mret (Z.of_nat (length text), buf).

(** [buf_has buf s]: the first bytes of [buf] are [s]. *)
Definition buf_has (buf s : list Z) : Prop := take (length s) buf = s ∧ (length s <= length buf)%nat.

Lemma buf_write_length buf off bytes buf' :
  buf_write buf off bytes = Ret buf' → length buf' = length buf.
Proof.
  unfold buf_write. destruct (0 <=? off) eqn:?; cbn; [|done].
  case_if; [|done]. intros [= <-]. rewrite !length_app, length_take, length_drop. lia.
Qed.

(** Appending at the end of what was written so far. *)
Lemma buf_write_app buf s t : buf_has buf s →
  (length s + length t <= length buf)%nat →
  ∃ buf', buf_write buf (Z.of_nat (length s)) t = Ret buf' ∧
          length buf' = length buf ∧ buf_has buf' (s ++ t).
Proof.
  intros [Hs Hl] Hlen. eexists. split.
  - unfold buf_write. replace (0 <=? Z.of_nat (length s)) with true by (symmetry; apply Z.leb_le; lia).
    cbn [andb]. rewrite (proj2 (Z.leb_le _ _)) by lia. reflexivity.
  - rewrite Nat2Z.id, Hs. split.
    + rewrite !length_app, length_drop. lia.
    + split; [|rewrite !length_app, length_drop; lia].
      rewrite app_assoc, take_app_length. done.
Qed.

Lemma snprintf_app buf s t n : buf_has buf s →
  Z.of_nat (length t) < n → Z.of_nat (length s) + Z.of_nat (length t) < Z.of_nat (length buf) →
  ∃ buf', snprintf buf (Z.of_nat (length s)) n t = Ret (Z.of_nat (length t), buf') ∧
          length buf' = length buf ∧ buf_has buf' (s ++ t).
Proof.
  intros Hs Hn Hlen. unfold snprintf. destruct (Z.eqb_spec n 0); [lia|].
  rewrite take_ge by lia.
  destruct (buf_write_app buf s (t ++ [0]) Hs) as (buf' & -> & Hl & [H1 H2]).
  { rewrite length_app. cbn. lia. }
  exists buf'. split; [done|]. split; [done|]. rewrite app_assoc in H1, H2.
  rewrite (length_app (s ++ t)) in H1, H2. cbn [length] in H1, H2. split; [|lia].
  apply (f_equal (take (length (s ++ t)))) in H1. rewrite take_take, take_app_length in H1.
  by rewrite Nat.min_l in H1 by lia.
Qed.

(** ** libuv error codes

    The numeric values depend on the platform; what the code relies on is that they
    are negative (uv-errno.h). *)
Class UvErr := {
  UV_EOF : Z; UV_EINVAL : Z; UV_ECANCELED : Z; UV_ETIMEDOUT : Z; UV_ECONNABORTED : Z;
  UV_ENOMEM : Z; UV_ECONNRESET : Z; UV_ENOTCONN : Z; UV_EAGAIN : Z; UV_EALREADY : Z;
  uv_strerror : Z → list Z;
}.
Class UvErrOk `{UvErr} := {
  uv_err_neg : UV_EOF < 0 ∧ UV_EINVAL < 0 ∧ UV_ECANCELED < 0 ∧ UV_ETIMEDOUT < 0 ∧
    UV_ECONNABORTED < 0 ∧ UV_ENOMEM < 0 ∧ UV_ECONNRESET < 0 ∧ UV_ENOTCONN < 0 ∧
    UV_EAGAIN < 0 ∧ UV_EALREADY < 0;
}.
(** The values on Linux. *)
Module UvLinux.
#[export] Instance codes : UvErr := {|
  UV_EOF := -4095; UV_EINVAL := -22; UV_ECANCELED := -125; UV_ETIMEDOUT := -110;
  UV_ECONNABORTED := -103; UV_ENOMEM := -12; UV_ECONNRESET := -104; UV_ENOTCONN := -107;
  UV_EAGAIN := -11; UV_EALREADY := -114; uv_strerror := λ _, [101; 114; 114] (* "err" *) |}.
#[export] Instance codes_ok : @UvErrOk codes.
Proof. constructor. cbn. lia. Qed.
End UvLinux.

Lemma strndup_app a b : cstr_ok a → strndup (a ++ b) (length a) = a.
Proof. intros Ha. unfold strndup. rewrite take_app_length. pose proof (strndup_all a (length a) Ha ltac:(lia)) as H.
  unfold strndup in H. by rewrite take_ge in H by lia. Qed.
(** A C string in a larger buffer. *)
Lemma strndup_nul a b n : cstr_ok a → (length a < n)%nat → strndup (a ++ 0 :: b) n = a.
Proof.
  intros Ha Hn. unfold strndup. rewrite take_app_ge by lia. replace (n - length a)%nat with (S (n - length a - 1)) by lia. cbn [firstn].
  rewrite span_app; [done| |done]. eapply Forall_impl; [|exact Ha]. cbn. intros c Hc. destruct (Z.eqb_spec c 0); [lia|done].
Qed.
