(* ===== verification/Log.v ===== *)
(** * Logging (src/um_debug.c, src/um_debug.h)

    The level and the user's function are variables of the program, and so is the buffer a message
    is printed to: the user's function gets the address of the buffer, not a copy.  A message is given
    here by the text its format and arguments print. *)
From S2P Require Import Prelude CLib.
From stdpp Require Import base list numbers.
From Stdlib Require Import ZArith Lia.
Open Scope Z_scope.

Definition NONE : Z := 0.
Definition ERR : Z := 1.
Definition WARN : Z := 2.
Definition INFO : Z := 3.
Definition DEBG : Z := 4.
Definition VERB : Z := 5.
Definition TRACE : Z := 6.

(** The variables, beside the state [X] of the user. *)
Record log_state {X : Type} := mklog { um_log_level : Z; log_func : option Z; logbuf : list Z; log_app : X }.
Arguments log_state X : clear implicits.
Arguments mklog {X}.
#[export] Instance log_state_upd {X} : Updatable (log_state X) := fun s =>
  mklog (um_log_level s) (log_func s) (logbuf s) (log_app s).

Definition LOGBUF_SIZE : Z := 1024.
Definition log_start {X} (x : X) : log_state X := mklog ERR None (replicate (Z.to_nat LOGBUF_SIZE) 0) x.

Section Log.
Context {X : Type}.
(** The user's functions: level, file and line; the message is in [logbuf]. *)
Context (call_log : Z → Z → list Z → Z → M (log_state X) unit).

Definition um_log (lvl : Z) (file : list Z) (line : Z) (text : list Z) : M (log_state X) unit :=
  s ← get;
  match log_func s with
  | Some f =>
    '(_, b) ← liftO (snprintf (logbuf s) 0 LOGBUF_SIZE text);
    modify (λ s, s <| logbuf := b |>);;
    call_log f lvl file line
  | None => mret tt
  end.
Definition UM_LOG (lvl : Z) (file : list Z) (line : Z) (text : list Z) : M (log_state X) unit :=
  s ← get; if lvl <=? um_log_level s then um_log lvl file line text else mret tt.

Definition tlsuv_set_debug (level : Z) (output_f : option Z) : M (log_state X) unit :=
  modify (λ s, s <| um_log_level := level |>);;
  modify (λ s, s <| log_func := output_f |>).
End Log.

(** ** What a log function sees *)

(** A message where the code reports it. *)
Record message := mkmsg { msg_level : Z; msg_file : list Z; msg_line : Z; msg_text : list Z }.

(** A function that keeps what it is given, reading its message as a string. *)
Definition keep_log (f lvl : Z) (file : list Z) (line : Z) : M (log_state (list message)) unit :=
  modify (λ s, s <| log_app := log_app s ++ [mkmsg lvl file line (strndup (logbuf s) (length (logbuf s)))] |>).

Definition report (msgs : list message) : M (log_state (list message)) unit :=
  foldr (λ m k, UM_LOG keep_log (msg_level m) (msg_file m) (msg_line m) (msg_text m);; k) (mret tt) msgs.
(** The messages of [msgs] up to [level], each cut to what the buffer holds. *)
Definition cut (m : message) : message :=
  mkmsg (msg_level m) (msg_file m) (msg_line m) (take (Z.to_nat (LOGBUF_SIZE - 1)) (msg_text m)).
Definition logged (level : Z) (msgs : list message) : list message :=
  map cut (filter (λ m, msg_level m ≤ level) msgs).

Lemma logged_app level l l' : logged level (l ++ l') = logged level l ++ logged level l'.
Proof. unfold logged. by rewrite list.filter_app, map_app. Qed.
Lemma snprintf_fits buf n text : 0 < n ≤ Z.of_nat (length buf) → cstr_ok text → ∃ buf',
  snprintf buf 0 n text = Ret (Z.of_nat (length text), buf') ∧ length buf' = length buf ∧
  strndup buf' (length buf') = take (Z.to_nat (n - 1)) text.
Proof.
  intros Hn Ht. set (t := take (Z.to_nat (n - 1)) text).
  assert (length t < length buf)%nat as Hl by (unfold t; rewrite length_take; lia). unfold snprintf. destruct (Z.eqb_spec n 0); [lia|]. fold t.
  destruct (buf_write_app buf [] (t ++ [0])) as (buf' & Hw & Hlen & Hhas); [by split; [|cbn; lia]|rewrite length_app; cbn [length]; lia|].
  change (Z.of_nat (length [])) with 0 in Hw. rewrite Hw. exists buf'. split; [done|]. split; [done|]. destruct Hhas as [H1 H2]. cbn [app] in H1, H2.
  rewrite <-(take_drop (length (t ++ [0])) buf'), H1, <-app_assoc. cbn [app]. apply strndup_nul; [by apply Forall_take|].
  rewrite length_app. cbn [length]. lia.
Qed.

Lemma UM_LOG_keep lvl file line text s : length (logbuf s) = Z.to_nat LOGBUF_SIZE → cstr_ok text → is_Some (log_func s) →
  wp (UM_LOG keep_log lvl file line text) (λ _ s', length (logbuf s') = Z.to_nat LOGBUF_SIZE ∧ um_log_level s' = um_log_level s ∧
    log_func s' = log_func s ∧ log_app s' = log_app s ++ logged (um_log_level s) [mkmsg lvl file line text]) s.
Proof.
  intros Hl Ht [f Hf]. unfold UM_LOG, logged, um_log. wp_simpl. cbn [filter list_filter msg_level].
  destruct (Z.leb_spec lvl (um_log_level s)); [rewrite decide_True by done|rewrite decide_False by lia; wp_simpl; by rewrite app_nil_r].
  wp_simpl. rewrite Hf. wp_simpl. destruct (snprintf_fits (logbuf s) LOGBUF_SIZE text) as (b & Hb & Hlen & Hs); [unfold LOGBUF_SIZE in *; lia|done|].
  eapply wp_liftO; [exact Hb|]. unfold keep_log. wp_simpl. cbn. rewrite Hs, Hlen, Hl, Hf. done.
Qed.

(** Once a log function is set it is given the messages up to the chosen level, all of them and
    no others, in order, with where they come from; a message longer than the buffer is cut to
    what fits with its NUL, and nothing is stored outside of the buffer. *)
Theorem log_reports level f msgs s : length (logbuf s) = Z.to_nat LOGBUF_SIZE → Forall (λ m, cstr_ok (msg_text m)) msgs →
  ∃ s', (tlsuv_set_debug level (Some f);; report msgs) s = Ret (tt, s') ∧ log_app s' = log_app s ++ logged level msgs ∧
    length (logbuf s') = Z.to_nat LOGBUF_SIZE.
Proof.
  intros Hl Hm. assert (∀ s, length (logbuf s) = Z.to_nat LOGBUF_SIZE → um_log_level s = level → log_func s = Some f →
    wp (report msgs) (λ _ s', log_app s' = log_app s ++ logged level msgs ∧ length (logbuf s') = Z.to_nat LOGBUF_SIZE) s) as Hr.
  { clear s Hl. induction Hm as [|[lvl file line text] msgs Ht Hm IH]; intros s Hl Hv Hf; cbn [report foldr]; wp_simpl; [by rewrite app_nil_r|].
    wp_call (eapply UM_LOG_keep; [done|done|by rewrite Hf]). intros [] s1 (Hl1 & Hv1 & Hf1 & Ha1).
    eapply wp_mono; [apply IH; congruence|]. intros [] s2 [Ha2 Hl2]. split; [|done].
    rewrite Ha2, Ha1, Hv, <-app_assoc. f_equal. by rewrite <-logged_app. }
  assert (wp (tlsuv_set_debug level (Some f);; report msgs) (λ _ s', log_app s' = log_app s ++ logged level msgs ∧ length (logbuf s') = Z.to_nat LOGBUF_SIZE) s) as Hw.
  { unfold tlsuv_set_debug. wp_simpl. by eapply wp_mono; [apply Hr|]. }
  apply wp_run in Hw as ([] & s' & Hrun & Ha & Hb). by exists s'.
Qed.

(** A function that reports a message of its own before it reads the one it was given reads its
    own: the buffer is the same. *)
Definition talk_log (f lvl : Z) (file : list Z) (line : Z) : M (log_state (list message)) unit :=
  UM_LOG keep_log TRACE file line [111; 107];; keep_log f lvl file line.
Theorem log_buffer_shared :
  match (tlsuv_set_debug TRACE (Some 1);; UM_LOG talk_log ERR [] 7 [98; 97; 100]) (log_start []) with
  | Ret (_, s) => map msg_text (log_app s)
  | Fault _ => []
  end = [[111; 107]; [111; 107]].
Proof. reflexivity. Qed.
