(* ===== verification/Url.v ===== *)
(** * The zero-copy URL parser ([tlsuv_parse_url], src/http.c; include/tlsuv/http.h)

    The result's pointers into [urlstr] are offsets.  The string's memory is
    [urlstr ++ [0]]; reading past the terminator is a fault.  [%n] stores an
    [int], so strings are shorter than [INT_MAX] bytes. *)
From S2P Require Import Prelude CLib.
From stdpp Require Import base list numbers strings.
From Stdlib Require Import ZArith Lia.
Open Scope Z_scope.

Record tlsuv_url_s := mkurl {
  scheme : option nat;   (* const char *, NULL or an offset *)
  scheme_len : nat;
  hostname : option nat;
  hostname_len : nat;
  port : Z;              (* uint16_t *)
  path : option nat;
  path_len : nat;
  query : option nat;
  query_len : nat
}.
#[export] Instance url_upd : Updatable tlsuv_url_s := fun u =>
  mkurl (scheme u) (scheme_len u) (hostname u) (hostname_len u) (port u)
        (path u) (path_len u) (query u) (query_len u).

Definition url_zero : tlsuv_url_s := mkurl None 0 None 0 0 None 0 None 0.

Definition COLON : Z := 58.
Definition SLASH : Z := 47.
Definition QMARK : Z := 63.

(** [p[0]] *)
Definition char_at (s : list Z) (p : nat) : outcome Z :=
  match (s ++ [0]) !! p with Some c => Ret c | None => Fault OutOfBounds end.

(** Whether the input ends inside the literal text of a scanf format. *)
Fixpoint lit_input_failure (lit s : list Z) : bool :=
  match lit, s with
  | [], _ => false
  | _, [] => true
  | c :: lit, d :: s => if c =? d then lit_input_failure lit s else false
  end.

(** [sscanf(p, "%*[^:]%n://", &count)] with [count = 0] before: return value and
    count. *)
Definition sscanf_scheme (p : list Z) : Z * nat :=
  match sscanf_not [COLON] p with
  | (rc, None) => (rc, 0%nat)
  | (rc, Some n) =>
    ((if lit_input_failure [COLON; SLASH; SLASH] (drop n p) then -1 else rc), n)
  end.

(** [q[0] == ':' && q[1] == '/' && q[2] == '/'] *)
Definition at_sep (s : list Z) (q : nat) : outcome bool :=
  c0 ← char_at s q;
  if c0 =? COLON then
    c1 ← char_at s (q + 1);
    if c1 =? SLASH then
      c2 ← char_at s (q + 2);
      Ret (c2 =? SLASH)
    else Ret false
  else Ret false.

(** The scheme, if the string starts with [scheme://]; the new [p]. *)
Definition parse_scheme (s : list Z) (url : tlsuv_url_s) (p : nat)
  : outcome (tlsuv_url_s * nat) :=
  let '(rc, count) := sscanf_scheme (drop p s) in
  sep ← (if rc =? 0 then at_sep s (p + count) else Ret false);
  if (sep : bool)
  then Ret (url <| scheme := Some p |> <| scheme_len := count |>, (p + (count + 3))%nat)
  else Ret (url, p).

Definition parse_host (s : list Z) (url : tlsuv_url_s) (p : nat) : tlsuv_url_s * nat :=
  match sscanf_not [COLON; SLASH] (drop p s) with
  | (rc, Some count) =>
    if (rc =? 0) && (0 <? Z.of_nat count)
    then (url <| hostname := Some p |> <| hostname_len := count |>, (p + count)%nat)
    else (url, p)
  | (_, None) => (url, p)  (* count is still 0 *)
  end.

(** [None]: the function returns -1. *)
Definition parse_port (s : list Z) (url : tlsuv_url_s) (p : nat)
  : outcome (option (tlsuv_url_s * nat)) :=
  c ← char_at s p;
  if c =? COLON then
    match hostname url with
    | None => Ret None
    | Some _ =>
      let p := (p + 1)%nat in
      let '(lport, n) := strtol10 (drop p s) in
      if (n =? 0)%nat then Ret None
      else if (0 <? lport) && (lport <=? 65535)
      then Ret (Some (url <| port := u16 lport |>, (p + n)%nat))
      else Ret None
    end
  else Ret (Some (url, p)).

Definition parse_path_query (s : list Z) (url : tlsuv_url_s) (p : nat)
  : outcome (Z * tlsuv_url_s) :=
  c ← char_at s p;
  if c =? 0 then Ret (0, url)
  else if negb (c =? SLASH) then Ret (-1, url)
  else
    let '(url, p) :=
      match sscanf_not [QMARK] (drop p s) with
      | (rc, Some count) =>
        if rc =? 0 then (url <| path := Some p |> <| path_len := count |>, (p + count)%nat)
        else (url, p)
      | (_, None) => (url, p)  (* not reached: *p is '/' *)
      end in
    c ← char_at s p;
    if c =? QMARK
    then Ret (0, url <| query := Some (p + 1)%nat |>
                     <| query_len := length (drop (p + 1) s) |>)
    else Ret (0, url).

Definition tlsuv_parse_url (urlstr : list Z) : outcome (Z * tlsuv_url_s) :=
  '(url, p) ← parse_scheme urlstr url_zero 0;
  let '(url, p) := parse_host urlstr url p in
  r ← parse_port urlstr url p;
  match r with
  | None => Ret (-1, url)
  | Some (url, p) => parse_path_query urlstr url p
  end.

(** The text a field points at. *)
Definition field (s : list Z) (off : option nat) (len : nat) : option (list Z) :=
  off ← off; Some (take len (drop off s)).

Example parse_url_ex :
  tlsuv_parse_url (bs "https://example.com:8443/a/b?x=1") =
  Ret (0, mkurl (Some 0%nat) 5 (Some 8%nat) 11 8443 (Some 24%nat) 4 (Some 29%nat) 3).
Proof. vm_compute. done. Qed.

(** ** Lemmas on the scanning primitives *)

Definition none_of (stop : list Z) (c : Z) : bool := negb (bool_decide (c ∈ stop)).

Lemma char_at_drop s p : (p ≤ length s)%nat → char_at s p = Ret (hd 0 (drop p s)).
Proof.
  intros Hp. unfold char_at.
  assert (s ++ [0] = take p s ++ (drop p s ++ [0])) as -> by by rewrite app_assoc, take_drop.
  rewrite lookup_app_r by (rewrite length_take; lia).
  rewrite length_take, Nat.min_l, Nat.sub_diag by lia. by destruct (drop p s).
Qed.

Lemma char_at_split a b : char_at (a ++ b) (length a) = Ret (hd 0 b).
Proof. rewrite char_at_drop, drop_app_length by (rewrite length_app; lia). done. Qed.

Lemma char_at_split_add a b k : (k ≤ length b)%nat →
  char_at (a ++ b) (length a + k) = Ret (hd 0 (drop k b)).
Proof.
  intros. rewrite char_at_drop by (rewrite length_app; lia). by rewrite drop_app_add.
Qed.

Lemma sscanf_not_hit stop a b : a ≠ [] → Forall (λ c, none_of stop c = true) a →
  stops (none_of stop) b → sscanf_not stop (a ++ b) = (0, Some (length a)).
Proof.
  intros Ha Hall Hb. unfold sscanf_not. fold (none_of stop). rewrite span_app by done.
  by destruct a.
Qed.

(** What a successful or failed scan says about the input. *)
Lemma sscanf_not_inv stop s :
  match sscanf_not stop s with
  | (rc, Some n) => rc = 0 ∧ ∃ a b, s = a ++ b ∧ length a = n ∧ a ≠ [] ∧
                    Forall (λ c, none_of stop c = true) a ∧ stops (none_of stop) b
  | (rc, None) => s = [] ∨ (rc = 0 ∧ ∃ c t, s = c :: t ∧ none_of stop c = false)
  end.
Proof.
  unfold sscanf_not. fold (none_of stop). destruct s as [|c t]; [by left|].
  pose proof (span_eq (none_of stop) (c :: t)) as Heq.
  pose proof (span_prefix (none_of stop) (c :: t)) as Hpre.
  pose proof (span_stops (none_of stop) (c :: t)) as Hst.
  destruct (span (none_of stop) (c :: t)) as [a b] eqn:E. cbn [fst snd] in *.
  destruct (length a) as [|n] eqn:En.
  - right. split; [done|]. exists c, t. split; [done|].
    destruct a; [|done]. cbn in Heq. subst b. exact Hst.
  - split; [done|]. exists a, b. split_and!; try done. by destruct a.
Qed.

Lemma none_of_colon c : none_of [COLON] c = false → c = COLON.
Proof. unfold none_of. destruct (bool_decide_reflect (c ∈ [COLON])); [|done].
  intros _. by apply list_elem_of_singleton. Qed.

Definition SEP : list Z := [COLON; SLASH; SLASH].

Lemma at_sep_spec a b : at_sep (a ++ b) (length a) = Ret (bool_decide (take 3 b = SEP)).
Proof.
  unfold at_sep, SEP. rewrite char_at_split. cbn [mbind outcome_bind].
  destruct b as [|c0 b]; [done|]. cbn [hd].
  destruct (Z.eqb_spec c0 COLON) as [->|]; [|by rewrite bool_decide_false by (cbn; congruence)].
  rewrite (char_at_split_add a _ 1) by (cbn; lia). cbn [mbind outcome_bind drop skipn]. rewrite ?drop_0.
  destruct b as [|c1 b]; [done|]. cbn [hd].
  destruct (Z.eqb_spec c1 SLASH) as [->|]; [|by rewrite bool_decide_false by (cbn; congruence)].
  rewrite (char_at_split_add a _ 2) by (cbn; lia). cbn [mbind outcome_bind drop skipn]. rewrite ?drop_0.
  destruct b as [|c2 b]; [done|]. cbn [hd].
  destruct (Z.eqb_spec c2 SLASH) as [->|]; [done|by rewrite bool_decide_false by (cbn; congruence)].
Qed.

Lemma take3_sep b : take 3 b = SEP → ∃ rest, b = SEP ++ rest.
Proof. intros H. exists (drop 3 b). by rewrite <-H, take_drop. Qed.

Definition with_scheme (n : nat) : tlsuv_url_s :=
  url_zero <| scheme := Some 0%nat |> <| scheme_len := n |>.

Lemma parse_scheme_inv s : ∃ url p, parse_scheme s url_zero 0 = Ret (url, p) ∧
  ((url = url_zero ∧ p = 0%nat) ∨
   ∃ sch rest, s = sch ++ SEP ++ rest ∧ url = with_scheme (length sch) ∧
               p = (length sch + 3)%nat).
Proof.
  unfold parse_scheme, sscanf_scheme. rewrite drop_0. cbn [Nat.add].
  pose proof (sscanf_not_inv [COLON] s) as Hi.
  destruct (sscanf_not [COLON] s) as [rc [n|]].
  - destruct Hi as (-> & a & b & -> & <- & Ha & Hall & Hst). rewrite drop_app_length.
    destruct (lit_input_failure _ _); cbn [Z.eqb]; [eexists _, _; split; [reflexivity|by left]|].
    rewrite at_sep_spec. cbn [mbind outcome_bind].
    case_bool_decide as Hsep; [|eexists _, _; split; [reflexivity|by left]]. destruct (take3_sep _ Hsep) as [rest ->].
    eexists _, _. split; [done|]. right. by exists a, rest.
  - destruct Hi as [->|(-> & c & t & -> & Hc)]; [destruct (rc =? 0); (eexists _, _; split; [reflexivity|by left])|].
    cbn [Z.eqb]. pose proof (at_sep_spec [] (c :: t)) as E. cbn [app length] in E. rewrite E. cbn [mbind outcome_bind].
    case_bool_decide as Hsep; [|eexists _, _; split; [reflexivity|by left]]. destruct (take3_sep _ Hsep) as [rest ->].
    eexists _, _. split; [done|]. right. by exists [], rest.
Qed.

Lemma parse_scheme_hit sch rest : Forall (λ c, none_of [COLON] c = true) sch →
  parse_scheme (sch ++ SEP ++ rest) url_zero 0 =
  Ret (with_scheme (length sch), (length sch + 3)%nat).
Proof.
  intros Hs. unfold parse_scheme, sscanf_scheme. rewrite drop_0. cbn [Nat.add].
  destruct (decide (sch = [])) as [->|Hne]; [done|].
  rewrite sscanf_not_hit by done. rewrite drop_app_length. cbn [lit_input_failure app SEP].
  cbn [Z.eqb COLON SLASH Pos.eqb]. by rewrite at_sep_spec.
Qed.

Lemma parse_host_inv pre t url :
  ∃ url' p', parse_host (pre ++ t) url (length pre) = (url', p') ∧
  ((url' = url ∧ p' = length pre) ∨
   ∃ host rest, t = host ++ rest ∧ host ≠ [] ∧
     Forall (λ c, none_of [COLON; SLASH] c = true) host ∧
     url' = url <| hostname := Some (length pre) |> <| hostname_len := length host |> ∧
     p' = length (pre ++ host)).
Proof.
  unfold parse_host. rewrite drop_app_length.
  pose proof (sscanf_not_inv [COLON; SLASH] t) as Hi.
  destruct (sscanf_not [COLON; SLASH] t) as [rc [n|]];
    [|eexists _, _; split; [reflexivity|by left]].
  destruct Hi as (-> & a & b & -> & <- & Ha & Hall & Hst).
  destruct (Z.ltb_spec 0 (Z.of_nat (length a))); [|by destruct a; cbn in *; [|lia]].
  eexists _, _. split; [reflexivity|]. right. exists a, b. by rewrite length_app.
Qed.

Lemma parse_host_hit pre host rest url : host ≠ [] →
  Forall (λ c, none_of [COLON; SLASH] c = true) host → stops (none_of [COLON; SLASH]) rest →
  parse_host (pre ++ host ++ rest) url (length pre) =
  (url <| hostname := Some (length pre) |> <| hostname_len := length host |>,
   length (pre ++ host)).
Proof.
  intros. unfold parse_host. rewrite drop_app_length, sscanf_not_hit by done.
  destruct (Z.ltb_spec 0 (Z.of_nat (length host))); [|by destruct host; cbn in *; [|lia]].
  by rewrite length_app.
Qed.

Lemma parse_port_inv pre t url :
  parse_port (pre ++ t) url (length pre) = Ret None ∨
  ∃ url' pt rest, parse_port (pre ++ t) url (length pre) = Ret (Some (url', length (pre ++ pt))) ∧
    t = pt ++ rest ∧
    ((url' = url ∧ pt = []) ∨
     ∃ d n, pt = COLON :: d ∧ is_Some (hostname url) ∧ 1 ≤ n ≤ 65535 ∧
            strtol10 (d ++ rest) = (n, length d) ∧ url' = url <| port := n |>).
Proof.
  unfold parse_port. rewrite char_at_split. cbn [mbind outcome_bind].
  destruct (Z.eqb_spec (hd 0 t) COLON) as [Hc|]; last first.
  { right. exists url, [], t. rewrite app_nil_r. split; [done|]. split; [done|by left]. }
  destruct t as [|c r]; [done|]. cbn in Hc. subst c.
  destruct (hostname url) as [h|] eqn:Hh; [|by left].
  assert (drop (length pre + 1) (pre ++ COLON :: r) = r) as -> by by rewrite drop_app_add.
  pose proof (strtol10_consumed r) as Hn. destruct (strtol10 r) as [lport n] eqn:E.
  cbn [snd] in Hn. destruct (Nat.eqb_spec n 0); [by left|].
  destruct (Z.ltb_spec 0 lport), (Z.leb_spec lport 65535); cbn [andb]; try by left.
  right. eexists _, (COLON :: take n r), (drop n r).
  rewrite u16_small by lia. split; [|split].
  - do 3 f_equal. rewrite length_app. cbn. rewrite length_take. lia.
  - cbn. by rewrite take_drop.
  - right. exists (take n r), lport. rewrite take_drop, length_take, Nat.min_l by lia.
    split_and!; try done; lia.
Qed.

(** The end of the URL from [t] on: nothing, or a path and maybe a query. *)
Definition path_query_matches (off : nat) (t : list Z) (url u : tlsuv_url_s) : Prop :=
  (t = [] ∧ u = url) ∨
  ∃ pth qt, t = pth ++ qt ∧ head pth = Some SLASH ∧
    Forall (λ c, none_of [QMARK] c = true) pth ∧
    let url := url <| path := Some off |> <| path_len := length pth |> in
    ((qt = [] ∧ u = url) ∨
     ∃ q, qt = QMARK :: q ∧
          u = url <| query := Some (off + length pth + 1)%nat |> <| query_len := length q |>).

Lemma parse_path_query_spec pre t url : cstr_ok t →
  ∃ rc u, parse_path_query (pre ++ t) url (length pre) = Ret (rc, u) ∧
    ((rc = 0 ∧ path_query_matches (length pre) t url u) ∨
     (rc = -1 ∧ u = url ∧ ∃ c t', t = c :: t' ∧ c ≠ SLASH)).
Proof.
  intros Ht. unfold parse_path_query. rewrite char_at_split. cbn [mbind outcome_bind].
  destruct t as [|c t]; [eexists _, _; split; [reflexivity|by left; split; [|left]]|].
  split_Forall. cbn [hd]. destruct (Z.eqb_spec c 0); [lia|].
  destruct (Z.eqb_spec c SLASH) as [->|]; cbn [negb]; last first.
  { eexists _, _. split; [reflexivity|]. right. split_and!; eauto. }
  rewrite drop_app_length. pose proof (sscanf_not_inv [QMARK] (SLASH :: t)) as Hi.
  destruct (sscanf_not [QMARK] (SLASH :: t)) as [rc [k|]]; last first.
  { destruct Hi as [|(_ & c & ? & [= <- <-] & Hc)]; [done|]. by vm_compute in Hc. }
  destruct Hi as (-> & pth & qt & Heq & <- & Hne & Hall & Hst). rewrite Heq.
  cbn [Z.eqb]. rewrite app_assoc, <-length_app, char_at_split. cbn [mbind outcome_bind].
  assert (head pth = Some SLASH) as Hhd by (destruct pth; [done|]; cbn in Heq; by simplify_eq).
  destruct qt as [|c qt].
  { eexists _, _. split; [reflexivity|]. left. split; [done|]. right.
    exists pth, []. rewrite app_nil_r. split_and!; try done. by left. }
  cbn [hd]. assert (c = QMARK) as ->.
  { cbn in Hst. unfold none_of in Hst.
    destruct (bool_decide_reflect (c ∈ [QMARK])); [|done]. by apply list_elem_of_singleton. }
  rewrite Z.eqb_refl. eexists _, _. split; [reflexivity|]. left. split; [done|]. right.
  exists pth, (QMARK :: qt). split_and!; try done. right. exists qt. split; [done|].
  rewrite drop_app_add. cbn. by rewrite length_app, drop_0.
Qed.

(** ** What the parser promises *)

(** The fields of [u] are consecutive slices of [s] that, with the separators,
    make up the whole of [s]. *)
Definition url_matches (s : list Z) (u : tlsuv_url_s) : Prop :=
  ∃ pre host pt pth qt, s = pre ++ host ++ pt ++ pth ++ qt ∧
  match scheme u with
  | None => pre = []
  | Some o => o = 0%nat ∧ pre = take (scheme_len u) s ++ SEP
  end ∧
  match hostname u with
  | None => host = []
  | Some o => o = length pre ∧ hostname_len u = length host ∧ host ≠ [] ∧
              Forall (λ c, none_of [COLON; SLASH] c = true) host
  end ∧
  ((pt = [] ∧ port u = 0) ∨
   ∃ d, pt = COLON :: d ∧ is_Some (hostname u) ∧ 1 ≤ port u ≤ 65535 ∧
        strtol10 (d ++ pth ++ qt) = (port u, length d)) ∧
  match path u with
  | None => pth = [] ∧ qt = []
  | Some o => o = length (pre ++ host ++ pt) ∧ path_len u = length pth ∧
              head pth = Some SLASH ∧ Forall (λ c, none_of [QMARK] c = true) pth
  end ∧
  match query u with
  | None => qt = []
  | Some o => o = (length (pre ++ host ++ pt ++ pth) + 1)%nat ∧
              ∃ q, qt = QMARK :: q ∧ query_len u = length q
  end.

(** The fields the path/query stage fills in, on top of those of the port stage. *)
Lemma path_query_matches_inv off t url u :
  path_query_matches off t url u → path url = None → query url = None →
  ∃ pth qt, t = pth ++ qt ∧
    scheme u = scheme url ∧ scheme_len u = scheme_len url ∧
    hostname u = hostname url ∧ hostname_len u = hostname_len url ∧ port u = port url ∧
    match path u with
    | None => pth = [] ∧ qt = []
    | Some o => o = off ∧ path_len u = length pth ∧
                head pth = Some SLASH ∧ Forall (λ c, none_of [QMARK] c = true) pth
    end ∧
    match query u with
    | None => qt = []
    | Some o => o = (off + length pth + 1)%nat ∧ ∃ q, qt = QMARK :: q ∧ query_len u = length q
    end.
Proof.
  intros [[-> ->]|(pth & qt & -> & Hh & Hall & [[-> ->]|(q & -> & ->)])] Hp Hq.
  - exists [], []. rewrite Hp, Hq. done.
  - exists pth, []. cbn. rewrite Hq. done.
  - exists pth, (QMARK :: q). cbn. split_and!; eauto.
Qed.

Lemma parse_url_stages s : cstr_ok s →
  ∃ rc u, tlsuv_parse_url s = Ret (rc, u) ∧
          ((rc = 0 ∧ url_matches s u) ∨ rc = -1).
Proof.
  intros Hs. unfold tlsuv_parse_url.
  destruct (parse_scheme_inv s) as (u0 & p0 & E0 & H0). rewrite E0. cbn [mbind outcome_bind].
  assert (∃ pre t, s = pre ++ t ∧ p0 = length pre ∧ path u0 = None ∧ query u0 = None ∧
            hostname u0 = None ∧ port u0 = 0 ∧
            match scheme u0 with
            | None => pre = []
            | Some o => o = 0%nat ∧ pre = take (scheme_len u0) s ++ SEP
            end) as (pre & t & -> & -> & Hp & Hq & Hh & Hport & Hsch).
  { destruct H0 as [[-> ->]|(sch & rest & -> & -> & ->)]; [by exists [], s|].
    exists (sch ++ SEP), rest. rewrite <-app_assoc, length_app. cbn.
    by rewrite take_app_length. }
  destruct (parse_host_inv pre t u0) as (u1 & p1 & -> & H1).
  assert (∃ host t1, t = host ++ t1 ∧ p1 = length (pre ++ host) ∧ path u1 = None ∧
            query u1 = None ∧ port u1 = 0 ∧ scheme u1 = scheme u0 ∧
            scheme_len u1 = scheme_len u0 ∧
            match hostname u1 with
            | None => host = []
            | Some o => o = length pre ∧ hostname_len u1 = length host ∧ host ≠ [] ∧
                        Forall (λ c, none_of [COLON; SLASH] c = true) host
            end) as (host & t1 & -> & -> & Hp1 & Hq1 & Hport1 & Hs1 & Hsl1 & Hhost).
  { destruct H1 as [[-> ->]|(host & rest & -> & Hne & Hall & -> & ->)].
    - exists [], t. rewrite app_nil_r, Hh. done.
    - exists host, rest. done. }
  rewrite app_assoc in Hs |- *.
  destruct (parse_port_inv (pre ++ host) t1 u1) as [->|(u2 & pt & rest & -> & -> & H2)];
    [by eexists _, _; split; [reflexivity|right]|].
  cbn [mbind outcome_bind]. rewrite (app_assoc _ pt) in Hs |- *.
  destruct (parse_path_query_spec ((pre ++ host) ++ pt) rest u2) as (rc & u & -> & Hfin).
  { by apply Forall_app in Hs as [_ ?]. }
  eexists _, _. split; [reflexivity|].
  destruct Hfin as [[-> Hm]|(-> & _)]; [left; split; [done|]|by right].
  apply path_query_matches_inv in Hm as (pth & qt & -> & Es & Esl & Eh & Ehl & Ep & Hpath & Hquery);
    [|by destruct H2 as [[-> _]|(? & ? & _ & _ & _ & _ & ->)]..].
  exists pre, host, pt, pth, qt.
  assert (scheme u2 = scheme u1 ∧ scheme_len u2 = scheme_len u1 ∧ hostname u2 = hostname u1 ∧
          hostname_len u2 = hostname_len u1) as (E1 & E2 & E3 & E4)
    by (by destruct H2 as [[-> _]|(? & ? & _ & _ & _ & _ & ->)]).
  rewrite Es, Esl, Eh, Ehl, Ep, E1, E2, E3, E4, Hs1, Hsl1.
  rewrite <-!app_assoc in *. split_and!; try done.
  - destruct H2 as [[-> ->]|(d & n & -> & Hsome & Hn & Hstr & ->)]; [by left|right].
    by exists d.
  - destruct (query u); [|done]. destruct Hquery as [-> Hq2]. split; [|done].
    rewrite !length_app. lia.
Qed.

(** A URL written out from its parts. *)
Definition render_url (sch host : list Z) (prt : option Z) (pth : list Z) (q : option (list Z))
  : list Z :=
  sch ++ SEP ++ host ++ (match prt with None => [] | Some n => COLON :: print_base 10 n end) ++
  pth ++ (match q with None => [] | Some q => QMARK :: q end).

Record url_parts_ok (sch host : list Z) (prt : option Z) (pth : list Z) (q : option (list Z))
  : Prop := {
  ok_scheme : Forall (λ c, none_of [COLON] c = true) sch;
  ok_host : Forall (λ c, none_of [COLON; SLASH] c = true) host;
  ok_host_ne : host ≠ [];
  ok_port : match prt with None => True | Some n => 1 ≤ n ≤ 65535 end;
  ok_path : match pth with
            | [] => q = None
            | c :: _ => c = SLASH ∧ Forall (λ c, none_of [QMARK] c = true) pth
            end
}.

Lemma parse_port_hit pre n rest url : is_Some (hostname url) → 1 ≤ n ≤ 65535 →
  stops isdigit rest →
  parse_port (pre ++ (COLON :: print_base 10 n) ++ rest) url (length pre) =
  Ret (Some (url <| port := n |>, length (pre ++ COLON :: print_base 10 n))).
Proof.
  intros [h Hh] Hn Hr. unfold parse_port. rewrite char_at_split. cbn [mbind outcome_bind hd app].
  rewrite Z.eqb_refl, Hh.
  assert (drop (length pre + 1) (pre ++ COLON :: print_base 10 n ++ rest) = print_base 10 n ++ rest)
    as -> by by rewrite drop_app_add.
  rewrite strtol10_print by (done || lia).
  pose proof (print_base_nonempty 10 n).
  destruct (Nat.eqb_spec (length (print_base 10 n)) 0) as [H0|]; [by destruct (print_base 10 n)|].
  destruct (Z.ltb_spec 0 n), (Z.leb_spec n 65535); try lia. cbn [andb].
  rewrite u16_small by lia. rewrite length_app. cbn [length]. do 3 f_equal. lia.
Qed.

Lemma parse_path_query_hit pre pth q url : cstr_ok pth →
  match pth with
  | [] => q = None
  | c :: _ => c = SLASH ∧ Forall (λ c, none_of [QMARK] c = true) pth
  end →
  parse_path_query (pre ++ pth ++ match q with None => [] | Some q => QMARK :: q end)
    url (length pre) =
  Ret (0, match pth with
          | [] => url
          | _ =>
            let url := url <| path := Some (length pre) |> <| path_len := length pth |> in
            match q with
            | None => url
            | Some q => url <| query := Some (length (pre ++ pth) + 1)%nat |>
                            <| query_len := length q |>
            end
          end).
Proof.
  intros Hc Hp. unfold parse_path_query. rewrite char_at_split. cbn [mbind outcome_bind].
  destruct pth as [|c pth]; [by subst q|]. destruct Hp as [-> Hall]. cbn [hd app].
  cbn [Z.eqb SLASH negb Pos.eqb]. fold SLASH.
  set (qt := match q with None => [] | Some q => QMARK :: q end).
  change (SLASH :: pth ++ qt) with ((SLASH :: pth) ++ qt).
  rewrite drop_app_length, sscanf_not_hit by (try done; by subst qt; destruct q). cbn [Z.eqb].
  rewrite app_assoc, <-length_app, char_at_split. cbn [mbind outcome_bind].
  subst qt. destruct q as [q|]; cbn [hd]; [|done].
  rewrite Z.eqb_refl, drop_app_add. done.
Qed.

Lemma stops_app_path p pth q :
  match pth with [] => q = None | c :: _ => p c = false end →
  stops p (pth ++ match q with None => [] | Some q => QMARK :: q end).
Proof. destruct pth; cbn; [by intros ->|done]. Qed.

(** The record the parser builds for a rendered URL. *)
Definition rendered (sch host : list Z) (prt : option Z) (pth : list Z) (q : option (list Z))
  : tlsuv_url_s :=
  let h := length (sch ++ SEP) in
  let pt := match prt with None => [] | Some n => COLON :: print_base 10 n end in
  let e := length (((sch ++ SEP) ++ host) ++ pt) in
  let url := with_scheme (length sch) <| hostname := Some h |>
               <| hostname_len := length host |> <| port := default 0 prt |> in
  match pth with
  | [] => url
  | _ =>
    let url := url <| path := Some e |> <| path_len := length pth |> in
    match q with
    | None => url
    | Some q => url <| query := Some (length ((((sch ++ SEP) ++ host) ++ pt) ++ pth) + 1)%nat |>
                    <| query_len := length q |>
    end
  end.

Lemma parse_url_rendered sch host prt pth q :
  url_parts_ok sch host prt pth q → cstr_ok pth →
  tlsuv_parse_url (render_url sch host prt pth q) = Ret (0, rendered sch host prt pth q).
Proof.
  intros [Hsch Hhost Hne Hport Hpath] Hc. unfold render_url, tlsuv_parse_url, rendered.
  set (qt := match q with None => [] | Some q => QMARK :: q end).
  set (pt := match prt with None => [] | Some n => COLON :: print_base 10 n end).
  rewrite parse_scheme_hit, app_assoc by done. cbn [mbind outcome_bind].
  replace (length sch + 3)%nat with (length (sch ++ SEP)) by (rewrite length_app; done).
  assert (∀ p, p SLASH = false → stops p (pth ++ qt)) as Hst.
  { intros p Hp. apply stops_app_path. destruct pth; [done|]. by destruct Hpath as [-> _]. }
  assert (stops (none_of [COLON; SLASH]) (pt ++ pth ++ qt)) as Hst2
    by (subst pt; destruct prt; [done|by apply Hst]).
  rewrite parse_host_hit by done. rewrite app_assoc.
  set (u1 := with_scheme _ <| hostname := _ |> <| hostname_len := _ |>).
  assert (parse_port (((sch ++ SEP) ++ host) ++ pt ++ pth ++ qt) u1 (length ((sch ++ SEP) ++ host))
          = Ret (Some (u1 <| port := default 0 prt |>, length (((sch ++ SEP) ++ host) ++ pt)))) as ->.
  { subst pt. destruct prt as [n|]; [by apply parse_port_hit; [|done|apply Hst]|].
    unfold parse_port. rewrite char_at_split, app_nil_r. cbn [app mbind outcome_bind].
    destruct pth as [|c pth]; [by subst qt; rewrite Hpath|]. by destruct Hpath as [-> _]. }
  cbn [mbind outcome_bind]. rewrite (app_assoc _ pt).
  subst qt. by rewrite parse_path_query_hit by done.
Qed.

Lemma field_app a x b : field (a ++ x ++ b) (Some (length a)) (length x) = Some x.
Proof. unfold field. cbn. by rewrite drop_app_length, take_app_length. Qed.

(** C37: For every string the URL parser returns 0 or -1 without reading past the
    terminator; on success the fields are consecutive, in-bounds slices which
    with their separators reconstruct the whole input, the port is 0 or the
    decimal text after the colon in 1..65535, and path and query start where
    they should. *)
Theorem parse_url_sound s : cstr_ok s →
  ∃ rc u, tlsuv_parse_url s = Ret (rc, u) ∧
          ((rc = 0 ∧ url_matches s u) ∨ rc = -1).
Proof. apply parse_url_stages. Qed.

Lemma parse_url_sound_witness :
  ∃ rc u, tlsuv_parse_url (bs "http://h:80/p?q") = Ret (rc, u) ∧
          ((rc = 0 ∧ url_matches (bs "http://h:80/p?q") u) ∨ rc = -1).
Proof. apply (parse_url_sound (bs "http://h:80/p?q")). repeat constructor. Defined.

(** Print/parse round trip: parsing a URL written from a scheme, a host, an
    optional port, a path and an optional query gives back exactly those parts. *)
Theorem parse_url_roundtrip sch host prt pth q :
  url_parts_ok sch host prt pth q → cstr_ok pth →
  let s := render_url sch host prt pth q in
  ∃ u, tlsuv_parse_url s = Ret (0, u) ∧
       field s (scheme u) (scheme_len u) = Some sch ∧
       field s (hostname u) (hostname_len u) = Some host ∧
       port u = default 0 prt ∧
       field s (path u) (path_len u) = (if decide (pth = []) then None else Some pth) ∧
       field s (query u) (query_len u) = q.
Proof.
  intros Hok Hc s. exists (rendered sch host prt pth q).
  split; [by apply parse_url_rendered|]. subst s. unfold render_url, rendered.
  set (pt := match prt with None => [] | Some n => _ end).
  assert (∀ r, field (sch ++ r) (Some 0%nat) (length sch) = Some sch) as Hf0
    by (intros r; apply (field_app [] sch r)).
  pose proof (ok_path _ _ _ _ _ Hok) as Hp.
  destruct pth as [|c pth]; [subst q|destruct q as [q|]]; cbn [scheme scheme_len hostname
    hostname_len port path path_len query query_len update_with]; split_and!; try done;
    try (rewrite decide_False by done).
  1, 2, 5: rewrite (app_assoc sch); apply field_app.
  1, 3: rewrite (app_assoc sch), (app_assoc _ host), (app_assoc _ pt); apply field_app.
  rewrite (app_assoc sch), (app_assoc _ host), (app_assoc _ pt), (app_assoc _ (c :: pth)).
  unfold field. cbn [mbind option_bind]. rewrite drop_app_add. cbn [drop].
  by rewrite drop_0, take_ge.
Qed.

Lemma parse_url_roundtrip_witness :
  ∃ u, tlsuv_parse_url (bs "wss://h:80/p") = Ret (0, u) ∧
       field (bs "wss://h:80/p") (scheme u) (scheme_len u) = Some (bs "wss") ∧
       field (bs "wss://h:80/p") (hostname u) (hostname_len u) = Some (bs "h") ∧
       port u = 80 ∧ field (bs "wss://h:80/p") (path u) (path_len u) = Some (bs "/p") ∧
       field (bs "wss://h:80/p") (query u) (query_len u) = None.
Proof.
  apply (parse_url_roundtrip (bs "wss") (bs "h") (Some 80) (bs "/p") None);
    [split; [repeat constructor|repeat constructor|done|lia|split; [done|repeat constructor]]
    |repeat constructor].
Defined.
