(* ===== verification/Headers.v ===== *)
(** * HTTP header lists (src/http_req.c: [set_http_header], [add_http_header],
      [tlsuv_http_resp_header], [free_hdr_list])

    A [um_header_list] is a BSD [LIST]: insertion is at the head.  Names compare
    with [strcasecmp].  The abstract value of a list is a finite map from
    lower-cased names to values; [set_http_header] implements insertion into and
    deletion from that map. *)
From S2P Require Import Prelude CLib.
From stdpp Require Import base list gmap numbers strings.
From Stdlib Require Import ZArith Lia.
Open Scope Z_scope.

Record tlsuv_http_hdr := mkhdr { hdr_name : list Z; hdr_value : list Z }.
Abbreviation um_header_list := (list tlsuv_http_hdr).

(** [LIST_INSERT_HEAD(hl, {strdup(name), strndup(value, vallen)})] *)
Definition add_http_header (hl : um_header_list) (name value : list Z) (vallen : nat)
  : um_header_list :=
  mkhdr name (strndup value vallen) :: hl.

(** The node found by the [LIST_FOREACH] of [set_http_header] is unlinked. *)
Fixpoint remove_first (hl : um_header_list) (name : list Z) : um_header_list :=
  match hl with
  | [] => []
  | h :: hl => if strcaseeq (hdr_name h) name then hl else h :: remove_first hl name
  end.
(** The node found by the [LIST_FOREACH] gets a new value (its name is kept);
    [None] when the loop ends with [h == NULL]. *)
Fixpoint replace_first (hl : um_header_list) (name value : list Z) : option um_header_list :=
  match hl with
  | [] => None
  | h :: hl =>
    if strcaseeq (hdr_name h) name then Some (mkhdr (hdr_name h) value :: hl)
    else (λ l, h :: l) <$> replace_first hl name value
  end.

(** [value = None] is a NULL value: the header is removed. *)
Definition set_http_header (hl : um_header_list) (name : list Z) (value : option (list Z))
  : um_header_list :=
  match value with
  | None => remove_first hl name
  | Some v =>
    match replace_first hl name v with
    | Some hl' => hl'
    | None => mkhdr name v :: hl
    end
  end.

Fixpoint tlsuv_http_resp_header (hl : um_header_list) (name : list Z) : option (list Z) :=
  match hl with
  | [] => None
  | h :: hl => if strcaseeq (hdr_name h) name then Some (hdr_value h)
               else tlsuv_http_resp_header hl name
  end.

(** The nodes freed, in order; the list is empty afterwards. *)
Fixpoint free_hdr_list (hl : um_header_list) : list tlsuv_http_hdr :=
  match hl with
  | [] => []
  | h :: hl => h :: free_hdr_list hl
  end.

(** [LIST_FOREACH(h, src) set_http_header(dst, h->name, h->value)] *)
Definition copy_headers (src dst : um_header_list) : um_header_list :=
  fold_left (λ d h, set_http_header d (hdr_name h) (Some (hdr_value h))) src dst.

(** ** The abstract map *)

Definition lower (s : list Z) : list Z := map tolower s.

Definition hdr_map (hl : um_header_list) : gmap (list Z) (list Z) :=
  list_to_map (map (λ h, (lower (hdr_name h), hdr_value h)) hl).

Arguments hdr_map : simpl never.
Arguments lower : simpl never.

(** No two headers with the same name, up to case. *)
Definition hdr_unique (hl : um_header_list) : Prop :=
  NoDup (map (λ h, lower (hdr_name h)) hl).
#[export] Instance hdr_unique_dec hl : Decision (hdr_unique hl).
Proof. unfold hdr_unique. apply _. Defined.

Lemma strcaseeq_lower a b : strcaseeq a b = bool_decide (lower a = lower b).
Proof.
  apply eq_true_iff_eq. rewrite strcaseeq_spec. unfold lower.
  by rewrite bool_decide_eq_true.
Qed.

Lemma hdr_map_cons h hl :
  hdr_map (h :: hl) = <[lower (hdr_name h) := hdr_value h]> (hdr_map hl).
Proof. done. Qed.

Lemma resp_header_map hl name :
  tlsuv_http_resp_header hl name = hdr_map hl !! lower name.
Proof.
  induction hl as [|h hl IH]; [done|]. rewrite hdr_map_cons. cbn.
  rewrite strcaseeq_lower, lookup_insert.
  case_bool_decide; case_decide; done || congruence.
Qed.

Lemma replace_first_map hl name v :
  match replace_first hl name v with
  | Some hl' => hdr_map hl' = <[lower name := v]> (hdr_map hl) ∧
                map (λ h, lower (hdr_name h)) hl' = map (λ h, lower (hdr_name h)) hl
  | None => lower name ∉ map (λ h, lower (hdr_name h)) hl
  end.
Proof.
  induction hl as [|h hl IH]; cbn; [apply not_elem_of_nil|].
  rewrite strcaseeq_lower. case_bool_decide as E.
  - cbn. rewrite !hdr_map_cons. cbn. rewrite E. split; [|done].
    by rewrite insert_insert_eq.
  - destruct (replace_first hl name v) as [hl'|]; cbn.
    + destruct IH as [IH1 IH2]. rewrite !hdr_map_cons, IH1, IH2. split; [|done].
      by rewrite insert_insert_ne by congruence.
    + apply not_elem_of_cons. done.
Qed.

Lemma hdr_map_None hl k : k ∉ map (λ h, lower (hdr_name h)) hl → hdr_map hl !! k = None.
Proof.
  induction hl as [|h hl IH]; cbn; [done|]. intros [? ?]%not_elem_of_cons.
  rewrite hdr_map_cons, lookup_insert_ne by congruence. auto.
Qed.

Lemma remove_first_spec hl name : hdr_unique hl →
  hdr_map (remove_first hl name) = delete (lower name) (hdr_map hl) ∧
  hdr_unique (remove_first hl name) ∧
  (∀ k, k ∈ map (λ h, lower (hdr_name h)) (remove_first hl name) →
        k ∈ map (λ h, lower (hdr_name h)) hl).
Proof.
  unfold hdr_unique. induction hl as [|h hl IH]; cbn; intros Hu.
  { split; [|done]. change (hdr_map []) with (∅ : gmap (list Z) (list Z)).
    by rewrite delete_empty. }
  apply NoDup_cons in Hu as [Hni Hu]. rewrite strcaseeq_lower. case_bool_decide as E.
  - rewrite hdr_map_cons, E. split; [|split; [done|intros; by apply list_elem_of_further]].
    rewrite delete_insert_eq, delete_id; [done|]. apply hdr_map_None. by rewrite <-E.
  - destruct (IH Hu) as (IH1 & IH2 & IH3). rewrite !hdr_map_cons, IH1. split_and!.
    + by rewrite delete_insert_ne by congruence.
    + cbn. apply NoDup_cons. split; [|done]. intros Hk. by apply Hni, IH3.
    + cbn. intros k [->|Hk]%elem_of_cons; [by left|right]. auto.
Qed.

Lemma set_http_header_spec hl name value : hdr_unique hl →
  hdr_unique (set_http_header hl name value) ∧
  hdr_map (set_http_header hl name value) =
    match value with
    | Some v => <[lower name := v]> (hdr_map hl)
    | None => delete (lower name) (hdr_map hl)
    end.
Proof.
  intros Hu. unfold set_http_header. destruct value as [v|].
  - pose proof (replace_first_map hl name v) as H.
    destruct (replace_first hl name v) as [hl'|].
    + destruct H as [H1 H2]. split; [|done]. unfold hdr_unique. by rewrite H2.
    + split; [|done]. unfold hdr_unique. cbn. by apply NoDup_cons.
  - destruct (remove_first_spec hl name Hu) as (? & ? & _). done.
Qed.

Lemma copy_headers_spec src dst : hdr_unique src → hdr_unique dst →
  hdr_unique (copy_headers src dst) ∧
  hdr_map (copy_headers src dst) = hdr_map src ∪ hdr_map dst.
Proof.
  unfold copy_headers. revert dst. induction src as [|h src IH]; intros dst Hs Hd.
  { split; [done|]. change (hdr_map []) with (∅ : gmap (list Z) (list Z)).
    by rewrite (left_id_L ∅ (∪)). }
  unfold hdr_unique in Hs. cbn in Hs. apply NoDup_cons in Hs as [Hni Hs].
  destruct (set_http_header_spec dst (hdr_name h) (Some (hdr_value h)) Hd) as [Hd' Hm].
  destruct (IH _ Hs Hd') as [IH1 IH2]. split; [exact IH1|]. etrans; [exact IH2|]. rewrite Hm.
  rewrite hdr_map_cons, <-insert_union_l, <-insert_union_r; [done|]. by apply hdr_map_None.
Qed.

(** Adding at the head of a list shadows nothing that has another name. *)
Lemma resp_header_add hl name value vallen k :
  tlsuv_http_resp_header (add_http_header hl name value vallen) k =
  if strcaseeq name k then Some (strndup value vallen) else tlsuv_http_resp_header hl k.
Proof. done. Qed.

Lemma free_hdr_list_all hl : free_hdr_list hl = hl.
Proof. induction hl as [|h hl IH]; cbn; congruence. Qed.

(** ** Properties *)

(** [set_http_header] implements a case-insensitive map: a list with no two
    equal names keeps that property, a lookup of the name set gives the new value
    (nothing when the value is NULL), and a lookup of any other name is unchanged. *)
Theorem set_http_header_is_map_update hl name value :
  hdr_unique hl →
  hdr_unique (set_http_header hl name value) ∧
  ∀ k, tlsuv_http_resp_header (set_http_header hl name value) k =
       if strcaseeq k name then value else tlsuv_http_resp_header hl k.
Proof.
  intros Hu. destruct (set_http_header_spec hl name value Hu) as [Hu' Hm].
  split; [done|]. intros k. rewrite !resp_header_map, Hm, strcaseeq_lower.
  destruct value; case_bool_decide as E;
    rewrite ?E, ?lookup_insert_eq, ?lookup_delete_eq, ?lookup_insert_ne, ?lookup_delete_ne
      by congruence; done.
Qed.

(** A request header set twice in different case, then removed. *)
Lemma set_http_header_is_map_update_witness :
  let hl := set_http_header [mkhdr (bs "Accept") (bs "*/*")] (bs "Host") (Some (bs "a")) in
  let hl2 := set_http_header hl (bs "HOST") (Some (bs "b")) in
  hdr_unique hl2 ∧
  tlsuv_http_resp_header hl2 (bs "host") = Some (bs "b") ∧
  tlsuv_http_resp_header hl2 (bs "accept") = Some (bs "*/*") ∧ length hl2 = 2%nat.
Proof.
  intros hl hl2.
  assert (hdr_unique hl) as H.
  { apply (bool_decide_unpack (hdr_unique _)). vm_compute. exact I. }
  destruct (set_http_header_is_map_update hl (bs "HOST") (Some (bs "b")) H) as [H1 H2].
  split; [exact H1|]. split; [|split].
  - etrans; [exact (H2 (bs "host"))|]. vm_compute. reflexivity.
  - etrans; [exact (H2 (bs "accept"))|]. vm_compute. reflexivity.
  - vm_compute. reflexivity.
Defined.

(** The header copy loop of [tlsuv_http_req] gives a new request exactly the
    client's headers: every lookup in the copy agrees with the client's list, and
    no name is duplicated. *)
Theorem copy_headers_faithful src :
  hdr_unique src →
  hdr_unique (copy_headers src []) ∧
  ∀ k, tlsuv_http_resp_header (copy_headers src []) k = tlsuv_http_resp_header src k.
Proof.
  intros Hs. destruct (copy_headers_spec src [] Hs (NoDup_nil_2)) as [H1 H2].
  split; [done|]. intros k. rewrite !resp_header_map, H2.
  change (hdr_map []) with (∅ : gmap (list Z) (list Z)). by rewrite (right_id_L ∅ (∪)).
Qed.

(** The headers of a fresh client. *)
Lemma copy_headers_faithful_witness :
  let src := [mkhdr (bs "Connection") (bs "keep-alive"); mkhdr (bs "Host") (bs "h")] in
  hdr_unique src ∧ copy_headers src [] = [mkhdr (bs "Host") (bs "h"); mkhdr (bs "Connection") (bs "keep-alive")] ∧
  tlsuv_http_resp_header (copy_headers src []) (bs "connection") = Some (bs "keep-alive").
Proof.
  intros src.
  assert (hdr_unique src) as H.
  { apply (bool_decide_unpack (hdr_unique _)). vm_compute. exact I. }
  split; [exact H|]. split; [reflexivity|].
  destruct (copy_headers_faithful src H) as [_ H2]. etrans; [exact (H2 (bs "connection"))|].
  reflexivity.
Defined.
