(* ===== verification/HdrList.v ===== *)
(** * Header lists in memory (src/http_req.c over include/tlsuv/queue.h)

    [Headers] treats a header list as a sequence of names and values.  Here the same functions
    run on the linked structures the code uses: every header is an allocated
    [tlsuv_http_hdr] with two allocated strings, linked into a [LIST].  Each function is shown to
    compute what its counterpart in [Headers] says, without a fault, to leave every object that
    is not part of the list as it was, and to keep alive exactly the objects of the new list. *)
From S2P Require Import Prelude CLib CMem Queue Headers.
From stdpp Require Import base list gmap numbers strings.
From Stdlib Require Import ZArith Lia.
Open Scope Z_scope.
Local Open Scope string_scope.
Local Open Scope list_scope.
Set Warnings "-clear-no-such-hyp".

(** The fields of [struct tlsuv_http_hdr_s]. *)
Definition hdr_fields : list (list string) :=
  [["name"]; ["value"]; ["_next"; "le_next"]; ["_next"; "le_prev"]].

(** The statements [add_http_header] and [set_http_header] share: [malloc], [strdup] of the name,
    [LIST_INSERT_HEAD]; and [h->value = str...dup(...)]. *)
Definition new_named (name : list Z) : M mem cval :=
  h ← malloc hdr_fields;
  an ← fld h ["name"]; n ← strdup_ name; _ ← store an n;
  mret h.
Definition insert_named (hl : addr) (name : list Z) : M mem cval :=
  h ← new_named name;
  _ ← LIST_INSERT_HEAD hl h "_next";
  mret h.
Definition assign_value (h : cval) (value : list Z) : M mem unit :=
  av ← fld h ["value"]; v ← strdup_ value; store av v.

Definition mem_add_http_header (hl : addr) (name value : list Z) (vallen : nat) : M mem unit :=
  h ← insert_named hl name;
  assign_value h (strndup value vallen).

(** [strcasecmp(h->name, name) == 0] *)
Definition name_is (name : list Z) (h : cval) : M mem bool :=
  a ← fld h ["name"]; p ← load a; n ← load_buf p; mret (strcaseeq n name).

Definition mem_set_http_header (fuel : nat) (hl : addr) (name : list Z) (value : option (list Z)) : M mem unit :=
  h ← LIST_FOREACH fuel hl "_next" (name_is name);
  match value with
  | None =>
    if decide (h ≠ NULL) then
      _ ← LIST_REMOVE h "_next";
      av ← fld h ["value"]; v ← load av; _ ← free v;
      an ← fld h ["name"]; n ← load an; _ ← free n;
      free h
    else mret tt
  | Some value =>
    h ← (if decide (h = NULL) then insert_named hl name
         else av ← fld h ["value"]; v ← load av; _ ← free v; mret h);
    assign_value h value
  end.

(** The string found, or NULL. *)
Definition mem_resp_header (fuel : nat) (hl : addr) (name : list Z) : M mem cval :=
  h ← LIST_FOREACH fuel hl "_next" (name_is name);
  if decide (h = NULL) then mret NULL else av ← fld h ["value"]; load av.

Definition free_hdr (hdr : cval) : M mem unit :=
  an ← fld hdr ["name"]; n ← load an; _ ← free n;
  av ← fld hdr ["value"]; v ← load av; free v.

Fixpoint mem_free_hdr_list (fuel : nat) (l : addr) : M mem unit :=
  e ← LIST_EMPTY l;
  if (e : bool) then mret tt
  else match fuel with
       | O => fail_with OutOfFuel
       | S fuel =>
         h ← LIST_FIRST l;
         _ ← LIST_REMOVE h "_next";
         _ ← free_hdr h;
         _ ← free h;
         mem_free_hdr_list fuel l
       end.

(** ** The representation *)

(** The objects of one header: the structure and its two strings. *)
Record node := mknode { n_obj : ptr; n_name : ptr; n_value : ptr }.
Definition owned (ns : list node) : list ptr := flat_map (λ n, [n_obj n; n_name n; n_value n]) ns.
Arguments owned : simpl never.

Record node_ok (m : mem) (n : node) (h : tlsuv_http_hdr) : Prop := {
  no_name : cell m (n_obj n, ["name"]) = Some (PTR (n_name n));
  no_name_str : buf_at m (n_name n) = Some (hdr_name h);
  no_value : cell m (n_obj n, ["value"]) = Some (PTR (n_value n));
  no_value_str : buf_at m (n_value n) = Some (hdr_value h)
}.

Record hdrs_rep (hl : addr) (ns : list node) (hs : um_header_list) (m : mem) : Prop := {
  hr_list : list_rep "_next" hl (map n_obj ns) m;
  hr_nodes : Forall2 (node_ok m) ns hs;
  hr_sep : NoDup (hl.1 :: owned ns);
  hr_ok : mem_ok m
}.

(** An operation on the list changes its head and the objects of its headers. *)
Abbreviation list_step hl := (heap_step (λ b, b = sub hl "lh_first")).

(** ** Lemmas *)

Section lemmas.
Implicit Types (m : mem) (n : node) (ns : list node) (hs : um_header_list) (hl : addr).

Lemma owned_cons n ns : owned (n :: ns) = n_obj n :: n_name n :: n_value n :: owned ns.
Proof. done. Qed.
Lemma owned_app ns1 ns2 : owned (ns1 ++ ns2) = (owned ns1 ++ owned ns2).
Proof. unfold owned. by rewrite flat_map_app. Qed.
Lemma obj_owned x ns : x ∈ map n_obj ns → x ∈ owned ns.
Proof.
  intros (n & -> & Hn)%list_elem_of_fmap. unfold owned. apply list_elem_of_In, in_flat_map. exists n.
  split; [by apply list_elem_of_In|by left].
Qed.
Lemma list_cells_owned hl ns b : b ∈ list_cells "_next" hl (map n_obj ns) →
  b = sub hl "lh_first" ∨ (b.1 ∈ owned ns ∧ b.2 ≠ ["name"] ∧ b.2 ≠ ["value"]).
Proof.
  rewrite list_cells_elem. intros [->|(x & Hx%obj_owned & [->| ->])]; [by left|right..]; done.
Qed.

Lemma node_ok_agree m m' n h :
  cell m' (n_obj n, ["name"]) = cell m (n_obj n, ["name"]) →
  cell m' (n_obj n, ["value"]) = cell m (n_obj n, ["value"]) →
  buf_at m' (n_name n) = buf_at m (n_name n) → buf_at m' (n_value n) = buf_at m (n_value n) →
  node_ok m n h → node_ok m' n h.
Proof. intros E1 E2 E3 E4 [A B C D]. split; congruence. Qed.

Lemma nodes_agree m m' ns hs :
  (∀ p f, p ∈ owned ns → f = "name" ∨ f = "value" → cell m' (p, [f]) = cell m (p, [f])) →
  (∀ p, p ∈ owned ns → buf_at m' p = buf_at m p) →
  Forall2 (node_ok m) ns hs → Forall2 (node_ok m') ns hs.
Proof.
  intros Hc Hb H. revert Hc Hb. induction H as [|n h ns hs Hn H IH]; intros Hc Hb; constructor.
  - eapply node_ok_agree; [..|done]; [apply Hc; [|tauto]|apply Hc; [|tauto]|apply Hb|apply Hb];
      rewrite ?owned_cons; clear; set_solver.
  - apply IH; intros; [apply Hc|apply Hb]; rewrite ?owned_cons; try done; by do 3 right.
Qed.
Lemma nodes_live ns hs m p : Forall2 (node_ok m) ns hs → p ∈ owned ns → is_Some (objs m !! p).
Proof.
  induction 1 as [|n h ns hs [] B IH]; rewrite ?owned_cons; [by intros ?%elem_of_nil|].
  rewrite !elem_of_cons. intros [->|[->|[->|Hp]]]; [..|auto].
  - by eapply (cell_live m (_, _)).
  - by eapply buf_live.
  - by eapply buf_live.
Qed.

(** A list in which the value of one header is to be assigned. *)
Record open_rep hl ns1 (x pn : ptr) ns2 hs1 (nm : list Z) hs2 m : Prop := {
  or_list : list_rep "_next" hl (map n_obj ns1 ++ x :: map n_obj ns2) m;
  or_nodes : Forall2 (node_ok m) (ns1 ++ ns2) (hs1 ++ hs2);
  or_len : length ns1 = length hs1;
  or_name : cell m (x, ["name"]) = Some (PTR pn);
  or_str : buf_at m pn = Some nm;
  or_value : is_Some (cell m (x, ["value"]));
  or_sep : NoDup (hl.1 :: x :: pn :: owned (ns1 ++ ns2));
  or_ok : mem_ok m
}.
Lemma open_live hl ns1 x pn ns2 hs1 nm hs2 m p :
  open_rep hl ns1 x pn ns2 hs1 nm hs2 m → p ∈ x :: pn :: owned (ns1 ++ ns2) → is_Some (objs m !! p).
Proof.
  intros [_ A _ B C _ _ _] [->|[->|Hp]%elem_of_cons]%elem_of_cons.
  - by eapply (cell_live m (_, _)).
  - by eapply buf_live.
  - by eapply nodes_live.
Qed.
Lemma list_rep_head_live hl xs m : list_rep "_next" hl xs m → is_Some (objs m !! hl.1).
Proof. intros [_ A _]. apply seg_first in A. by apply cell_live in A. Qed.

Lemma assign_value_spec hl ns1 x pn ns2 hs1 nm hs2 v m :
  open_rep hl ns1 x pn ns2 hs1 nm hs2 m →
  wp (assign_value (PTR x) v) (λ _ m', ∃ ns',
    hdrs_rep hl ns' (hs1 ++ mkhdr nm v :: hs2) m' ∧
    list_step hl (x :: pn :: owned (ns1 ++ ns2)) (owned ns') m m') m.
Proof.
  intros Hr. pose proof (λ p, open_live _ _ _ _ _ _ _ _ _ p Hr) as Hlive.
  destruct Hr as [L N Len A B [w C] S Ok]. pose proof (list_rep_head_live _ _ _ L) as Hhd.
  unfold assign_value. wp_simpl. apply wp_alloc. set (m1 := mkmem _ _).
  assert (∀ p, is_Some (objs m !! p) → p ≠ brk m) as Hf by (intros; by apply mem_ok_fresh).
  assert (x ≠ brk m) as Hx by (apply Hf, Hlive; left).
  wp_simpl. eapply wp_store; [unfold m1; rewrite cell_alloc; done|].
  exists (ns1 ++ mknode x pn (brk m) :: ns2).
  assert (∀ b, b.1 ≠ brk m → b ≠ (x, ["value"]) → cell (set_cell m1 (x, ["value"]) (PTR (brk m))) b = cell m b) as Hc.
  { intros b Hb1 Hb2. rewrite cell_set_ne by congruence. unfold m1. by apply cell_alloc. }
  assert (∀ p, p ≠ brk m → buf_at (set_cell m1 (x, ["value"]) (PTR (brk m))) p = buf_at m p) as Hbuf.
  { intros p Hp. rewrite buf_at_set. by apply buf_at_alloc. }
  assert (∀ p, p ∈ owned (ns1 ++ ns2) → p ≠ x ∧ p ≠ brk m) as Hne.
  { intros p Hp. split; [|by apply Hf, Hlive; do 2 right]. intros ->.
    apply NoDup_cons in S as [_ S]. apply NoDup_cons in S as [S _]. apply S. by right. }
  split.
  - assert (Forall2 (node_ok (set_cell m1 (x, ["value"]) (PTR (brk m)))) (ns1 ++ ns2) (hs1 ++ hs2)) as N'.
    { apply nodes_agree with m; [|intros p Hp; by apply Hbuf, Hne|done].
      intros p f Hp _. apply Hc; [by apply Hne|]. intros [= -> _]. by destruct (Hne x Hp). }
    apply Forall2_app_inv in N' as [N1 N2]; [|done]. split.
    + rewrite map_app. cbn. eapply list_rep_agree; [|exact L]. intros b Hb. apply Hc.
      * apply Hf. apply list_cells_elem in Hb as [->|(y & Hy & Hb)]; [done|].
        assert (y ∈ x :: pn :: owned (ns1 ++ ns2)) as Hy'.
        { apply elem_of_app in Hy as [Hy|[->|Hy]%elem_of_cons]; [|by left|]; do 2 right; rewrite owned_app, elem_of_app;
            [left|right]; by apply obj_owned. }
        destruct Hb as [-> | ->]; by apply Hlive.
      * intros ->. apply list_cells_elem in Hb as [Hb|(y & Hy & [Hb|Hb])]; [|done..].
        by apply (sub_inj (x, []) _ hl "lh_first") in Hb.
    + apply Forall2_app; [done|]. constructor; [|done]. split; cbn.
      * rewrite Hc; done.
      * rewrite Hbuf; [done|]. by apply Hf, Hlive; right; left.
      * erewrite cell_set_eq; [done|]. unfold m1. by rewrite cell_alloc.
      * rewrite buf_at_set. unfold m1, buf_at. cbn. by rewrite lookup_insert_eq.
    + rewrite owned_app, owned_cons. cbn. rewrite owned_app in S, Hlive.
      assert (brk m ∉ hl.1 :: x :: pn :: (owned ns1 ++ owned ns2)) as Hb.
      { intros [H|H]%elem_of_cons; [by apply (Hf (hl.1))|]. by apply Hlive, Hf in H. }
      eapply NoDup_Permutation_proper; [|apply NoDup_cons; split; [exact Hb|exact S]].
      solve_Permutation.
    + apply mem_ok_set. by apply mem_ok_alloc.
  - rewrite !owned_app in *. rewrite owned_cons. eapply step_trans; [by apply step_alloc|].
    eapply step_equiv; [done| |apply step_set].
    + intros p. cbn. rewrite !elem_of_cons, !elem_of_app, !elem_of_cons. clear. tauto.
    + cbn. right. left.
    + intros p [->|Hp]%elem_of_cons; unfold m1; cbn; [by rewrite lookup_insert_eq|].
      rewrite lookup_insert_ne by (apply not_eq_sym, Hf, Hlive, Hp). by apply Hlive.
Qed.
(** The representation depends on the list's own objects only. *)
Lemma hdrs_rep_agree hl ns hs m m' :
  (∀ b, b = sub hl "lh_first" ∨ b.1 ∈ owned ns → cell m' b = cell m b) →
  (∀ p, p ∈ owned ns → buf_at m' p = buf_at m p) → mem_ok m' →
  hdrs_rep hl ns hs m → hdrs_rep hl ns hs m'.
Proof.
  intros Hc Hb Hok [A B C D]. split; [|..|done|done].
  - apply list_rep_agree with m; [|done]. intros b Hb'%list_cells_owned. apply Hc. tauto.
  - apply nodes_agree with m; [|done..]. intros p f Hp _. apply Hc. by right.
Qed.

Lemma new_named_spec hl ns hs nm m :
  hdrs_rep hl ns hs m →
  wp (new_named nm) (λ h m', ∃ x pn, h = PTR x ∧
    hdrs_rep hl ns hs m' ∧ list_step hl (owned ns) (x :: pn :: owned ns) m m' ∧
    NoDup (hl.1 :: x :: pn :: owned ns) ∧ cell m' (x, ["name"]) = Some (PTR pn) ∧ buf_at m' pn = Some nm ∧
    (∀ f, f ∈ hdr_fields → is_Some (cell m' (x, f)))) m.
Proof.
  intros Hr. pose proof (λ p, nodes_live _ _ _ p (hr_nodes _ _ _ _ Hr)) as Hlive.
  pose proof (list_rep_head_live _ _ _ (hr_list _ _ _ _ Hr)) as Hhd. pose proof (hr_ok _ _ _ _ Hr) as Ok.
  unfold new_named, malloc. wp_simpl. apply wp_alloc. set (m1 := mkmem _ _). set (x := brk m).
  wp_simpl. apply wp_alloc. set (m2 := mkmem _ _). set (pn := brk m1). wp_simpl.
  assert (mem_ok m1) as Ok1 by (by apply mem_ok_alloc).
  assert (∀ p, is_Some (objs m !! p) → p ≠ x ∧ p ≠ pn) as Hf.
  { intros p Hp%Ok. unfold x, pn, m1. cbn. lia. }
  assert (x ≠ pn) as Hxp by (unfold x, pn, m1; cbn; lia).
  assert (∀ p, p ∈ x :: owned ns → is_Some (objs m1 !! p)) as Hl1.
  { intros p [->|Hp]%elem_of_cons; unfold m1; cbn; [by rewrite lookup_insert_eq|].
    pose proof (Hf _ (Hlive p Hp)) as [??]. rewrite lookup_insert_ne by done. by apply Hlive. }
  assert (∀ f, f ∈ hdr_fields → cell m2 (x, f) = Some UNDEF) as Hx.
  { intros f Hin. unfold m2. rewrite cell_alloc by done. unfold m1, x. by apply cell_malloc. }
  assert (∀ b, is_Some (objs m !! b.1) → cell (set_cell m2 (x, ["name"]) (PTR pn)) b = cell m b) as Hold.
  { intros b [H1 H2]%Hf. rewrite cell_set_ne by (intros <-; done). unfold m2. rewrite cell_alloc by done. by apply cell_alloc. }
  eapply wp_store; [apply Hx; elem|]. wp_simpl. exists x, pn. split; [done|]. split_and!.
  - apply hdrs_rep_agree with m; [..|done].
    + intros b [->|Hb]; apply Hold; [done|by apply Hlive].
    + intros p Hp. pose proof (Hf _ (Hlive p Hp)) as [??]. rewrite buf_at_set. unfold m2. rewrite buf_at_alloc by done. by apply buf_at_alloc.
    + by apply mem_ok_set, mem_ok_alloc.
  - eapply step_trans; [by apply step_alloc|]. eapply step_trans; [by apply step_alloc|].
    eapply step_equiv; [done| |apply step_set].
    + intros p. cbn. fold x. rewrite !elem_of_cons. clear. tauto.
    + right. left.
    + intros p. rewrite elem_of_cons. intros [->|Hp]; cbn; [by rewrite lookup_insert_eq|].
      rewrite lookup_insert_ne; [by apply Hl1|]. intros <-. apply Hl1, Ok1 in Hp. by apply Pos.lt_irrefl in Hp.
  - rewrite NoDup_cons, NoDup_cons, NoDup_cons. pose proof (hr_sep _ _ _ _ Hr) as S. apply NoDup_cons in S as [S1 S2].
    pose proof (Hf _ Hhd) as [??]. split_and!; [..|done].
    + rewrite !elem_of_cons. naive_solver.
    + rewrite !elem_of_cons. intros [?|Hp]; [done|]. by apply Hlive, Hf in Hp as [].
    + intros Hp. by apply Hlive, Hf in Hp as [].
  - eapply cell_set_eq, Hx. elem.
  - rewrite buf_at_set. unfold m2, buf_at. cbn. by rewrite lookup_insert_eq.
  - intros f Hin. apply (t_def [(x, ["name"])] m2); [apply touches_set; left|]. rewrite Hx by done. eauto.
Qed.

Lemma insert_named_spec hl ns hs nm m :
  hdrs_rep hl ns hs m →
  wp (insert_named hl nm) (λ h m', ∃ x pn, h = PTR x ∧
    open_rep hl [] x pn ns [] nm hs m' ∧ list_step hl (owned ns) (x :: pn :: owned ns) m m') m.
Proof.
  intros Hr. unfold insert_named. wp_call (by eapply new_named_spec).
  intros h m1 (x & pn & -> & [L N S Ok] & Hstep & Hd & Hn & Hs & Hfs).
  pose proof (λ p, nodes_live _ _ _ p N) as Hlive.
  assert ((x ∉ owned ns) ∧ (pn ∉ owned ns)) as [Hx Hpn] by (rewrite !NoDup_cons, !elem_of_cons in Hd; tauto).
  wp_call (eapply LIST_INSERT_HEAD_rep; [exact L|by intros ?%obj_owned|apply Hfs; elem|apply Hfs; elem]).
  intros _ m2 [L2 T]. wp_simpl. exists x, pn. split; [done|].
  assert (∀ b, b ∈ list_cells "_next" hl (x :: map n_obj ns) →
    b = sub hl "lh_first" ∨ (b.1 ∈ x :: owned ns ∧ b.2 ≠ ["name"] ∧ b.2 ≠ ["value"])) as Hb.
  { intros b [->|(y & Hy & Hb)]%list_cells_elem; [by left|right].
    apply elem_of_cons in Hy as [->|Hy%obj_owned]; destruct Hb as [->| ->]; cbn; split_and!; try done; by constructor. }
  assert (∀ p f, f = "name" ∨ f = "value" → cell m2 (p, [f]) = cell m1 (p, [f])) as Hc.
  { intros p f Hf. apply (t_cell _ _ _ T). intros [E|(_ & ? & ?)]%Hb; [|naive_solver].
    apply (sub_inj (p, [])) in E. naive_solver. }
  split.
  - split; cbn; [done| |done|rewrite Hc; tauto|by rewrite (t_buf _ _ _ T)| |done|by eapply touches_ok].
    + eapply nodes_agree; [|intros; apply (t_buf _ _ _ T)|done]. auto.
    + rewrite Hc by tauto. apply Hfs. elem.
  - eapply step_trans; [done|]. eapply step_touches; [| |done].
    + intros b [?|[? _]]%Hb; [by left|right]. rewrite elem_of_cons in *. rewrite elem_of_cons. naive_solver.
    + intros p. rewrite !elem_of_cons. intros [->|[->|?]]; [by eapply (cell_live _ (_, _))|by eapply buf_live|by apply Hlive].
Qed.
(** The node whose header has the name, if there is one. *)
Inductive found (name : list Z) ns hs : cval → Prop :=
  | found_none : Forall (λ h, strcaseeq (hdr_name h) name = false) hs → found name ns hs NULL
  | found_at ns1 n ns2 hs1 h hs2 :
    ns = (ns1 ++ n :: ns2) → hs = (hs1 ++ h :: hs2) → length ns1 = length hs1 →
    Forall (λ h, strcaseeq (hdr_name h) name = false) hs1 → strcaseeq (hdr_name h) name = true →
    found name ns hs (PTR (n_obj n)).

(** What [name_is] reads. *)
Definition names m (name : list Z) (x : ptr) : bool :=
  match cell m (x, ["name"]) with
  | Some (PTR p) => match buf_at m p with Some b => strcaseeq b name | None => false end
  | _ => false
  end.
Lemma names_ok m n h name : node_ok m n h → names m name (n_obj n) = strcaseeq (hdr_name h) name.
Proof. intros [A B _ _]. unfold names. by rewrite A, B. Qed.
Lemma name_is_ok m n h name : node_ok m n h → name_is name (PTR (n_obj n)) m = Ret (names m name (n_obj n), m).
Proof.
  intros Hn. rewrite (names_ok _ _ h) by done. destruct Hn as [A B _ _].
  unfold name_is, mbind, M_bind. cbn. unfold load. rewrite A. unfold load_buf. unfold buf_at in B.
  by destruct (objs m !! n_name n) as [[]|]; simplify_eq.
Qed.
Lemma found_find m ns hs name :
  Forall2 (node_ok m) ns hs → found name ns hs (find_ptr (names m name) (map n_obj ns)).
Proof.
  induction 1 as [|n h ns hs Hn H IH]; [by constructor|]. cbn [map]. rewrite find_ptr_cons, (names_ok _ _ h) by done.
  destruct (strcaseeq (hdr_name h) name) eqn:E.
  - by apply (found_at _ _ _ [] n ns [] h hs).
  - inversion IH as [Hf Hx|ns1 n' ns2 hs1 h' hs2 -> -> Hl Hf Ht Hx].
    + constructor. by constructor.
    + apply (found_at _ _ _ (n :: ns1) n' ns2 (h :: hs1) h' hs2); cbn; try done; [congruence|by constructor].
Qed.
Lemma find_spec hl ns hs name fuel m :
  hdrs_rep hl ns hs m → (length hs ≤ fuel)%nat →
  ∃ v, LIST_FOREACH fuel hl "_next" (name_is name) m = Ret (v, m) ∧ found name ns hs v.
Proof.
  intros [L N S Ok] Hf. exists (find_ptr (names m name) (map n_obj ns)). split; [|by apply found_find].
  apply LIST_FOREACH_rep; [done|by rewrite length_map, (Forall2_length _ _ _ N)|].
  intros x (n & -> & Hn)%list_elem_of_fmap. apply list_elem_of_lookup in Hn as [i Hi].
  destruct (Forall2_lookup_l _ _ _ _ _ N Hi) as (h & _ & Hn). by eapply name_is_ok.
Qed.

Lemma unlink_spec hl ns1 n ns2 hs1 h hs2 m :
  hdrs_rep hl (ns1 ++ n :: ns2) (hs1 ++ h :: hs2) m → length ns1 = length hs1 →
  wp (LIST_REMOVE (PTR (n_obj n)) "_next") (λ _ m',
    hdrs_rep hl (ns1 ++ ns2) (hs1 ++ hs2) m' ∧ node_ok m' n h ∧
    list_step hl (owned (ns1 ++ n :: ns2)) (owned (ns1 ++ n :: ns2)) m m') m.
Proof.
  intros [L N S Ok] Hl. rewrite map_app in L. cbn in L. eapply wp_mono; [by eapply LIST_REMOVE_rep|].
  intros _ m' [L' T]. rewrite <-map_app in L', T. pose proof (λ b, list_cells_owned hl (ns1 ++ ns2) b) as Hb.
  assert (∀ p f, f = "name" ∨ f = "value" → cell m' (p, [f]) = cell m (p, [f])) as Hc.
  { intros p f Hf. apply (t_cell _ _ _ T). intros [E|(_ & ? & ?)]%Hb; [|naive_solver].
    apply (sub_inj (p, [])) in E. naive_solver. }
  pose proof (λ p, nodes_live _ _ _ p N) as Hlive.
  assert (Forall2 (node_ok m') (ns1 ++ n :: ns2) (hs1 ++ h :: hs2)) as N'.
  { eapply nodes_agree; [|intros; apply (t_buf _ _ _ T)|done]. auto. }
  apply Forall2_app_inv in N' as [N1 N2]; [|done]. inversion N2; subst.
  split; [split; [done|by apply Forall2_app| |by eapply touches_ok]|split; [done|]].
  - rewrite owned_app in *. rewrite owned_cons in S. eapply sublist_NoDup; [exact S|].
    apply sublist_skip, sublist_app; [done|]. by do 3 apply sublist_cons.
  - eapply step_touches; [|done|done]. intros b [?|[H' _]]%Hb; [by left|right].
    rewrite owned_app in *. rewrite owned_cons. rewrite !elem_of_app, !elem_of_cons in *. tauto.
Qed.

Lemma free_outside hl ns hs p o m :
  hdrs_rep hl ns hs m → p ∉ hl.1 :: owned ns → p ∉ o → (∀ q, q ∈ p :: o → is_Some (objs m !! q)) →
  wp (free (PTR p)) (λ _ m', hdrs_rep hl ns hs m' ∧ list_step hl (p :: o) o m m' ∧
    (∀ b, b.1 ≠ p → cell m' b = cell m b) ∧ (∀ q, q ∈ o → is_Some (objs m' !! q))) m.
Proof.
  intros Hr Hp Ho Hlive. apply not_elem_of_cons in Hp as [Hp1 Hp2]. apply wp_free; [apply Hlive; left|]. split_and!.
  - apply hdrs_rep_agree with m; [..|done].
    + intros b Hb. apply cell_free. destruct Hb as [->|Hb]; [done|]. intros E. apply Hp2. by rewrite <-E.
    + intros q Hq. apply buf_at_free. by intros ->.
    + by apply mem_ok_free, Hr.
  - apply step_free; [|left|done]. intros q. rewrite elem_of_cons. split; [|naive_solver]. intros Hq. split; [by right|by intros ->].
  - intros b Hb. by apply cell_free.
  - intros q Hq. cbn. rewrite lookup_delete_ne by (by intros ->). apply Hlive. by right.
Qed.
(** The objects of a node removed from the list. *)
Lemma removed_apart hl ns1 n ns2 : NoDup (hl.1 :: owned (ns1 ++ n :: ns2)) →
  let o := hl.1 :: owned (ns1 ++ ns2) in
  (n_obj n ∉ o) ∧ (n_name n ∉ o) ∧ (n_value n ∉ o) ∧ n_obj n ≠ n_name n ∧ n_obj n ≠ n_value n ∧ n_name n ≠ n_value n.
Proof.
  rewrite !owned_app, owned_cons. cbn. intros H.
  assert (NoDup (n_obj n :: n_name n :: n_value n :: hl.1 :: owned ns1 ++ owned ns2)) as H2.
  { eapply NoDup_Permutation_proper; [|exact H]. solve_Permutation. }
  rewrite !NoDup_cons, !elem_of_cons in H2. rewrite !elem_of_cons. naive_solver.
Qed.
Lemma removed_step hl ns1 n ns2 m m' o :
  (∀ p, p ∈ o ↔ p ∈ [n_obj n; n_name n; n_value n]) → 
  list_step hl (owned (ns1 ++ n :: ns2)) (owned (ns1 ++ n :: ns2)) m m' →
  list_step hl (owned (ns1 ++ n :: ns2)) (o ++ owned (ns1 ++ ns2)) m m'.
Proof.
  intros Ho. apply step_equiv; [done|]. intros p. rewrite elem_of_app, Ho, !owned_app, owned_cons, !elem_of_app, !elem_of_cons, elem_of_nil. tauto.
Qed.

Ltac apart := rewrite ?not_elem_of_cons; split_and?; first [tauto | done | congruence].
Lemma mem_set_remove hl ns1 n ns2 hs1 h hs2 m :
  hdrs_rep hl (ns1 ++ n :: ns2) (hs1 ++ h :: hs2) m → length ns1 = length hs1 →
  wp (_ ← LIST_REMOVE (PTR (n_obj n)) "_next";
      av ← fld (PTR (n_obj n)) ["value"]; v ← load av; _ ← free v;
      an ← fld (PTR (n_obj n)) ["name"]; nm ← load an; _ ← free nm;
      free (PTR (n_obj n))) (λ _ m',
    hdrs_rep hl (ns1 ++ ns2) (hs1 ++ hs2) m' ∧
    list_step hl (owned (ns1 ++ n :: ns2)) (owned (ns1 ++ ns2)) m m') m.
Proof.
  intros Hr Hl. destruct (removed_apart _ _ _ _ (hr_sep _ _ _ _ Hr)) as (P1 & P2 & P3 & Q1 & Q2 & Q3).
  set (k := owned (ns1 ++ ns2)) in *. rewrite !not_elem_of_cons in P1, P2, P3.
  wp_call (by eapply unlink_spec). intros _ m1 (R1 & [A B C D] & S1). wp_simpl.
  apply (removed_step hl ns1 n ns2 _ _ [n_value n; n_name n; n_obj n]) in S1;
    [|intros p; rewrite !elem_of_cons; tauto].
  pose proof (λ p, nodes_live _ _ _ p (hr_nodes _ _ _ _ R1)) as Hlive. fold k in Hlive.
  eapply wp_load; [exact C|done|].
  wp_call (eapply (free_outside _ _ _ _ (n_name n :: n_obj n :: k)); [exact R1|apart|apart|]).
  { intros q. rewrite !elem_of_cons. intros [->|[->|[->|?]]];
      [by eapply buf_live|by eapply buf_live|by eapply (cell_live _ (_, _))|by apply Hlive]. }
  intros _ m2 (R2 & S2 & E2 & L2). wp_simpl. eapply wp_load; [by rewrite E2|done|].
  wp_call (eapply (free_outside _ _ _ _ (n_obj n :: k)); [exact R2|apart|apart|done]).
  intros _ m3 (R3 & S3 & E3 & L3).
  eapply wp_mono; [eapply (free_outside _ _ _ _ k); [exact R3|apart|apart|done]|].
  intros _ m4 (R4 & S4 & E4 & L4). split; [done|].
  eapply step_trans; [exact S1|]. eapply step_trans; [exact S2|]. by eapply step_trans.
Qed.
(** The first value of a header is freed; the list is then open at that header. *)
Lemma free_value_spec hl ns1 n ns2 hs1 h hs2 m :
  hdrs_rep hl (ns1 ++ n :: ns2) (hs1 ++ h :: hs2) m → length ns1 = length hs1 →
  wp (av ← fld (PTR (n_obj n)) ["value"]; v ← load av; _ ← free v; mret (PTR (n_obj n))) (λ x m',
    x = PTR (n_obj n) ∧ open_rep hl ns1 (n_obj n) (n_name n) ns2 hs1 (hdr_name h) hs2 m' ∧
    list_step hl (owned (ns1 ++ n :: ns2)) (n_obj n :: n_name n :: owned (ns1 ++ ns2)) m m') m.
Proof.
  intros [L N S Ok] Hl. destruct (removed_apart _ _ _ _ S) as (P1 & P2 & P3 & Q1 & Q2 & Q3).
  pose proof N as [N1 N2]%Forall2_app_inv; [|done]. inversion N2 as [|? ? ? ? [A B C D] N3]; subst.
  pose proof (λ p, nodes_live _ _ _ p N) as Hlive. apply not_elem_of_cons in P3 as [P3 P4].
  wp_simpl. eapply wp_load; [exact C|done|]. wp_simpl. apply wp_free; [by eapply buf_live|]. wp_simpl.
  split; [done|]. split; [split|].
  - rewrite map_app in L. eapply list_rep_agree; [|exact L]. intros b Hb. apply cell_free. intros Hv.
    change (map n_obj ns1 ++ n_obj n :: map n_obj ns2) with (map n_obj ns1 ++ map n_obj (n :: ns2)) in Hb.
    apply list_cells_elem in Hb as [->|(y & Hy & Hb)]; [by rewrite <-Hv in P3|].
    assert (y = n_value n) as -> by (destruct Hb as [->| ->]; done).
    apply elem_of_app in Hy as [Hy%obj_owned|[?|Hy%obj_owned]%elem_of_cons]; [|congruence|];
      apply P4; rewrite owned_app, elem_of_app; tauto.
  - apply nodes_agree with m; [..|by apply Forall2_app].
    + intros p f Hp _. apply cell_free. cbn. intros ->. done.
    + intros p Hp. apply buf_at_free. intros ->. done.
  - done.
  - by rewrite cell_free.
  - by rewrite buf_at_free.
  - rewrite cell_free by done. eauto.
  - rewrite !owned_app, owned_cons in *. eapply (sublist_NoDup _ (n_value n :: hl.1 :: n_obj n :: n_name n :: owned ns1 ++ owned ns2)).
    + eapply NoDup_Permutation_proper; [|exact S]. cbn. solve_Permutation.
    + by apply sublist_cons.
  - by apply mem_ok_free.
  - apply step_free; [|rewrite owned_app, owned_cons; set_solver|done].
    intros p. rewrite !owned_app, owned_cons, !elem_of_cons, !elem_of_app, !elem_of_cons in *.
    split; [|tauto]. intros [->|[->|Hp]]; (split; [tauto|]); [done..|]. intros ->. by apply P4, elem_of_app.
Qed.

Lemma remove_first_at hs1 h hs2 name : Forall (λ h, strcaseeq (hdr_name h) name = false) hs1 →
  strcaseeq (hdr_name h) name = true → remove_first (hs1 ++ h :: hs2) name = (hs1 ++ hs2).
Proof. induction 1 as [|x hs1 Hx H IH]; cbn; intros E; [by rewrite E|]. rewrite Hx. f_equal. auto. Qed.
Lemma remove_first_none hs name : Forall (λ h, strcaseeq (hdr_name h) name = false) hs → remove_first hs name = hs.
Proof. induction 1 as [|x hs1 Hx H IH]; cbn; [done|]. rewrite Hx. congruence. Qed.
Lemma replace_first_at hs1 h hs2 name v : Forall (λ h, strcaseeq (hdr_name h) name = false) hs1 →
  strcaseeq (hdr_name h) name = true →
  replace_first (hs1 ++ h :: hs2) name v = Some (hs1 ++ mkhdr (hdr_name h) v :: hs2).
Proof. induction 1 as [|x hs1 Hx H IH]; cbn; intros E; [by rewrite E|]. rewrite Hx, IH by done. done. Qed.
Lemma replace_first_none hs name v :
  Forall (λ h, strcaseeq (hdr_name h) name = false) hs → replace_first hs name v = None.
Proof. induction 1 as [|x hs1 Hx H IH]; cbn; [done|]. by rewrite Hx, IH. Qed.
Lemma resp_header_at hs1 h hs2 name : Forall (λ h, strcaseeq (hdr_name h) name = false) hs1 →
  strcaseeq (hdr_name h) name = true → tlsuv_http_resp_header (hs1 ++ h :: hs2) name = Some (hdr_value h).
Proof. induction 1 as [|x hs1 Hx H IH]; cbn; intros E; [by rewrite E|]. rewrite Hx. auto. Qed.
Lemma resp_header_none hs name :
  Forall (λ h, strcaseeq (hdr_name h) name = false) hs → tlsuv_http_resp_header hs name = None.
Proof. induction 1 as [|x hs1 Hx H IH]; cbn; [done|]. by rewrite Hx. Qed.

Lemma mem_add_spec hl ns hs name value vallen m :
  hdrs_rep hl ns hs m →
  wp (mem_add_http_header hl name value vallen) (λ _ m', ∃ ns',
    hdrs_rep hl ns' (add_http_header hs name value vallen) m' ∧ list_step hl (owned ns) (owned ns') m m') m.
Proof.
  intros Hr. unfold mem_add_http_header. wp_call (by eapply insert_named_spec).
  intros h m1 (x & pn & -> & Ho & S1). eapply wp_mono; [by eapply assign_value_spec|].
  intros _ m2 (ns' & R & S2). exists ns'. split; [done|]. by eapply step_trans.
Qed.

Lemma mem_set_spec hl ns hs name value fuel m :
  hdrs_rep hl ns hs m → (length hs ≤ fuel)%nat →
  wp (mem_set_http_header fuel hl name value) (λ _ m', ∃ ns',
    hdrs_rep hl ns' (set_http_header hs name value) m' ∧ list_step hl (owned ns) (owned ns') m m') m.
Proof.
  intros Hr Hf. destruct (find_spec _ _ _ name _ _ Hr Hf) as (h & Hfind & Hfound).
  unfold mem_set_http_header. wp_simpl. unfold wp at 1. rewrite Hfind.
  destruct value as [v|]; unfold set_http_header; destruct Hfound as [Hn|ns1 n ns2 hs1 h hs2 -> -> Hl Hn Ht].
  - rewrite decide_True by done. wp_call (by eapply insert_named_spec). intros h m1 (x & pn & -> & Ho & S1).
    eapply wp_mono; [by eapply assign_value_spec|]. intros _ m2 (ns' & R & S2). exists ns'.
    rewrite replace_first_none by done. split; [done|]. by eapply step_trans.
  - rewrite decide_False by done. rewrite wp_bind. eapply wp_mono; [by eapply free_value_spec|]. intros x m1 (-> & Ho & S1).
    eapply wp_mono; [by eapply assign_value_spec|]. intros _ m2 (ns' & R & S2). exists ns'.
    rewrite replace_first_at by done. split; [done|]. by eapply step_trans.
  - rewrite decide_False by tauto. exists ns. rewrite remove_first_none by done. split; [done|].
    eapply (step_touches _ _ []); [by intros ? ?%elem_of_nil| |apply touches_refl].
    intros p. eapply nodes_live. apply Hr.
  - rewrite decide_True by done. eapply wp_mono; [by eapply mem_set_remove|].
    intros _ m' [R S]. exists (ns1 ++ ns2). by rewrite remove_first_at.
Qed.
Lemma mem_resp_spec hl ns hs name fuel m :
  hdrs_rep hl ns hs m → (length hs ≤ fuel)%nat →
  ∃ v, mem_resp_header fuel hl name m = Ret (v, m) ∧
    match tlsuv_http_resp_header hs name with
    | Some str => ∃ p, v = PTR p ∧ buf_at m p = Some str
    | None => v = NULL
    end.
Proof.
  intros Hr Hf. destruct (find_spec _ _ _ name _ _ Hr Hf) as (h & Hfind & Hfound).
  unfold mem_resp_header, mbind, M_bind. rewrite Hfind. destruct Hfound as [Hn|ns1 n ns2 hs1 h hs2 -> -> Hl Hn Ht].
  - rewrite decide_True, resp_header_none by done. by exists NULL.
  - rewrite decide_False, resp_header_at by done. destruct Hr as [_ N _ _].
    apply Forall2_app_inv in N as [_ N]; [|done]. inversion N as [|? ? ? ? [A B C D] N3]; subst.
    exists (PTR (n_value n)). split; [|eauto]. cbn. unfold load. by rewrite C.
Qed.

Lemma mem_free_spec hl ns hs fuel m :
  hdrs_rep hl ns hs m → (length hs ≤ fuel)%nat →
  wp (mem_free_hdr_list fuel hl) (λ _ m', hdrs_rep hl [] [] m' ∧ list_step hl (owned ns) [] m m') m.
Proof.
  revert ns hs m. induction fuel as [|fuel IH]; intros ns hs m Hr Hl;
    cbn [mem_free_hdr_list]; wp_call (eapply LIST_EMPTY_rep, Hr);
    intros b m0 [-> ->]; destruct (hr_nodes _ _ _ _ Hr) as [|n h ns hs Hn N]; cbn in Hl; try lia.
  1-2: split; [done|]; eapply (step_touches _ _ []); [by intros ? ?%elem_of_nil|by intros ? ?%elem_of_nil|apply touches_refl].
  rewrite bool_decide_eq_false_2 by done. wp_call (eapply LIST_FIRST_rep, Hr). intros v m0 [-> ->]. cbn [first_of map].
  destruct (removed_apart hl [] n ns (hr_sep _ _ _ _ Hr)) as (P1 & P2 & P3 & Q1 & Q2 & Q3).
  cbn [app] in *. rewrite !not_elem_of_cons in P1, P2, P3.
  wp_call (by apply (unlink_spec hl [] n ns [] h hs)). intros _ m1 (R1 & [A B C D] & S1). cbn [app] in *.
  apply (removed_step hl [] n ns _ _ [n_name n; n_value n; n_obj n]) in S1;
    [|intros p; rewrite !elem_of_cons; tauto]. cbn [app] in S1.
  pose proof (λ p, nodes_live _ _ _ p (hr_nodes _ _ _ _ R1)) as Hlive.
  unfold free_hdr. wp_simpl. eapply wp_load; [exact A|done|].
  wp_call (eapply (free_outside _ _ _ _ (n_value n :: n_obj n :: owned ns)); [exact R1|apart|apart|]).
  { intros q. rewrite !elem_of_cons. intros [->|[->|[->|?]]];
      [by eapply buf_live|by eapply buf_live|by eapply (cell_live _ (_, _))|by apply Hlive]. }
  intros _ m2 (R2 & S2 & E2 & L2). wp_simpl. eapply wp_load; [by rewrite E2|done|].
  wp_call (eapply (free_outside _ _ _ _ (n_obj n :: owned ns)); [exact R2|apart|apart|done]).
  intros _ m3 (R3 & S3 & E3 & L3).
  wp_call (eapply (free_outside _ _ _ _ (owned ns)); [exact R3|apart|apart|done]).
  intros _ m4 (R4 & S4 & E4 & L4). eapply wp_mono; [eapply IH; [done|lia]|].
  intros _ m5 [R5 S5]. split; [done|].
  eapply step_trans; [exact S1|]. eapply step_trans; [exact S2|]. eapply step_trans; [exact S3|]. by eapply step_trans.
Qed.
End lemmas.

(** ** Sequences of operations *)

Inductive hdr_op := Add (name value : list Z) (vallen : nat) | Set_ (name : list Z) (value : option (list Z)).
Definition run_op (hl : addr) (fuel : nat) (op : hdr_op) : M mem unit :=
  match op with
  | Add name value vallen => mem_add_http_header hl name value vallen
  | Set_ name value => mem_set_http_header fuel hl name value
  end.
Fixpoint run_ops (hl : addr) (fuel : nat) (ops : list hdr_op) : M mem unit :=
  match ops with
  | [] => mret tt
  | op :: ops => _ ← run_op hl fuel op; run_ops hl fuel ops
  end.
Definition apply_op (hs : um_header_list) (op : hdr_op) : um_header_list :=
  match op with
  | Add name value vallen => add_http_header hs name value vallen
  | Set_ name value => set_http_header hs name value
  end.

Lemma remove_first_length hs name : (length (remove_first hs name) ≤ length hs)%nat.
Proof. induction hs as [|h hs IH]; cbn; [done|]. case_if; cbn; lia. Qed.
Lemma replace_first_length hs name v hs' : replace_first hs name v = Some hs' → length hs' = length hs.
Proof.
  revert hs'. induction hs as [|h hs IH]; cbn; intros hs'; [done|]. case_if; [by intros [= <-]|].
  destruct (replace_first hs name v); [|done]. intros [= <-]. cbn. auto.
Qed.
Lemma apply_op_length hs op : (length (apply_op hs op) ≤ S (length hs))%nat.
Proof.
  destruct op as [n v l|n [v|]]; cbn; [lia| |].
  - destruct (replace_first hs n v) eqn:E; cbn; [apply replace_first_length in E; lia|lia].
  - pose proof (remove_first_length hs n). lia.
Qed.

Lemma run_op_spec hl ns hs op fuel m :
  hdrs_rep hl ns hs m → (length hs ≤ fuel)%nat →
  wp (run_op hl fuel op) (λ _ m', ∃ ns', hdrs_rep hl ns' (apply_op hs op) m' ∧ list_step hl (owned ns) (owned ns') m m') m.
Proof. destruct op; intros; [by apply mem_add_spec|by apply mem_set_spec]. Qed.

Lemma run_ops_spec hl ns hs ops fuel m :
  hdrs_rep hl ns hs m → (length hs + length ops ≤ fuel)%nat →
  wp (run_ops hl fuel ops) (λ _ m', ∃ ns',
    hdrs_rep hl ns' (fold_left apply_op ops hs) m' ∧ list_step hl (owned ns) (owned ns') m m') m.
Proof.
  revert ns hs m. induction ops as [|op ops IH]; intros ns hs m Hr Hl; cbn in *.
  - wp_simpl. exists ns. split; [done|].
    eapply (step_touches _ _ []); [by intros ? ?%elem_of_nil| |apply touches_refl].
    intros p. eapply nodes_live. apply Hr.
  - wp_call (eapply run_op_spec; [exact Hr|lia]). intros _ m1 (ns1 & R1 & S1).
    pose proof (apply_op_length hs op). eapply wp_mono; [eapply IH; [done|lia]|].
    intros _ m2 (ns2 & R2 & S2). exists ns2. split; [done|]. by eapply step_trans.
Qed.

(** ** Properties *)

(** C36: A header list in memory behaves as the sequence of its names and values, from
    [LIST_INIT] to [free_hdr_list]: any sequence of [add_http_header] and [set_http_header] runs
    without a fault and gives the list that [Headers] computes; [tlsuv_http_resp_header] then
    returns the string it names; and freeing the list leaves alive exactly the objects that were
    there before and not part of it, with their content unchanged: nothing is leaked, freed
    twice or used after it was freed. *)
Theorem header_list_refines hl ns hs ops fuel m :
  hdrs_rep hl ns hs m → (length hs + length ops ≤ fuel)%nat →
  ∃ m1 ns1 m2, run_ops hl fuel ops m = Ret (tt, m1) ∧
    hdrs_rep hl ns1 (fold_left apply_op ops hs) m1 ∧
    (∀ name, ∃ v, mem_resp_header fuel hl name m1 = Ret (v, m1) ∧
       match tlsuv_http_resp_header (fold_left apply_op ops hs) name with
       | Some str => ∃ p, v = PTR p ∧ buf_at m1 p = Some str
       | None => v = NULL
       end) ∧
    mem_free_hdr_list fuel hl m1 = Ret (tt, m2) ∧
    (∀ p, is_Some (objs m2 !! p) ↔ is_Some (objs m !! p) ∧ p ∉ owned ns) ∧
    (∀ p, is_Some (objs m !! p) → p ∉ owned ns → buf_at m2 p = buf_at m p) ∧
    (∀ b, b ≠ sub hl "lh_first" → is_Some (objs m !! b.1) → b.1 ∉ owned ns → cell m2 b = cell m b).
Proof.
  intros Hr Hl. pose proof (run_ops_spec _ _ _ _ _ _ Hr Hl) as ([] & m1 & E1 & ns1 & R1 & S1)%wp_run.
  assert (length (fold_left apply_op ops hs) ≤ fuel)%nat as Hl1.
  { etrans; [|exact Hl]. clear. revert hs. induction ops as [|op ops IH]; intros hs; cbn; [lia|].
    specialize (IH (apply_op hs op)). pose proof (apply_op_length hs op). lia. }
  pose proof (mem_free_spec _ _ _ _ _ R1 Hl1) as ([] & m2 & E2 & _ & S2)%wp_run.
  exists m1, ns1, m2. destruct (step_trans _ _ _ _ _ _ _ S1 S2) as [A _ C D]. split_and!; try done.
  - intros name. by eapply mem_resp_spec.
  - intros p. rewrite A, elem_of_nil. tauto.
Qed.

(** A client with an empty header list, then headers set, replaced in another case, added and
    removed. *)
Lemma header_list_refines_witness :
  let hl : addr := (1%positive, ["headers"]) in
  let m := mkmem {[1%positive := OStruct {[["headers"; "lh_first"] := NULL]}]} 2 in
  let ops := [Set_ (bs "Accept") (Some (bs "x")); Set_ (bs "Host") (Some (bs "a"));
              Add (bs "Via") (bs "proxy") 3; Set_ (bs "HOST") (Some (bs "b")); Set_ (bs "accept") None] in
  ∃ m1 m2, run_ops hl 5 ops m = Ret (tt, m1) ∧ mem_free_hdr_list 5 hl m1 = Ret (tt, m2) ∧
    fold_left apply_op ops [] = [mkhdr (bs "Via") (bs "pro"); mkhdr (bs "Host") (bs "b")] ∧
    ∀ p, is_Some (objs m2 !! p) ↔ is_Some (objs m !! p) ∧ p ∉ owned [].
Proof.
  intros hl m ops.
  destruct (header_list_refines hl [] [] ops 5 m) as (m1 & ns1 & m2 & H1 & _ & _ & H2 & H3 & _).
  - split.
    + split; [constructor|vm_compute; reflexivity|exact I].
    + constructor.
    + apply NoDup_singleton.
    + intros p [o Ho]. cbn in Ho. apply lookup_singleton_Some in Ho as [<- _]. cbn. lia.
  - cbn. lia.
  - exists m1, m2. split; [exact H1|]. split; [exact H2|]. split; [vm_compute; reflexivity|exact H3].
Defined.
