(* ===== verification/Compression.v ===== *)
(** * Response decompression (src/compression.c, src/compression.h)

    zlib is loaded at run time and is a parameter here: the class [Zlib] has its
    entry points and [ZlibLaws] the documented behaviour the code relies on.  The
    inflater object lives in the state of the caller (it is owned by a request), so
    [um_inflate] takes how to read and write it, and the data callback, as
    arguments; a callback that frees the object makes the next access fault. *)
From S2P Require Import Prelude CLib.
From stdpp Require Import base list sets numbers strings.
From Stdlib Require Import ZArith Lia.
Open Scope Z_scope.

(** ** zlib *)

Definition Z_OK : Z := 0.
Definition Z_STREAM_END : Z := 1.
Definition Z_DATA_ERROR : Z := -3.

Record z_result {St : Type} := mkzres {
  z_rc : Z;
  z_consumed : nat;        (* bytes taken from next_in *)
  z_out : list Z;          (* bytes written at next_out *)
  z_state : St;
}.
Arguments z_result : clear implicits.
Arguments mkzres {St}.

Class Zlib := {
  zst : Type;                                    (* a z_stream's internal state *)
  z_inflateInit2 : Z → zst;                      (* windowBits *)
  z_inflateInit : zst;
  z_inflate : zst → list Z → nat → z_result zst; (* input, avail_out *)
  z_msg : zst → bool;                            (* strm->msg is set *)
}.

(** A stream in state [st] that still expects exactly the bytes [comp], of which
    some are still missing, and will produce [plain]: [inflate] never asks for
    more input than it is given, makes progress unless the stream ended, and
    reports the end only when all of [comp] was consumed and all of [plain]
    produced (the check value at the end of a stream is the last thing read). *)
Class ZlibLaws `{Zlib} := {
  z_valid : zst → list Z → list Z → Prop;
  z_valid_more st comp plain : z_valid st comp plain → comp ≠ [];
  z_valid_step st inp more plain cap r :
    z_valid st (inp ++ more) plain → inp ≠ [] → (0 < cap)%nat →
    z_inflate st inp cap = r →
    (z_consumed r <= length inp)%nat ∧ (length (z_out r) <= cap)%nat ∧
    ∃ plain', plain = z_out r ++ plain' ∧
      ((z_rc r = Z_STREAM_END ∧ plain' = [] ∧ more = [] ∧ z_consumed r = length inp ∧
        z_msg (z_state r) = false) ∨
       (z_rc r = Z_OK ∧ (0 < z_consumed r ∨ z_out r ≠ [])%nat ∧
        z_valid (z_state r) (drop (z_consumed r) inp ++ more) plain'));
}.

(** Every call that neither fails nor ends the stream brings the stream closer to its
    end, for any input.  (zlib documents this for [Z_OK]; it does not hold of a stream
    that needs a preset dictionary.) *)
Class ZlibProgress `{Zlib} := {
  z_measure : zst → list Z → nat;
  z_measure_dec st inp cap r : z_inflate st inp cap = r → inp ≠ [] → (0 < cap)%nat →
    z_rc r = Z_DATA_ERROR ∨ z_rc r = Z_STREAM_END ∨
    (z_measure (z_state r) (drop (z_consumed r) inp) < z_measure st inp)%nat;
}.

(** ** Loading (init) *)

Inductive zsym := zlibVersion | zlibCompileFlags | inflateEnd | inflateInit_
  | inflateInit2_ | inflate | zError.
#[export] Instance zsym_eq_dec : EqDecision zsym.
Proof. solve_decision. Defined.

(** What the dynamic loader finds on the machine. *)
Record zlib_env := mkzenv {
  dlopen_ok : bool;                (* uv_dlopen(libz.so) *)
  dlsym_ok : zsym → bool;
  lib_version0 : Z;                (* zlibVersion()[0] *)
  lib_flags : Z;                   (* zlibCompileFlags() *)
}.
Definition ZLIB_VERSION0 : Z := 49. (* "1..." *)
Definition NO_GZIP : Z := Z.shiftl 1 16.

(** The static variables: the function pointers set so far, and [encodings]. *)
Record comp_globals := mkcg { loaded : list zsym; encodings : option (list Z) }.

(** [CHECK_DL(uv_dlsym(...))] in the order of the source, up to the first failure. *)
Fixpoint load_syms (e : zlib_env) (syms : list zsym) : list zsym * bool :=
  match syms with
  | [] => ([], true)
  | s :: syms => if dlsym_ok e s then let '(l, ok) := load_syms e syms in (s :: l, ok)
                 else ([], false)
  end.

Definition init (e : zlib_env) : comp_globals :=
  if negb (dlopen_ok e) then mkcg [] None
  else
    let '(l, ok) := load_syms e [zlibVersion; zlibCompileFlags; inflateEnd; inflateInit_;
                                 inflateInit2_; inflate; zError] in
    if negb ok then mkcg l None
    else if negb (lib_version0 e =? ZLIB_VERSION0) then mkcg l None
    else if negb (Z.land (lib_flags e) NO_GZIP =? 0) then mkcg l (Some (bs "deflate"))
    else mkcg l (Some (bs "gzip, deflate")).

(** [uv_once] runs [init] the first time; the result never changes. *)
Definition um_available_encoding (e : zlib_env) : option (list Z) := encodings (init e).

(** Calling a function pointer that was never set is a NULL dereference. *)
Definition sym_loaded (e : zlib_env) (s : zsym) : bool := bool_decide (s ∈ loaded (init e)).

Section Inflater.
Context `{Zlib}.
Context (zenv : zlib_env).

(** [struct tlsuv_http_inflater_s]; the callback and its context are the caller's. *)
Record http_inflater_t := mkinf {
  s_state : zst;
  s_next_in : list Z;      (* next_in, avail_in *)
  complete : Z;
}.
#[local] Instance eta_inf : Updatable http_inflater_t := fun r =>
  mkinf (s_state r) (s_next_in r) (complete r).

(** The result is [None] for an encoding other than the two known ones. *)
Definition um_get_inflater (encoding : list Z) : outcome (option http_inflater_t) :=
  if streq encoding (bs "gzip") then
    if sym_loaded zenv inflateInit2_ then Ret (Some (mkinf (z_inflateInit2 (16 + 15)) [] 0))
    else Fault NullDeref
  else if streq encoding (bs "deflate") then
    if sym_loaded zenv inflateInit_ then Ret (Some (mkinf z_inflateInit [] 0))
    else Fault NullDeref
  else Ret None.

Definition um_free_inflater (inf : option http_inflater_t) : outcome unit :=
  match inf with
  | Some _ => if sym_loaded zenv inflateEnd then Ret tt else Fault NullDeref
  | None => Ret tt
  end.

Definition um_inflate_state (inf : http_inflater_t) : Z :=
  if z_msg (s_state inf) then -1 else complete inf.

Section Loop.
Context {S : Type}.
Context (get_inf : M S http_inflater_t) (set_inf : http_inflater_t → M S unit).
Context (cb : list Z → M S unit).

(** [uint8_t decompressed[32 * 1024]] *)
Definition decompressed_size : nat := 32 * 1024.

(** [while(inflater->s.avail_in > 0)] *)
Fixpoint inflate_loop (fuel : nat) : M S Z :=
  match fuel with
  | O => fail_with OutOfFuel
  | Datatypes.S fuel =>
    inf ← get_inf;
    match s_next_in inf with
    | [] => mret 0
    | input =>
      if negb (sym_loaded zenv inflate) then fail_with NullDeref else
      let r := z_inflate (s_state inf) input decompressed_size in
      set_inf (inf <| s_state := z_state r |> <| s_next_in := drop (z_consumed r) input |>);;
      if z_rc r =? Z_DATA_ERROR then mret (-1) else
      when (0 <? Z.of_nat (length (z_out r))) (cb (z_out r));;
      if z_rc r =? Z_STREAM_END then
        inf ← get_inf; set_inf (inf <| complete := 1 |>);; mret 1
      else inflate_loop fuel
    end
  end.

(** [avail_in] is an [unsigned int]: the assignment [avail_in = len] truncates. *)
Definition um_inflate (fuel : nat) (compressed : list Z) : M S Z :=
  inf ← get_inf;
  set_inf (inf <| s_next_in := take (Z.to_nat (u32 (Z.of_nat (length compressed)))) compressed |>);;
  inflate_loop fuel.
End Loop.
End Inflater.
Arguments http_inflater_t {_}.
Arguments mkinf {_}.
#[export] Instance eta_inf' `{Zlib} : Updatable http_inflater_t := fun r =>
  mkinf (s_state r) (s_next_in r) (complete r).

(** ** Loading *)

Lemma load_syms_all e l : (∀ s, dlsym_ok e s = true) → load_syms e l = (l, true).
Proof. intros Hs. induction l as [|s l IH]; cbn; [done|]. by rewrite Hs, IH. Qed.

Lemma load_syms_ok e l l' : load_syms e l = (l', true) → l' = l.
Proof.
  revert l'. induction l as [|s l IH]; cbn; [congruence|]. intros l'.
  destruct (dlsym_ok e s), (load_syms e l) as [k ok]; intros [= <- ->].
  f_equal. by apply IH.
Qed.

(** An encoding is only announced when every symbol was found. *)
Lemma encoding_loaded e enc s : um_available_encoding e = Some enc → sym_loaded e s = true.
Proof.
  unfold um_available_encoding, sym_loaded, init. destruct (dlopen_ok e); [|done].
  cbn [negb]. destruct (load_syms _ _) as [l ok] eqn:Hl. destruct ok; [|done].
  apply load_syms_ok in Hl as ->. cbn [negb]. intros He. apply bool_decide_eq_true.
  assert (s ∈ [zlibVersion; zlibCompileFlags; inflateEnd; inflateInit_; inflateInit2_;
               inflate; zError]) as Hs by (rewrite !elem_of_cons; destruct s; tauto).
  destruct (lib_version0 e =? ZLIB_VERSION0), (Z.land (lib_flags e) NO_GZIP =? 0); done.
Qed.

(** ** Streams

    A minimal owner of an inflater: the object and the data its callback received. *)
Section Stream.
Context `{ZlibLaws}.
Context (zenv : zlib_env).

Definition owner : Type := http_inflater_t * list (list Z).
Definition owner_get : M owner http_inflater_t := gets fst.
Definition owner_set (i : http_inflater_t) : M owner unit := modify (λ s, (i, snd s)).
Definition owner_cb (d : list Z) : M owner unit := modify (λ s, (fst s, snd s ++ [d])).

Abbreviation loop := (inflate_loop zenv owner_get owner_set owner_cb).
Abbreviation inflate_chunk := (um_inflate zenv owner_get owner_set owner_cb).

(** [http_body_cb] for the successive pieces of a body. *)
Fixpoint inflate_chunks (fuel : nat) (chunks : list (list Z)) : M owner unit :=
  match chunks with
  | [] => mret tt
  | c :: chunks => inflate_chunk fuel c;; inflate_chunks fuel chunks
  end.

Definition ended (inf : http_inflater_t) : Prop := um_inflate_state inf = 1.

Lemma inflate_loop_spec fuel : ∀ inf log more plain,
  sym_loaded zenv inflate = true →
  z_valid (s_state inf) (s_next_in inf ++ more) plain → complete inf = 0 →
  (length (s_next_in inf) + length plain < fuel)%nat →
  wp (loop fuel) (λ rc '(inf', log'), ∃ p1 p2, plain = p1 ++ p2 ∧
     concat log' = concat log ++ p1 ∧
     ((rc = 1 ∧ more = [] ∧ p2 = [] ∧ ended inf') ∨
      (rc = 0 ∧ z_valid (s_state inf') more p2 ∧ complete inf' = 0))) (inf, log).
Proof.
  induction fuel as [|fuel IH]; intros inf log more plain Hsym Hv Hc Hf; [lia|].
  cbn [inflate_loop]. unfold owner_get. wp_simpl. cbn [fst].
  destruct (s_next_in inf) as [|b input] eqn:Hin.
  { wp_simpl. exists [], plain. rewrite app_nil_r. auto 10. }
  rewrite Hsym. cbn [negb].
  destruct (z_inflate (s_state inf) (b :: input) decompressed_size) as [rc n out st] eqn:Hr.
  cbn [z_rc z_consumed z_out z_state].
  assert (0 < decompressed_size)%nat as Hcap by (unfold decompressed_size; lia).
  destruct (z_valid_step _ _ _ _ _ _ Hv ltac:(done) Hcap Hr) as (Hn & Ho & plain' & -> & Hcase).
  cbn [z_rc z_consumed z_out z_state] in *.
  unfold owner_set, owner_cb. wp_simpl. cbn [fst snd].
  destruct Hcase as [(-> & -> & -> & -> & Hmsg)|(-> & Hprog & Hv')].
  - change (Z_STREAM_END =? Z_DATA_ERROR) with false. rewrite Z.eqb_refl. cbn [orb].
    destruct out as [|o out]; cbn [length Z.of_nat]; unfold when; wp_simpl; cbn [fst snd].
    + exists [], []. split; [done|]. split; [cbn; by rewrite app_nil_r|]. left.
      split_and!; try done. unfold ended, um_inflate_state. cbn. by rewrite Hmsg.
    + exists (o :: out), []. split; [done|]. split; [cbn [snd]; rewrite concat_app; cbn; by rewrite app_nil_r|].
      left. split_and!; try done. unfold ended, um_inflate_state. cbn. by rewrite Hmsg.
  - change (Z_OK =? Z_DATA_ERROR) with false. change (Z_OK =? Z_STREAM_END) with false.
    set (inf' := inf <| s_state := st |> <| s_next_in := drop n (b :: input) |>).
    rewrite length_app in Hf.
    assert (length (s_next_in inf') + length plain' < fuel)%nat as Hf'.
    { change (s_next_in inf') with (drop n (b :: input)). rewrite length_drop.
      destruct out; cbn [length] in *; [|lia]. destruct Hprog; [lia|done]. }
    destruct out as [|o out]; cbn [length Z.of_nat Z.ltb Z.compare]; unfold when; wp_simpl; cbn [fst snd].
    + exact (IH inf' log more plain' Hsym Hv' Hc Hf').
    + replace (0 <? Z.of_nat (S (length out))) with true
        by (symmetry; apply Z.ltb_lt; lia). wp_simpl. cbn [fst snd].
      eapply wp_mono; [exact (IH inf' _ more plain' Hsym Hv' Hc Hf')|].
      intros rc [inf2 log2] (p1 & p2 & -> & Hl & Hrest).
      exists ((o :: out) ++ p1), p2. split; [by rewrite app_assoc|]. split; [|done].
      rewrite Hl, concat_app. cbn. rewrite app_nil_r, <-app_assoc. done.
Qed.

Lemma inflate_chunks_ended fuel chunks : ∀ inf log,
  ended inf → concat chunks = [] → (0 < fuel)%nat →
  wp (inflate_chunks fuel chunks) (λ _ '(inf', log'), ended inf' ∧ log' = log) (inf, log).
Proof.
  induction chunks as [|c chunks IH]; intros inf log He Hc Hf; [done|].
  cbn in Hc. apply app_nil in Hc as [-> Hc]. cbn [inflate_chunks]. unfold um_inflate.
  destruct fuel as [|fuel]; [lia|]. unfold owner_get, owner_set. wp_simpl.
  cbn. apply IH; [|done|lia]. exact He.
Qed.

Lemma inflate_chunks_spec fuel chunks : ∀ inf log plain,
  sym_loaded zenv inflate = true →
  Forall (λ c, Z.of_nat (length c) < 4294967296) chunks →
  z_valid (s_state inf) (concat chunks) plain → complete inf = 0 →
  (length (concat chunks) + length plain < fuel)%nat →
  wp (inflate_chunks fuel chunks)
     (λ _ '(inf', log'), ended inf' ∧ concat log' = concat log ++ plain) (inf, log).
Proof.
  induction chunks as [|c chunks IH]; intros inf log plain Hsym Hlen Hv Hc Hf.
  { by apply z_valid_more in Hv. }
  split_Forall. cbn [inflate_chunks concat] in *. rewrite length_app in Hf.
  unfold um_inflate, owner_get, owner_set. wp_simpl. cbn [fst snd].
  rewrite u32_small, Nat2Z.id, firstn_all by lia.
  set (inf1 := inf <| s_next_in := c |>).
  eapply wp_mono; [apply (inflate_loop_spec fuel inf1 log (concat chunks) plain);
    [done|exact Hv|exact Hc|cbn; lia]|].
  intros rc [inf' log'] (p1 & p2 & -> & Hl & [(_ & Hm & -> & He)|(_ & Hv' & Hc')]).
  - eapply wp_mono; [apply inflate_chunks_ended; [done|done|lia]|].
    intros _ [inf2 log2] [? ->]. split; [done|]. by rewrite app_nil_r.
  - rewrite length_app in Hf.
    eapply wp_mono; [apply (IH inf' log' p2); [done|done|done|done|lia]|].
    intros _ [inf2 log2] [? Hl2]. split; [done|]. by rewrite Hl2, Hl, <-app_assoc.
Qed.

(** C38: however the network splits a valid compressed body, feeding the pieces to
    [um_inflate] terminates without fault, passes exactly the decompressed data to
    the callback, in order, and leaves the inflater in the completed state that
    [http_message_cb] requires.  [fuel] bounds the loop by input plus output. *)
Theorem inflate_any_split fuel chunks inf plain :
  sym_loaded zenv inflate = true →
  Forall (λ c, Z.of_nat (length c) < 4294967296) chunks →
  z_valid (s_state inf) (concat chunks) plain → complete inf = 0 →
  (length (concat chunks) + length plain < fuel)%nat →
  ∃ inf' log, inflate_chunks fuel chunks (inf, []) = Ret (tt, (inf', log)) ∧
    concat log = plain ∧ um_inflate_state inf' = 1.
Proof.
  intros. pose proof (inflate_chunks_spec fuel chunks inf [] plain) as Hs.
  apply wp_run in Hs as ([] & [inf' log] & Hrun & He & Hl); [|done..].
  exists inf', log. done.
Qed.
End Stream.

(** ** A concrete library: data up to a zero byte *)

Module ToyZlib.
(** Copies bytes until a zero byte, which ends the stream. *)
Fixpoint copy (inp : list Z) (cap : nat) : Z * nat * list Z :=
  match inp, cap with
  | [], _ | _, O => (Z_OK, O, [])
  | b :: inp, Datatypes.S cap =>
    if b =? 0 then (Z_STREAM_END, 1%nat, [])
    else let '(rc, n, out) := copy inp cap in (rc, Datatypes.S n, b :: out)
  end.
#[export] Instance toy : Zlib := {|
  zst := unit; z_inflateInit2 := λ _, tt; z_inflateInit := tt;
  z_inflate := λ _ inp cap, let '(rc, n, out) := copy inp cap in mkzres rc n out tt;
  z_msg := λ _, false |}.

Definition valid (_ : unit) (comp plain : list Z) : Prop :=
  comp = plain ++ [0] ∧ Forall (λ b, b ≠ 0) plain.

Lemma copy_spec inp : ∀ cap more plain,
  inp ++ more = plain ++ [0] → Forall (λ b, b ≠ 0) plain →
  let '(rc, n, out) := copy inp cap in
  (n <= length inp)%nat ∧ (length out <= cap)%nat ∧
  ∃ plain', plain = out ++ plain' ∧
   ((rc = Z_STREAM_END ∧ plain' = [] ∧ more = [] ∧ n = length inp) ∨
    (rc = Z_OK ∧ ((0 < cap)%nat → inp ≠ [] → (0 < n)%nat) ∧
     drop n inp ++ more = plain' ++ [0] ∧ Forall (λ b, b ≠ 0) plain')).
Proof.
  induction inp as [|b inp IH]; intros cap more plain Heq Hnz.
  { cbn. split_and!; [lia..|]. exists plain. split; [done|]. right. done. }
  destruct cap as [|cap].
  { cbn. split_and!; [lia..|]. exists plain. split; [done|]. right. split_and!; [done|lia|done..]. }
  destruct plain as [|p plain]; cbn in Heq; injection Heq as -> Heq.
  - apply app_nil in Heq as [-> ->]. cbn. split_and!; [lia..|]. exists []. auto 10.
  - apply Forall_cons_1 in Hnz as [Hp Hnz]. cbn. destruct (Z.eqb_spec p 0); [done|].
    specialize (IH cap more plain Heq Hnz). destruct (copy inp cap) as [[rc n'] out].
    destruct IH as (? & ? & plain' & -> & Hc). cbn. split_and!; [lia..|].
    exists plain'. split; [done|]. destruct Hc as [(-> & -> & -> & ->)|(-> & _ & ? & ?)].
    + left. done.
    + right. split_and!; [done|lia|done..].
Qed.

#[export] Instance toy_laws : @ZlibLaws toy.
Proof.
  refine {| z_valid := valid |}.
  - intros st comp plain [-> _]. by destruct plain.
  - intros [] inp more plain cap r [Heq Hnz] Hne Hcap <-. cbn.
    pose proof (copy_spec inp cap more plain Heq Hnz) as Hs.
    destruct (copy inp cap) as [[rc n] out]. cbn.
    destruct Hs as (? & ? & plain' & -> & [(? & ? & ? & ?)|(? & ? & ? & ?)]);
      split_and!; [done..| | done|done|]; exists plain'; (split; [done|]).
    + left. done.
    + right. split_and!; [done|left; auto|done].
Defined.

#[export] Instance toy_progress : @ZlibProgress toy.
Proof.
  refine {| z_measure := λ _ inp, length inp |}.
  intros [] inp cap r <- Hne Hcap. cbn. destruct inp as [|b inp]; [done|]. destruct cap; [lia|].
  cbn. destruct (b =? 0); [by right; left|]. destruct (copy inp cap) as [[rc n] out]. cbn.
  right. right. rewrite length_drop. lia.
Defined.

(** A library that is found and built with gzip support. *)
Definition env : zlib_env := mkzenv true (λ _, true) ZLIB_VERSION0 0.
(** A machine without it. *)
Definition env_missing : zlib_env := mkzenv false (λ _, false) 0 0.
End ToyZlib.

(** "hello" then the end marker, split in three pieces. *)
Lemma inflate_any_split_witness :
  ∃ inf' log, inflate_chunks (H := ToyZlib.toy) ToyZlib.env 20 [bs "he"; bs "ll"; bs "o" ++ [0]]
      (mkinf (H := ToyZlib.toy) tt [] 0, []) = Ret (tt, (inf', log)) ∧
    concat log = bs "hello" ∧ um_inflate_state (H := ToyZlib.toy) inf' = 1.
Proof.
  apply (inflate_any_split (H := ToyZlib.toy) (H0 := ToyZlib.toy_laws) ToyZlib.env 20
    [bs "he"; bs "ll"; bs "o" ++ [0]] (mkinf (H := ToyZlib.toy) tt [] 0) (bs "hello")).
  - vm_compute. reflexivity.
  - repeat constructor.
  - split; [reflexivity|]. repeat constructor; discriminate.
  - reflexivity.
  - vm_compute. lia.
Defined.

(** when an encoding is announced to servers ([um_available_encoding] is not
    NULL) the decompressor can be created and freed without fault for every
    [Content-Encoding] value a server sends; the two announced encodings give an
    inflater, every other value gives NULL. *)
Theorem get_inflater_safe `{Zlib} e enc encoding :
  um_available_encoding e = Some enc →
  ∃ inf, um_get_inflater e encoding = Ret inf ∧ um_free_inflater e inf = Ret tt ∧
    (inf = None ↔ encoding ≠ bs "gzip" ∧ encoding ≠ bs "deflate").
Proof.
  intros He. unfold um_get_inflater, um_free_inflater.
  rewrite !(encoding_loaded e enc _ He).
  unfold streq. case_bool_decide as E1; [subst encoding|].
  { eexists. split; [done|]. split; [done|]. split; [done|intros [[] _]; done]. }
  case_bool_decide as E2; [subst encoding|].
  { eexists. split; [done|]. split; [done|]. split; [done|intros [_ []]; done]. }
  exists None. done.
Qed.

Lemma get_inflater_safe_witness :
  ∃ inf, um_get_inflater (H := ToyZlib.toy) ToyZlib.env (bs "br") = Ret inf ∧
    um_free_inflater (H := ToyZlib.toy) ToyZlib.env inf = Ret tt ∧
    (inf = None ↔ bs "br" ≠ bs "gzip" ∧ bs "br" ≠ bs "deflate").
Proof.
  apply (get_inflater_safe (H := ToyZlib.toy) ToyZlib.env (bs "gzip, deflate") (bs "br")).
  reflexivity.
Defined.

(** Without zlib on the machine no encoding is announced, yet a server that sends
    [Content-Encoding: gzip] anyway makes the client call a NULL pointer. *)
Theorem unsolicited_gzip_without_zlib `{Zlib} :
  um_available_encoding ToyZlib.env_missing = None ∧
  um_get_inflater ToyZlib.env_missing (bs "gzip") = Fault NullDeref.
Proof. done. Qed.
