(* ===== verification/HttpReq.v ===== *)
(** * HTTP requests (src/http_req.c, src/http_req.h, the request and response types
      of include/tlsuv/http.h)

    A request is an object on the heap, named by its address [rid].  [hstate X] is
    the heap of live requests, the log of what the program did that others can see
    (callbacks into the application, writes, closes) and the rest [X] of the state
    (the client that owns the requests).  Access to a request that is not on the
    heap is a use after free.

    The llhttp parser is a parameter ([LLHttp]): fed with bytes it calls back with a
    sequence of events and returns an error code.  The application is a parameter
    too: it runs, as an arbitrary state transformer, at every callback. *)
From S2P Require Import Prelude CLib Headers Compression.
From stdpp Require Import base list gmap numbers strings.
From Stdlib Require Import ZArith Lia.
Open Scope Z_scope.

Abbreviation rid := Z (only parsing).    (* address of a tlsuv_http_req_t *)
Abbreviation cbid := Z (only parsing).   (* a callback function of the application *)

Inductive http_request_state := created | headers_sent | body_sent | headers_received | completed.
#[export] Instance http_request_state_eq_dec : EqDecision http_request_state.
Proof. solve_decision. Defined.
(** The enum's values, for the comparisons [<] and [>]. *)
Definition state_val (s : http_request_state) : Z :=
  match s with created => 0 | headers_sent => 1 | body_sent => 2 | headers_received => 3
             | completed => 4 end.

(** [struct body_chunk_s]; [len] is the length of the buffer. *)
Record body_chunk_s := mkchunk { bc_chunk : list Z; bc_cb : option cbid; bc_req : rid }.
Definition bc_len (c : body_chunk_s) : Z := Z.of_nat (length (bc_chunk c)).

(** [struct tlsuv_http_resp_s] *)
Record tlsuv_http_resp_s := mkresp {
  rs_http_version : list Z;
  rs_code : Z;
  rs_status : option (list Z);
  rs_curr_header : option (list Z);
  rs_headers : um_header_list;
  rs_body_cb : option cbid;
}.
#[export] Instance resp_upd : Updatable tlsuv_http_resp_s := fun r =>
  mkresp (rs_http_version r) (rs_code r) (rs_status r) (rs_curr_header r) (rs_headers r)
         (rs_body_cb r).
Definition resp_zero : tlsuv_http_resp_s := mkresp [] 0 None None [] None.

(** ** The parser *)

(** The calls llhttp makes, with the parser fields the callbacks read. *)
Inductive llhttp_event :=
  | OnStatus (status_code http_major http_minor : Z) (status : list Z)
  | OnHeaderField (f : list Z)
  | OnHeaderValue (v : list Z)
  | OnHeadersComplete
  | OnBody (body : list Z)
  | OnMessageComplete.
Inductive llhttp_errno := HPE_OK | HPE_PAUSED_UPGRADE (error_pos : Z) | HPE_ERROR (code : Z).

Class LLHttp := {
  llhttp_t : Type;
  llhttp_init : llhttp_t;
  llhttp_execute : llhttp_t → list Z → list llhttp_event * llhttp_errno * llhttp_t;
  llhttp_resume_after_upgrade : llhttp_t → llhttp_t;
}.

Section Types.
Context `{Zlib} `{LLHttp}.

(** [struct tlsuv_http_req_s].  [r_client] tells whether the client pointer is set.
    An inflater carries the body callback it was created with. *)
Record tlsuv_http_req_s := mkreq {
  r_client : bool;
  r_method : list Z;
  r_path : list Z;
  r_parser : llhttp_t;
  r_state : http_request_state;
  r_req_chunked : bool;
  r_req_body_size : Z;
  r_body_sent_size : Z;
  r_req_body : list body_chunk_s;
  r_req_headers : um_header_list;
  r_resp_cb : option cbid;
  r_inflater : option (http_inflater_t * cbid);
  r_data : Z;
  r_resp : tlsuv_http_resp_s;
}.
End Types.

#[export] Instance req_upd `{Zlib} `{LLHttp} : Updatable tlsuv_http_req_s := fun r =>
  mkreq (r_client r) (r_method r) (r_path r) (r_parser r) (r_state r) (r_req_chunked r)
    (r_req_body_size r) (r_body_sent_size r) (r_req_body r) (r_req_headers r) (r_resp_cb r)
    (r_inflater r) (r_data r) (r_resp r).

(** What is visible from outside, in order. *)
Inductive event :=
  | EvResp (cb : cbid) (p : rid) (code : Z)               (* resp_cb(&req->resp, ...) *)
  | EvBody (cb : cbid) (p : rid) (body : option (list Z)) (len : Z) (* body_cb(req, body, len) *)
  | EvWrite (bytes : list Z)                              (* uv_link_write *)
  | EvLinkClose                                           (* uv_link_close *)
  | EvLinkOpen (ssl : bool)                               (* links chained, read started *)
  | EvSrcConnect (host port : list Z)
  | EvSrcCancel
  | EvSrcRelease
  | EvNewEngine (host : list Z)
  | EvFreeEngine
  | EvClientClosed                                        (* close_cb *)
  | EvConnectCb (st : Z)                                  (* uv_connect_t.cb(req, st) *)
  | EvReadCb (nread : Z) (data : list Z)                  (* uv_read_cb(stream, nread, buf) *)
  | EvWriteCb (wr : Z) (st : Z).                          (* uv_write_cb(wr, st) *)

Record hstate `{Zlib} `{LLHttp} {X : Type} := mkh {
  reqs : gmap Z tlsuv_http_req_s;
  log : list event;
  rest : X;
}.
Arguments hstate {_ _} X.
Arguments mkh {_ _ _}.
#[export] Instance hstate_upd `{Zlib} `{LLHttp} {X} : Updatable (hstate X) := fun h =>
  mkh (reqs h) (log h) (rest h).

(** ** Request text *)

(** [write_url_encoded]: [char] is signed, so bytes above 0x7f are below [' '] too. *)
Definition unsafe : list Z := [34; 60; 62; 37; 123; 125; 124; 92; 94; 96].
Definition HEXIFY (c : Z) : Z := if c <? 10 then 48 + c else 65 + c - 10.
Definition url_escaped (c : Z) : bool := (schar c <=? 32) || bool_decide (c ∈ unsafe).
Fixpoint write_url_encoded (url : list Z) : list Z :=
  match url with
  | [] => []
  | c :: url =>
    if url_escaped c then
      37 :: HEXIFY (Z.land (Z.shiftr (schar c) 4) 15) :: HEXIFY (Z.land (schar c) 15)
         :: write_url_encoded url
    else c :: write_url_encoded url
  end.

Section HttpReq.
Context `{Zlib} `{LLHttp} `{UvErr}.
Context {X : Type}.
Context (zenv : zlib_env) (inflate_fuel : nat).
Abbreviation S := (hstate X).
Context (app : event → M S unit).

(** *** The heap *)

Definition req_get (p : rid) : M S tlsuv_http_req_s := s ← get; from_opt UseAfterFree (reqs s !! p).
Definition req_put (p : rid) (r : tlsuv_http_req_s) : M S unit :=
  modify (λ s, s <| reqs := <[p := r]> (reqs s) |>).
Definition req_modify (p : rid) (f : tlsuv_http_req_s → tlsuv_http_req_s) : M S unit :=
  r ← req_get p; req_put p (f r).
(** [free(req)] *)
Definition req_dealloc (p : rid) : M S unit :=
  s ← get;
  match reqs s !! p with
  | Some _ => modify (λ s, s <| reqs := delete p (reqs s) |>)
  | None => fail_with DoubleFree
  end.

Definition emit (e : event) : M S unit := modify (λ s, s <| log := log s ++ [e] |>).
(** A call into the application. *)
Definition call_app (e : event) : M S unit := emit e;; app e.
(** [cb(&req->resp, req->data)] *)
Definition call_resp_cb (cb : cbid) (p : rid) : M S unit :=
  r ← req_get p; call_app (EvResp cb p (rs_code (r_resp r))).
Definition call_body_cb (cb : cbid) (p : rid) (body : option (list Z)) (len : Z) : M S unit :=
  call_app (EvBody cb p body len).

(** *** Life cycle *)

(** A request fresh from [calloc]. *)
Definition req_zero : tlsuv_http_req_s :=
  mkreq false [] [] llhttp_init created false 0 0 [] [] None None 0 resp_zero.

(** Headers, callbacks and response fields keep what they were. *)
Definition http_req_init (r : tlsuv_http_req_s) (method path : list Z) : tlsuv_http_req_s :=
  r <| r_method := method |> <| r_path := path |> <| r_req_body := [] |>
    <| r_req_chunked := false |> <| r_req_body_size := -1 |> <| r_body_sent_size := 0 |>
    <| r_state := created |> <| r_parser := llhttp_init |>.

(** The strings and lists the request owns; the request itself is freed by the
    caller. *)
Definition http_req_free (p : rid) : M S unit :=
  r ← req_get p; liftO (um_free_inflater zenv (fst <$> r_inflater r)).

(** *** Writing the request head *)

Definition is_body_method (m : list Z) : bool :=
  streq m (bs "POST") || streq m (bs "PUT") || streq m (bs "PATCH").

(** [req_len += chunk->len] over the queued chunks, a [size_t]. *)
Definition sum_chunks (l : list body_chunk_s) : Z :=
  fold_left (λ acc c, u64 (acc + bc_len c)) l 0.

(** The automatic [Content-Length]: [sprintf] into [char length_str[16]]. *)
Definition auto_content_length (r : tlsuv_http_req_s) : outcome tlsuv_http_req_s :=
  if is_body_method (r_method r) && negb (r_req_chunked r) && (r_req_body_size r =? -1) then
    let req_len := sum_chunks (r_req_body r) in
    let text := print_dec (i64 req_len) in
    if 16 <=? Z.of_nat (length text) then Fault OutOfBounds else
    Ret (r <| r_req_body_size := i64 req_len |>
           <| r_req_headers := set_http_header (r_req_headers r) (bs "Content-Length") (Some text) |>)
  else Ret r.

Definition CRLF : list Z := [13; 10].
Definition header_line (h : tlsuv_http_hdr) : list Z :=
  hdr_name h ++ bs ": " ++ hdr_value h ++ CRLF.

(** [len += snprintf(buf + len, maxlen - len, text)] *)
Definition append_text (maxlen : Z) (st : Z * list Z) (text : list Z) : outcome (Z * list Z) :=
  let '(len, buf) := st in
  '(n, buf) ← snprintf buf len (u64 (maxlen - len)) text; mret (u64 (len + n), buf).
(** [len += write_url_encoded(buf + len, url)], which knows no bound *)
Definition append_url (st : Z * list Z) (url : list Z) : outcome (Z * list Z) :=
  let '(len, buf) := st in
  buf ← buf_write buf len (write_url_encoded url);
  mret (u64 (len + Z.of_nat (length (write_url_encoded url))), buf).
Fixpoint append_headers (maxlen : Z) (st : Z * list Z) (hl : um_header_list) : outcome (Z * list Z) :=
  match hl with
  | [] => Ret st
  | h :: hl => st ← append_text maxlen st (header_line h); append_headers maxlen st hl
  end.

(** The result: the length, the buffer and the request (its length and headers may
    have been completed). *)
Definition http_req_write (prefix : option (list Z)) (r : tlsuv_http_req_s) (buf : list Z) (maxlen : Z)
  : outcome (Z * list Z * tlsuv_http_req_s) :=
  let pfx := if r_client r then default [] prefix else [] in
  st ← append_text maxlen (0, buf) (r_method r ++ bs " ");
  st ← append_url st pfx;
  st ← append_url st (r_path r);
  st ← append_text maxlen st (bs " HTTP/1.1" ++ CRLF);
  r ← auto_content_length r;
  st ← append_headers maxlen st (r_req_headers r);
  st ← append_text maxlen st CRLF;
  mret (st.1, st.2, r).

(** *** Parser callbacks *)

Definition set_resp (p : rid) (f : tlsuv_http_resp_s → tlsuv_http_resp_s) : M S unit :=
  req_modify p (λ r, r <| r_resp := f (r_resp r) |>).

Definition http_headers_complete_cb (p : rid) : M S unit :=
  req_modify p (λ r, r <| r_state := headers_received |>);;
  r ← req_get p;
  let compression := tlsuv_http_resp_header (rs_headers (r_resp r)) (bs "content-encoding") in
  when (bool_decide (is_Some compression))
    (set_resp p (λ rs, rs <| rs_headers := set_http_header (rs_headers rs) (bs "content-length") None |>);;
     set_resp p (λ rs, rs <| rs_headers :=
        set_http_header (rs_headers rs) (bs "transfer-encoding") (Some (bs "chunked")) |>));;
  r ← req_get p;
  match r_resp_cb r with
  | Some cb => call_resp_cb cb p
  | None => mret tt
  end;;
  r ← req_get p;
  match compression, rs_body_cb (r_resp r) with
  | Some encoding, Some cb =>
    inf ← liftO (um_get_inflater zenv encoding);
    req_modify p (λ r, r <| r_inflater := (λ i, (i, cb)) <$> inf |>)
  | _, _ => mret tt
  end.

Definition http_header_field_cb (p : rid) (f : list Z) : M S unit :=
  set_resp p (λ rs, rs <| rs_curr_header := Some (strndup f (length f)) |>).

Definition http_header_value_cb (p : rid) (v : list Z) : M S unit :=
  r ← req_get p;
  when (0 <? Z.of_nat (length v))
    match rs_curr_header (r_resp r) with
    | Some name => set_resp p (λ rs, rs <| rs_headers := add_http_header (rs_headers rs) name v (length v) |>)
    | None => mret tt
    end;;
  set_resp p (λ rs, rs <| rs_curr_header := None |>).

(** [snprintf(http_version, 8, "%1d.%1d", major, minor)] *)
Definition version_text (major minor : Z) : list Z :=
  take 7 (print_dec major ++ bs "." ++ print_dec minor).

Definition http_status_cb (p : rid) (code major minor : Z) (status : list Z) : M S unit :=
  set_resp p (λ rs, rs <| rs_code := code |> <| rs_http_version := version_text major minor |>
                       <| rs_status := Some (strndup status (length status)) |>).

Definition http_message_cb (p : rid) : M S unit :=
  req_modify p (λ r, r <| r_state := completed |>);;
  r ← req_get p;
  match rs_body_cb (r_resp r) with
  | Some cb =>
    if match r_inflater r with
       | None => true
       | Some (inf, _) => um_inflate_state inf =? 1
       end
    then call_body_cb cb p None UV_EOF
    else call_body_cb cb p None UV_EINVAL
  | None => mret tt
  end.

Definition inf_get (p : rid) : M S http_inflater_t :=
  r ← req_get p; from_opt UseAfterFree (fst <$> r_inflater r).
Definition inf_set (p : rid) (i : http_inflater_t) : M S unit :=
  req_modify p (λ r, r <| r_inflater := (λ ic, (i, snd ic)) <$> r_inflater r |>).

Definition http_body_cb (p : rid) (body : list Z) : M S unit :=
  r ← req_get p;
  match r_inflater r with
  | Some (_, icb) =>
    um_inflate zenv (inf_get p) (inf_set p)
      (λ d, call_body_cb icb p (Some d) (Z.of_nat (length d))) inflate_fuel body;;
    mret tt
  | None =>
    match rs_body_cb (r_resp r) with
    | Some cb => call_body_cb cb p (Some body) (Z.of_nat (length body))
    | None => mret tt
    end
  end.

(** [HTTP_PROC] *)
Definition http_proc (p : rid) (e : llhttp_event) : M S unit :=
  match e with
  | OnStatus code major minor status => http_status_cb p code major minor status
  | OnHeaderField f => http_header_field_cb p f
  | OnHeaderValue v => http_header_value_cb p v
  | OnHeadersComplete => http_headers_complete_cb p
  | OnBody body => http_body_cb p body
  | OnMessageComplete => http_message_cb p
  end.

Fixpoint run_events (p : rid) (evs : list llhttp_event) : M S unit :=
  match evs with
  | [] => mret tt
  | e :: evs => http_proc p e;; run_events p evs
  end.

(** [http_req_process]: the number of bytes processed, or -1.  llhttp keeps using the
    parser, which is inside the request, after each callback. *)
Definition http_req_process (p : rid) (buf : list Z) : M S Z :=
  r ← req_get p;
  let '(evs, err, parser) := llhttp_execute (r_parser r) buf in
  run_events p evs;;
  req_modify p (λ r, r <| r_parser := parser |>);;
  match err with
  | HPE_OK => mret (Z.of_nat (length buf))
  | HPE_PAUSED_UPGRADE pos =>
    req_modify p (λ r, r <| r_parser := llhttp_resume_after_upgrade (r_parser r) |>);; mret pos
  | HPE_ERROR _ => mret (-1)
  end.
End HttpReq.

(** ** Escaping of the request target *)

Definition unhex (c : Z) : Z := if c <? 58 then c - 48 else c - 55.
(** The server's reading of a target: [%XY] is the byte [16 * X + Y]. *)
Fixpoint url_decode (s : list Z) : list Z :=
  match s with
  | 37 :: a :: b :: s => 16 * unhex a + unhex b :: url_decode s
  | c :: s => c :: url_decode s
  | [] => []
  end.

(** Characters that may stand in a request target without ending it. *)
Definition target_char (c : Z) : Prop := 32 < c < 127.
#[local] Instance target_char_dec c : Decision (target_char c).
Proof. unfold target_char. apply _. Defined.

(** One byte escaped, for each of the 256 bytes. *)
Definition escape_ok (c : Z) : bool :=
  if url_escaped c then
    let a := HEXIFY (Z.land (Z.shiftr (schar c) 4) 15) in
    let b := HEXIFY (Z.land (schar c) 15) in
    bool_decide (16 * unhex a + unhex b = c ∧ target_char a ∧ target_char b)
  else negb (c =? 37) && (bool_decide (target_char c) || (c =? 127)).

Definition all_bytes : list Z := Z.of_nat <$> seq 0 256.
Lemma is_byte_all c : is_byte c → In c all_bytes.
Proof.
  intros [??]. apply list_elem_of_In, list_elem_of_fmap. exists (Z.to_nat c).
  split; [lia|]. apply elem_of_seq. lia.
Qed.
Lemma escape_ok_all c : is_byte c → escape_ok c = true.
Proof.
  intros Hc%is_byte_all. assert (forallb escape_ok all_bytes = true) as H by (vm_compute; done).
  by apply (proj1 (forallb_forall _ _) H).
Qed.

Lemma url_decode_plain c s : c ≠ 37 → url_decode (c :: s) = c :: url_decode s.
Proof.
  intros Hc. cbn. destruct (Z.eq_dec c 37); [done|].
  destruct c as [|p|p]; try done. repeat (destruct p as [p|p|]; try done).
Qed.

Lemma write_url_encoded_length url : (length (write_url_encoded url) <= 3 * length url)%nat.
Proof. induction url as [|c url IH]; cbn; [lia|]. destruct (url_escaped c); cbn; lia. Qed.

(** the escaped target decodes back to the bytes of the path (nothing is lost
    or merged), and consists only of visible characters and DEL: no space, CR or LF
    of a path or prefix can end the request line or start another header. *)
Theorem url_encoding_roundtrip url :
  bytes_ok url →
  url_decode (write_url_encoded url) = url ∧
  Forall (λ c, target_char c ∨ c = 127) (write_url_encoded url).
Proof.
  induction url as [|c url IH]; intros Hb; [done|]. split_Forall.
  destruct (IH Hb) as [IH1 IH2]. pose proof (escape_ok_all c ltac:(done)) as Hc.
  unfold escape_ok in Hc. cbn [write_url_encoded]. destruct (url_escaped c).
  - apply bool_decide_eq_true in Hc as (Hv & Ha & Hbb). split.
    + cbn [url_decode]. by rewrite Hv, IH1.
    + repeat (apply Forall_cons_2; [unfold target_char in *; lia|]). done.
  - apply andb_true_iff in Hc as [Hn Hc]. split.
    + rewrite url_decode_plain, IH1; [done|]. destruct (Z.eqb_spec c 37); done.
    + apply Forall_cons_2; [|done]. apply orb_true_iff in Hc as [Hc|Hc].
      * left. by apply bool_decide_eq_true in Hc.
      * right. by apply Z.eqb_eq.
Qed.

Lemma url_encoding_roundtrip_witness :
  write_url_encoded (bs "/a b" ++ [13; 10; 200]) = bs "/a%20b%0D%0A%C8" ∧
  url_decode (write_url_encoded (bs "/a b" ++ [13; 10; 200])) = bs "/a b" ++ [13; 10; 200].
Proof.
  split; [reflexivity|].
  apply (url_encoding_roundtrip (bs "/a b" ++ [13; 10; 200])).
  repeat (constructor; [split; vm_compute; congruence|]). constructor.
Defined.

(** ** The request head *)

Section WriteProofs.
Context `{Zlib} `{LLHttp}.

(** The bytes a server must receive for [r]. *)
Definition request_text (prefix : option (list Z)) (r : tlsuv_http_req_s) : list Z :=
  r_method r ++ bs " " ++
  write_url_encoded (if r_client r then default [] prefix else []) ++
  write_url_encoded (r_path r) ++ bs " HTTP/1.1" ++ CRLF ++
  concat (map header_line (r_req_headers r)) ++ CRLF.

(** [wrote buf0 s st]: the text so far is [s], at the start of a buffer of the size of [buf0]. *)
Definition wrote (cap : Z) (s : list Z) (st : Z * list Z) : Prop :=
  st.1 = Z.of_nat (length s) ∧ Z.of_nat (length st.2) = cap ∧ buf_has st.2 s.

Lemma append_text_ok cap s st t : wrote cap s st → cap < 18446744073709551616 →
  Z.of_nat (length (s ++ t)) < cap →
  ∃ st', append_text cap st t = Ret st' ∧ wrote cap (s ++ t) st'.
Proof.
  destruct st as [len buf]. unfold wrote. cbn [fst snd]. intros (-> & Hcap & Hs) Hmax Hlen.
  rewrite length_app in Hlen. unfold append_text.
  rewrite u64_small by lia.
  destruct (snprintf_app buf s t (cap - Z.of_nat (length s)) Hs) as (buf' & -> & Hl & Hh); [lia..|].
  cbn. rewrite u64_small by lia. eexists. split; [done|]. cbn. rewrite length_app. split_and!; [lia..|done].
Qed.

Lemma append_url_ok cap s st t : wrote cap s st → cap < 18446744073709551616 →
  Z.of_nat (length (s ++ write_url_encoded t)) < cap →
  ∃ st', append_url st t = Ret st' ∧ wrote cap (s ++ write_url_encoded t) st'.
Proof.
  destruct st as [len buf]. unfold wrote. cbn [fst snd]. intros (-> & Hcap & Hs) Hmax Hlen.
  rewrite length_app in Hlen. unfold append_url.
  destruct (buf_write_app buf s (write_url_encoded t) Hs) as (buf' & -> & Hl & Hh); [lia..|].
  cbn. rewrite u64_small by lia. eexists. split; [done|]. cbn. rewrite length_app. split_and!; [lia..|done].
Qed.

Lemma append_headers_ok cap hl : ∀ s st, wrote cap s st → cap < 18446744073709551616 →
  Z.of_nat (length (s ++ concat (map header_line hl))) < cap →
  ∃ st', append_headers cap st hl = Ret st' ∧ wrote cap (s ++ concat (map header_line hl)) st'.
Proof.
  induction hl as [|h hl IH]; intros s st Hw Hmax Hlen.
  { exists st. cbn in *. by rewrite app_nil_r. }
  cbn [append_headers map concat] in *. rewrite app_assoc in Hlen |- *.
  destruct (append_text_ok cap s st (header_line h) Hw Hmax) as (st1 & -> & Hw1).
  { rewrite length_app in Hlen. lia. }
  cbn. by apply IH.
Qed.

Lemma http_req_write_ok prefix r r' buf :
  auto_content_length r = Ret r' →
  Z.of_nat (length buf) < 18446744073709551616 →
  Z.of_nat (length (request_text prefix r')) < Z.of_nat (length buf) →
  ∃ buf', http_req_write prefix r buf (Z.of_nat (length buf)) =
          Ret (Z.of_nat (length (request_text prefix r')), buf', r') ∧
    length buf' = length buf ∧
    take (length (request_text prefix r')) buf' = request_text prefix r'.
Proof.
  intros Hr Hmax Hlen. set (cap := Z.of_nat (length buf)) in *.
  assert (r_method r' = r_method r ∧ r_client r' = r_client r ∧ r_path r' = r_path r)
    as (E1 & E2 & E3).
  { unfold auto_content_length in Hr. repeat case_match; simplify_eq; done. }
  unfold request_text in *. rewrite E1, E2, E3 in *.
  rewrite !(app_assoc _ _ (_ ++ _)) in Hlen. rewrite !length_app in Hlen.
  assert (wrote cap [] (0, buf)) as Hw0. { split_and!; [done..|]. split; [done|cbn; lia]. }
  unfold http_req_write.
  destruct (append_text_ok cap [] (0, buf) (r_method r ++ bs " ") Hw0 Hmax) as (st1 & -> & Hw1).
  { rewrite !length_app. cbn [length] in *. lia. }
  cbn [mbind outcome_bind].
  destruct (append_url_ok _ _ _ (if r_client r then default [] prefix else []) Hw1 Hmax)
    as (st2 & -> & Hw2). { rewrite !length_app. cbn [length] in *. lia. }
  cbn [mbind outcome_bind].
  destruct (append_url_ok _ _ _ (r_path r) Hw2 Hmax) as (st3 & -> & Hw3).
  { rewrite !length_app. cbn [length] in *. lia. }
  cbn [mbind outcome_bind].
  destruct (append_text_ok _ _ _ (bs " HTTP/1.1" ++ CRLF) Hw3 Hmax) as (st4 & -> & Hw4).
  { rewrite !length_app. cbn [length] in *. lia. }
  cbn [mbind outcome_bind]. rewrite Hr. cbn [mbind outcome_bind].
  destruct (append_headers_ok _ (r_req_headers r') _ _ Hw4 Hmax) as (st5 & -> & Hw5).
  { rewrite !length_app. cbn [length] in *. lia. }
  cbn [mbind outcome_bind].
  destruct (append_text_ok _ _ _ CRLF Hw5 Hmax) as (st6 & -> & (H1 & H2 & H3 & H4)).
  { rewrite !length_app. cbn [length] in *. lia. }
  cbn [mbind outcome_bind]. rewrite <-!app_assoc in H1, H3. cbn [app] in H1, H3.
  rewrite !app_assoc in H1, H3 |- *. rewrite H1. exists st6.2. split; [done|].
  split; [lia|]. done.
Qed.

(** *** Content-Length *)

Fixpoint body_total (l : list body_chunk_s) : Z :=
  match l with [] => 0 | c :: l => bc_len c + body_total l end.

Lemma body_total_nonneg l : 0 ≤ body_total l.
Proof. induction l; cbn; [lia|]. unfold bc_len. lia. Qed.

Lemma sum_chunks_total l : body_total l < 18446744073709551616 → sum_chunks l = body_total l.
Proof.
  unfold sum_chunks. intros Hl.
  assert (∀ acc, 0 ≤ acc → acc + body_total l < 18446744073709551616 →
    fold_left (λ acc c, u64 (acc + bc_len c)) l acc = acc + body_total l) as Hg.
  { clear Hl. induction l as [|c l IH]; cbn; intros acc Ha Hacc; [lia|].
    pose proof (body_total_nonneg l). unfold bc_len in *.
    rewrite u64_small by lia. rewrite IH by lia. lia. }
  apply Hg; lia.
Qed.

Lemma print_dec_length n k : 0 ≤ n < 10 ^ Z.of_nat (S k) → (length (print_dec n) <= S k)%nat.
Proof.
  intros Hn. unfold print_dec. destruct (Z.ltb_spec n 0); [lia|].
  apply print_base_length; lia.
Qed.

(** When the client computes the length itself. *)
Definition needs_length (r : tlsuv_http_req_s) : bool :=
  is_body_method (r_method r) && negb (r_req_chunked r) && (r_req_body_size r =? -1).

Lemma auto_content_length_ok r : body_total (r_req_body r) < 10 ^ 15 →
  auto_content_length r = Ret (if needs_length r then
    r <| r_req_body_size := body_total (r_req_body r) |>
      <| r_req_headers := set_http_header (r_req_headers r) (bs "Content-Length")
                            (Some (print_dec (body_total (r_req_body r)))) |> else r).
Proof.
  intros Hb. pose proof (body_total_nonneg (r_req_body r)). unfold auto_content_length.
  fold (needs_length r). destruct (needs_length r); [|done].
  rewrite sum_chunks_total by lia.
  replace (i64 (body_total (r_req_body r))) with (body_total (r_req_body r))
    by (unfold i64; rewrite Z.mod_small; lia).
  pose proof (print_dec_length (body_total (r_req_body r)) 14 ltac:(cbn; lia)).
  destruct (Z.leb_spec 16 (Z.of_nat (length (print_dec (body_total (r_req_body r)))))); [lia|done].
Qed.

(** C8: the bytes [process_requests] sends for a request are exactly its request
    line (with the client's prefix), its headers and the empty line, whenever that
    text fits the buffer with its NUL; the buffer is never written out of bounds. *)
Theorem http_req_write_exact prefix r buf :
  body_total (r_req_body r) < 10 ^ 15 →
  Z.of_nat (length buf) < 18446744073709551616 →
  ∃ r', auto_content_length r = Ret r' ∧
    ((length (request_text prefix r') < length buf)%nat →
     ∃ buf', http_req_write prefix r buf (Z.of_nat (length buf)) =
             Ret (Z.of_nat (length (request_text prefix r')), buf', r') ∧
       length buf' = length buf ∧
       take (length (request_text prefix r')) buf' = request_text prefix r').
Proof.
  intros Hb Hmax. eexists. split; [by apply auto_content_length_ok|]. intros Hlen.
  apply http_req_write_ok; [by apply auto_content_length_ok|done|lia].
Qed.

(** a POST, PUT or PATCH request that is neither chunked nor given a length is
    written with a [Content-Length] that is the total of its queued chunks; the same
    number is what [send_body] compares against to end the body; any other request
    keeps its headers. *)
Theorem content_length_correct r r' :
  hdr_unique (r_req_headers r) → body_total (r_req_body r) < 10 ^ 15 →
  auto_content_length r = Ret r' →
  hdr_unique (r_req_headers r') ∧
  (needs_length r = true →
    r_req_body_size r' = body_total (r_req_body r) ∧
    tlsuv_http_resp_header (r_req_headers r') (bs "content-length") =
      Some (print_dec (body_total (r_req_body r))) ∧
    ∀ k, strcaseeq k (bs "content-length") = false →
      tlsuv_http_resp_header (r_req_headers r') k = tlsuv_http_resp_header (r_req_headers r) k) ∧
  (needs_length r = false → r' = r).
Proof.
  intros Hu Hb. rewrite auto_content_length_ok by done.
  destruct (needs_length r) eqn:Hn; intros [= Hr']; [|by subst].
  set (hl' := set_http_header (r_req_headers r) (bs "Content-Length")
                (Some (print_dec (body_total (r_req_body r))))) in *.
  assert (r_req_headers r' = hl' ∧ r_req_body_size r' = body_total (r_req_body r)) as [-> ->]
    by (by subst r').
  destruct (set_http_header_spec (r_req_headers r) (bs "Content-Length")
              (Some (print_dec (body_total (r_req_body r)))) Hu) as [Hu' Hm].
  fold hl' in Hu', Hm. split; [exact Hu'|]. split; [|done]. intros _. split; [done|].
  split; [|intros k Hk]; rewrite !resp_header_map, Hm.
  - by rewrite lookup_insert_eq.
  - rewrite strcaseeq_lower in Hk. apply bool_decide_eq_false in Hk.
    by rewrite lookup_insert_ne by (intros E; apply Hk; rewrite <-E; done).
Qed.
End WriteProofs.

(** ** Response delivery *)

Section HeapRules.
Context `{Zlib} `{LLHttp} `{UvErr}.
Context {X : Type}.
Implicit Types s : hstate X.

Lemma wp_req_get p r (Q : tlsuv_http_req_s → hstate X → Prop) s :
  reqs s !! p = Some r → wp (req_get p) Q s ↔ Q r s.
Proof. intros Hr. unfold req_get. wp_simpl. rewrite Hr. done. Qed.

Lemma wp_req_modify p r f (Q : unit → hstate X → Prop) s :
  reqs s !! p = Some r →
  wp (req_modify p f) Q s ↔ Q tt (s <| reqs := <[p := f r]> (reqs s) |>).
Proof. intros Hr. unfold req_modify. wp_simpl. rewrite (wp_req_get p r) by done. done. Qed.

Lemma wp_req_dealloc p r (Q : unit → hstate X → Prop) s :
  reqs s !! p = Some r →
  wp (req_dealloc p) Q s ↔ Q tt (s <| reqs := delete p (reqs s) |>).
Proof. intros Hr. unfold req_dealloc. wp_simpl. rewrite Hr. done. Qed.

Lemma reqs_put p r s : reqs (s <| reqs := <[p := r]> (reqs s) |>) !! p = Some r.
Proof. cbn. by rewrite lookup_insert_eq. Qed.
End HeapRules.

Arguments run_events : simpl never.
Arguments version_text : simpl never.
#[local] Arguments bs : simpl never.

Section Delivery.
Context `{Zlib} `{LLHttp} `{UvErr}.
Context {X : Type} (zenv : zlib_env) (inflate_fuel : nat).
Context (app : event → M (hstate X) unit) (p : rid) (bc : option cbid).

(** The application of this section: in its response callback it sets the body
    callback [bc] (or none); apart from that it leaves the request alone.  It may do
    anything else: start other requests, keep its own data. *)
Definition app_sets_body_cb : Prop := ∀ ev s r, reqs s !! p = Some r →
  ∃ s', app ev s = Ret (tt, s') ∧ log s' = log s ∧
    reqs s' !! p = Some (match ev with
                         | EvResp _ q _ =>
                           if decide (q = p) then r <| r_resp := (r_resp r) <| rs_body_cb := bc |> |>
                           else r
                         | _ => r
                         end).
Hypothesis Happ : app_sets_body_cb.

(** The request [p] is [r] and the log is [l]. *)
Definition here (r : tlsuv_http_req_s) (l : list event) (s : hstate X) : Prop :=
  reqs s !! p = Some r ∧ log s = l.

Definition triple (r : tlsuv_http_req_s) (l : list event) (m : M (hstate X) unit)
    (r' : tlsuv_http_req_s) (l' : list event) : Prop :=
  ∀ s, here r l s → wp m (λ _ s', here r' l' s') s.

Lemma triple_seq r l m r1 l1 k r2 l2 :
  triple r l m r1 l1 → triple r1 l1 k r2 l2 → triple r l (m;; k) r2 l2.
Proof. intros Hm Hk s Hs. wp_simpl. eapply wp_mono; [by apply Hm|]. intros [] s1 Hs1. by apply Hk. Qed.

Lemma triple_ret r l : triple r l (mret tt) r l.
Proof. by intros s Hs. Qed.

Lemma triple_get r l k r' l' : triple r l (k r) r' l' → triple r l (req_get p ≫= k) r' l'.
Proof. intros Hk s [Hr Hl]. wp_simpl. apply (wp_req_get p r); [done|]. by apply Hk. Qed.

Lemma triple_modify r l f : triple r l (req_modify p f) (f r) l.
Proof.
  intros s [Hr Hl]. apply (wp_req_modify p r); [done|]. split; [|done]. apply reqs_put.
Qed.

Lemma triple_body cb body len r l :
  triple r l (call_body_cb app cb p body len) r (l ++ [EvBody cb p body len]).
Proof.
  intros s [Hr Hl]. unfold call_body_cb, call_app, emit. wp_simpl.
  set (s1 := s <| log := log s ++ [EvBody cb p body len] |>).
  destruct (Happ (EvBody cb p body len) s1 r Hr) as (s' & Ha & Hlog & Hreq).
  apply wp_run. exists tt, s'. split; [exact Ha|]. split; [exact Hreq|]. rewrite Hlog. cbn. by rewrite Hl.
Qed.

Lemma triple_resp cb r l :
  triple r l (call_resp_cb app cb p) (r <| r_resp := (r_resp r) <| rs_body_cb := bc |> |>)
         (l ++ [EvResp cb p (rs_code (r_resp r))]).
Proof.
  apply triple_get. intros s [Hr Hl]. unfold call_app, emit. wp_simpl.
  set (ev := EvResp cb p (rs_code (r_resp r))).
  set (s1 := s <| log := log s ++ [ev] |>).
  destruct (Happ ev s1 r Hr) as (s' & Ha & Hlog & Hreq). cbn in Hreq.
  rewrite decide_True in Hreq by done.
  apply wp_run. exists tt, s'. split; [exact Ha|]. split; [exact Hreq|]. rewrite Hlog. cbn. by rewrite Hl.
Qed.

(** A name and a value, each delivered in one piece. *)
Definition hdr_events (fv : list Z * list Z) : list llhttp_event :=
  [OnHeaderField fv.1; OnHeaderValue fv.2].
Definition hdr_ok (fv : list Z * list Z) : Prop := cstr_ok fv.1 ∧ cstr_ok fv.2 ∧ fv.2 ≠ [].

Abbreviation run := (run_events zenv inflate_fuel app p).

Lemma triple_events r l e evs r1 l1 r2 l2 :
  triple r l (http_proc zenv inflate_fuel app p e) r1 l1 → triple r1 l1 (run evs) r2 l2 →
  triple r l (run (e :: evs)) r2 l2.
Proof. apply triple_seq. Qed.

Lemma run_headers hdrs : ∀ r l evs r' l', Forall hdr_ok hdrs →
  rs_curr_header (r_resp r) = None →
  triple (r <| r_resp := (r_resp r) <| rs_headers :=
            rev (map (λ fv, mkhdr fv.1 fv.2) hdrs) ++ rs_headers (r_resp r) |> |>) l
         (run evs) r' l' →
  triple r l (run (flat_map hdr_events hdrs ++ evs)) r' l'.
Proof.
  induction hdrs as [|[f v] hdrs IH]; intros r l evs r' l' Hok Hc Ht.
  { destruct r as [? ? ? ? ? ? ? ? ? ? ? ? ? []]. exact Ht. }
  split_Forall. destruct H2 as (Hf & Hv & Hne). cbn [flat_map hdr_events Datatypes.app fst snd].
  cbn [fst snd] in Hf, Hv, Hne.
  eapply triple_events; [apply triple_modify|].
  eapply triple_events.
  { apply triple_get. replace (0 <? Z.of_nat (length v)) with true
      by (symmetry; apply Z.ltb_lt; destruct v; [done|cbn; lia]).
    cbn. eapply triple_seq; apply triple_modify. }
  apply IH; [done|done|]. cbn. unfold add_http_header. rewrite !strndup_all by (try done; lia).
  cbn in Ht. rewrite <-app_assoc in Ht. cbn in Ht.
  destruct r as [? ? ? ? ? ? ? ? ? ? ? ? ? []]. cbn in *. subst. exact Ht.
Qed.

Lemma run_bodies cb bodies : ∀ r l evs r' l',
  r_inflater r = None → rs_body_cb (r_resp r) = Some cb →
  triple r (l ++ map (λ d, EvBody cb p (Some d) (Z.of_nat (length d))) bodies) (run evs) r' l' →
  triple r l (run (map OnBody bodies ++ evs)) r' l'.
Proof.
  induction bodies as [|d bodies IH]; intros r l evs r' l' Hi Hb Ht.
  { by rewrite app_nil_r in Ht. }
  cbn [map Datatypes.app]. eapply triple_events.
  { cbn. apply triple_get. rewrite Hi, Hb. apply triple_body. }
  apply IH; [done..|]. by rewrite <-app_assoc.
Qed.

Lemma run_bodies_nocb bodies : ∀ r l evs r' l',
  r_inflater r = None → rs_body_cb (r_resp r) = None →
  triple r l (run evs) r' l' → triple r l (run (map OnBody bodies ++ evs)) r' l'.
Proof.
  induction bodies as [|d bodies IH]; intros r l evs r' l' Hi Hb Ht; [done|].
  cbn [map Datatypes.app]. eapply triple_events; [|by apply IH].
  cbn. apply triple_get. rewrite Hi, Hb. apply triple_ret.
Qed.

(** A complete response as llhttp reports it. *)
Definition response_events (code major minor : Z) (status : list Z)
    (hdrs : list (list Z * list Z)) (bodies : list (list Z)) : list llhttp_event :=
  OnStatus code major minor status :: flat_map hdr_events hdrs ++
  OnHeadersComplete :: map OnBody bodies ++ [OnMessageComplete].

(** The header list a response leaves: the last header received is first. *)
Definition received (hdrs : list (list Z * list Z)) : um_header_list :=
  rev (map (λ fv, mkhdr fv.1 fv.2) hdrs).

(** What the application sees of it. *)
Definition delivery_log (cb : cbid) (code : Z) (bodies : list (list Z)) : list event :=
  EvResp cb p code ::
  match bc with
  | Some b => map (λ d, EvBody b p (Some d) (Z.of_nat (length d))) bodies ++ [EvBody b p None UV_EOF]
  | None => []
  end.

Definition answered (r : tlsuv_http_req_s) (code major minor : Z) (status : list Z)
    (hdrs : list (list Z * list Z)) : tlsuv_http_req_s :=
  r <| r_state := completed |>
    <| r_resp := mkresp (version_text major minor) code (Some status) None (received hdrs) bc |>.

Lemma run_response cb r l code major minor status hdrs bodies :
  r_resp_cb r = Some cb → r_inflater r = None →
  rs_headers (r_resp r) = [] → rs_curr_header (r_resp r) = None →
  cstr_ok status → Forall hdr_ok hdrs →
  tlsuv_http_resp_header (received hdrs) (bs "content-encoding") = None →
  triple r l (run (response_events code major minor status hdrs bodies))
    (answered r code major minor status hdrs) (l ++ delivery_log cb code bodies).
Proof.
  intros Hcb Hinf Hh Hc Hst Hok Hce. unfold response_events, delivery_log, answered.
  destruct r as [? ? ? ? ? ? ? ? ? ? ? ? ? [? ? ? ? ? ?]]. cbn in Hcb, Hinf, Hh, Hc. subst.
  eapply triple_events; [apply triple_modify|]. cbn. rewrite strndup_all by (done || lia).
  apply run_headers; [done..|]. cbn. rewrite app_nil_r. fold (received hdrs).
  eapply triple_events.
  { cbn. eapply triple_seq; [apply triple_modify|]. apply triple_get. cbn. rewrite Hce.
    cbn. eapply triple_seq; [apply triple_ret|]. apply triple_get. cbn.
    eapply triple_seq; [apply triple_resp|]. apply triple_get. apply triple_ret. }
  cbn. destruct bc as [b|].
  - apply (run_bodies b); [done..|]. eapply triple_events; [|rewrite app_comm_cons, app_assoc; apply triple_ret].
    cbn. eapply triple_seq; [apply triple_modify|]. apply triple_get. cbn.
    replace (l ++ EvResp cb p code :: map (λ d, EvBody b p (Some d) (Z.of_nat (length d))) bodies)
      with ((l ++ [EvResp cb p code]) ++ map (λ d, EvBody b p (Some d) (Z.of_nat (length d))) bodies)
      by (by rewrite <-app_assoc).
    apply triple_body.
  - apply run_bodies_nocb; [done..|]. eapply triple_events; [|apply triple_ret].
    cbn. eapply triple_seq; [apply triple_modify|]. apply triple_get. cbn. apply triple_ret.
Qed.

(** A well-formed response is delivered faithfully.  Whatever bytes the server sent,
    if llhttp reports them as one complete response (each name and value in one
    piece, no content encoding), the application gets its response callback once,
    with the status code, then every piece of the body in order, then the end of the
    body, and nothing else; the request ends in state [completed] with the version,
    status and headers received. *)
Lemma process_delivers cb r l buf parser code major minor status hdrs bodies s :
  here r l s →
  llhttp_execute (r_parser r) buf = (response_events code major minor status hdrs bodies, HPE_OK, parser) →
  r_resp_cb r = Some cb → r_inflater r = None →
  rs_headers (r_resp r) = [] → rs_curr_header (r_resp r) = None →
  cstr_ok status → Forall hdr_ok hdrs →
  tlsuv_http_resp_header (received hdrs) (bs "content-encoding") = None →
  ∃ s', http_req_process zenv inflate_fuel app p buf s = Ret (Z.of_nat (length buf), s') ∧
    here (answered r code major minor status hdrs <| r_parser := parser |>)
         (l ++ delivery_log cb code bodies) s'.
Proof.
  intros [Hr Hl] Hx Hcb Hi Hh Hc Hst Hok Hce.
  pose proof (run_response cb r l code major minor status hdrs bodies Hcb Hi Hh Hc Hst Hok Hce
    s (conj Hr Hl)) as Hrun.
  assert (wp (http_req_process zenv inflate_fuel app p buf) (λ n s', n = Z.of_nat (length buf) ∧
    here (answered r code major minor status hdrs <| r_parser := parser |>)
         (l ++ delivery_log cb code bodies) s') s) as Hw.
  { unfold http_req_process. wp_simpl. apply (wp_req_get p r); [done|]. rewrite Hx. wp_simpl.
    eapply wp_mono; [exact Hrun|]. intros [] s1 [Hr1 Hl1]. wp_simpl.
    apply (wp_req_modify p _ _ _ _ Hr1). wp_simpl. split; [done|]. split; [apply reqs_put|done]. }
  apply wp_run in Hw as (n & s' & Hrun' & -> & Hs'). exists s'. done.
Qed.

End Delivery.

(** ** A scripted parser, for concrete runs *)

Module ToyHttp.
#[export] Instance zlib : Zlib := ToyZlib.toy.
#[export] Instance uv : UvErr := UvLinux.codes.
(** Each call of [llhttp_execute] reports the next entry of a script. *)
#[export] Instance parser : LLHttp := {|
  llhttp_t := list (list llhttp_event * llhttp_errno);
  llhttp_init := [];
  llhttp_execute := λ script _,
    match script with
    | [] => ([], HPE_OK, [])
    | (evs, err) :: script => (evs, err, script)
    end;
  llhttp_resume_after_upgrade := λ script, script |}.

(** An application that sets body callback 7 in its response callback. *)
Definition app {X} (e : event) : M (hstate X) unit :=
  match e with
  | EvResp _ p _ => modify (λ s, s <| reqs := alter (λ r, r <| r_resp := (r_resp r) <| rs_body_cb := Some 7 |> |>) p (reqs s) |>)
  | _ => mret tt
  end.
Lemma app_contract {X} q : app_sets_body_cb (X := X) app q (Some 7).
Proof.
  intros ev st rq Hr. destruct ev as [cb p code| | | | | | | | | | | | |];
    try (exists st; split; [reflexivity|split; [reflexivity|exact Hr]]).
  eexists. split; [reflexivity|]. split; [reflexivity|]. cbn.
  destruct (decide (p = q)) as [->|Hp].
  - rewrite lookup_alter_eq, Hr. reflexivity.
  - rewrite lookup_alter_ne by exact Hp. exact Hr.
Qed.

Definition get_request : tlsuv_http_req_s := http_req_init req_zero (bs "GET") (bs "/index.html").
Definition post_request : tlsuv_http_req_s :=
  http_req_init req_zero (bs "POST") (bs "/form") <| r_client := true |>
    <| r_req_body := [mkchunk (bs "hello") None 1; mkchunk (bs "world!") None 1] |>
    <| r_req_headers := [mkhdr (bs "Host") (bs "h")] |>.
End ToyHttp.
#[local] Existing Instance ToyHttp.zlib.
#[local] Existing Instance ToyHttp.uv.
#[local] Existing Instance ToyHttp.parser.

(** The exact text of a POST with two chunks and a client prefix. *)
Lemma http_req_write_exact_witness :
  ∃ r', auto_content_length ToyHttp.post_request = Ret r' ∧
    ∃ buf', http_req_write (Some (bs "/api")) ToyHttp.post_request (replicate 200 0) 200 =
             Ret (56, buf', r') ∧
      take 56 buf' = bs "POST /api/form HTTP/1.1" ++ CRLF ++ bs "Content-Length: 11" ++ CRLF ++
                     bs "Host: h" ++ CRLF ++ CRLF.
Proof.
  destruct (http_req_write_exact (Some (bs "/api")) ToyHttp.post_request (replicate 200 0))
    as (r' & Hr & Hw); [vm_compute; reflexivity..|].
  exists r'. split; [exact Hr|].
  vm_compute in Hr. injection Hr as <-.
  destruct Hw as (buf' & Hw & _ & Ht); [vm_compute; lia|].
  exists buf'. split; [exact Hw|exact Ht].
Defined.

Lemma content_length_correct_witness :
  ∃ r', auto_content_length ToyHttp.post_request = Ret r' ∧ r_req_body_size r' = 11 ∧
    tlsuv_http_resp_header (r_req_headers r') (bs "content-length") = Some (bs "11").
Proof.
  eexists. split; [vm_compute; reflexivity|].
  edestruct (content_length_correct ToyHttp.post_request) as (_ & Hc & _).
  - apply (bool_decide_unpack (hdr_unique _)). vm_compute. exact I.
  - vm_compute. reflexivity.
  - vm_compute. reflexivity.
  - destruct (Hc eq_refl) as (H1 & H2 & _). split; [exact H1|exact H2].
Defined.

(** ** What the code does with unusual input *)

(** A name that llhttp reports in two pieces, as it does when the name straddles two
    reads, keeps only its last piece; the rest of a value reported in two pieces is
    dropped. *)
Theorem split_header_spans_lost :
  let evs := [OnHeaderField (bs "Conn"); OnHeaderField (bs "ection"); OnHeaderValue (bs "clo");
              OnHeaderValue (bs "se")] in
  match run_events ToyZlib.env 10 ToyHttp.app 1 evs (mkh {[ 1 := ToyHttp.get_request ]} [] tt) with
  | Ret (_, s) => (λ r, rs_headers (r_resp r)) <$> reqs s !! 1 =
                  Some [mkhdr (bs "ection") (bs "clo")]
  | Fault _ => False
  end.
Proof. vm_compute. reflexivity. Qed.

(** A path of 8200 characters is written past the end of the 8196 byte buffer. *)
Theorem long_path_overflows :
  http_req_write None (http_req_init req_zero (bs "GET") (47 :: replicate (Z.to_nat 8199) 97)) (replicate (Z.to_nat 8196) 0) 8196
  = Fault OutOfBounds.
Proof. vm_compute. reflexivity. Qed.
