(* ===== verification/TlsEngine.v ===== *)
(** * The TLS engine interface (include/tlsuv/tls_engine.h) and the choice of the
    default implementation (src/tls_engine.c, [get_default_tls] of src/tlsuv.c)

    [TlsEngine] is [tls_engine_api]: the operations a TLS implementation gives to the
    TLS link.  An operation takes the engine's state and returns the new one, or faults; a
    buffer the engine fills is the list of the bytes it stored.  [TlsEngineLaws] is what
    the TLS link relies on when it writes. *)
From S2P Require Import Prelude.
From stdpp Require Import base list option numbers.
From Stdlib Require Import ZArith Lia.
Open Scope Z_scope.

Inductive tls_handshake_state := TLS_HS_BEFORE | TLS_HS_CONTINUE | TLS_HS_COMPLETE | TLS_HS_ERROR.
#[export] Instance tls_hs_eq_dec : EqDecision tls_handshake_state.
Proof. solve_decision. Defined.

(** [enum TLS_RESULT] *)
Definition TLS_OK : Z := 0.
Definition TLS_ERR : Z := -1.
Definition TLS_EOF : Z := -2.
Definition TLS_READ_AGAIN : Z := -3.
Definition TLS_MORE_AVAILABLE : Z := -4.
Definition TLS_HAS_WRITE : Z := -5.

(** Tells the results apart. *)
Ltac rc_cases := intros; repeat match goal with H : _ ∨ _ |- _ => destruct H end; discriminate.

(** [tls_engine_api]; [None] is NULL, for data and for [reset]. *)
Class TlsEngine := {
  engine_t : Type;
  e_handshake_state : engine_t → tls_handshake_state;
  e_handshake : engine_t → option (list Z) → Z → outcome (tls_handshake_state * list Z * engine_t);
  e_write : engine_t → option (list Z) → Z → outcome (Z * list Z * engine_t);
  e_read : engine_t → option (list Z) → Z → outcome (Z * list Z * engine_t);
  e_reset : option (engine_t → engine_t);
}.

(** What an engine promises about writing: data given to it is appended to its pending
    ciphertext, whose size it returns; a call without data takes the ciphertext out. *)
Class TlsEngineLaws `{TlsEngine} := {
  pending : engine_t → list Z;
  engine_ok : engine_t → Prop;
  e_write_wraps : ∀ x d rc out x', engine_ok x → e_write x (Some d) 0 = Ret (rc, out, x') →
    engine_ok x' ∧ (rc < 0 ∨ out = [] ∧ rc = i32 (Z.of_nat (length (pending x'))) ∧ ∃ rec, pending x' = pending x ++ rec);
  e_write_drains : ∀ x n, engine_ok x → 0 ≤ n < 2147483648 → Z.of_nat (length (pending x)) < 18446744073709551616 →
    ∃ rc out x', e_write x None n = Ret (rc, out, x') ∧ engine_ok x' ∧
    out = take (Z.to_nat n) (pending x) ∧ pending x' = drop (Z.to_nat n) (pending x) ∧
    rc = i32 (Z.of_nat (length (pending x')));
}.

(** What an engine promises about reading.  [plain x bytes] is the plaintext the engine still
    owes when [bytes] arrive, which more bytes only extend; [waiting x] counts the bytes in its queue.  A read gives a
    prefix of the plaintext; it ends with [TLS_OK] or [TLS_HAS_WRITE] when nothing more can be
    decrypted, with [TLS_MORE_AVAILABLE] only after it gave something.  Of the two other
    results, the end of the data and an error, it promises nothing. *)
Class TlsReadLaws `{TlsEngine} := {
  plain : engine_t → list Z → list Z;
  waiting : engine_t → Z;
  reader_ok : engine_t → Prop;
  plain_online : ∀ x a b, ∃ c, plain x (a ++ b) = plain x a ++ c;
  e_read_plain : ∀ x inp n, reader_ok x → 0 < n < 2147483648 → Z.of_nat (length (default [] inp)) < 2147483648 →
    waiting x + Z.of_nat (length (default [] inp)) < 18446744073709551616 →
    ∃ rc out x', e_read x inp n = Ret (rc, out, x') ∧ Z.of_nat (length out) ≤ n ∧ reader_ok x' ∧
      waiting x' ≤ waiting x + Z.of_nat (length (default [] inp)) ∧ 0 ≤ waiting x' ∧
      (rc = TLS_OK ∨ rc = TLS_HAS_WRITE ∨ rc = TLS_MORE_AVAILABLE → ∀ more, plain x (default [] inp ++ more) = out ++ plain x' more) ∧
      (rc = TLS_OK ∨ rc = TLS_HAS_WRITE → plain x' [] = []) ∧
      (rc = TLS_MORE_AVAILABLE → out ≠ []) ∧ rc ≠ TLS_READ_AGAIN;
}.

(** ** Reading until the engine has no more

    [read_all] is the loop of [tls_read_cb] (src/tls_link.c) as the engine sees it, with
    buffers of [n] bytes; [read_stream] runs it for each piece of ciphertext that arrives. *)
Section Reading.
Context `{TlsEngine}.

Fixpoint read_all (fuel : nat) (n : Z) (x : engine_t) (inp : option (list Z)) : outcome (Z * list (list Z) * engine_t) :=
  match fuel with
  | O => Fault OutOfFuel
  | S fuel =>
    '(rc, out, x) ← e_read x inp n;
    if (rc =? TLS_MORE_AVAILABLE) || (rc =? TLS_READ_AGAIN) then
      '(rc, outs, x) ← read_all fuel n x None; Ret (rc, out :: outs, x)
    else Ret (rc, [out], x)
  end.
Definition is_open (rc : Z) : bool := (rc =? TLS_OK) || (rc =? TLS_HAS_WRITE).
(** It stops at the end of the data and at an error. *)
Fixpoint read_stream (fuel : nat) (n : Z) (x : engine_t) (pieces : list (list Z)) : outcome (Z * list (list Z) * engine_t) :=
  match pieces with
  | [] => Ret (TLS_OK, [], x)
  | p :: pieces =>
    '(rc, outs, x) ← read_all fuel n x (Some p);
    if is_open rc then '(rc, outs', x) ← read_stream fuel n x pieces; Ret (rc, outs ++ outs', x)
    else Ret (rc, outs, x)
  end.
End Reading.

Section ReadingProofs.
Context `{TlsReadLaws}.

Lemma read_all_plain n m x inp : reader_ok x → 0 < n < 2147483648 → Z.of_nat (length (default [] inp)) < 2147483648 →
  waiting x + Z.of_nat (length (default [] inp)) < 18446744073709551616 →
  (length (plain x (default [] inp)) < m)%nat →
  ∃ rc outs x', read_all m n x inp = Ret (rc, outs, x') ∧ Forall (λ o, Z.of_nat (length o) ≤ n) outs ∧ reader_ok x' ∧
    waiting x' ≤ waiting x + Z.of_nat (length (default [] inp)) ∧ 0 ≤ waiting x' ∧
    (is_open rc = true → (∀ more, plain x (default [] inp ++ more) = concat outs ++ plain x' more) ∧ plain x' [] = []).
Proof.
  revert x inp. induction m as [|m IH]; intros x inp Hok Hn Hl Hw Hm; [lia|]. cbn [read_all].
  destruct (e_read_plain x inp n Hok Hn Hl Hw) as (rc & out & x1 & Hr & Hlen & Hok1 & Hw1 & Hw0 & Hp & Hend & Hmore & Hne). rewrite Hr. cbn [mbind outcome_bind].
  destruct (Z.eqb_spec rc TLS_MORE_AVAILABLE) as [->|Hnm]; cbn [orb].
  - specialize (Hp ltac:(auto)). specialize (Hmore eq_refl).
    pose proof (Hp []) as Hp0. rewrite app_nil_r in Hp0.
    destruct (IH x1 None Hok1 Hn) as (rc' & outs & x' & -> & Houts & Hok' & Hw' & Hw0' & Hpl); [cbn [default length]; lia|cbn [default length]; lia| |].
    { cbn [default]. rewrite Hp0, length_app in Hm. destruct out; [done|]. cbn [length] in Hm. lia. }
    cbn [mbind outcome_bind default app length Z.of_nat] in *. eexists _, _, _. split; [done|]. split_and!; [by constructor|done|lia|done|].
    intros Ho. destruct (Hpl Ho) as [Hp1 He]. split; [|done]. intros more. cbn [concat]. rewrite Hp, Hp1, app_assoc. done.
  - destruct (Z.eqb_spec rc TLS_READ_AGAIN); [done|]. eexists _, _, _. split; [done|]. split_and!; [by repeat constructor|done|done|done|].
    unfold is_open. rewrite orb_true_iff, !Z.eqb_eq. intros Ho. split; [|auto]. intros more. cbn [concat]. rewrite app_nil_r. apply Hp. tauto.
Qed.

(** However the ciphertext is cut into pieces, and whatever the size of the buffers, what is
    read is the plaintext of all of it. *)
Lemma read_stream_plain n m x pieces : reader_ok x → 0 < n < 2147483648 → Forall (λ p, Z.of_nat (length p) < 2147483648) pieces →
  0 ≤ waiting x → waiting x + Z.of_nat (length (concat pieces)) < 18446744073709551616 →
  (length (plain x (concat pieces)) < m)%nat → plain x [] = [] →
  ∃ rc outs x', read_stream m n x pieces = Ret (rc, outs, x') ∧ Forall (λ o, Z.of_nat (length o) ≤ n) outs ∧ reader_ok x' ∧
    (is_open rc = true → concat outs = plain x (concat pieces) ∧ plain x' [] = []).
Proof.
  intros Hok Hn HF. revert x Hok. induction HF as [|p pieces Hp HF IH]; intros x Hok Hw0 Hw Hm He; cbn [read_stream].
  - eexists _, _, _. split; [done|]. split_and!; [constructor|done|]. intros _. by cbn [concat].
  - cbn [concat] in *. rewrite length_app in Hw.
    assert (length (plain x p) < m)%nat as Hmp.
    { destruct (plain_online x p (concat pieces)) as [c Hc]. rewrite Hc, length_app in Hm. lia. }
    destruct (read_all_plain n m x (Some p) Hok Hn Hp) as (rc & outs & x1 & -> & Hout & Hok1 & Hw1 & Hw01 & Hpl); [cbn; lia|done|].
    cbn [mbind outcome_bind default from_option id] in *. destruct (is_open rc) eqn:Ho.
    + destruct (Hpl eq_refl) as [Hall He1]. rewrite Hall, length_app in Hm.
      destruct (IH x1 Hok1 ltac:(lia) ltac:(lia) ltac:(lia) He1) as (rc' & outs' & x' & -> & Hout' & Hok' & Hfin). cbn [mbind outcome_bind].
      eexists _, _, _. split; [done|]. split_and!; [by apply Forall_app|done|]. intros Ho'. destruct (Hfin Ho') as [Hc ?].
      split; [|done]. by rewrite concat_app, Hc, <-Hall.
    + eexists _, _, _. split; [done|]. split_and!; [done|done|]. by rewrite Ho.
Qed.
End ReadingProofs.

(** ** The default context *)

(** A context is an address; a factory makes one from the CA bundle, or returns NULL. *)
Definition tls_context : Type := Z.
Definition tls_context_factory : Type := option (list Z) → option tls_context.

(** The variables [factory] of tls_engine.c and [DEFAULT_TLS] of tlsuv.c, whether
    [free_default_tls] is registered with [atexit], and the contexts freed. *)
Record tls_globals := mktlsg {
  factory : option tls_context_factory;
  DEFAULT_TLS : option tls_context;
  at_exit : nat;
  freed : list tls_context;
}.
#[export] Instance tls_globals_upd : Updatable tls_globals := fun g =>
  mktlsg (factory g) (DEFAULT_TLS g) (at_exit g) (freed g).

Definition set_default_tls_impl (f : option tls_context_factory) : M tls_globals unit :=
  modify (λ g, g <| factory := f |>).

Definition default_tls_context (ca : option (list Z)) : M tls_globals (option tls_context) :=
  g ← get;
  match factory g with
  | None => mret None
  | Some f => mret (f ca)
  end.

Definition get_default_tls : M tls_globals (option tls_context) :=
  g ← get;
  match DEFAULT_TLS g with
  | None =>
    c ← default_tls_context None;
    modify (λ g, g <| DEFAULT_TLS := c |> <| at_exit := S (at_exit g) |>)
  | Some _ => mret tt
  end;;
  gets DEFAULT_TLS.

Definition free_default_tls : M tls_globals unit :=
  g ← get;
  match DEFAULT_TLS g with
  | Some c => modify (λ g, g <| freed := freed g ++ [c] |> <| DEFAULT_TLS := None |>)
  | None => mret tt
  end.

(** The default context is created once: any number of calls return the same
    context, and it is freed once, however often the exit handler runs. *)
Theorem default_tls_once f c n s : factory s = Some f → f None = Some c → DEFAULT_TLS s = None → freed s = [] →
  ∃ s', (Nat.iter n (λ m, r ← get_default_tls; m) get_default_tls) s = Ret (Some c, s') ∧ at_exit s' = S (at_exit s) ∧
    ∀ k, ∃ s'', (Nat.iter k (λ m, free_default_tls;; m) free_default_tls) s' = Ret (tt, s'') ∧ freed s'' = [c].
Proof.
  intros Hf Hc Hd Hfr.
  assert (∀ s1, DEFAULT_TLS s1 = Some c → get_default_tls s1 = Ret (Some c, s1)) as Hget.
  { intros s1 H1. unfold get_default_tls, mbind, M_bind, get, gets. rewrite H1. cbn. by rewrite H1. }
  assert (∀ s1, DEFAULT_TLS s1 = None → free_default_tls s1 = Ret (tt, s1)) as Hnone.
  { intros s1 H1. unfold free_default_tls, mbind, M_bind, get. by rewrite H1. }
  assert (∀ n s1, DEFAULT_TLS s1 = Some c → Nat.iter n (λ m, r ← get_default_tls; m) get_default_tls s1 = Ret (Some c, s1)) as Hsame.
  { intros n' s1 H1. induction n' as [|n' IH]; cbn; [by apply Hget|]. unfold mbind at 1, M_bind at 1. by rewrite Hget. }
  assert (∀ k s1, DEFAULT_TLS s1 = None → Nat.iter k (λ m, free_default_tls;; m) free_default_tls s1 = Ret (tt, s1)) as Hfree.
  { intros k s1 H1. induction k as [|k IH]; cbn; [by apply Hnone|]. unfold mbind at 1, M_bind at 1. by rewrite Hnone. }
  set (s1 := s <| DEFAULT_TLS := Some c |> <| at_exit := S (at_exit s) |>).
  assert (get_default_tls s = Ret (Some c, s1)) as H1.
  { unfold get_default_tls, default_tls_context, mbind, M_bind, get, gets, modify. rewrite Hd, Hf. cbn. by rewrite Hc. }
  exists s1. split; [|split; [done|]].
  - destruct n as [|n]; [done|]. cbn. unfold mbind, M_bind. rewrite H1. by apply Hsame.
  - intros k. set (s2 := s1 <| freed := freed s1 ++ [c] |> <| DEFAULT_TLS := None |>).
    assert (free_default_tls s1 = Ret (tt, s2)) as H2 by done.
    exists s2. split; [|cbn; by rewrite Hfr]. destruct k as [|k]; [done|]. cbn. unfold mbind, M_bind. rewrite H2. by apply Hfree.
Qed.

Lemma default_tls_once_witness :
  ∃ s', (Nat.iter 2 (λ m, r ← get_default_tls; m) get_default_tls) (mktlsg (Some (λ _, Some 7)) None 0 []) = Ret (Some 7, s') ∧
    at_exit s' = 1%nat ∧
    ∀ k, ∃ s'', (Nat.iter k (λ m, free_default_tls;; m) free_default_tls) s' = Ret (tt, s'') ∧ freed s'' = [7].
Proof. apply (default_tls_once (λ _, Some 7) 7 2 (mktlsg (Some (λ _, Some 7)) None 0 [])); reflexivity. Defined.
