(* ===== verification/Http.v ===== *)
(** * The HTTP client (src/http.c, [struct tlsuv_http_s] of include/tlsuv/http.h)

    A client owns a queue of requests, at most one of them active, and a connection
    whose life is the enum [status].  All code runs on the event loop: the entry
    points are the API functions and the callbacks that libuv, the link chain and
    the source make.  Each is a definition here, over the state [hstate
    tlsuv_http_t] of HttpReq.v.  The libuv objects the client drives are part of the
    state: whether the async handle [proc] was signalled and is referenced, what
    [conn_timer] is armed with, the link chain, the pending writes.

    Parameters: the application ([app], run at each callback), the result of the
    source's [connect], the default TLS context, zlib and llhttp. *)
From S2P Require Import Prelude CLib Url Headers Compression HttpReq TlsEngine.
From stdpp Require Import base list gmap numbers strings.
From Stdlib Require Import ZArith Lia.
Open Scope Z_scope.

(** [enum status] *)
Inductive status := Disconnected | Connecting | Handshaking | Connected.
#[export] Instance status_eq_dec : EqDecision status.
Proof. solve_decision. Defined.

(** The callback a running [conn_timer] will call. *)
Inductive timer_cb := src_connect_timeout_cb | idle_timeout_cb.
(** The callback of a pending write. *)
Inductive write_cb := req_write_done | body_write_done (chunk : body_chunk_s) | chunk_hdr_done.
Inductive link_state := LinkDown | LinkUp | LinkClosing.

(** [struct tlsuv_http_s].  A TLS engine is represented by the host it was made for. *)
Record tlsuv_http_t := mkclt {
  c_host : option (list Z);
  c_port : list Z;
  c_prefix : option (list Z);
  c_host_change : bool;
  c_ssl : bool;
  c_tls : option Z;
  c_engine : option (list Z);
  c_headers : um_header_list;
  c_connected : status;
  c_src : bool;
  c_own_src : bool;
  c_connect_timeout : Z;
  c_idle_time : Z;
  c_active : option rid;
  c_requests : list rid;
  c_close_cb : option cbid;
  (* libuv *)
  c_timer : option (timer_cb * Z);
  c_proc_pending : bool;
  c_proc_ref : bool;
  c_closing : bool;
  c_link : link_state;
  c_writes : list write_cb;
}.
#[export] Instance clt_upd : Updatable tlsuv_http_t := fun c =>
  mkclt (c_host c) (c_port c) (c_prefix c) (c_host_change c) (c_ssl c) (c_tls c) (c_engine c)
    (c_headers c) (c_connected c) (c_src c) (c_own_src c) (c_connect_timeout c) (c_idle_time c)
    (c_active c) (c_requests c) (c_close_cb c) (c_timer c) (c_proc_pending c) (c_proc_ref c)
    (c_closing c) (c_link c) (c_writes c).

(** The keep-alive decision of [http_read_cb], from the response's version and its
    [Connection] header. *)
Definition keep_alive (version : list Z) (hdr : option (list Z)) : bool :=
  if streq version (bs "1.1") then
    match hdr with Some v => negb (strcaseeq (bs "close") v) | None => true end
  else if streq version (bs "1.0") then
    match hdr with Some v => strcaseeq (bs "keep-alive") v | None => false end
  else false.

(** The size line of a chunk: [snprintf] into 10 bytes; the write then reads as many
    bytes as [snprintf] returned. *)
Definition chunk_header (len : Z) : outcome (list Z) :=
  '(n, buf) ← snprintf (replicate 10 0) 0 10 (print_hex len ++ CRLF);
  if 10 <? n then Fault OutOfBounds else mret (take (Z.to_nat n) buf).

Section Http.
Context `{Zlib} `{LLHttp} `{UvErr}.
Context (zenv : zlib_env) (fuel : nat).
Context (app : event → M (hstate tlsuv_http_t) unit).
Context (src_connect_rc : list event → Z) (default_tls : option Z).
Abbreviation S := (hstate tlsuv_http_t).

Definition clt : M S tlsuv_http_t := gets rest.
Definition set_clt (f : tlsuv_http_t → tlsuv_http_t) : M S unit := modify (λ s, s <| rest := f (rest s) |>).

(** libuv calls *)
Definition uv_async_send : M S unit := set_clt (λ c, c <| c_proc_pending := true |>).
Definition uv_timer_stop : M S unit := set_clt (λ c, c <| c_timer := None |>).
Definition uv_timer_start (cb : timer_cb) (ms : Z) : M S unit := set_clt (λ c, c <| c_timer := Some (cb, ms) |>).
Definition uv_ref_proc (b : bool) : M S unit := set_clt (λ c, c <| c_proc_ref := b |>).
Definition uv_link_write (bytes : list Z) (cb : write_cb) : M S unit :=
  emit (EvWrite bytes);; set_clt (λ c, c <| c_writes := c_writes c ++ [cb] |>).

Fixpoint run_chunk_cbs (p : rid) (l : list body_chunk_s) (code : Z) : M S unit :=
  match l with
  | [] => mret tt
  | ch :: l =>
    match bc_cb ch with
    | Some cb => call_body_cb app cb p (Some (bc_chunk ch)) code
    | None => mret tt
    end;;
    run_chunk_cbs p l code
  end.
Definition clear_req_body (p : rid) (code : Z) : M S unit :=
  r ← req_get p;
  run_chunk_cbs p (r_req_body r) code;;
  req_modify p (λ r, r <| r_req_body := [] |>).

(** [resp.code = code; resp.status = strdup(msg)] *)
Definition set_resp_error (p : rid) (code : Z) (msg : list Z) : M S unit :=
  set_resp p (λ rs, rs <| rs_code := code |> <| rs_status := Some msg |>).

(** [http_req_free(req); free(req)] *)
Definition destroy_req (p : rid) : M S unit := http_req_free zenv p;; req_dealloc p.

(** One round of the queue loop of [fail_active_request]. *)
Definition fail_queued (p : rid) (code : Z) (msg : list Z) : M S unit :=
  r ← req_get p;
  match r_resp_cb r with
  | Some cb => set_resp_error p code msg;; call_resp_cb app cb p;; uv_ref_proc false
  | None => mret tt
  end;;
  clear_req_body p code;;
  destroy_req p.

Fixpoint fail_queue (fuel : nat) (code : Z) (msg : list Z) : M S unit :=
  c ← clt;
  match c_requests c with
  | [] => mret tt
  | p :: q =>
    match fuel with
    | O => fail_with OutOfFuel
    | Datatypes.S fuel =>
      set_clt (λ c, c <| c_requests := q |>);;
      fail_queued p code msg;;
      fail_queue fuel code msg
    end
  end.

Definition fail_active (code : Z) (msg : list Z) : M S unit :=
  c ← clt;
  match c_active c with
  | None => mret tt
  | Some p =>
    r ← req_get p;
    match r_resp_cb r with
    | None => mret tt
    | Some cb =>
      set_resp_error p code msg;;
      call_resp_cb app cb p;;
      c ← clt; p ← from_opt NullDeref (c_active c); (* c->active is read again *)
      clear_req_body p code;;
      c ← clt;
      match c_active c with Some p => destroy_req p | None => mret tt end;;
      set_clt (λ c, c <| c_active := None |>)
    end
  end.

Definition fail_active_request (code : Z) (msg : list Z) : M S unit :=
  fail_active code msg;; fail_queue fuel code msg.

Definition close_connection : M S unit :=
  uv_timer_stop;;
  c ← clt;
  match c_connected c with
  | Handshaking | Connected =>
    emit EvLinkClose;;
    set_clt (λ c, c <| c_link := LinkClosing |> <| c_connected := Disconnected |>)
  | Connecting => set_clt (λ c, c <| c_connected := Disconnected |>)
  | Disconnected => mret tt
  end.

Definition parse_error_msg : list Z := bs "failed to parse HTTP response".

(** The active request is complete: release it, and the connection with it unless
    both sides agreed to keep it. *)
Definition finish_request (p : rid) : M S unit :=
  r ← req_get p;
  set_clt (λ c, c <| c_active := None |>);;
  let ka := keep_alive (rs_http_version (r_resp r))
                       (tlsuv_http_resp_header (rs_headers (r_resp r)) (bs "Connection")) in
  destroy_req p;;
  if ka then uv_async_send else close_connection.

(** [nread] bytes arrived (or an error); [buf] is the buffer, or NULL. *)
Definition http_read_cb (nread : Z) (buf : option (list Z)) : M S unit :=
  c ← clt;
  if nread <? 0 then
    when (bool_decide (is_Some (c_active c))) (fail_active_request nread (uv_strerror nread));;
    close_connection;;
    uv_async_send
  else
    match c_active c with
    | Some p =>
      freed ←
        (if 0 <? nread then
           b ← from_opt NullDeref buf;
           n ← http_req_process zenv fuel app p (take (Z.to_nat nread) b);
           if n <? 0 then
             fail_active_request UV_EINVAL parse_error_msg;; close_connection;; mret true
           else mret false
         else mret false);
      c ← clt;
      p ← from_opt NullDeref (c_active c);   (* c->active->state *)
      r ← req_get p;
      when (bool_decide (r_state r = completed)) (finish_request p);;
      when (freed : bool) (fail_with DoubleFree)     (* free(buf->base) *)
    | None => mret tt
    end.

(** [err] is the engine's error text. *)
Definition on_tls_handshake (st : tls_handshake_state) (err : list Z) : M S unit :=
  match st with
  | TLS_HS_COMPLETE => set_clt (λ c, c <| c_connected := Connected |>);; uv_async_send
  | TLS_HS_ERROR => close_connection;; fail_active_request UV_ECONNABORTED err
  | _ => close_connection
  end.

(** The TLS part of [make_links]: engines dereference their argument on [free]. *)
Definition make_tls_engine : M S unit :=
  c ← clt;
  match c_tls c with
  | Some _ => mret tt
  | None => t ← from_opt NullDeref default_tls; set_clt (λ c, c <| c_tls := Some t |>)
  end;;
  when (c_host_change c)
    (from_opt NullDeref (c_engine c);;
     emit EvFreeEngine;;
     set_clt (λ c, c <| c_engine := None |> <| c_host_change := false |>));;
  c ← clt;
  match c_engine c with
  | Some _ => mret tt
  | None =>
    h ← from_opt NullDeref (c_host c);
    emit (EvNewEngine h);;
    set_clt (λ c, c <| c_engine := Some h |>)
  end.

Definition make_links : M S unit :=
  c ← clt;
  when (c_ssl c) (make_tls_engine;; set_clt (λ c, c <| c_connected := Handshaking |>));;
  emit (EvLinkOpen (c_ssl c));;
  set_clt (λ c, c <| c_link := LinkUp |>);;
  when (negb (c_ssl c)) (set_clt (λ c, c <| c_connected := Connected |>);; uv_async_send).

Definition link_close_cb : M S unit :=
  set_clt (λ c, c <| c_link := LinkDown |>);;
  emit EvSrcRelease;;
  uv_async_send.

Definition src_connect_cb (st : Z) : M S unit :=
  uv_timer_stop;;
  if st =? 0 then
    c ← clt;
    match c_connected c with
    | Connecting => make_links
    | Disconnected => emit EvSrcCancel
    | _ => mret tt
    end
  else
    set_clt (λ c, c <| c_connected := Disconnected |>);;
    fail_active_request st (uv_strerror st);;
    uv_async_send.

Definition src_connect_timeout : M S unit :=
  src_connect_cb UV_ETIMEDOUT;; emit EvSrcCancel.

(** [req_write_cb], [req_write_body_cb], [chunk_hdr_wcb] *)
Definition write_done (w : write_cb) (st : Z) : M S unit :=
  match w with
  | body_write_done ch =>
    match bc_cb ch with
    | Some cb => call_body_cb app cb (bc_req ch) (Some (bc_chunk ch)) st
    | None => mret tt
    end
  | req_write_done | chunk_hdr_done => mret tt
  end.

(** One chunk of [send_body]. *)
Definition send_chunk (p : rid) (b : body_chunk_s) (next : list body_chunk_s) : M S unit :=
  req_modify p (λ r, r <| r_req_body := next |>
                       <| r_body_sent_size := u64 (r_body_sent_size r + bc_len b) |>);;
  r ← req_get p;
  if r_req_chunked r then
    if 0 <? bc_len b then
      hdr ← liftO (chunk_header (bc_len b));
      uv_link_write hdr chunk_hdr_done;;
      uv_link_write (bc_chunk b) (body_write_done b);;
      uv_link_write CRLF chunk_hdr_done
    else
      uv_link_write (bs "0" ++ CRLF ++ CRLF) chunk_hdr_done;;
      req_modify p (λ r, r <| r_state := body_sent |>)
  else
    uv_link_write (bc_chunk b) (body_write_done b);;
    when (u64 (r_req_body_size r) <=? r_body_sent_size r)
      (req_modify p (λ r, r <| r_state := body_sent |>)).
Fixpoint send_chunks (p : rid) (l : list body_chunk_s) : M S unit :=
  match l with
  | [] => mret tt
  | b :: next => send_chunk p b next;; send_chunks p next
  end.
Definition send_body (p : rid) : M S unit :=
  r ← req_get p; send_chunks p (r_req_body r).

Definition idle_timeout : M S unit := close_connection.

(** The head of the active request: 8196 bytes of buffer. *)
Definition send_head (p : rid) : M S unit :=
  c ← clt; r ← req_get p;
  '(len, buf, r) ← liftO (http_req_write (c_prefix c) r (replicate (Z.to_nat 8196) 0) 8196);
  req_put p r;;
  if 8196 <? len then fail_with OutOfBounds else
  uv_link_write (take (Z.to_nat len) buf) req_write_done;;
  req_modify p (λ r, r <| r_state := headers_sent |>).

Definition start_connect : M S unit :=
  c ← clt;
  set_clt (λ c, c <| c_connected := Connecting |>);;
  when (0 <? c_connect_timeout c) (uv_timer_start src_connect_timeout_cb (c_connect_timeout c));;
  h ← from_opt NullDeref (c_host c);
  emit (EvSrcConnect h (c_port c));;
  s ← get;
  let rc := src_connect_rc (log s) in
  when (negb (rc =? 0)) (src_connect_cb rc).

Definition process_requests : M S unit :=
  c ← clt;
  match c_active c, c_requests c with
  | None, p :: q => set_clt (λ c, c <| c_active := Some p |> <| c_requests := q |>)
  | _, _ => mret tt
  end;;
  c ← clt;
  match c_active c with
  | None =>
    when (bool_decide (c_connected c = Connected) && (0 <=? c_idle_time c))
      (uv_timer_start idle_timeout_cb (c_idle_time c));;
    uv_ref_proc false
  | Some p =>
    match c_connected c with
    | Disconnected => start_connect
    | Connected =>
      r ← req_get p;
      when (state_val (r_state r) <? state_val headers_sent) (send_head p);;
      r ← req_get p;
      when (state_val (r_state r) <? state_val body_sent) (send_body p)
    | _ => mret tt
    end
  end.

(** *** API *)

Fixpoint free_queue (q : list rid) : M S unit :=
  match q with
  | [] => mret tt
  | p :: q => set_clt (λ c, c <| c_requests := q |>);; destroy_req p;; free_queue q
  end.
Definition free_http : M S unit :=
  set_clt (λ c, c <| c_headers := [] |> <| c_host := None |> <| c_prefix := None |>);;
  c ← clt;
  match c_active c with
  | Some p => destroy_req p;; set_clt (λ c, c <| c_active := None |>)
  | None => mret tt
  end;;
  c ← clt;
  free_queue (c_requests c);;
  c ← clt;
  when (c_own_src c && c_src c) (emit EvSrcRelease;; set_clt (λ c, c <| c_src := false |>)).

Definition on_clt_close : M S unit :=
  free_http;;
  c ← clt;
  match c_close_cb c with Some _ => call_app app EvClientClosed | None => mret tt end.

Definition tlsuv_http_close (close_cb : option cbid) : M S Z :=
  set_clt (λ c, c <| c_closing := true |>);;
  fail_active_request UV_ECANCELED (uv_strerror UV_ECANCELED);;
  close_connection;;
  c ← clt;
  match c_engine c with
  | Some _ =>
    from_opt NullDeref (c_tls c);; emit EvFreeEngine;; set_clt (λ c, c <| c_engine := None |>)
  | None => mret tt
  end;;
  set_clt (λ c, c <| c_tls := None |> <| c_close_cb := close_cb |>);;
  mret 0.

(** A pure part of the client: [http_set_prefix]. *)
Definition http_set_prefix (pfx : option (list Z)) (pfx_len : nat) (c : tlsuv_http_t) : tlsuv_http_t :=
  c <| c_prefix := (λ p, strndup p pfx_len) <$> pfx |>.
(** [strlen(prefix)] *)
Definition tlsuv_http_set_path_prefix (prefix : option (list Z)) : M S unit :=
  p ← from_opt NullDeref prefix; set_clt (http_set_prefix (Some p) (length p)).

Definition tlsuv_http_header (name : list Z) (value : option (list Z)) (c : tlsuv_http_t) : tlsuv_http_t :=
  c <| c_headers := set_http_header (c_headers c) name value |>.

(** The scheme test: the default port and whether TLS is switched on. *)
Definition scheme_port (url : list Z) (off len : nat) : option (Z * bool) :=
  if strncaseeq (bs "http") (drop off url) len then Some (80, false)
  else if strncaseeq (bs "https") (drop off url) len then Some (443, true)
  else None.

Definition apply_url (url : list Z) (u : tlsuv_url_s) (hoff : nat) (dport : Z) (tls : bool)
    (c : tlsuv_http_t) : tlsuv_http_t :=
  let c := if tls then c <| c_ssl := true |> else c in
  let c := match c_host c with Some _ => c <| c_host_change := true |> | None => c end in
  let c := tlsuv_http_header (bs "Host") None c in
  let host := strndup (drop hoff url) (hostname_len u) in
  let c := tlsuv_http_header (bs "Host") (Some host) (c <| c_host := Some host |>) in
  let prt := if port u =? 0 then dport else port u in
  let c := c <| c_port := print_dec prt |> in
  match path u with
  | Some off => http_set_prefix (Some (drop off url)) (path_len u) c
  | None => c
  end.

Definition tlsuv_http_set_url (url : list Z) : M S Z :=
  '(rc, u) ← liftO (tlsuv_parse_url url);
  if negb (rc =? 0) then mret UV_EINVAL else
  match scheme u, hostname u with
  | None, _ | _, None => mret UV_EINVAL
  | Some off, Some hoff =>
    match scheme_port url off (scheme_len u) with
    | None => mret UV_EINVAL
    | Some (dport, tls) => set_clt (apply_url url u hoff dport tls);; mret 0
    end
  end.

(** [tlsuv_http_init_with_src] initialises a client in place; what it leaves
    untouched on the error path keeps its value. *)
Definition tlsuv_http_init_with_src (url : list Z) (src : bool) : M S Z :=
  set_clt (λ c, c <| c_requests := [] |> <| c_headers := [] |> <| c_own_src := false |>
    <| c_ssl := false |> <| c_tls := None |> <| c_engine := None |> <| c_active := None |>
    <| c_connected := Disconnected |> <| c_src := src |> <| c_host_change := false |>
    <| c_host := None |> <| c_prefix := None |>);;
  rc ← tlsuv_http_set_url url;
  if negb (rc =? 0) then mret rc else
  set_clt (λ c, c <| c_connect_timeout := 0 |> <| c_idle_time := 0 |> <| c_timer := None |>);;
  set_clt (tlsuv_http_header (bs "Connection") (Some (bs "keep-alive")));;
  match um_available_encoding zenv with
  | Some enc => set_clt (tlsuv_http_header (bs "Accept-Encoding") (Some enc))
  | None => mret tt
  end;;
  set_clt (λ c, c <| c_proc_pending := false |> <| c_proc_ref := false |> <| c_closing := false |>);;
  mret 0.

Definition tlsuv_http_init (url : list Z) : M S Z :=
  rc ← tlsuv_http_init_with_src url true;
  set_clt (λ c, c <| c_own_src := true |>);;
  mret rc.

Definition tlsuv_http_connect_timeout (millis : Z) : M S Z :=
  set_clt (λ c, c <| c_connect_timeout := millis |>);; mret 0.
Definition tlsuv_http_idle_keepalive (millis : Z) : M S Z :=
  set_clt (λ c, c <| c_idle_time := millis |>);; mret 0.
Definition tlsuv_http_set_ssl (tls : option Z) : M S unit := set_clt (λ c, c <| c_tls := tls |>).

Definition tlsuv_http_req (method path : list Z) (resp_cb : option cbid) (ctx : Z) : M S rid :=
  s ← get;
  let p := fresh (dom (reqs s)) in
  let r := http_req_init req_zero method path in
  let r := r <| r_client := true |> <| r_resp_cb := resp_cb |> <| r_data := ctx |>
             <| r_req_headers := copy_headers (c_headers (rest s)) (r_req_headers r) |> in
  req_put p r;;
  set_clt (λ c, c <| c_requests := c_requests c ++ [p] |>);;
  uv_timer_stop;; uv_ref_proc true;; uv_async_send;;
  mret p.

Definition tlsuv_http_cancel_all : M S Z :=
  fail_active_request UV_ECANCELED (uv_strerror UV_ECANCELED);; close_connection;; mret 0.

Fixpoint remove_rid (p : rid) (q : list rid) : list rid :=
  match q with
  | [] => []
  | x :: q => if x =? p then q else x :: remove_rid p q
  end.

Definition tlsuv_http_req_cancel (p : rid) : M S Z :=
  c ← clt;
  let queued := bool_decide (p ∈ c_requests c) in  (* r == req after the loop, else r is NULL *)
  let is_active := bool_decide (c_active c = Some p) in
  if queued || is_active then
    (if is_active then set_clt (λ c, c <| c_active := None |>);; close_connection
     else set_clt (λ c, c <| c_requests := remove_rid p (c_requests c) |>));;
    set_resp_error p UV_ECANCELED (uv_strerror UV_ECANCELED);;
    clear_req_body p UV_ECANCELED;;
    r ← req_get p;
    (if state_val (r_state r) <? state_val headers_received then
       cb ← from_opt NullDeref (r_resp_cb r);
       if queued then call_resp_cb app cb p
       else fail_with NullDeref               (* r->data with r == NULL *)
     else match rs_body_cb (r_resp r) with
          | Some cb => call_body_cb app cb p None UV_ECANCELED
          | None => mret tt
          end);;
    destroy_req p;;
    mret 0
  else mret UV_EINVAL.

Definition tlsuv_http_req_header (p : rid) (name : list Z) (value : option (list Z)) : M S Z :=
  r ← req_get p;
  te ← (if strcaseeq name (bs "transfer-encoding")
        then v ← from_opt NullDeref value; mret (streq v (bs "chunked")) else mret false);
  if te && negb (r_req_body_size r =? -1) then mret UV_EINVAL else
  let r := if te then r <| r_req_chunked := true |> else r in
  if strcaseeq name (bs "Content-Length") then
    if r_req_chunked r then mret UV_EINVAL else
    v ← from_opt NullDeref value;
    req_put p (r <| r_req_body_size := (strtol10 v).1 |> <| r_req_chunked := false |>
                 <| r_req_headers := set_http_header (r_req_headers r) name value |>);;
    mret 0
  else
    req_put p (r <| r_req_headers := set_http_header (r_req_headers r) name value |>);; mret 0.

(** [uv_async_send(&req->client->proc)] *)
Definition signal_client (p : rid) : M S unit :=
  r ← req_get p; if r_client r then uv_async_send else fail_with NullDeref.

Definition append_chunk (p : rid) (ch : body_chunk_s) : M S unit :=
  req_modify p (λ r, r <| r_req_body := r_req_body r ++ [ch] |>).

Definition tlsuv_http_req_end (p : rid) : M S unit :=
  r ← req_get p;
  when (r_req_chunked r) (append_chunk p (mkchunk [] None p);; signal_client p).

Definition tlsuv_http_req_data (p : rid) (body : list Z) (cb : option cbid) : M S Z :=
  r ← req_get p;
  if negb (streq (r_method r) (bs "POST")) && negb (streq (r_method r) (bs "PUT")) then mret UV_EINVAL
  else if state_val headers_sent <? state_val (r_state r) then mret UV_EINVAL
  else append_chunk p (mkchunk body cb p);; signal_client p;; mret 0.
End Http.
