(* ===== verification/HttpInv.v ===== *)
(** * Memory safety and ownership of requests in the HTTP client

    The invariant [own E]: every live request is either active, or queued, or in the
    hands of the running handler ([E]), exactly one of them; nothing else is on the
    heap (no leak) and nothing freed is referenced.  It is proved of every handler
    and API function of Http.v, for every application that respects [app_contract]. *)
From S2P Require Import Prelude CLib Url Headers Compression HttpReq TlsEngine Http.
From stdpp Require Import base list gmap numbers strings.
From Stdlib Require Import ZArith Lia.
Open Scope Z_scope.

Section Inv.
Context `{ZL : Zlib} `{LL : LLHttp} `{UV : UvErr} `{UVO : !UvErrOk}.
Context (zenv : zlib_env) (fuel : nat).
Context (app : event → M (hstate tlsuv_http_t) unit).
Context (src_connect_rc : list event → Z) (default_tls : option Z).
Abbreviation S := (hstate tlsuv_http_t).
Implicit Types (s : S) (E : list rid).

Definition active s : option rid := c_active (rest s).
Definition requests s : list rid := c_requests (rest s).
Definition owned E s : list rid := E ++ option_list (active s) ++ requests s.

Record own E s : Prop := {
  own_nodup : NoDup (owned E s);
  own_dom p : p ∈ dom (reqs s) ↔ p ∈ owned E s;
  own_client : map_Forall (λ _ r, r_client r = true) (reqs s);
}.

(** The queue only grew, the active request is the same. *)
Definition ext s s' : Prop :=
  active s' = active s ∧ ∃ new, requests s' = requests s ++ new.
Definition calm s s' : Prop := active s' = active s ∧ requests s' = requests s.
(** The fields of a request that are the client's own. *)
Definition private (r : tlsuv_http_req_s) := (r_inflater r, r_state r, r_resp_cb r).
(** Live requests stay, with their private fields. *)
Definition keep s s' : Prop :=
  ∀ p r, reqs s !! p = Some r → ∃ r', reqs s' !! p = Some r' ∧ private r' = private r.

(** A callback that reports a failure. *)
Definition failing (ev : event) : Prop :=
  match ev with
  | EvResp _ _ code => code < 0
  | EvBody _ _ (Some _) code => code < 0
  | _ => False
  end.

(** What the client expects of callbacks: they may start requests (not while a
    failure is being reported), set headers, callbacks and data; they do not cancel
    requests or close the client. *)
Definition app_contract : Prop := ∀ E ev s, own E s →
  wp (app ev) (λ _ s', own E s' ∧ ext s s' ∧ keep s s' ∧ (failing ev → calm s s')) s.

#[global] Instance calm_preorder : PreOrder calm.
Proof. split; [done|]. unfold calm. intros s1 s2 s3 [] []. split; congruence. Qed.
#[global] Instance keep_preorder : PreOrder keep.
Proof.
  split.
  - intros s p r Hr. by exists r.
  - intros s1 s2 s3 H12 H23 p r Hr. destruct (H12 p r Hr) as (r2 & Hr2 & E2).
    destruct (H23 p r2 Hr2) as (r3 & Hr3 & E3). exists r3. split; congruence.
Qed.
#[global] Instance ext_preorder : PreOrder ext.
Proof.
  split.
  - intros s. split; [done|]. exists []. by rewrite app_nil_r.
  - intros s1 s2 s3 [? [n1 E1]] [? [n2 E2]]. split; [congruence|].
    exists (n1 ++ n2). by rewrite E2, E1, <-app_assoc.
Qed.
Lemma calm_ext s s' : calm s s' → ext s s'.
Proof. intros [??]. split; [done|]. exists []. by rewrite app_nil_r. Qed.

Lemma own_lookup E s p : own E s → p ∈ owned E s → ∃ r, reqs s !! p = Some r.
Proof. intros Ho Hp. apply (own_dom _ _ Ho) in Hp. by apply elem_of_dom in Hp. Qed.

Lemma own_active E s p : own E s → active s = Some p → ∃ r, reqs s !! p = Some r.
Proof.
  intros Ho Ha. apply (own_lookup E s p Ho). unfold owned. rewrite Ha, !elem_of_app. right. left. by left.
Qed.

(** States that differ only in what ownership does not see. *)
Lemma own_perm E E' s s' : own E s → owned E' s' ≡ₚ owned E s → reqs s' = reqs s → own E' s'.
Proof. intros [H1 H2 H3] Ho Hr. split; intros; rewrite ?Ho, ?Hr; try done. Qed.
Lemma own_view E s s' : own E s → owned E s' = owned E s → reqs s' = reqs s → own E s'.
Proof. intros ? Ho ?. apply (own_perm E E s); [done|by rewrite Ho|done]. Qed.

Lemma own_put E s p r : own E s → p ∈ owned E s → r_client r = true →
  own E (s <| reqs := <[p := r]> (reqs s) |>).
Proof.
  intros [H1 H2 H3] Hp Hr. split; [done| |].
  - intros q. cbn. rewrite dom_insert_L, elem_of_union, elem_of_singleton, H2.
    split; [intros [->|]; done|by right].
  - cbn. by apply map_Forall_insert_2.
Qed.

Lemma own_delete E s p : own (p :: E) s →
  own E (s <| reqs := delete p (reqs s) |>).
Proof.
  intros [H1 H2 H3]. unfold owned in *. cbn in H1. apply NoDup_cons in H1 as [Hni H1].
  split; [done| |].
  - intros q. cbn. rewrite dom_delete_L, elem_of_difference, elem_of_singleton, H2.
    cbn. rewrite elem_of_cons. split.
    + intros [[->|Hq] Hne]; done.
    + intros Hq. split; [by right|]. intros ->. done.
  - cbn. by apply map_Forall_delete.
Qed.

(** ** Building blocks *)

Definition good E s s' : Prop := own E s' ∧ calm s s' ∧ keep s s'.

Lemma good_refl E s : own E s → good E s s.
Proof. intros. split_and!; done. Qed.
Lemma good_trans E s s1 s2 : good E s s1 → good E s1 s2 → good E s s2.
Proof. intros (? & ? & ?) (? & ? & ?). split_and!; [done|by etrans|by etrans]. Qed.
Lemma good_own E s s' : good E s s' → own E s'.
Proof. by intros []. Qed.
Lemma good_owned E s s' : good E s s' → owned E s' = owned E s.
Proof. intros (_ & [H1 H2] & _). unfold owned. by rewrite H1, H2. Qed.

Lemma wp_clt Q s : wp clt Q s ↔ Q (rest s) s.
Proof. done. Qed.
Lemma wp_set_clt f (Q : unit → S → Prop) s : wp (set_clt f) Q s ↔ Q tt (s <| rest := f (rest s) |>).
Proof. done. Qed.
Lemma wp_emit ev (Q : unit → S → Prop) s : wp (emit ev) Q s ↔ Q tt (s <| log := log s ++ [ev] |>).
Proof. done. Qed.

Definition quiet (f : tlsuv_http_t → tlsuv_http_t) : Prop :=
  ∀ c, c_active (f c) = c_active c ∧ c_requests (f c) = c_requests c.

(** Ownership does not see the log, nor the other fields of the client. *)
Lemma good_view E s s' : own E s → active s' = active s → requests s' = requests s →
  reqs s' = reqs s → good E s s'.
Proof.
  intros Ho Ha Hq Hr. split_and!; [|done|].
  - apply (own_view E s); [done| |done]. unfold owned. by rewrite Ha, Hq.
  - intros p r Hp. exists r. by rewrite Hr.
Qed.

Lemma set_clt_good E f s : own E s → quiet f → wp (set_clt f) (λ _ s', good E s s') s.
Proof. intros Ho Hf. apply wp_set_clt. destruct (Hf (rest s)). by apply good_view. Qed.

Lemma emit_good E ev s : own E s → wp (emit ev) (λ _ s', good E s s') s.
Proof. intros. apply wp_emit. by apply good_view. Qed.

Lemma req_modify_good E p f s : own E s → p ∈ owned E s →
  (∀ r, r_client (f r) = r_client r ∧ private (f r) = private r) →
  wp (req_modify p f) (λ _ s', good E s s') s.
Proof.
  intros Ho Hp Hf. destruct (own_lookup E s p Ho Hp) as [r Hr].
  apply (wp_req_modify p r); [done|]. destruct (Hf r) as [Hc Hi]. split_and!; [|done|].
  - apply own_put; [done..|]. rewrite Hc. exact (own_client _ _ Ho p r Hr).
  - intros q rq Hq. cbn. destruct (decide (p = q)) as [->|Hne].
    + exists (f r). rewrite lookup_insert_eq. split; [done|]. rewrite Hi. congruence.
    + exists rq. by rewrite lookup_insert_ne.
Qed.

Section WithApp.
Context (Happ : app_contract) (Hz : ∀ sy, sym_loaded zenv sy = true).

Lemma call_app_own E ev s : own E s →
  wp (call_app app ev) (λ _ s', own E s' ∧ ext s s' ∧ keep s s' ∧ (failing ev → calm s s')) s.
Proof.
  intros Ho. unfold call_app. wp_simpl. rewrite wp_emit.
  set (s1 := s <| log := log s ++ [ev] |>).
  assert (good E s s1) as (Ho1 & Hc & Hk) by (by apply good_view).
  eapply wp_mono; [by apply (Happ E)|]. intros [] s' (? & ? & ? & Hf). split_and!; [done|..].
  - etrans; [by apply calm_ext|done].
  - by etrans.
  - intros Hfail. etrans; [done|auto].
Qed.

Lemma call_app_failing E ev s : own E s → failing ev →
  wp (call_app app ev) (λ _ s', good E s s') s.
Proof.
  intros Ho Hf. eapply wp_mono; [by apply (call_app_own E)|]. intros [] s' (? & ? & ? & ?).
  split_and!; auto.
Qed.

Lemma run_chunk_cbs_good E p l code : ∀ s, own E s → code < 0 →
  wp (run_chunk_cbs app p l code) (λ _ s', good E s s') s.
Proof.
  induction l as [|ch l IH]; intros s Ho Hc; cbn [run_chunk_cbs].
  { wp_simpl. by apply good_refl. }
  wp_simpl. destruct (bc_cb ch) as [cb|].
  - eapply wp_mono; [by apply (call_app_failing E)|]. intros [] s1 Hg. cbn in Hg.
    eapply wp_mono; [apply IH; [by eapply good_own|done]|]. intros [] s2 Hg2.
    by eapply good_trans.
  - wp_simpl. by apply IH.
Qed.

Lemma clear_req_body_good E p code s : own E s → p ∈ owned E s → code < 0 →
  wp (clear_req_body app p code) (λ _ s', good E s s') s.
Proof.
  intros Ho Hp Hc. destruct (own_lookup E s p Ho Hp) as [r Hr]. unfold clear_req_body. wp_simpl.
  apply (wp_req_get p r); [done|]. wp_simpl.
  eapply wp_mono; [by apply (run_chunk_cbs_good E)|]. intros [] s1 Hg. cbn in Hg.
  eapply wp_mono; [apply (req_modify_good E)|].
  - by eapply good_own.
  - by rewrite (good_owned E s s1).
  - done.
  - intros [] s2 Hg2. by eapply good_trans.
Qed.

Lemma set_resp_error_good E p code msg s : own E s → p ∈ owned E s →
  wp (set_resp_error p code msg) (λ _ s', good E s s') s.
Proof. intros Ho Hp. by apply req_modify_good. Qed.

Lemma destroy_req_ok E p s : own (p :: E) s →
  wp (destroy_req zenv p) (λ _ s', own E s' ∧ calm s s') s.
Proof.
  intros Ho. destruct (own_lookup _ s p Ho) as [r Hr]; [by left|].
  unfold destroy_req, http_req_free. wp_simpl. apply (wp_req_get p r); [done|].
  assert (um_free_inflater zenv (fst <$> r_inflater r) = Ret tt) as ->.
  { destruct (r_inflater r); cbn; [|done]. by rewrite Hz. }
  unfold liftO at 1. unfold wp at 1. cbn beta iota.
  apply (wp_req_dealloc p r); [done|]. split; [by apply own_delete|done].
Qed.

(** ** Failing requests *)

(** The response callback with an error code. *)
Lemma fail_resp_good E p cb code msg s : own E s → p ∈ owned E s → code < 0 →
  wp (set_resp_error p code msg;; call_resp_cb app cb p) (λ _ s', good E s s') s.
Proof.
  intros Ho Hp Hc. destruct (own_lookup E s p Ho Hp) as [r Hr]. wp_simpl.
  unfold set_resp_error, set_resp. apply (wp_req_modify p r); [done|].
  set (r1 := r <| r_resp := _ |>). set (s1 := s <| reqs := _ |>).
  assert (good E s s1) as Hg.
  { pose proof (set_resp_error_good E p code msg s Ho Hp) as Hw.
    unfold set_resp_error, set_resp in Hw. by apply (wp_req_modify p r) in Hw. }
  unfold call_resp_cb. wp_simpl. apply (wp_req_get p r1); [apply reqs_put|].
  eapply wp_mono; [apply (call_app_failing E); [by eapply good_own|done]|].
  intros [] s2 Hg2. by eapply good_trans.
Qed.

Lemma fail_queued_ok E p code msg s : own (p :: E) s → code < 0 →
  wp (fail_queued zenv app p code msg) (λ _ s', own E s' ∧ calm s s') s.
Proof.
  intros Ho Hc. assert (p ∈ owned (p :: E) s) as Hp by (by left).
  destruct (own_lookup _ s p Ho Hp) as [r Hr]. unfold fail_queued. wp_simpl.
  apply (wp_req_get p r); [done|]. wp_simpl.
  assert (∀ s1, good (p :: E) s s1 →
    wp (clear_req_body app p code) (λ _, wp (destroy_req zenv p) (λ _ s', own E s' ∧ calm s s')) s1)
    as Htail.
  { intros s1 Hg. eapply wp_mono; [apply (clear_req_body_good (p :: E))|].
    - by eapply good_own.
    - by left.
    - done.
    - intros [] s2 Hg2. eapply wp_mono; [apply (destroy_req_ok E); by eapply good_own|].
      intros [] s3 [? ?]. split; [done|]. destruct Hg as (_ & ? & _), Hg2 as (_ & ? & _).
      etrans; [done|]. by etrans. }
  destruct (r_resp_cb r) as [cb|]; [|wp_simpl; by apply Htail, good_refl].
  pose proof (fail_resp_good (p :: E) p cb code msg s Ho Hp Hc) as Hresp.
  rewrite wp_bind in Hresp. wp_simpl. eapply wp_mono; [exact Hresp|]. intros [] s1 Hw.
  cbn beta in Hw |- *. wp_simpl. eapply wp_mono; [exact Hw|]. intros [] s2 Hg.
  eapply wp_mono; [apply (set_clt_good (p :: E)); [by eapply good_own|done]|].
  intros [] s3 Hg3. wp_simpl. apply Htail. by eapply good_trans.
Qed.

Lemma fail_queue_ok E n code msg : ∀ s, own E s → code < 0 → (length (requests s) <= n)%nat →
  wp (fail_queue zenv app n code msg)
     (λ _ s', own E s' ∧ active s' = active s ∧ requests s' = []) s.
Proof.
  induction n as [|n IH]; intros s Ho Hc Hn; cbn [fail_queue]; wp_simpl; apply wp_clt;
    fold (requests s); destruct (requests s) as [|p q] eqn:Hq; try (cbn in Hn; lia);
    try (wp_simpl; done).
  wp_simpl. apply wp_set_clt. set (s1 := s <| rest := _ |>).
  assert (own (p :: E) s1) as Ho1.
  { apply (own_perm E _ s); [done| |done].
    change (owned (p :: E) s1) with (p :: E ++ option_list (active s) ++ q).
    unfold owned. rewrite Hq, !(app_assoc E). apply Permutation_middle. }
  wp_simpl. eapply wp_mono; [by apply (fail_queued_ok E)|]. intros [] s2 [Ho2 [Ha2 Hq2]].
  eapply wp_mono; [apply IH; [done|done|]|].
  - rewrite Hq2. cbn in Hn |- *. change (requests s1) with q. lia.
  - intros [] s3 (? & Ha3 & ?). split_and!; [done| |done]. by rewrite Ha3, Ha2.
Qed.

(** The active request is gone, unless it has no response callback. *)
Definition active_failed s s' : Prop :=
  active s' = None ∨ (active s' = active s ∧
    ∃ p r, active s = Some p ∧ reqs s !! p = Some r ∧ r_resp_cb r = None).

Lemma fail_active_ok E code msg s : own E s → code < 0 →
  wp (fail_active zenv app code msg)
     (λ _ s', own E s' ∧ requests s' = requests s ∧ active_failed s s') s.
Proof.
  intros Ho Hc. unfold fail_active. wp_simpl. apply wp_clt. fold (active s).
  destruct (active s) as [p|] eqn:Ha; [|wp_simpl; unfold active_failed; auto].
  assert (p ∈ owned E s) as Hp by (unfold owned; rewrite Ha, !elem_of_app; right; left; by left).
  destruct (own_lookup E s p Ho Hp) as [r Hr]. wp_simpl. apply (wp_req_get p r); [done|].
  destruct (r_resp_cb r) as [cb|] eqn:Hcb; wp_simpl.
  2: { split_and!; [done..|]. right. split; [done|]. by exists p, r. }
  pose proof (fail_resp_good E p cb code msg s Ho Hp Hc) as Hresp. rewrite wp_bind in Hresp.
  eapply wp_mono; [exact Hresp|]. intros [] s1 Hw. cbn beta in Hw |- *. wp_simpl.
  eapply wp_mono; [exact Hw|]. intros [] s2 Hg. wp_simpl. apply wp_clt.
  fold (active s2). destruct (proj1 (proj2 Hg)) as [Ha2 Hq2]. rewrite Ha2, Ha. wp_simpl.
  eapply wp_mono; [apply (clear_req_body_good E)|]; [by eapply good_own| |done|].
  { by rewrite (good_owned E s s2). }
  intros [] s3 Hg3. wp_simpl. apply wp_clt. fold (active s3).
  destruct (proj1 (proj2 Hg3)) as [Ha3 Hq3]. rewrite Ha3, Ha2, Ha.
  unfold destroy_req, http_req_free. wp_simpl.
  destruct (own_active E s3 p) as [r3 Hr3]; [by eapply good_own|congruence|].
  apply (wp_req_get p r3); [done|].
  assert (um_free_inflater zenv (fst <$> r_inflater r3) = Ret tt) as ->.
  { destruct (r_inflater r3); cbn; [|done]. by rewrite Hz. }
  unfold liftO at 1. unfold wp at 1. cbn beta iota.
  apply (wp_req_dealloc p r3); [done|]. apply wp_set_clt.
  set (s4 := s3 <| reqs := delete p (reqs s3) |>). set (s5 := s4 <| rest := _ |>).
  split_and!; [| |by left].
  - set (s3' := s3 <| rest := (rest s3) <| c_active := None |> |>).
    assert (own (p :: E) s3') as Ho3.
    { apply (own_perm E _ s3); [by eapply good_own| |done]. unfold owned at 2.
      rewrite Ha3, Ha2, Ha. change (owned (p :: E) s3') with (p :: E ++ requests s3).
      apply Permutation_middle. }
    exact (own_delete _ _ _ Ho3).
  - change (requests s5) with (requests s3). congruence.
Qed.

Lemma fail_active_request_ok E code msg s : own E s → code < 0 →
  (length (requests s) <= fuel)%nat →
  wp (fail_active_request zenv fuel app code msg)
     (λ _ s', own E s' ∧ requests s' = [] ∧ active_failed s s') s.
Proof.
  intros Ho Hc Hf. unfold fail_active_request. wp_simpl.
  eapply wp_mono; [by apply (fail_active_ok E)|]. intros [] s1 (Ho1 & Hq1 & Ha1).
  eapply wp_mono; [apply (fail_queue_ok E); [done|done|by rewrite Hq1]|].
  intros [] s2 (Ho2 & Ha2 & Hq2). split_and!; [done..|]. unfold active_failed in *.
  by rewrite Ha2.
Qed.

(** ** Responses *)

(** Ownership kept, possibly new requests in the queue. *)
Definition grow E s s' : Prop := own E s' ∧ ext s s'.
Lemma grow_trans E s s1 s2 : grow E s s1 → grow E s1 s2 → grow E s s2.
Proof. intros [??] [??]. split; [done|by etrans]. Qed.
Lemma good_grow E s s' : good E s s' → grow E s s'.
Proof. intros (? & ? & ?). split; [done|by apply calm_ext]. Qed.
Lemma grow_owned E s s' p : grow E s s' → p ∈ owned E s → p ∈ owned E s'.
Proof.
  intros [_ [Ha [new Hn]]]. unfold owned. rewrite Ha, Hn, !elem_of_app. tauto.
Qed.

Lemma req_modify_grow E p f s : own E s → p ∈ owned E s →
  (∀ r, r_client (f r) = r_client r) → wp (req_modify p f) (λ _ s', grow E s s') s.
Proof.
  intros Ho Hp Hf. destruct (own_lookup E s p Ho Hp) as [r Hr].
  apply (wp_req_modify p r); [done|]. split; [|by apply calm_ext].
  apply own_put; [done..|]. rewrite Hf. exact (own_client _ _ Ho p r Hr).
Qed.

Lemma call_body_grow E cb p d n s : own E s →
  wp (call_body_cb app cb p d n) (λ _ s', grow E s s' ∧ keep s s') s.
Proof.
  intros Ho. eapply wp_mono; [by apply (call_app_own E)|]. intros [] s' (? & ? & ? & ?). done.
Qed.

(** The piece of a body is decompressed within [fuel] rounds. *)
Definition body_fits `{!ZlibProgress} (b : list Z) : Prop :=
  ∀ st, (z_measure st (take (Z.to_nat (u32 (Z.of_nat (length b)))) b) < fuel)%nat.
Definition event_fits `{!ZlibProgress} (e : llhttp_event) : Prop :=
  match e with OnBody b => body_fits b | _ => True end.

Lemma inflate_loop_grow `{!ZlibProgress} E p cb n : ∀ s r inf icb,
  own E s → p ∈ owned E s → reqs s !! p = Some r → r_inflater r = Some (inf, icb) →
  (z_measure (s_state inf) (s_next_in inf) < n)%nat →
  wp (inflate_loop zenv (inf_get p) (inf_set p)
        (λ d, call_body_cb app cb p (Some d) (Z.of_nat (length d))) n)
     (λ _ s', grow E s s') s.
Proof.
  induction n as [|n IH]; intros s r inf icb Ho Hp Hr Hi Hm; [lia|]. cbn [inflate_loop].
  wp_simpl. unfold inf_get at 1. wp_simpl. apply (wp_req_get p r); [done|]. rewrite Hi. cbn [fmap option_fmap option_map fst].
  wp_simpl. destruct (s_next_in inf) as [|b input] eqn:Hin.
  { wp_simpl. by apply good_grow, good_refl. }
  rewrite Hz. cbn [negb].
  pose proof (z_measure_dec (s_state inf) (b :: input) decompressed_size _ eq_refl
    ltac:(done) ltac:(unfold decompressed_size; lia)) as Hdec.
  destruct (z_inflate (s_state inf) (b :: input) decompressed_size) as [rc k out st].
  cbn [z_rc z_consumed z_out z_state] in *. wp_simpl. unfold inf_set at 1.
  apply (wp_req_modify p r); [done|]. rewrite Hi. cbn [fmap option_fmap option_map snd].
  set (inf1 := inf <| s_state := st |> <| s_next_in := drop k (b :: input) |>).
  set (r1 := r <| r_inflater := _ |>). set (s1 := s <| reqs := _ |>).
  assert (reqs s1 !! p = Some r1) as Hr1 by apply reqs_put.
  assert (grow E s s1) as Hg1.
  { split; [|by apply calm_ext]. apply own_put; [done..|]. exact (own_client _ _ Ho p r Hr). }
  destruct (Z.eqb_spec rc Z_DATA_ERROR) as [->|Hrc]; [by wp_simpl|]. wp_simpl.
  assert (∀ s2 r2, grow E s s2 → reqs s2 !! p = Some r2 → r_inflater r2 = Some (inf1, icb) →
    wp (if rc =? Z_STREAM_END
        then inf2 ← inf_get p; inf_set p (inf2 <| complete := 1 |>);; mret 1
        else inflate_loop zenv (inf_get p) (inf_set p)
              (λ d, call_body_cb app cb p (Some d) (Z.of_nat (length d))) n)
       (λ _ s', grow E s s') s2) as Htail.
  { intros s2 r2 Hg2 Hr2 Hi2. assert (p ∈ owned E s2) as Hp2 by (by eapply grow_owned).
    destruct (Z.eqb_spec rc Z_STREAM_END) as [->|Hrc2].
    - wp_simpl. unfold inf_get. wp_simpl. apply (wp_req_get p r2); [done|].
      rewrite Hi2. cbn [fmap option_fmap option_map fst]. wp_simpl.
      wp_call (apply (req_modify_grow E); [by destruct Hg2|done|done]).
      intros [] s3 Hg3. wp_simpl. by eapply grow_trans.
    - wp_call (apply (IH s2 r2 inf1 icb); [by destruct Hg2|done|done|done|]).
      + destruct Hdec as [?|[?|Hlt]]; [done|done|]. cbn. lia.
      + intros a s3 Hg3. by eapply grow_trans. }
  unfold when. destruct (0 <? Z.of_nat (length out)).
  - wp_call (apply (call_body_grow E); by destruct Hg1). intros [] s2 [Hg2 Hk2].
    destruct (Hk2 p r1 Hr1) as (r2 & Hr2 & Hi2). apply (Htail s2 r2); [by apply (grow_trans E s s1)|done|].
    unfold private in Hi2. cbn in Hi2. congruence.
  - wp_simpl. by apply (Htail s1 r1).
Qed.

Lemma um_inflate_grow `{!ZlibProgress} E p r inf icb body s :
  own E s → p ∈ owned E s → reqs s !! p = Some r → r_inflater r = Some (inf, icb) →
  body_fits body →
  wp (um_inflate zenv (inf_get p) (inf_set p)
        (λ d, call_body_cb app icb p (Some d) (Z.of_nat (length d))) fuel body;; mret tt)
     (λ _ s', grow E s s') s.
Proof.
  intros Ho Hp Hr Hi Hfit. unfold um_inflate. wp_simpl. unfold inf_get at 1. wp_simpl.
  apply (wp_req_get p r); [done|]. rewrite Hi. cbn [fmap option_fmap option_map fst]. wp_simpl.
  unfold inf_set at 1. apply (wp_req_modify p r); [done|]. rewrite Hi.
  cbn [fmap option_fmap option_map snd]. set (r1 := r <| r_inflater := _ |>).
  set (s1 := s <| reqs := _ |>).
  assert (grow E s s1) as Hg1.
  { split; [|by apply calm_ext]. apply own_put; [done..|]. exact (own_client _ _ Ho p r Hr). }
  wp_call (eapply (inflate_loop_grow E p icb fuel s1 r1);
    [by destruct Hg1|by apply (grow_owned E s)|apply reqs_put|done|apply Hfit]).
  - intros a s2 Hg2. wp_simpl. by apply (grow_trans E s s1).
Qed.

Lemma set_resp_grow E p f s : own E s → p ∈ owned E s → wp (set_resp p f) (λ _ s', grow E s s') s.
Proof. intros. by apply req_modify_grow. Qed.

Lemma get_inflater_total enc : ∃ inf, um_get_inflater zenv enc = Ret inf.
Proof. unfold um_get_inflater. rewrite !Hz. repeat case_if; eauto. Qed.

Lemma http_headers_complete_grow E p s : own E s → p ∈ owned E s →
  wp (http_headers_complete_cb zenv app p) (λ _ s', grow E s s') s.
Proof.
  intros Ho Hp. unfold http_headers_complete_cb.
  wp_call (by apply (req_modify_grow E)). intros [] s1 Hg1.
  destruct (own_lookup E s1 p) as [r1 Hr1]; [by destruct Hg1|by eapply grow_owned|].
  wp_simpl. apply (wp_req_get p r1); [done|]. wp_simpl.
  set (comp := tlsuv_http_resp_header _ _).
  assert (∀ s2, grow E s s2 → wp (r ← req_get p;
    match r_resp_cb r with Some cb => call_resp_cb app cb p | None => mret () end;;
    r ← req_get p;
    match comp, rs_body_cb (r_resp r) with
    | Some encoding, Some cb =>
      inf ← liftO (um_get_inflater zenv encoding);
      req_modify p (λ r, r <| r_inflater := (λ i, (i, cb)) <$> inf |>)
    | _, _ => mret ()
    end) (λ _ s', grow E s s') s2) as Htail.
  { intros s2 Hg2. destruct (own_lookup E s2 p) as [r2 Hr2]; [by destruct Hg2|by eapply grow_owned|].
    wp_simpl. apply (wp_req_get p r2); [done|]. wp_simpl.
    apply (wp_mono _ (λ _ s3, grow E s s3)).
    { destruct (r_resp_cb r2); [|by wp_simpl]. unfold call_resp_cb. wp_simpl.
      apply (wp_req_get p r2); [done|]. wp_call (apply (call_app_own E); by destruct Hg2).
      intros [] s3 (? & ? & _). eapply grow_trans; [done|]. by split. }
    intros [] s3 Hg3. destruct (own_lookup E s3 p) as [r3 Hr3]; [by destruct Hg3|by eapply grow_owned|].
    wp_simpl. apply (wp_req_get p r3); [done|].
    destruct comp as [enc|]; [|by wp_simpl]. destruct (rs_body_cb (r_resp r3)); [|by wp_simpl].
    destruct (get_inflater_total enc) as [inf ->]. wp_simpl. unfold liftO at 1, wp at 1. cbn beta iota.
    eapply wp_mono; [apply (req_modify_grow E); [by destruct Hg3|by eapply grow_owned|done]|].
    intros [] s4 Hg4. by eapply grow_trans. }
  unfold when. destruct (bool_decide (is_Some comp)).
  - wp_call (apply (set_resp_grow E); [by destruct Hg1|by eapply grow_owned]). intros [] s2 Hg2.
    assert (grow E s s2) by (by eapply grow_trans).
    wp_call (apply (set_resp_grow E); [by destruct Hg2|by eapply grow_owned]). intros [] s3 Hg3.
    apply Htail. by eapply grow_trans.
  - apply wp_ret. by apply Htail.
Qed.

Lemma http_proc_grow `{!ZlibProgress} E p e s : own E s → p ∈ owned E s → event_fits e →
  wp (http_proc zenv fuel app p e) (λ _ s', grow E s s') s.
Proof.
  intros Ho Hp Hfit. destruct (own_lookup E s p Ho Hp) as [r Hr]. destruct e; cbn [http_proc].
  - by apply req_modify_grow.
  - by apply req_modify_grow.
  - unfold http_header_value_cb. wp_simpl. apply (wp_req_get p r); [done|]. unfold when.
    destruct (0 <? _), (rs_curr_header (r_resp r)); wp_simpl; try (by apply req_modify_grow).
    wp_call (by apply (req_modify_grow E)). intros [] s1 Hg.
    wp_call (apply (req_modify_grow E); [by destruct Hg|by eapply grow_owned|done]).
    intros [] s2 Hg2. by eapply grow_trans.
  - by apply http_headers_complete_grow.
  - unfold http_body_cb. wp_simpl. apply (wp_req_get p r); [done|].
    destruct (r_inflater r) as [[inf icb]|] eqn:Hi.
    + by apply (um_inflate_grow E p r inf icb).
    + destruct (rs_body_cb (r_resp r)); [|by apply good_grow, good_refl].
      wp_call (by apply (call_body_grow E)). by intros [] s1 [].
  - unfold http_message_cb. wp_call (by apply (req_modify_grow E)). intros [] s1 Hg.
    destruct (own_lookup E s1 p) as [r1 Hr1]; [by destruct Hg|by eapply grow_owned|].
    wp_simpl. apply (wp_req_get p r1); [done|]. destruct (rs_body_cb (r_resp r1)); [|by wp_simpl].
    match goal with |- context [if ?b then _ else _] => destruct b end;
      (wp_call (apply (call_body_grow E); by destruct Hg)); intros [] s2 [Hg2 _];
      by eapply grow_trans.
Qed.

Lemma run_events_grow `{!ZlibProgress} E p evs : ∀ s, own E s → p ∈ owned E s →
  Forall event_fits evs → wp (run_events zenv fuel app p evs) (λ _ s', grow E s s') s.
Proof.
  induction evs as [|e evs IH]; intros s Ho Hp Hfit; [by apply good_grow, good_refl|].
  split_Forall. unfold run_events; fold (run_events zenv fuel app p).
  wp_call (by apply (http_proc_grow E)). intros [] s1 Hg.
  wp_call (apply IH; [by destruct Hg|by eapply grow_owned|done]). intros [] s2 Hg2.
  by eapply grow_trans.
Qed.

(** The number of bytes a read reports as processed. *)
Definition processed (err : llhttp_errno) (buf : list Z) : Z :=
  match err with
  | HPE_OK => Z.of_nat (length buf)
  | HPE_PAUSED_UPGRADE pos => pos
  | HPE_ERROR _ => -1
  end.

Lemma http_req_process_grow `{!ZlibProgress} E p r buf evs err parser s :
  own E s → p ∈ owned E s → reqs s !! p = Some r →
  llhttp_execute (r_parser r) buf = (evs, err, parser) → Forall event_fits evs →
  wp (http_req_process zenv fuel app p buf) (λ n s', n = processed err buf ∧ grow E s s') s.
Proof.
  intros Ho Hp Hr Hx Hfit. unfold http_req_process. wp_simpl. apply (wp_req_get p r); [done|].
  rewrite Hx. wp_call (by apply (run_events_grow E)). intros [] s1 Hg1.
  wp_call (apply (req_modify_grow E); [by destruct Hg1|by eapply grow_owned|done]).
  intros [] s2 Hg2. assert (grow E s s2) as Hg by (by eapply grow_trans).
  destruct err; [by wp_simpl| |by wp_simpl].
  wp_call (apply (req_modify_grow E); [by destruct Hg|by eapply grow_owned|done]).
  intros [] s3 Hg3. wp_simpl. split; [done|]. by eapply grow_trans.
Qed.

(** ** The connection *)

Lemma close_connection_good E s : own E s → wp close_connection (λ _ s', good E s s') s.
Proof.
  intros Ho. unfold close_connection, uv_timer_stop.
  wp_call (by apply (set_clt_good E)). intros [] s1 Hg. wp_simpl. apply wp_clt.
  assert (own E s1) as Ho1 by (by eapply good_own).
  destruct (c_connected (rest s1)); wp_simpl.
  - done.
  - wp_call (by apply (set_clt_good E)). intros [] s2 Hg2. by eapply good_trans.
  - apply wp_emit, wp_set_clt. eapply good_trans; [done|]. by apply good_view.
  - apply wp_emit, wp_set_clt. eapply good_trans; [done|]. by apply good_view.
Qed.

Lemma fail_close_ok E code msg s : own E s → code < 0 → (length (requests s) <= fuel)%nat →
  wp (fail_active_request zenv fuel app code msg;; close_connection) (λ _ s', own E s') s.
Proof.
  intros Ho Hc Hf. wp_call (by apply (fail_active_request_ok E)). intros [] s1 (Ho1 & _).
  wp_call (by apply (close_connection_good E)). intros [] s2 Hg. by eapply good_own.
Qed.

(** Removing the active request from the client hands it to the handler. *)
Lemma own_take_active E s p : own E s → active s = Some p →
  own (p :: E) (s <| rest := (rest s) <| c_active := None |> |>).
Proof.
  intros Ho Ha. apply (own_perm E _ s); [done| |done].
  unfold owned at 2. rewrite Ha. cbn [option_list]. unfold owned, active, requests. cbn.
  apply Permutation_middle.
Qed.

Lemma finish_request_ok E p s : own E s → active s = Some p →
  wp (finish_request zenv p) (λ _ s', own E s') s.
Proof.
  intros Ho Ha. destruct (own_active E s p Ho Ha) as [r Hr]. unfold finish_request. wp_simpl.
  apply (wp_req_get p r); [done|]. wp_simpl. apply wp_set_clt.
  wp_call (apply (destroy_req_ok E), own_take_active; done). intros [] s1 [Ho1 _].
  case_if.
  - wp_call (by apply (set_clt_good E)). intros [] s2 Hg. by eapply good_own.
  - wp_call (by apply (close_connection_good E)). intros [] s2 Hg. by eapply good_own.
Qed.

(** A read the client can digest: an error, or data that llhttp accepts. *)
Definition read_ok `{!ZlibProgress} (nread : Z) (buf : option (list Z)) s : Prop :=
  (length (requests s) <= fuel)%nat ∧
  (0 < nread → ∃ b, buf = Some b ∧
    ∀ p r, active s = Some p → reqs s !! p = Some r →
    let '(evs, err, _) := llhttp_execute (r_parser r) (take (Z.to_nat nread) b) in
    Forall event_fits evs ∧ 0 ≤ processed err (take (Z.to_nat nread) b)).

Lemma http_read_cb_ok `{!ZlibProgress} nread buf s : own [] s → read_ok nread buf s →
  wp (http_read_cb zenv fuel app nread buf) (λ _ s', own [] s') s.
Proof.
  intros Ho [Hf Hread]. unfold http_read_cb. wp_simpl. apply wp_clt.
  destruct (Z.ltb_spec nread 0).
  { wp_simpl. apply (wp_mono _ (λ _ s1, own [] s1)).
    { unfold when. case_if; [|by wp_simpl].
      wp_call (by apply (fail_active_request_ok [])). by intros [] s1 []. }
    intros [] s1 Ho1. wp_call (by apply (close_connection_good [])). intros [] s2 Hg2.
    wp_call (apply (set_clt_good []); [by eapply good_own|done]). intros [] s3 Hg3. by eapply good_own. }
  fold (active s). destruct (active s) as [p|] eqn:Ha; [|by wp_simpl].
  destruct (own_active [] s p Ho Ha) as [r Hr].
  assert (p ∈ owned [] s) as Hp by (unfold owned; rewrite Ha; by left).
  wp_simpl. apply (wp_mono _ (λ freed s1, freed = false ∧ grow [] s s1)).
  { destruct (Z.ltb_spec 0 nread) as [Hpos|]; [|wp_simpl; by split; [|apply good_grow, good_refl]].
    destruct (Hread Hpos) as (b & -> & Hll). specialize (Hll p r eq_refl Hr).
    destruct (llhttp_execute (r_parser r) (take (Z.to_nat nread) b)) as [[evs err] parser] eqn:Hx.
    destruct Hll as [Hfit Hproc]. wp_simpl.
    wp_call (by eapply (http_req_process_grow [])). intros n s1 [-> Hg].
    destruct (Z.ltb_spec (processed err (take (Z.to_nat nread) b)) 0); [lia|]. by wp_simpl. }
  intros freed s1 [-> [Ho1 [Ha1 _]]]. wp_simpl. apply wp_clt. fold (active s1).
  rewrite Ha1, Ha. wp_simpl. rewrite Ha in Ha1. destruct (own_active [] s1 p Ho1 Ha1) as [r1 Hr1].
  apply (wp_req_get p r1); [done|]. wp_simpl. unfold when. case_if.
  - wp_call (by apply (finish_request_ok [])). intros [] s2 Ho2. by wp_simpl.
  - by wp_simpl.
Qed.

(** ** Connecting *)

Lemma on_tls_handshake_ok st err s : own [] s → (length (requests s) <= fuel)%nat →
  wp (on_tls_handshake zenv fuel app st err) (λ _ s', own [] s') s.
Proof.
  intros Ho Hf. destruct st; cbn [on_tls_handshake].
  1,2: wp_call (by apply (close_connection_good [])); intros [] s1 Hg; by eapply good_own.
  - wp_simpl. apply wp_set_clt, wp_set_clt. by apply (good_own [] s), good_view.
  - wp_call (by apply (close_connection_good [])). intros [] s1 Hg.
    wp_call (apply (fail_active_request_ok [])).
    + by eapply good_own.
    + apply uv_err_neg.
    + by rewrite (proj2 (proj1 (proj2 Hg))).
    + by intros [] s2 [].
Qed.

(** The client has what a TLS connection needs. *)
Definition tls_ok (c : tlsuv_http_t) : Prop :=
  is_Some (c_host c) ∧ (c_ssl c = true → (is_Some (c_tls c) ∨ is_Some default_tls) ∧
    (c_host_change c = true → is_Some (c_engine c))).

Lemma make_tls_engine_good E s : own E s → tls_ok (rest s) → c_ssl (rest s) = true →
  wp (make_tls_engine default_tls) (λ _ s', good E s s') s.
Proof.
  intros Ho [[h Hh] Htls] Hssl. destruct (Htls Hssl) as [Hctx Heng]. unfold make_tls_engine.
  wp_simpl. apply wp_clt. wp_simpl.
  apply (wp_mono _ (λ _ s1, good E s s1 ∧ c_host (rest s1) = Some h ∧ c_engine (rest s1) = c_engine (rest s))).
  { destruct (c_tls (rest s)); [wp_simpl; by split; [apply good_refl|]|].
    destruct Hctx as [[? [=]]|[t ->]]. wp_simpl. apply wp_set_clt. by split; [apply good_view|]. }
  intros [] s1 (Hg1 & Hh1 & He1). wp_simpl.
  apply (wp_mono _ (λ _ s2, good E s s2 ∧ c_host (rest s2) = Some h)).
  { unfold when. destruct (c_host_change (rest s)); [|by wp_simpl].
    destruct (Heng eq_refl) as [e ->]. wp_simpl. apply wp_emit, wp_set_clt.
    split; [|done]. eapply good_trans; [done|]. apply good_view; [by eapply good_own|done..]. }
  intros [] s2 (Hg2 & Hh2). wp_simpl. apply wp_clt.
  destruct (c_engine (rest s2)); [by wp_simpl|]. rewrite Hh2. wp_simpl. apply wp_emit, wp_set_clt.
  eapply good_trans; [done|]. apply good_view; [by eapply good_own|done..].
Qed.

Lemma make_links_good E s : own E s → tls_ok (rest s) →
  wp (make_links default_tls) (λ _ s', good E s s') s.
Proof.
  intros Ho Ht. unfold make_links. wp_simpl. apply wp_clt. wp_simpl.
  apply (wp_mono _ (λ _ s1, good E s s1)).
  { unfold when. destruct (c_ssl (rest s)) eqn:Hs; [|wp_simpl; by apply good_refl].
    wp_call (by apply (make_tls_engine_good E)). intros [] s1 Hg. apply wp_set_clt.
    eapply good_trans; [done|]. apply good_view; [by eapply good_own|done..]. }
  intros [] s1 Hg. wp_simpl. apply wp_emit. wp_simpl. apply wp_set_clt.
  eapply wp_mono with (P := λ _ s2, good E s1 s2).
  2: { intros [] s2 Hg2. by eapply good_trans. }
  assert (own E s1) by (by eapply good_own).
  unfold when. destruct (negb (c_ssl (rest s))); wp_simpl; [|by apply good_view].
  apply wp_set_clt, wp_set_clt. by apply good_view.
Qed.

Lemma src_connect_cb_ok st s : own [] s → (length (requests s) <= fuel)%nat → st ≤ 0 →
  (st = 0 → tls_ok (rest s)) →
  wp (src_connect_cb zenv fuel app default_tls st) (λ _ s', own [] s') s.
Proof.
  intros Ho Hf Hst Ht. unfold src_connect_cb. wp_simpl. apply wp_set_clt.
  set (s1 := s <| rest := _ |>). assert (good [] s s1) as Hg by (by apply good_view).
  assert (own [] s1) as Ho1 by (by eapply good_own).
  destruct (Z.eqb_spec st 0) as [->|Hne].
  - wp_simpl. apply wp_clt. destruct (c_connected (rest s1)); try (by wp_simpl).
    + wp_simpl. apply wp_emit. eapply good_own, good_view; [exact Ho1|done..].
    + wp_call (apply (make_links_good []); [done|by apply Ht]). intros [] s2 Hg2. by eapply good_own.
  - wp_simpl. apply wp_set_clt. wp_call (apply (fail_active_request_ok []); [|lia|done]).
    { eapply good_own, good_view; [exact Ho1|done..]. }
    intros [] s2 (Ho2 & _). apply wp_set_clt. eapply good_own, good_view; [exact Ho2|done..].
Qed.

Lemma src_connect_timeout_ok s : own [] s → (length (requests s) <= fuel)%nat →
  wp (src_connect_timeout zenv fuel app default_tls) (λ _ s', own [] s') s.
Proof.
  intros Ho Hf. pose proof uv_err_neg. unfold src_connect_timeout.
  wp_call (apply src_connect_cb_ok; [done|done|lia|lia]). intros [] s1 Ho1.
  apply wp_emit. eapply good_own, good_view; [exact Ho1|done..].
Qed.

Lemma write_done_grow w st s : own [] s → wp (write_done app w st) (λ _ s', own [] s') s.
Proof.
  intros Ho. destruct w as [|ch|]; cbn [write_done]; try (by wp_simpl).
  destruct (bc_cb ch); [|by wp_simpl]. wp_call (by apply (call_body_grow [])).
  by intros [] s1 [[] _].
Qed.

(** ** Sending *)

Definition chunk_small (ch : body_chunk_s) : Prop := bc_len ch < 2 ^ 28.

Lemma uv_link_write_good E bytes cb s : own E s → wp (uv_link_write bytes cb) (λ _ s', good E s s') s.
Proof. intros. unfold uv_link_write. wp_simpl. apply wp_emit, wp_set_clt. by apply good_view. Qed.

Lemma print_hex_length n k : 0 ≤ n < 16 ^ Z.of_nat (Datatypes.S k) →
  (length (print_hex n) <= Datatypes.S k)%nat.
Proof. intros. apply print_base_length; lia. Qed.

Lemma chunk_header_ok n : 0 ≤ n < 2 ^ 28 → chunk_header n = Ret (print_hex n ++ CRLF).
Proof.
  intros Hn. pose proof (print_hex_length n 6 ltac:(cbn; lia)) as Hl. unfold chunk_header.
  destruct (snprintf_app (replicate 10 0) [] (print_hex n ++ CRLF) 10) as (buf & Hs & Hb & [Ht _]).
  - split; [done|]. cbn; lia.
  - rewrite length_app. change (length CRLF) with 2%nat. lia.
  - rewrite length_app, length_replicate. change (length CRLF) with 2%nat. cbn [length]. lia.
  - change (Z.of_nat (length [])) with 0 in Hs. rewrite Hs. cbn [mbind outcome_bind].
    rewrite app_nil_l in Ht. rewrite Nat2Z.id, Ht.
    rewrite length_app. change (length CRLF) with 2%nat.
    destruct (Z.ltb_spec 10 (Z.of_nat (length (print_hex n) + 2))); [lia|done].
Qed.

Lemma send_chunk_grow E p b next s : own E s → p ∈ owned E s → chunk_small b →
  wp (send_chunk p b next) (λ _ s', grow E s s') s.
Proof.
  intros Ho Hp Hb. unfold send_chunk. wp_call (by apply (req_modify_grow E)). intros [] s1 Hg1.
  destruct (own_lookup E s1 p) as [r1 Hr1]; [by destruct Hg1|by eapply grow_owned|].
  wp_simpl. apply (wp_req_get p r1); [done|].
  destruct (r_req_chunked r1).
  - destruct (Z.ltb_spec 0 (bc_len b)).
    + rewrite chunk_header_ok by (unfold chunk_small in Hb; lia). wp_simpl.
      unfold liftO at 1, wp at 1. cbn beta iota.
      wp_call (apply (uv_link_write_good E); by destruct Hg1). intros [] s2 Hg2.
      wp_call (apply (uv_link_write_good E); by eapply good_own). intros [] s3 Hg3.
      wp_call (apply (uv_link_write_good E); by eapply good_own). intros [] s4 Hg4.
      eapply grow_trans; [done|]. apply good_grow. do 2 (eapply good_trans; [done|]). done.
    + wp_call (apply (uv_link_write_good E); by destruct Hg1). intros [] s2 Hg2.
      assert (grow E s s2) as Hg by (by eapply grow_trans, good_grow).
      wp_call (apply (req_modify_grow E); [by destruct Hg|by eapply grow_owned|done]).
      intros [] s3 Hg3. by eapply grow_trans.
  - wp_call (apply (uv_link_write_good E); by destruct Hg1). intros [] s2 Hg2.
    assert (grow E s s2) as Hg by (by eapply grow_trans, good_grow).
    unfold when. case_if; [|by wp_simpl].
    wp_call (apply (req_modify_grow E); [by destruct Hg|by eapply grow_owned|done]).
    intros [] s3 Hg3. by eapply grow_trans.
Qed.

Lemma send_chunks_grow E p l : ∀ s, own E s → p ∈ owned E s → Forall chunk_small l →
  wp (send_chunks p l) (λ _ s', grow E s s') s.
Proof.
  induction l as [|b l IH]; intros s Ho Hp Hl; cbn [send_chunks]; [by apply good_grow, good_refl|].
  split_Forall. wp_call (by apply (send_chunk_grow E)). intros [] s1 Hg1.
  wp_call (apply IH; [by destruct Hg1|by eapply grow_owned|done]). intros [] s2 Hg2.
  by eapply grow_trans.
Qed.

(** The request's head fits the buffer and its chunks the size line. *)
Definition sendable (prefix : option (list Z)) (r : tlsuv_http_req_s) : Prop :=
  Forall chunk_small (r_req_body r) ∧
  ∃ r', auto_content_length r = Ret r' ∧ Z.of_nat (length (request_text prefix r')) < 8196.

Lemma auto_content_length_same r r' : auto_content_length r = Ret r' →
  r_req_body r' = r_req_body r ∧ r_client r' = r_client r.
Proof. unfold auto_content_length. intros. repeat case_match; simplify_eq; done. Qed.

Lemma send_head_ok E p r s : own E s → p ∈ owned E s → reqs s !! p = Some r →
  sendable (c_prefix (rest s)) r →
  wp (send_head p) (λ _ s', grow E s s' ∧ ∃ r', reqs s' !! p = Some r' ∧ r_req_body r' = r_req_body r) s.
Proof.
  intros Ho Hp Hr (_ & r' & Hauto & Hlen). unfold send_head. wp_simpl. apply wp_clt. wp_simpl.
  apply (wp_req_get p r); [done|]. wp_simpl.
  destruct (http_req_write_ok (c_prefix (rest s)) r r' (replicate (Z.to_nat 8196) 0) Hauto)
    as (buf' & Hw & Hl & Ht); [rewrite length_replicate; lia|rewrite length_replicate; lia|].
  rewrite length_replicate, Z2Nat.id in Hw by lia. rewrite Hw. unfold liftO at 1, wp at 1. cbn beta iota.
  destruct (auto_content_length_same r r' Hauto) as [Hb Hc].
  set (s1 := s <| reqs := <[p := r']> (reqs s) |>).
  unfold req_put. wp_simpl. fold s1.
  assert (grow E s s1) as Hg1.
  { split; [|by apply calm_ext]. apply own_put; [done..|]. rewrite Hc. exact (own_client _ _ Ho p r Hr). }
  destruct (Z.ltb_spec 8196 (Z.of_nat (length (request_text (c_prefix (rest s)) r')))); [lia|].
  wp_simpl. unfold uv_link_write. wp_simpl. apply wp_emit. wp_simpl. apply wp_set_clt.
  set (s2 := s1 <| log := _ |> <| rest := _ |>).
  assert (good E s1 s2) as Hg2 by (apply good_view; [by destruct Hg1|done..]).
  assert (grow E s s2) as Hg by (eapply grow_trans; [exact Hg1|by apply good_grow]).
  apply (wp_req_modify p r'); [cbn; by rewrite lookup_insert_eq|].
  split; [|exists (r' <| r_state := headers_sent |>); split; [apply reqs_put|done]].
  eapply grow_trans; [exact Hg|]. split; [|by apply calm_ext].
  apply own_put; [by destruct Hg|by eapply grow_owned|]. cbn. rewrite Hc. exact (own_client _ _ Ho p r Hr).
Qed.

Lemma send_request_ok E p r s : own E s → p ∈ owned E s → reqs s !! p = Some r →
  sendable (c_prefix (rest s)) r →
  wp (when (state_val (r_state r) <? state_val headers_sent) (send_head p);;
      r ← req_get p;
      when (state_val (r_state r) <? state_val body_sent) (send_body p)) (λ _ s', grow E s s') s.
Proof.
  intros Ho Hp Hr Hs. wp_simpl.
  apply (wp_mono _ (λ _ s1, grow E s s1 ∧ ∃ r', reqs s1 !! p = Some r' ∧ r_req_body r' = r_req_body r)).
  { unfold when. case_if; [by apply send_head_ok|]. wp_simpl.
    split; [by apply good_grow, good_refl|]. by exists r. }
  intros [] s1 (Hg & r1 & Hr1 & Hb1). wp_simpl. apply (wp_req_get p r1); [done|].
  unfold when. case_if; [|by wp_simpl]. unfold send_body. wp_simpl.
  apply (wp_req_get p r1); [done|]. rewrite Hb1.
  wp_call (apply (send_chunks_grow E); [by destruct Hg|by eapply grow_owned|by destruct Hs]).
  intros [] s2 Hg2. by eapply grow_trans.
Qed.

Lemma start_connect_ok s : own [] s → (length (requests s) <= fuel)%nat → is_Some (c_host (rest s)) →
  (∀ l, src_connect_rc l ≤ 0) →
  wp (start_connect zenv fuel app src_connect_rc default_tls) (λ _ s', own [] s') s.
Proof.
  intros Ho Hf [h Hh] Hrc. unfold start_connect. wp_simpl. apply wp_clt. wp_simpl. apply wp_set_clt.
  set (s1 := s <| rest := _ |>). assert (good [] s s1) as Hg1 by (by apply good_view).
  wp_simpl. apply (wp_mono _ (λ _ s2, good [] s s2)).
  { unfold when. case_if; [|by wp_simpl]. unfold uv_timer_start. apply wp_set_clt.
    by apply good_view. }
  intros [] s2 Hg2. wp_simpl. rewrite Hh. wp_simpl. apply wp_emit. wp_simpl.
  set (s3 := s2 <| log := _ |>).
  assert (good [] s s3) as Hg3.
  { eapply good_trans; [done|]. apply good_view; [by eapply good_own|done..]. }
  unfold when. case_if; [|wp_simpl; by eapply good_own].
  apply src_connect_cb_ok; [by eapply good_own| |done|].
  - by rewrite (proj2 (proj1 (proj2 Hg3))).
  - intros Hr0. rewrite Hr0 in *. done.
Qed.

(** The request [process_requests] will work on. *)
Definition next_active s : option rid :=
  match active s with Some p => Some p | None => head (requests s) end.

Definition pick s : S :=
  match active s, requests s with
  | None, p :: q => s <| rest := (rest s) <| c_active := Some p |> <| c_requests := q |> |>
  | _, _ => s
  end.

Lemma pick_own s : own [] s → own [] (pick s) ∧ active (pick s) = next_active s ∧
  (length (requests (pick s)) <= length (requests s))%nat ∧ reqs (pick s) = reqs s ∧
  c_connected (rest (pick s)) = c_connected (rest s) ∧ c_prefix (rest (pick s)) = c_prefix (rest s) ∧
  c_host (rest (pick s)) = c_host (rest s).
Proof.
  intros Ho. unfold pick, next_active. destruct (active s) as [a|] eqn:Ha; [done|].
  destruct (requests s) as [|p q] eqn:Hq; [by rewrite Ha, Hq|]. split_and!; try done.
  - apply (own_view [] s); [done| |done]. unfold owned at 2. by rewrite Ha, Hq.
  - cbn. lia.
Qed.

Definition async_ok s : Prop :=
  (length (requests s) <= fuel)%nat ∧ is_Some (c_host (rest s)) ∧
  (c_connected (rest s) = Connected → ∀ p r, next_active s = Some p → reqs s !! p = Some r →
     sendable (c_prefix (rest s)) r).

Lemma process_requests_ok s : own [] s → async_ok s → (∀ l, src_connect_rc l ≤ 0) →
  wp (process_requests zenv fuel app src_connect_rc default_tls) (λ _ s', own [] s') s.
Proof.
  intros Ho (Hf & Hh & Hsend) Hrc. unfold process_requests. wp_simpl. apply wp_clt. wp_simpl.
  destruct (pick_own s Ho) as (Ho1 & Ha1 & Hq1 & Hr1 & Hc1 & Hp1 & Hh1).
  apply (wp_mono _ (λ _ s1, s1 = pick s)).
  { unfold pick, active, requests. destruct (c_active (rest s)), (c_requests (rest s)); done. }
  intros [] s1 ->. wp_simpl. apply wp_clt. fold (active (pick s)). rewrite Ha1.
  destruct (next_active s) as [p|] eqn:Hn.
  - rewrite Hc1. destruct (c_connected (rest s)) eqn:Hc; try (by wp_simpl).
    + apply start_connect_ok; [done|lia|by rewrite Hh1|done].
    + destruct (own_active [] (pick s) p Ho1 Ha1) as [r Hr]. wp_simpl.
      apply (wp_req_get p r); [done|].
      eapply wp_mono; [apply (send_request_ok [] p r); [done| |done|]|by intros [] s2 []].
      * unfold owned. rewrite Ha1. by left.
      * rewrite Hp1. apply (Hsend eq_refl p r); [done|]. by rewrite <-Hr1.
  - wp_simpl. apply (wp_mono _ (λ _ s2, good [] (pick s) s2)).
    { unfold when. case_if; [|wp_simpl; by apply good_refl]. apply wp_set_clt. by apply good_view. }
    intros [] s2 Hg. apply wp_set_clt. eapply good_own, good_view; [eapply good_own, Hg|done..].
Qed.

(** ** The API *)

Lemma new_request_ok method path cb ctx s : own [] s →
  wp (tlsuv_http_req method path cb ctx)
     (λ p s', own [] s' ∧ requests s' = requests s ++ [p] ∧ active s' = active s ∧ reqs s !! p = None) s.
Proof.
  intros [H1 H2 H3]. unfold tlsuv_http_req. wp_simpl. unfold req_put. wp_simpl. apply wp_set_clt.
  unfold uv_timer_stop, uv_ref_proc, uv_async_send. wp_simpl. apply wp_set_clt. wp_simpl.
  apply wp_set_clt. wp_simpl. apply wp_set_clt. wp_simpl.
  set (p := fresh (dom (reqs s))). assert (p ∉ dom (reqs s)) as Hp by apply is_fresh.
  set (r := http_req_init req_zero method path <| r_client := true |> <| r_resp_cb := _ |> <| r_data := _ |> <| r_req_headers := _ |>).
  split_and!; [|done|done|by apply not_elem_of_dom].
  split.
  - assert (owned [] s ++ [p] = option_list (active s) ++ requests s ++ [p]) as Eq.
    { unfold owned. by rewrite <-!app_assoc. }
    change (NoDup (option_list (active s) ++ requests s ++ [p])). rewrite <-Eq.
    apply NoDup_app. split_and!; [done| |apply NoDup_singleton].
    intros q Hq Hqp%list_elem_of_singleton. subst. by apply Hp, H2.
  - intros q. cbn. rewrite dom_insert_L, elem_of_union, elem_of_singleton, H2.
    unfold owned, active, requests. cbn. rewrite !elem_of_app, list_elem_of_singleton. tauto.
  - cbn. by apply map_Forall_insert_2.
Qed.

Lemma remove_rid_perm p q : p ∈ q → p :: remove_rid p q ≡ₚ q.
Proof.
  induction q as [|x q IH]; [by intros ?%not_elem_of_nil|]. cbn.
  destruct (Z.eqb_spec x p) as [->|Hne]; [done|]. intros [->|Hin]%elem_of_cons; [done|].
  rewrite <-(IH Hin) at 2. constructor.
Qed.

(** A request that can be cancelled: queued with a response callback, or active with
    its response headers received. *)
Definition cancel_ok p s : Prop :=
  (p ∈ requests s ∧ ∃ r, reqs s !! p = Some r ∧ is_Some (r_resp_cb r)) ∨
  ((p ∉ requests s) ∧ (active s = Some p → ∃ r, reqs s !! p = Some r ∧
     state_val headers_received ≤ state_val (r_state r))).

(** The common end of a cancellation, with the request in the handler's hands. *)
Definition cancel_tail (p : rid) (queued : bool) : M S Z :=
  set_resp_error p UV_ECANCELED (uv_strerror UV_ECANCELED);;
  clear_req_body app p UV_ECANCELED;;
  r ← req_get p;
  (if state_val (r_state r) <? state_val headers_received then
     cb ← from_opt NullDeref (r_resp_cb r);
     if queued then call_resp_cb app cb p else fail_with NullDeref
   else match rs_body_cb (r_resp r) with
        | Some cb => call_body_cb app cb p None UV_ECANCELED
        | None => mret tt
        end);;
  destroy_req zenv p;;
  mret 0.

Lemma cancel_tail_ok p r (queued : bool) s : own [p] s → reqs s !! p = Some r →
  (if queued then is_Some (r_resp_cb r) else state_val headers_received ≤ state_val (r_state r)) →
  wp (cancel_tail p queued) (λ rc s', rc = 0 ∧ own [] s' ∧ ext s s' ∧ p ∉ owned [] s') s.
Proof.
  intros Ho Hr Hq. pose proof uv_err_neg as Hneg. assert (p ∈ owned [p] s) as Hp by (by left).
  unfold cancel_tail. wp_call (by apply (set_resp_error_good [p])). intros [] s1 Hg1.
  wp_call (apply (clear_req_body_good [p]); [by eapply good_own|by left|tauto]). intros [] s2 Hg2.
  pose proof (good_trans _ _ _ _ Hg1 Hg2) as (Ho2 & Hc2 & Hk2).
  destruct (Hk2 p r Hr) as (r2 & Hr2 & Hpriv). unfold private in Hpriv. injection Hpriv as _ Hst Hcb.
  wp_simpl. apply (wp_req_get p r2); [done|]. wp_simpl.
  apply (wp_mono _ (λ _ s3, grow [p] s s3)).
  { destruct (Z.ltb_spec (state_val (r_state r2)) (state_val headers_received)).
    - destruct queued; [|rewrite Hst in *; lia]. rewrite Hcb. destruct Hq as [cb ->]. wp_simpl.
      unfold call_resp_cb. wp_simpl. apply (wp_req_get p r2); [done|].
      wp_call (by apply (call_app_own [p])). intros [] s3 (? & ? & _). split; [done|].
      etrans; [by apply calm_ext|done].
    - destruct (rs_body_cb (r_resp r2)); [|wp_simpl; by split; [|apply calm_ext]].
      wp_call (by apply (call_body_grow [p])). intros [] s3 [[] _]. split; [done|].
      etrans; [by apply calm_ext|done]. }
  intros [] s3 [Ho3 He3]. wp_call (by apply (destroy_req_ok [])). intros [] s4 [Ho4 Hc4].
  wp_simpl. split_and!; [done|done|etrans; [done|by apply calm_ext]|].
  destruct Hc4 as [Ha4 Hq4]. unfold owned at 1. rewrite Ha4, Hq4.
  pose proof (own_nodup _ _ Ho3) as Hnd. unfold owned in Hnd. by apply NoDup_cons in Hnd as [? _].
Qed.

Lemma req_cancel_ok p s : own [] s → cancel_ok p s →
  wp (tlsuv_http_req_cancel zenv app p) (λ rc s', own [] s' ∧
    ((rc = 0 ∧ p ∉ owned [] s') ∨ (rc = UV_EINVAL ∧ (p ∉ owned [] s) ∧ s' = s))) s.
Proof.
  intros Ho Hok. unfold tlsuv_http_req_cancel. wp_simpl. apply wp_clt.
  fold (requests s) (active s).
  assert (∀ a, active s = Some a → a ∉ requests s) as Hdisj.
  { intros a Ha Hin. pose proof (own_nodup _ _ Ho) as Hnd. unfold owned in Hnd.
    rewrite Ha in Hnd. cbn in Hnd. by apply NoDup_cons in Hnd as [? _]. }
  destruct (decide (p ∈ requests s)) as [Hin|Hout].
  - rewrite (bool_decide_eq_true_2 _ Hin). cbn [orb].
    rewrite (bool_decide_eq_false_2 (active s = Some p)) by (intros Ha; by apply (Hdisj p)).
    destruct Hok as [[_ (r & Hr & Hcb)]|[? _]]; [|done]. wp_simpl. apply wp_set_clt.
    eapply wp_mono; [apply (cancel_tail_ok p r true)|].
    + apply (own_perm [] _ s); [done| |done]. unfold owned, active, requests. cbn.
      rewrite Permutation_middle. apply Permutation_app_head. by apply remove_rid_perm.
    + done.
    + done.
    + intros rc s' (-> & ? & _ & ?). auto.
  - rewrite (bool_decide_eq_false_2 _ Hout). cbn [orb].
    destruct (decide (active s = Some p)) as [Ha|Ha].
    + rewrite (bool_decide_eq_true_2 _ Ha). destruct Hok as [[? _]|[_ Hact]]; [done|].
      destruct (Hact Ha) as (r & Hr & Hst). wp_simpl. apply wp_set_clt.
      wp_call (apply (close_connection_good [p]), own_take_active; done). intros [] s1 Hg.
      destruct Hg as (Ho1 & _ & Hk). destruct (Hk p r Hr) as (r1 & Hr1 & Hpriv).
      eapply wp_mono; [apply (cancel_tail_ok p r1 false); [done|done|]|].
      * unfold private in Hpriv. by injection Hpriv as _ -> _.
      * intros rc s' (-> & ? & _ & ?). auto.
    + rewrite (bool_decide_eq_false_2 _ Ha). wp_simpl. split; [done|]. right. split_and!; [done| |done].
      unfold owned. cbn. rewrite elem_of_app. intros [Hin|]; [|done].
      destruct (active s) as [a|]; [|by apply not_elem_of_nil in Hin].
      apply list_elem_of_singleton in Hin. congruence.
Qed.

(** API calls on one live request. *)
Lemma req_header_ok p name value s : own [] s → p ∈ owned [] s → is_Some value →
  wp (tlsuv_http_req_header p name value) (λ _ s', own [] s') s.
Proof.
  intros Ho Hp [v ->]. destruct (own_lookup [] s p Ho Hp) as [r Hr].
  pose proof (own_client _ _ Ho p r Hr) as Hc. unfold tlsuv_http_req_header. wp_simpl.
  apply (wp_req_get p r); [done|]. wp_simpl.
  apply (wp_mono _ (λ _ s1, s1 = s)); [case_if; by wp_simpl|]. intros te s1 ->.
  destruct (te && _); [by wp_simpl|]. destruct te, (strcaseeq name (bs "Content-Length"));
    cbn [r_req_chunked]; try (destruct (r_req_chunked r)); unfold req_put; wp_simpl;
    try done; by apply own_put.
Qed.

Lemma signal_client_good E p s : own E s → p ∈ owned E s → wp (signal_client p) (λ _ s', good E s s') s.
Proof.
  intros Ho Hp. destruct (own_lookup E s p Ho Hp) as [r Hr]. unfold signal_client. wp_simpl.
  apply (wp_req_get p r); [done|]. rewrite (own_client _ _ Ho p r Hr). by apply set_clt_good.
Qed.

Lemma add_chunk_good E p ch s : own E s → p ∈ owned E s →
  wp (append_chunk p ch;; signal_client p) (λ _ s', good E s s') s.
Proof.
  intros Ho Hp. wp_call (by apply (req_modify_good E)). intros [] s1 Hg.
  wp_call (apply (signal_client_good E); [by eapply good_own|by rewrite (good_owned E s)]).
  intros [] s2 Hg2. by eapply good_trans.
Qed.

Lemma req_end_ok p s : own [] s → p ∈ owned [] s → wp (tlsuv_http_req_end p) (λ _ s', own [] s') s.
Proof.
  intros Ho Hp. destruct (own_lookup [] s p Ho Hp) as [r Hr]. unfold tlsuv_http_req_end. wp_simpl.
  apply (wp_req_get p r); [done|]. unfold when. case_if; [|by wp_simpl].
  eapply wp_mono; [by apply (add_chunk_good [])|]. intros [] s1 Hg. by eapply good_own.
Qed.

Lemma req_data_ok p body cb s : own [] s → p ∈ owned [] s →
  wp (tlsuv_http_req_data p body cb) (λ _ s', own [] s') s.
Proof.
  intros Ho Hp. destruct (own_lookup [] s p Ho Hp) as [r Hr]. unfold tlsuv_http_req_data. wp_simpl.
  apply (wp_req_get p r); [done|]. case_if; [by wp_simpl|]. case_if; [by wp_simpl|].
  pose proof (add_chunk_good [] p (mkchunk body cb p) s Ho Hp) as Hw. rewrite wp_bind in Hw.
  wp_simpl. eapply wp_mono; [exact Hw|]. intros [] s1 Hw1. wp_simpl.
  eapply wp_mono; [exact Hw1|]. intros [] s2 Hg. by eapply good_own.
Qed.

Lemma set_url_ok url s : own [] s → cstr_ok url →
  wp (tlsuv_http_set_url url) (λ _ s', own [] s') s.
Proof.
  intros Ho Hu. unfold tlsuv_http_set_url. wp_simpl.
  destruct (parse_url_stages url Hu) as (rc & u & -> & _). unfold liftO at 1, wp at 1. cbn beta iota.
  case_if; [by wp_simpl|]. destruct (scheme u), (hostname u); try (by wp_simpl).
  destruct (scheme_port _ _ _) as [[dport tls]|]; [|by wp_simpl].
  wp_simpl. apply wp_set_clt. wp_simpl. eapply good_own, good_view; [exact Ho|..|done];
    unfold active, requests; cbn; unfold apply_url; destruct tls, (path u); cbn;
    destruct (c_host (rest s)); done.
Qed.

(** ** Closing *)

Lemma close_ok cb s : own [] s → (length (requests s) <= fuel)%nat →
  wp (fail_active_request zenv fuel app UV_ECANCELED (uv_strerror UV_ECANCELED);; close_connection)
     (λ _ s', is_Some (c_engine (rest s')) → is_Some (c_tls (rest s')))
     (s <| rest := (rest s) <| c_closing := true |> |>) →
  wp (tlsuv_http_close zenv fuel app cb) (λ rc s', rc = 0 ∧ own [] s') s.
Proof.
  intros Ho Hf Htls. unfold tlsuv_http_close. wp_simpl. apply wp_set_clt.
  set (s1 := s <| rest := _ |>) in *.
  assert (good [] s s1) as Hg1 by (by apply good_view).
  assert (own [] s1) as Ho1 by (by eapply good_own).
  pose proof uv_err_neg as Hneg.
  pose proof (fail_close_ok [] UV_ECANCELED (uv_strerror UV_ECANCELED) s1 Ho1 ltac:(tauto) Hf) as Hw.
  pose proof (wp_conj _ _ _ _ Hw Htls) as Hwc. rewrite wp_bind in Hwc. wp_simpl.
  eapply wp_mono; [exact Hwc|]. intros [] s2 Hw2. wp_simpl.
  eapply wp_mono; [exact Hw2|]. intros [] s3 [Ho3 Ht3]. wp_simpl. apply wp_clt. wp_simpl.
  apply (wp_mono _ (λ _ s4, own [] s4)).
  { destruct (c_engine (rest s3)) as [e|]; [|by wp_simpl]. destruct (Ht3 ltac:(done)) as [t ->].
    wp_simpl. apply wp_emit, wp_set_clt. eapply good_own, good_view; [exact Ho3|done..]. }
  intros [] s4 Ho4. wp_simpl. apply wp_set_clt. wp_simpl. split; [done|].
  eapply good_own, good_view; [exact Ho4|done..].
Qed.

Lemma free_queue_ok q : ∀ s, own [] s → requests s = q → active s = None →
  wp (free_queue zenv q) (λ _ s', own [] s' ∧ requests s' = [] ∧ active s' = None) s.
Proof.
  induction q as [|p q IH]; intros s Ho Hq Ha; cbn [free_queue]; [by wp_simpl|].
  wp_simpl. apply wp_set_clt. wp_call (apply (destroy_req_ok [])).
  - apply (own_perm [] _ s); [done| |done]. unfold owned at 2. rewrite Ha, Hq.
    unfold owned, active, requests. cbn. change (c_active (rest s)) with (active s). by rewrite Ha.
  - intros [] s1 [Ho1 [Ha1 Hq1]]. apply IH; [done|by rewrite Hq1|by rewrite Ha1].
Qed.

Lemma free_http_ok s : own [] s → wp (free_http zenv) (λ _ s', reqs s' = ∅ ∧ own [] s') s.
Proof.
  intros Ho. unfold free_http. wp_simpl. apply wp_set_clt. set (s1 := s <| rest := _ |>).
  assert (own [] s1) as Ho1 by (eapply good_own, good_view; [exact Ho|done..]).
  wp_simpl. apply wp_clt. wp_simpl. fold (active s1).
  apply (wp_mono _ (λ _ s2, own [] s2 ∧ active s2 = None)).
  { destruct (active s1) as [p|] eqn:Ha; [|by wp_simpl]. unfold destroy_req, http_req_free. wp_simpl.
    destruct (own_active [] s1 p Ho1 Ha) as [r Hr]. apply (wp_req_get p r); [done|].
    assert (um_free_inflater zenv (fst <$> r_inflater r) = Ret tt) as ->.
    { destruct (r_inflater r); cbn; [|done]. by rewrite Hz. }
    unfold liftO at 1. unfold wp at 1. cbn beta iota. apply (wp_req_dealloc p r); [done|].
    apply wp_set_clt. split; [|done]. exact (own_delete _ _ _ (own_take_active [] s1 p Ho1 Ha)). }
  intros [] s2 [Ho2 Ha2]. wp_simpl. apply wp_clt. fold (requests s2).
  wp_call (by apply free_queue_ok). intros [] s3 (Ho3 & Hq3 & Ha3). wp_simpl. apply wp_clt.
  assert (reqs s3 = ∅) as He.
  { apply dom_empty_inv_L, elem_of_equiv_empty_L. intros p Hp. apply (own_dom _ _ Ho3) in Hp.
    unfold owned in Hp. rewrite Ha3, Hq3 in Hp. by apply not_elem_of_nil in Hp. }
  unfold when. case_if; [|by wp_simpl]. wp_simpl. apply wp_emit, wp_set_clt.
  split; [done|]. eapply good_own, good_view; [exact Ho3|done..].
Qed.

Lemma on_clt_close_ok s : own [] s → wp (on_clt_close zenv app) (λ _ s', own [] s') s.
Proof.
  intros Ho. unfold on_clt_close. wp_call (by apply free_http_ok). intros [] s1 [_ Ho1].
  wp_simpl. apply wp_clt. destruct (c_close_cb (rest s1)); [|by wp_simpl].
  wp_call (by apply (call_app_own [])). by intros [] s2 [].
Qed.
End WithApp.
End Inv.
