(* ===== verification/HttpSafety.v ===== *)
(** * The HTTP client as a state machine

    [entry] lists the ways control enters the client: the API and the callbacks of
    libuv, the link chain and the source.  A run is any sequence of them.  The main
    theorem: from a fresh client, whatever the order of entries, every handler
    returns and ownership of the requests is kept. *)
From S2P Require Import Prelude CLib Url Headers Compression HttpReq TlsEngine Http HttpInv.
From stdpp Require Import base list gmap numbers strings.
From Stdlib Require Import ZArith Lia.
Open Scope Z_scope.

Inductive entry :=
  | EAsync                                     (* proc was signalled *)
  | ERead (nread : Z) (buf : option (list Z))  (* http_read_cb *)
  | EHandshake (st : tls_handshake_state) (err : list Z)
  | EConnect (st : Z)                          (* src_connect_cb *)
  | EConnTimeout | EIdleTimeout                (* conn_timer fired *)
  | ELinkClosed
  | EWriteDone (i : nat) (st : Z)              (* the i-th pending write *)
  | EReq (method path : list Z) (cb : option cbid) (ctx : Z)
  | EReqHeader (p : rid) (name : list Z) (value : option (list Z))
  | EReqData (p : rid) (body : list Z) (cb : option cbid)
  | EReqEnd (p : rid)
  | ECancel (p : rid)
  | ECancelAll
  | EHeader (name : list Z) (value : option (list Z))
  | ESetUrl (url : list Z)
  | ESetPrefix (prefix : list Z)
  | EConnectTimeout (millis : Z)
  | EIdleKeepalive (millis : Z)
  | ESetSsl (tls : option Z)
  | EClose (cb : option cbid)
  | ECltClosed.                                (* on_clt_close *)

Section Machine.
Context `{ZL : Zlib} `{LL : LLHttp} `{UV : UvErr} `{UVO : !UvErrOk} `{ZP : !ZlibProgress}.
Context (zenv : zlib_env) (fuel : nat).
Context (app : event → M (hstate tlsuv_http_t) unit).
Context (src_connect_rc : list event → Z) (default_tls : option Z).
Abbreviation S := (hstate tlsuv_http_t).
Implicit Types s : S.

Definition ignore {A} (m : M S A) : M S unit := m;; mret tt.

Definition exec (e : entry) : M S unit :=
  match e with
  | EAsync => set_clt (λ c, c <| c_proc_pending := false |>);;
              process_requests zenv fuel app src_connect_rc default_tls
  | ERead nread buf => http_read_cb zenv fuel app nread buf
  | EHandshake st err => on_tls_handshake zenv fuel app st err
  | EConnect st => src_connect_cb zenv fuel app default_tls st
  | EConnTimeout => set_clt (λ c, c <| c_timer := None |>);;
                    src_connect_timeout zenv fuel app default_tls
  | EIdleTimeout => set_clt (λ c, c <| c_timer := None |>);; idle_timeout
  | ELinkClosed => link_close_cb
  | EWriteDone i st =>
    c ← clt;
    match c_writes c !! i with
    | Some w => set_clt (λ c, c <| c_writes := delete i (c_writes c) |>);; write_done app w st
    | None => mret tt
    end
  | EReq method path cb ctx => ignore (tlsuv_http_req method path cb ctx)
  | EReqHeader p name value => ignore (tlsuv_http_req_header p name value)
  | EReqData p body cb => ignore (tlsuv_http_req_data p body cb)
  | EReqEnd p => tlsuv_http_req_end p
  | ECancel p => ignore (tlsuv_http_req_cancel zenv app p)
  | ECancelAll => ignore (tlsuv_http_cancel_all zenv fuel app)
  | EHeader name value => set_clt (tlsuv_http_header name value)
  | ESetUrl url => ignore (tlsuv_http_set_url url)
  | ESetPrefix prefix => tlsuv_http_set_path_prefix (Some prefix)
  | EConnectTimeout millis => ignore (tlsuv_http_connect_timeout millis)
  | EIdleKeepalive millis => ignore (tlsuv_http_idle_keepalive millis)
  | ESetSsl tls => tlsuv_http_set_ssl tls
  | EClose cb => ignore (tlsuv_http_close zenv fuel app cb)
  | ECltClosed => on_clt_close zenv app
  end.

(** When an entry may happen.  Timers fire when armed, the async callback runs when
    signalled.  Callers pass live requests.  The other conditions exclude what the
    client is known not to survive: response bytes llhttp rejects ([read_ok]), a
    request head larger than the buffer or a chunk of 2^28 bytes ([async_ok]), the
    cancellation of an active request before its response ([cancel_ok]), a TLS
    connection after a change of URL that found no engine to replace ([tls_ok]). *)
Definition enabled (e : entry) s : Prop :=
  match e with
  | EAsync => c_proc_pending (rest s) = true ∧ async_ok fuel s
  | ERead nread buf => read_ok fuel nread buf s
  | EHandshake _ _ => (length (requests s) <= fuel)%nat
  | EConnect st => (length (requests s) <= fuel)%nat ∧ st ≤ 0 ∧ (st = 0 → tls_ok default_tls (rest s))
  | EConnTimeout => (length (requests s) <= fuel)%nat ∧
                    ∃ ms, c_timer (rest s) = Some (src_connect_timeout_cb, ms)
  | EIdleTimeout => ∃ ms, c_timer (rest s) = Some (idle_timeout_cb, ms)
  | ELinkClosed => c_link (rest s) = LinkClosing
  | EWriteDone i st => is_Some (c_writes (rest s) !! i)
  | EReqHeader p _ value => p ∈ owned [] s ∧ is_Some value
  | EReqData p _ _ | EReqEnd p => p ∈ owned [] s
  | ECancel p => cancel_ok p s
  | ECancelAll => (length (requests s) <= fuel)%nat
  | ESetUrl url => cstr_ok url
  | EClose _ => (length (requests s) <= fuel)%nat ∧
      wp (fail_active_request zenv fuel app UV_ECANCELED (uv_strerror UV_ECANCELED);; close_connection)
         (λ _ s', is_Some (c_engine (rest s')) → is_Some (c_tls (rest s')))
         (s <| rest := (rest s) <| c_closing := true |> |>)
  | EReq _ _ _ _ | EHeader _ _ | ESetPrefix _ | EConnectTimeout _ | EIdleKeepalive _
  | ESetSsl _ | ECltClosed => True
  end.

Section Safe.
Context (Happ : app_contract app) (Hz : ∀ sy, sym_loaded zenv sy = true).
Context (Hrc : ∀ l, src_connect_rc l ≤ 0).

Lemma ignore_own {A} (m : M S A) s (Q : A → S → Prop) :
  wp m Q s → (∀ a s', Q a s' → own [] s') → wp (ignore m) (λ _ s', own [] s') s.
Proof. intros Hm HQ. unfold ignore. wp_call exact Hm. intros a s' Ha. by eapply HQ. Qed.

Lemma set_clt_own f s : own [] s → quiet f → wp (set_clt f) (λ _ s', own [] s') s.
Proof. intros. eapply wp_mono; [by apply (set_clt_good [])|]. intros [] s' Hg. by eapply good_own. Qed.

Lemma setter_own f s : own [] s → quiet f →
  wp (ignore (set_clt f;; mret 0)) (λ _ s', own [] s') s.
Proof. intros. unfold ignore. wp_call (by apply set_clt_own). by intros [] s' ?. Qed.

Lemma exec_safe e s : own [] s → enabled e s → wp (exec e) (λ _ s', own [] s') s.
Proof.
  intros Ho He. destruct e; cbn [exec enabled] in *.
  - destruct He as [_ He]. wp_simpl. apply wp_set_clt.
    apply process_requests_ok; [done|done| |exact He|done].
    eapply good_own, good_view; [exact Ho|done..].
  - by eapply http_read_cb_ok.
  - by apply on_tls_handshake_ok.
  - destruct He as (? & ? & ?). by apply src_connect_cb_ok.
  - destruct He as [? _]. wp_simpl. apply wp_set_clt. apply src_connect_timeout_ok; [done..| |done].
    eapply good_own, good_view; [exact Ho|done..].
  - wp_simpl. apply wp_set_clt. unfold idle_timeout.
    eapply wp_mono; [apply (close_connection_good []); eapply good_own, good_view; [exact Ho|done..]|].
    intros [] s' Hg. by eapply good_own.
  - unfold link_close_cb. wp_simpl. apply wp_set_clt. wp_simpl. apply wp_emit. apply wp_set_clt.
    eapply good_own, good_view; [exact Ho|done..].
  - wp_simpl. apply wp_clt. destruct (c_writes (rest s) !! i); [|by wp_simpl]. wp_simpl.
    apply wp_set_clt. apply write_done_grow; [done|]. eapply good_own, good_view; [exact Ho|done..].
  - eapply ignore_own; [by apply new_request_ok|]. by intros a s' [].
  - destruct He. eapply ignore_own; [by apply req_header_ok|done].
  - eapply ignore_own; [by apply req_data_ok|done].
  - by apply req_end_ok.
  - eapply ignore_own; [by apply req_cancel_ok|]. by intros a s' [].
  - pose proof uv_err_neg as Hneg.
    pose proof (fail_close_ok zenv fuel app Happ Hz [] UV_ECANCELED (uv_strerror UV_ECANCELED) s Ho
      ltac:(tauto) He) as Hw. rewrite wp_bind in Hw.
    unfold tlsuv_http_cancel_all, ignore. wp_simpl. eapply wp_mono; [exact Hw|].
    intros [] s1 Hw1. wp_simpl. eapply wp_mono; [exact Hw1|]. by intros [] s2 ?.
  - by apply set_clt_own.
  - eapply ignore_own; [by apply set_url_ok|done].
  - unfold tlsuv_http_set_path_prefix. wp_simpl. by apply set_clt_own.
  - by apply setter_own.
  - by apply setter_own.
  - by apply set_clt_own.
  - destruct He. eapply ignore_own; [by apply close_ok|]. by intros a s' [].
  - by apply on_clt_close_ok.
Qed.
End Safe.

(** A client that was just initialised: no requests. *)
Definition fresh_client s : Prop := reqs s = ∅ ∧ active s = None ∧ requests s = [].

Lemma fresh_own s : fresh_client s → own [] s.
Proof.
  intros (Hr & Ha & Hq). split; unfold owned; rewrite ?Ha, ?Hq, ?Hr.
  - apply NoDup_nil_2.
  - intros p. rewrite ?Hr, ?Ha, ?Hq, dom_empty_L. split; [by intros ?%elem_of_empty|by intros ?%not_elem_of_nil].
  - apply map_Forall_empty.
Qed.

(** States reached from a fresh client. *)
Inductive reachable : S → Prop :=
  | reach_init s : fresh_client s → reachable s
  | reach_step s e s' : reachable s → enabled e s → exec e s = Ret (tt, s') → reachable s'.

Lemma reachable_own s :
  app_contract app → (∀ sy, sym_loaded zenv sy = true) → (∀ l, src_connect_rc l ≤ 0) →
  reachable s → own [] s.
Proof.
  intros Happ Hz Hrc. induction 1 as [s Hs|s e s' _ IH He Hx]; [by apply fresh_own|].
  pose proof (exec_safe Happ Hz Hrc e s IH He) as Hw. unfold wp in Hw. by rewrite Hx in Hw.
Qed.


(** C2: No request is leaked, lost or owned twice: in every reachable state the
    requests on the heap are exactly the active one and the queued ones, without
    repetition. *)
Theorem requests_owned_once s :
  app_contract app → (∀ sy, sym_loaded zenv sy = true) → (∀ l, src_connect_rc l ≤ 0) →
  reachable s →
  NoDup (option_list (c_active (rest s)) ++ c_requests (rest s)) ∧
  ∀ p, is_Some (reqs s !! p) ↔ c_active (rest s) = Some p ∨ p ∈ c_requests (rest s).
Proof.
  intros Happ Hz Hrc Hs. destruct (reachable_own s Happ Hz Hrc Hs) as [Hn Hd _].
  split; [exact Hn|]. intros p. rewrite <-elem_of_dom, Hd. unfold owned, active, requests. cbn.
  rewrite elem_of_app. destruct (c_active (rest s)) as [a|]; cbn.
  - rewrite list_elem_of_singleton. assert (p = a ↔ Some a = Some p) by (split; congruence). tauto.
  - rewrite elem_of_nil. assert (None ≠ Some p) by done. tauto.
Qed.
End Machine.

(** ** A concrete client *)

#[local] Existing Instance ToyHttp.zlib.
#[local] Existing Instance ToyHttp.uv.
#[local] Existing Instance ToyHttp.parser.
#[local] Existing Instance UvLinux.codes_ok.
#[local] Existing Instance ToyZlib.toy_progress.

(** An application that only observes. *)
Definition observer `{Zlib} `{LLHttp} {X} (_ : event) : M (hstate X) unit := mret tt.

Lemma observer_contract `{Zlib} `{LLHttp} `{UvErr} : app_contract observer.
Proof. intros E ev s Ho. split_and!; done. Qed.

Definition clt_zero : tlsuv_http_t :=
  mkclt None [] None false false None None [] Disconnected false false 0 0 None [] None
        None false false false LinkDown [].

(** A client for an http URL, as [tlsuv_http_init] leaves it. *)
Definition toy_client : hstate tlsuv_http_t :=
  match tlsuv_http_init ToyZlib.env (bs "http://example.com:8080/api") (mkh ∅ [] clt_zero) with
  | Ret (_, s) => s
  | Fault _ => mkh ∅ [] clt_zero
  end.

Lemma toy_loaded sy : sym_loaded ToyZlib.env sy = true.
Proof. destruct sy; vm_compute; reflexivity. Qed.


Lemma requests_owned_once_witness :
  ∃ s1, exec ToyZlib.env 10 observer (λ _, 0) None (EReq (bs "GET") (bs "/x") (Some 3) 0) toy_client
        = Ret (tt, s1) ∧
    NoDup (option_list (c_active (rest s1)) ++ c_requests (rest s1)) ∧
    ∀ p, is_Some (reqs s1 !! p) ↔ c_active (rest s1) = Some p ∨ p ∈ c_requests (rest s1).
Proof.
  eexists. split; [vm_compute; reflexivity|].
  apply (requests_owned_once ToyZlib.env 10 observer (λ _, 0) None _
    observer_contract toy_loaded (λ _, Z.le_refl 0)).
  eapply (reach_step _ _ _ _ _ toy_client (EReq (bs "GET") (bs "/x") (Some 3) 0)).
  - apply reach_init. split; [reflexivity|split; reflexivity].
  - exact I.
  - vm_compute. reflexivity.
Defined.
