(* ===== verification/HttpBehaviour.v ===== *)
(** * What the HTTP client does on the wire and to its callers

    Bodies (chunked and plain), request framing headers, the end of a response,
    failure notification, URL changes; and the inputs the client does not survive. *)
From S2P Require Import Prelude CLib Url Headers Compression HttpReq TlsEngine Http HttpInv HttpSafety.
From stdpp Require Import base list gmap numbers strings.
From Stdlib Require Import ZArith Lia.
Open Scope Z_scope.

(** ** Chunked bodies *)

(** A server's reading of a chunked body (RFC 9112, without extensions and trailers). *)
Definition is_hex (c : Z) : bool := isdigit c || ((97 <=? c) && (c <=? 102)).
Fixpoint decode_chunked (fuel : nat) (s : list Z) : option (list Z) :=
  match fuel with
  | O => None
  | S fuel =>
    match span is_hex s with
    | (c :: hex, 13 :: 10 :: rest) =>
      let n := parse_base 16 (c :: hex) in
      if n =? 0 then
        match rest with [13; 10] => Some [] | _ => None end
      else
        match drop (Z.to_nat n) rest with
        | 13 :: 10 :: rest' =>
          (λ d, take (Z.to_nat n) rest ++ d) <$> decode_chunked fuel rest'
        | _ => None
        end
    | _ => None
    end
  end.

(** The writes of one chunk, and of a whole body. *)
Definition chunk_writes (b : body_chunk_s) : list (list Z) :=
  [print_hex (bc_len b) ++ CRLF; bc_chunk b; CRLF].
Definition last_chunk : list Z := bs "0" ++ CRLF ++ CRLF.

Lemma base_digit_hex c : base_digit 16 c → is_hex c = true.
Proof.
  intros (d & Hd & ->). unfold digit_char, is_hex, isdigit. destruct (Z.ltb_spec d 10); lia.
Qed.

Lemma span_hex n rest : 0 ≤ n → stops is_hex rest → span is_hex (print_hex n ++ rest) = (print_hex n, rest).
Proof.
  intros Hn Hr. apply span_app; [|done].
  eapply Forall_impl; [exact (print_base_chars 16 n ltac:(lia) Hn)|]. apply base_digit_hex.
Qed.

Lemma decode_chunk fuel b rest : bc_chunk b ≠ [] →
  decode_chunked (S fuel) (concat (chunk_writes b) ++ rest) =
  (λ d, bc_chunk b ++ d) <$> decode_chunked fuel rest.
Proof.
  intros Hne. unfold chunk_writes. cbn [concat]. rewrite app_nil_r, <-!app_assoc. cbn [decode_chunked].
  assert (0 < bc_len b) as Hpos by (unfold bc_len; destruct (bc_chunk b); [done|cbn; lia]).
  rewrite span_hex by (lia || done).
  pose proof (print_base_nonempty 16 (bc_len b)) as Hp. fold (print_hex (bc_len b)) in Hp.
  pose proof (parse_print 16 (bc_len b) ltac:(lia) ltac:(lia)) as Hv. fold (print_hex (bc_len b)) in Hv.
  destruct (print_hex (bc_len b)) as [|c hex]; [done|]. cbn [CRLF Datatypes.app]. rewrite Hv.
  destruct (Z.eqb_spec (bc_len b) 0); [lia|]. unfold bc_len. rewrite Nat2Z.id.
  rewrite drop_app_length, take_app_length. done.
Qed.

Lemma decode_last fuel : decode_chunked (S fuel) last_chunk = Some [].
Proof. done. Qed.

Lemma decode_body l : Forall (λ b, bc_chunk b ≠ []) l →
  decode_chunked (S (length l)) (concat (concat (map chunk_writes l)) ++ last_chunk) =
  Some (concat (map bc_chunk l)).
Proof.
  induction l as [|b l IH]; intros Hl; [done|]. split_Forall. cbn [map concat length].
  rewrite concat_app, <-app_assoc, decode_chunk, IH by done. done.
Qed.

Section Sending.
Context `{ZL : Zlib} `{LL : LLHttp}.
Abbreviation S := (hstate tlsuv_http_t).
Implicit Types s : S.

Lemma wp_uv_link_write bytes cb (Q : unit → S → Prop) s :
  wp (uv_link_write bytes cb) Q s ↔
  Q tt (s <| log := log s ++ [EvWrite bytes] |>
          <| rest := (rest s) <| c_writes := c_writes (rest s) ++ [cb] |> |>).
Proof. done. Qed.

(** [p] is [r] and [ws] was written since [l]. *)
Definition wrote_since (p : rid) (r : tlsuv_http_req_s) (l : list event) (ws : list (list Z)) s : Prop :=
  reqs s !! p = Some r ∧ log s = l ++ map EvWrite ws.

Lemma send_chunk_chunked p r b next l ws s :
  wrote_since p r l ws s → r_req_chunked r = true → bc_chunk b ≠ [] → chunk_small b →
  wp (send_chunk p b next) (λ _, wrote_since p
    (r <| r_req_body := next |> <| r_body_sent_size := u64 (r_body_sent_size r + bc_len b) |>)
    l (ws ++ chunk_writes b)) s.
Proof.
  intros [Hr Hl] Hc Hne Hsm. unfold send_chunk. wp_simpl. apply (wp_req_modify p r); [done|].
  wp_simpl. eapply wp_req_get; [apply reqs_put|]. cbn [r_req_chunked update_with]. rewrite Hc.
  assert (0 < bc_len b) as Hpos by (unfold bc_len; destruct (bc_chunk b); [done|cbn; lia]).
  destruct (Z.ltb_spec 0 (bc_len b)); [|lia].
  rewrite chunk_header_ok by (unfold chunk_small in Hsm; lia). wp_simpl.
  unfold liftO at 1, wp at 1. cbn beta iota. wp_simpl. apply wp_uv_link_write. wp_simpl.
  apply wp_uv_link_write, wp_uv_link_write. split; [apply reqs_put|].
  cbn. rewrite Hl, <-!app_assoc, map_app. done.
Qed.

Lemma send_chunks_chunked p last l : ∀ r lg ws s,
  wrote_since p r lg ws s → r_req_chunked r = true →
  Forall (λ b, bc_chunk b ≠ []) l → Forall chunk_small l → bc_chunk last = [] →
  wp (send_chunks p (l ++ [last])) (λ _ s', ∃ r',
     wrote_since p r' lg (ws ++ concat (map chunk_writes l) ++ [last_chunk]) s' ∧
     r_req_body r' = [] ∧ r_state r' = body_sent) s.
Proof.
  induction l as [|b l IH]; intros r lg ws s Hw Hc Hne Hsm Hlast; cbn [Datatypes.app send_chunks].
  - destruct Hw as [Hr Hl]. wp_simpl. unfold send_chunk. wp_simpl. apply (wp_req_modify p r); [done|].
    wp_simpl. eapply wp_req_get; [apply reqs_put|]. cbn [r_req_chunked update_with]. rewrite Hc.
    assert (bc_len last = 0) as -> by (unfold bc_len; by rewrite Hlast).
    change (0 <? 0) with false. wp_simpl. apply wp_uv_link_write.
    eapply wp_req_modify; [apply reqs_put|]. wp_simpl.
    eexists. split; [split; [apply reqs_put|]|done].
    cbn. rewrite Hl, <-app_assoc, map_app. done.
  - split_Forall. wp_simpl. eapply wp_mono; [by apply (send_chunk_chunked p r b (l ++ [last]) lg ws)|].
    intros [] s1 Hw1. cbn beta. eapply wp_mono; [by eapply IH|].
    intros [] s2 (r' & Hw2 & ?). exists r'. split; [|done]. cbn [map concat].
    by rewrite <-!app_assoc in Hw2 |- *.
Qed.

(** *** Plain bodies *)

Fixpoint sum_len (l : list body_chunk_s) : Z :=
  match l with [] => 0 | b :: l => bc_len b + sum_len l end.
Lemma sum_len_total l : sum_len l = body_total l.
Proof. induction l; cbn; congruence. Qed.

Lemma send_chunks_writes p l : ∀ r lg ws s,
  wrote_since p r lg ws s → r_req_chunked r = false →
  wp (send_chunks p l) (λ _ s', ∃ r', wrote_since p r' lg (ws ++ map bc_chunk l) s') s.
Proof.
  induction l as [|b l IH]; intros r lg ws s Hw Hc; cbn [send_chunks map].
  { wp_simpl. exists r. by rewrite app_nil_r. }
  destruct Hw as [Hr Hl]. wp_simpl. unfold send_chunk. wp_simpl. apply (wp_req_modify p r); [done|].
  wp_simpl. eapply wp_req_get; [apply reqs_put|]. cbn [r_req_chunked update_with]. rewrite Hc.
  wp_simpl. apply wp_uv_link_write. unfold when.
  match goal with |- context [if ?b then _ else _] => destruct b end.
  - eapply wp_req_modify; [apply reqs_put|].
    eapply wp_mono; [eapply (IH _ lg (ws ++ [bc_chunk b])); [split; [apply reqs_put|]|done]|].
    + cbn. rewrite Hl, <-app_assoc, map_app. done.
    + intros [] s' (r' & Hw'). exists r'. by rewrite <-app_assoc in Hw'.
  - wp_simpl. eapply wp_mono; [eapply (IH _ lg (ws ++ [bc_chunk b])); [split; [apply reqs_put|]|done]|].
    + cbn. rewrite Hl, <-app_assoc, map_app. done.
    + intros [] s' (r' & Hw'). exists r'. by rewrite <-app_assoc in Hw'.
Qed.

(** The state after the chunks: [body_sent] once the announced size is reached. *)
Lemma send_chunks_plain p l : ∀ r lg ws s,
  wrote_since p r lg ws s → r_req_chunked r = false → r_state r = headers_sent →
  0 ≤ r_body_sent_size r → 0 ≤ r_req_body_size r < 18446744073709551616 →
  r_body_sent_size r + sum_len l < 18446744073709551616 → Forall (λ b, bc_chunk b ≠ []) l →
  r_body_sent_size r < r_req_body_size r →
  wp (send_chunks p l) (λ _ s', ∃ r', wrote_since p r' lg (ws ++ map bc_chunk l) s' ∧
     (r_body_sent_size r + sum_len l ≤ r_req_body_size r →
      r_state r' = (if r_body_sent_size r + sum_len l =? r_req_body_size r then body_sent else headers_sent))) s.
Proof.
  induction l as [|b l IH]; intros r lg ws s Hw Hc Hst H0 Hsz Hsum Hne Hlt; cbn [send_chunks map sum_len] in *.
  { wp_simpl. exists r. rewrite app_nil_r. split; [done|]. rewrite Z.add_0_r.
    destruct (Z.eqb_spec (r_body_sent_size r) (r_req_body_size r)); [lia|done]. }
  split_Forall. assert (0 < bc_len b) as Hpos by (unfold bc_len; destruct (bc_chunk b); [done|cbn; lia]).
  assert (0 ≤ sum_len l) as Hl0 by (rewrite sum_len_total; apply body_total_nonneg).
  destruct Hw as [Hr Hl]. wp_simpl. unfold send_chunk. wp_simpl. apply (wp_req_modify p r); [done|].
  wp_simpl. eapply wp_req_get; [apply reqs_put|]. cbn [r_req_chunked update_with]. rewrite Hc.
  wp_simpl. apply wp_uv_link_write. cbn [r_req_body_size r_body_sent_size update_with].
  rewrite !u64_small by lia. unfold when.
  set (r1 := r <| r_req_body := l |> <| r_body_sent_size := r_body_sent_size r + bc_len b |>).
  destruct (Z.leb_spec (r_req_body_size r) (r_body_sent_size r + bc_len b)) as [Hge|Hlt'].
  - eapply wp_req_modify; [apply reqs_put|].
    destruct l as [|b' l].
    + wp_simpl. eexists. split; [split; [apply reqs_put|]|].
      * cbn. rewrite Hl, <-app_assoc, map_app. done.
      * cbn. intros Hle. destruct (Z.eqb_spec (r_body_sent_size r + (bc_len b + 0)) (r_req_body_size r)); [done|lia].
    + split_Forall. assert (0 < bc_len b') by (unfold bc_len; destruct (bc_chunk b'); [done|cbn; lia]).
      cbn [sum_len] in *. assert (0 ≤ sum_len l) by (rewrite sum_len_total; apply body_total_nonneg).
      apply (wp_mono _ (λ _ s', ∃ r', wrote_since p r' lg ((ws ++ [bc_chunk b]) ++ map bc_chunk (b' :: l)) s')).
      * apply (send_chunks_writes p (b' :: l) (r1 <| r_state := body_sent |>)); [|done].
        split; [apply reqs_put|]. cbn. rewrite Hl, <-app_assoc, map_app. done.
      * intros [] s' (r' & Hw'). exists r'. split; [by rewrite <-app_assoc in Hw'|]. lia.
  - wp_simpl. eapply wp_mono; [apply (IH r1 lg (ws ++ [bc_chunk b])); try done; try (cbn; lia)|].
    + split; [apply reqs_put|]. cbn. rewrite Hl, <-app_assoc, map_app. done.
    + intros [] s' (r' & Hw' & Hst'). exists r'. split; [by rewrite <-app_assoc in Hw'|].
      intros Hle. rewrite Hst' by (cbn; lia). cbn. by rewrite Z.add_assoc.
Qed.
End Sending.

Section BodyTheorems.
Context `{ZL : Zlib} `{LL : LLHttp}.
Abbreviation S := (hstate tlsuv_http_t).
Implicit Types s : S.

(** The bytes of the writes in a log. *)
Definition written (l : list event) : list Z :=
  concat (omap (λ e, match e with EvWrite b => Some b | _ => None end) l).

Lemma written_app l l' : written (l ++ l') = written l ++ written l'.
Proof. unfold written. by rewrite omap_app, concat_app. Qed.
Lemma written_writes ws : written (map EvWrite ws) = concat ws.
Proof. unfold written. induction ws as [|w ws IH]; cbn; congruence. Qed.

(** C5: a chunked body arrives intact.  When the application has queued non-empty
    chunks (below 2^28 bytes) and ended the body, [send_body] writes bytes that a
    server decodes to exactly the data, in order, and the request is [body_sent]. *)
Theorem chunked_body_roundtrip p r body s :
  reqs s !! p = Some r → r_req_chunked r = true →
  r_req_body r = body ++ [mkchunk [] None p] →
  Forall (λ b, bc_chunk b ≠ []) body → Forall chunk_small body →
  ∃ s' r', send_body p s = Ret (tt, s') ∧ reqs s' !! p = Some r' ∧
    r_state r' = body_sent ∧ r_req_body r' = [] ∧
    ∃ wire, written (log s') = written (log s) ++ wire ∧
      decode_chunked (Datatypes.S (length body)) wire = Some (concat (map bc_chunk body)).
Proof.
  intros Hr Hc Hb Hne Hsm.
  assert (wp (send_body p) (λ _ s', ∃ r', wrote_since p r' (log s)
      ([] ++ concat (map chunk_writes body) ++ [last_chunk]) s' ∧
      r_req_body r' = [] ∧ r_state r' = body_sent) s) as Hw.
  { unfold send_body. wp_simpl. apply (wp_req_get p r); [done|]. rewrite Hb.
    apply (send_chunks_chunked p _ body r (log s) []); try done. split; [done|]. by rewrite app_nil_r. }
  apply wp_run in Hw as ([] & s' & Hrun & r' & [Hr' Hl'] & Hb' & Hst').
  exists s', r'. split_and!; [done..|].
  exists (concat (concat (map chunk_writes body)) ++ last_chunk). split; [|by apply decode_body].
  rewrite Hl', written_app, written_writes. cbn [Datatypes.app]. rewrite concat_app. cbn.
  done.
Qed.

(** a body with a Content-Length is written byte for byte, and the request
    leaves the sending state exactly when the announced number of bytes was sent. *)
Theorem plain_body_written p r s :
  reqs s !! p = Some r → r_req_chunked r = false → r_state r = headers_sent →
  r_body_sent_size r = 0 → 0 < r_req_body_size r < 9223372036854775808 →
  Forall (λ b, bc_chunk b ≠ []) (r_req_body r) → sum_len (r_req_body r) ≤ r_req_body_size r →
  ∃ s' r', send_body p s = Ret (tt, s') ∧ reqs s' !! p = Some r' ∧
    written (log s') = written (log s) ++ concat (map bc_chunk (r_req_body r)) ∧
    r_state r' = (if sum_len (r_req_body r) =? r_req_body_size r then body_sent else headers_sent).
Proof.
  intros Hr Hc Hst H0 Hsz Hne Hsum.
  assert (wp (send_body p) (λ _ s', ∃ r', wrote_since p r' (log s) ([] ++ map bc_chunk (r_req_body r)) s' ∧
    r_state r' = (if sum_len (r_req_body r) =? r_req_body_size r then body_sent else headers_sent)) s) as Hw.
  { unfold send_body. wp_simpl. apply (wp_req_get p r); [done|].
    eapply wp_mono; [apply (send_chunks_plain p (r_req_body r) r (log s) []); try done; try lia|].
    - split; [done|]. by rewrite app_nil_r.
    - intros [] s' (r' & Hw & Hs'). exists r'. split; [done|]. rewrite Hs' by lia. by rewrite H0. }
  apply wp_run in Hw as ([] & s' & Hrun & r' & [Hr' Hl'] & Hst').
  exists s', r'. split_and!; [done..| |done]. by rewrite Hl', written_app, written_writes.
Qed.
End BodyTheorems.

(** ** Framing headers *)

Section Framing.
Context `{ZL : Zlib} `{LL : LLHttp} `{UV : UvErr}.
Abbreviation S := (hstate tlsuv_http_t).

(** A request never claims both framings. *)
Definition framing_ok (r : tlsuv_http_req_s) : Prop :=
  r_req_chunked r = true → r_req_body_size r = -1.

Fixpoint set_headers (p : rid) (l : list (list Z * list Z)) : M S unit :=
  match l with
  | [] => mret tt
  | (n, v) :: l => tlsuv_http_req_header p n (Some v);; set_headers p l
  end.

Lemma req_header_framing p n v r s : reqs s !! p = Some r → framing_ok r →
  wp (tlsuv_http_req_header p n (Some v)) (λ rc s', ∃ r', reqs s' !! p = Some r' ∧ framing_ok r' ∧
    (rc = 0 ∨ (rc = UV_EINVAL ∧ s' = s))) s.
Proof.
  intros Hr Hf. unfold tlsuv_http_req_header. wp_simpl. apply (wp_req_get p r); [done|]. wp_simpl.
  apply (wp_mono _ (λ te s1, s1 = s ∧ te = strcaseeq n (bs "transfer-encoding") && streq v (bs "chunked"))).
  { destruct (strcaseeq n (bs "transfer-encoding")); by wp_simpl. }
  intros te s1 [-> Hte]. destruct te; cbn [andb].
  - destruct (Z.eqb_spec (r_req_body_size r) (-1)) as [Hb|Hb]; cbn [negb]; wp_simpl.
    2: { exists r. auto. }
    destruct (strcaseeq n (bs "Content-Length")) eqn:Hn; cbn [r_req_chunked update_with].
    + wp_simpl. exists r. auto.
    + unfold req_put. wp_simpl. eexists. split; [apply reqs_put|]. split; [intros _; exact Hb|by left].
  - destruct (strcaseeq n (bs "Content-Length")).
    + destruct (r_req_chunked r) eqn:Hc; [wp_simpl; exists r; auto|].
      unfold req_put. wp_simpl. eexists. split; [apply reqs_put|]. split; [done|by left].
    + unfold req_put. wp_simpl. eexists. split; [apply reqs_put|]. split; [done|by left].
Qed.

(** Request framing is unambiguous.  Whatever sequence of headers an application
    sets on a new request, the request is never both chunked and of announced length:
    the conflicting call is refused with [UV_EINVAL] and changes nothing. *)
Theorem framing_exclusive p r l s :
  reqs s !! p = Some r → framing_ok r →
  ∃ s' r', set_headers p l s = Ret (tt, s') ∧ reqs s' !! p = Some r' ∧ framing_ok r'.
Proof.
  intros Hr Hf. assert (wp (set_headers p l) (λ _ s', ∃ r', reqs s' !! p = Some r' ∧ framing_ok r') s) as Hw.
  { revert r s Hr Hf. induction l as [|[n v] l IH]; intros r s Hr Hf; cbn [set_headers].
    - wp_simpl. by exists r.
    - wp_call (by apply (req_header_framing p n v r)). intros rc s' (r' & ? & ? & _). by eapply IH. }
  apply wp_run in Hw as ([] & s' & Hrun & r' & ? & ?). by exists s', r'.
Qed.
End Framing.

(** ** Failure notification *)

Section Failing.
Context `{ZL : Zlib} `{LL : LLHttp} `{UV : UvErr}.
Context (zenv : zlib_env) (Hz : ∀ sy, sym_loaded zenv sy = true) (fuel : nat).
Abbreviation S := (hstate tlsuv_http_t).
Implicit Types s : S.

(** What the owner of a request is told when it fails: its response callback, then
    one call per body chunk that was not sent. *)
Definition chunk_log (code : Z) (p : rid) (l : list body_chunk_s) : list event :=
  omap (λ ch, (λ cb, EvBody cb p (Some (bc_chunk ch)) code) <$> bc_cb ch) l.
Definition fail_log (code : Z) (p : rid) (r : tlsuv_http_req_s) : list event :=
  match r_resp_cb r with Some cb => [EvResp cb p code] | None => [] end ++
  chunk_log code p (r_req_body r).

(** The parts of the client a failure does not touch. *)
Definition core (c : tlsuv_http_t) := (c_active c, c_requests c, c_connected c, c_timer c).

Lemma wp_observe ev (Q : unit → S → Prop) s :
  wp (call_app observer ev) Q s ↔ Q tt (s <| log := log s ++ [ev] |>).
Proof. done. Qed.

Lemma run_chunk_cbs_exact p l code : ∀ s,
  wp (run_chunk_cbs observer p l code)
     (λ _ s', s' = s <| log := log s ++ chunk_log code p l |>) s.
Proof.
  induction l as [|ch l IH]; intros s; cbn [run_chunk_cbs].
  { wp_simpl. cbn. rewrite app_nil_r. by destruct s. }
  wp_simpl. unfold chunk_log. cbn [omap list_omap]. destruct (bc_cb ch) as [cb|]; cbn [fmap option_fmap option_map].
  - unfold call_body_cb. apply wp_observe. eapply wp_mono; [apply IH|]. intros [] s' ->.
    destruct s. cbn. by rewrite <-app_assoc.
  - wp_simpl. apply IH.
Qed.

Lemma destroy_req_exact p r s : reqs s !! p = Some r →
  wp (destroy_req zenv p) (λ _ s', s' = s <| reqs := delete p (reqs s) |>) s.
Proof.
  intros Hr. unfold destroy_req, http_req_free. wp_simpl. apply (wp_req_get p r); [done|].
  assert (um_free_inflater zenv (fst <$> r_inflater r) = Ret tt) as ->.
  { destruct (r_inflater r); cbn; [|done]. by rewrite Hz. }
  unfold liftO at 1. unfold wp at 1. cbn beta iota. by apply (wp_req_dealloc p r).
Qed.

(** Clearing the body and destroying the request. *)
Lemma bury_exact p r code s : reqs s !! p = Some r →
  wp (clear_req_body observer p code;; destroy_req zenv p) (λ _ s',
    log s' = log s ++ chunk_log code p (r_req_body r) ∧ reqs s' = delete p (reqs s) ∧ rest s' = rest s) s.
Proof.
  intros Hr. wp_simpl. unfold clear_req_body. wp_simpl. apply (wp_req_get p r); [done|]. wp_simpl.
  eapply wp_mono; [apply run_chunk_cbs_exact|]. intros [] s1 ->. wp_simpl.
  eapply wp_req_modify; [exact Hr|].
  eapply wp_mono; [eapply destroy_req_exact; apply reqs_put|]. intros [] s2 ->. cbn.
  split; [done|]. by rewrite delete_insert_eq.
Qed.

Lemma notify_exact p r cb code msg s : reqs s !! p = Some r →
  wp (set_resp_error p code msg;; call_resp_cb observer cb p) (λ _ s', ∃ r',
    log s' = log s ++ [EvResp cb p code] ∧ reqs s' = <[p := r']> (reqs s) ∧
    r_req_body r' = r_req_body r ∧ rest s' = rest s) s.
Proof.
  intros Hr. wp_simpl. unfold set_resp_error, set_resp. apply (wp_req_modify p r); [done|].
  unfold call_resp_cb. wp_simpl. eapply wp_req_get; [apply reqs_put|]. apply wp_observe. cbn.
  eexists. split_and!; [done|done|done|done].
Qed.

Lemma fail_queued_exact p r code msg s : reqs s !! p = Some r →
  wp (fail_queued zenv observer p code msg) (λ _ s',
    log s' = log s ++ fail_log code p r ∧ reqs s' = delete p (reqs s) ∧
    core (rest s') = core (rest s)) s.
Proof.
  intros Hr. unfold fail_queued, fail_log. wp_simpl. apply (wp_req_get p r); [done|]. wp_simpl.
  destruct (r_resp_cb r) as [cb|].
  - pose proof (notify_exact p r cb code msg s Hr) as Hn. rewrite wp_bind in Hn. wp_simpl.
    eapply wp_mono; [exact Hn|]. intros [] s1 Hn1. wp_simpl. eapply wp_mono; [exact Hn1|].
    intros [] s2 (r' & Hl2 & Hr2 & Hb2 & Hc2). apply wp_set_clt.
    eapply wp_mono; [apply (bury_exact p r')|].
    + cbn. by rewrite Hr2, lookup_insert_eq.
    + intros [] s3 (Hl3 & Hr3 & Hc3). rewrite Hl3, Hr3, Hc3. cbn. rewrite Hl2, Hr2, Hb2, Hc2, <-app_assoc.
      split; [done|]. by rewrite delete_insert_eq.
  - wp_simpl. rewrite <-wp_bind. eapply wp_mono; [by apply bury_exact|].
    intros [] s1 (-> & -> & ->). done.
Qed.

Fixpoint queue_log (code : Z) (m : gmap Z tlsuv_http_req_s) (q : list rid) : list event :=
  match q with
  | [] => []
  | p :: q => match m !! p with Some r => fail_log code p r | None => [] end ++ queue_log code m q
  end.

Lemma queue_log_delete code m p q : p ∉ q → queue_log code (delete p m) q = queue_log code m q.
Proof.
  induction q as [|x q IH]; [done|]. intros [Hne Hni]%not_elem_of_cons. cbn.
  rewrite lookup_delete_ne by congruence. by rewrite IH.
Qed.

Lemma queue_log_app code m q q' : queue_log code m (q ++ q') = queue_log code m q ++ queue_log code m q'.
Proof. induction q as [|x q IH]; cbn; [done|]. by rewrite IH, app_assoc. Qed.
Lemma queue_log_ext code m m' q : (∀ p, p ∈ q → m !! p = m' !! p) → queue_log code m q = queue_log code m' q.
Proof.
  induction q as [|x q IH]; intros Hm; [done|]. cbn. rewrite (Hm x ltac:(by left)).
  rewrite IH; [done|]. intros p Hp. apply Hm. by right.
Qed.

Definition queued_live s : Prop := NoDup (c_requests (rest s)) ∧
  ∀ p, p ∈ c_requests (rest s) → is_Some (reqs s !! p).

Lemma fail_queue_exact code msg n : ∀ s, queued_live s → (length (c_requests (rest s)) <= n)%nat →
  wp (fail_queue zenv observer n code msg) (λ _ s',
    log s' = log s ++ queue_log code (reqs s) (c_requests (rest s)) ∧
    (∀ p, reqs s' !! p = if decide (p ∈ c_requests (rest s)) then None else reqs s !! p) ∧
    c_requests (rest s') = [] ∧ c_active (rest s') = c_active (rest s) ∧
    c_connected (rest s') = c_connected (rest s)) s.
Proof.
  induction n as [|n IH]; intros s [Hnd Hlive] Hn; cbn [fail_queue]; wp_simpl; apply wp_clt;
    destruct (c_requests (rest s)) as [|p q] eqn:Hq; try (cbn in Hn; lia);
    try (wp_simpl; cbn; rewrite app_nil_r; split_and!; try done;
         intros x; by rewrite decide_False by apply not_elem_of_nil).
  wp_simpl. apply wp_set_clt. apply NoDup_cons in Hnd as [Hni Hnd].
  destruct (Hlive p ltac:(by left)) as [r Hr]. set (s1 := s <| rest := _ |>).
  wp_simpl. eapply wp_mono; [by apply (fail_queued_exact p r)|]. intros [] s2 (Hl2 & Hr2 & Hc2).
  unfold core in Hc2. injection Hc2 as Ha2 Hq2 Hcon2 _. change (c_requests (rest s1)) with q in Hq2.
  eapply wp_mono; [apply IH|].
  - rewrite <-Hq2 in Hnd. split; [done|]. rewrite Hq2, Hr2. intros x Hx.
    rewrite lookup_delete_ne by (intros ->; done). apply Hlive. by right.
  - rewrite Hq2. cbn in Hn. lia.
  - intros [] s3 (Hl3 & Hr3 & Hq3 & Ha3 & Hc3). rewrite Hl3, Hl2, Hr2, Hq2. cbn.
    change (reqs s1) with (reqs s). change (log s1) with (log s). rewrite Hr.
    rewrite queue_log_delete by done. split; [by rewrite <-app_assoc|]. split.
    + intros x. rewrite Hr3, Hq2, Hr2. change (reqs s1) with (reqs s).
      destruct (decide (x ∈ q)), (decide (x ∈ p :: q)) as [Hx|Hx]; try done.
      * exfalso. apply Hx. by right.
      * apply elem_of_cons in Hx as [->|]; [|done]. by rewrite lookup_delete_eq.
      * apply not_elem_of_cons in Hx as [? _]. by rewrite lookup_delete_ne.
    + split; [done|]. by rewrite Ha3, Hc3, Ha2, Hcon2.
Qed.

Lemma fail_active_exact p r cb code msg s :
  c_active (rest s) = Some p → reqs s !! p = Some r → r_resp_cb r = Some cb →
  wp (fail_active zenv observer code msg) (λ _ s',
    log s' = log s ++ fail_log code p r ∧ reqs s' = delete p (reqs s) ∧
    rest s' = (rest s) <| c_active := None |>) s.
Proof.
  intros Ha Hr Hcb. unfold fail_active. wp_simpl. apply wp_clt. rewrite Ha. wp_simpl.
  apply (wp_req_get p r); [done|]. rewrite Hcb.
  pose proof (notify_exact p r cb code msg s Hr) as Hn. rewrite wp_bind in Hn. wp_simpl.
  eapply wp_mono; [exact Hn|]. intros [] s1 Hn1. wp_simpl. eapply wp_mono; [exact Hn1|].
  intros [] s2 (r' & Hl2 & Hr2 & Hb2 & Hc2). wp_simpl. apply wp_clt. rewrite Hc2, Ha. wp_simpl.
  unfold clear_req_body. wp_simpl. eapply wp_req_get; [by rewrite Hr2, lookup_insert_eq|]. wp_simpl.
  eapply wp_mono; [apply run_chunk_cbs_exact|]. intros [] s3 ->. wp_simpl.
  eapply wp_req_modify; [cbn; by rewrite Hr2, lookup_insert_eq|]. wp_simpl. apply wp_clt. cbn [rest update_with].
  rewrite Hc2, Ha. wp_simpl. eapply wp_mono; [eapply destroy_req_exact; apply reqs_put|].
  intros [] s4 ->. apply wp_set_clt. cbn. rewrite Hl2, Hr2, Hc2, Hb2. unfold fail_log. rewrite Hcb.
  rewrite <-app_assoc. split; [done|]. by rewrite !delete_insert_eq.
Qed.

(** The last step of a cancellation. *)
Definition close_log (st : status) : list event :=
  match st with Handshaking | Connected => [EvLinkClose] | _ => [] end.

Lemma close_connection_exact s :
  wp close_connection (λ _ s', log s' = log s ++ close_log (c_connected (rest s)) ∧
    reqs s' = reqs s ∧ c_connected (rest s') = Disconnected ∧ c_active (rest s') = c_active (rest s) ∧
    c_requests (rest s') = c_requests (rest s) ∧ c_timer (rest s') = None) s.
Proof.
  unfold close_connection. wp_simpl. apply wp_set_clt. wp_simpl. apply wp_clt. cbn [rest update_with c_connected].
  destruct (c_connected (rest s)) eqn:Hc; wp_simpl.
  - cbn. rewrite app_nil_r. done.
  - apply wp_set_clt. cbn. by rewrite app_nil_r.
  - apply wp_emit, wp_set_clt. done.
  - apply wp_emit, wp_set_clt. done.
Qed.

Definition all_requests s : list rid := option_list (c_active (rest s)) ++ c_requests (rest s).

(** The active request failed, if there was one. *)
Lemma fail_active_phase code msg s : own [] s →
  (∀ p r, reqs s !! p = Some r → is_Some (r_resp_cb r)) →
  wp (fail_active zenv observer code msg) (λ _ s1,
    log s1 = log s ++ queue_log code (reqs s) (option_list (c_active (rest s))) ∧
    (∀ p, reqs s1 !! p = if decide (c_active (rest s) = Some p) then None else reqs s !! p) ∧
    c_active (rest s1) = None ∧ c_requests (rest s1) = c_requests (rest s) ∧
    c_connected (rest s1) = c_connected (rest s)) s.
Proof.
  intros Ho Hcbs. destruct (c_active (rest s)) as [a|] eqn:Ha.
  - destruct (own_active [] s a Ho Ha) as [r Hr]. destruct (Hcbs a r Hr) as [cb Hcb].
    eapply wp_mono; [by apply (fail_active_exact a r cb)|]. intros [] s1 (-> & -> & ->). cbn.
    rewrite Hr, app_nil_r. split_and!; try done. intros p. case_decide as Hp.
    + injection Hp as ->. by rewrite lookup_delete_eq.
    + by rewrite lookup_delete_ne by congruence.
  - unfold fail_active. wp_simpl. apply wp_clt. rewrite Ha. wp_simpl. cbn. by rewrite app_nil_r.
Qed.

Lemma fail_all_exact code msg s : own [] s → (length (c_requests (rest s)) <= fuel)%nat →
  (∀ p r, reqs s !! p = Some r → is_Some (r_resp_cb r)) →
  wp (fail_active_request zenv fuel observer code msg) (λ _ s',
    reqs s' = ∅ ∧ all_requests s' = [] ∧ c_connected (rest s') = c_connected (rest s) ∧
    log s' = log s ++ queue_log code (reqs s) (all_requests s)) s.
Proof.
  intros Ho Hf Hcbs. pose proof (own_nodup _ _ Ho) as Hnd. unfold owned in Hnd. cbn in Hnd.
  assert (∀ p, p ∈ c_requests (rest s) → c_active (rest s) ≠ Some p) as Hdisj.
  { intros p Hp Hap. unfold active, requests in Hnd. rewrite Hap in Hnd. cbn in Hnd.
    by apply NoDup_cons in Hnd as [? _]. }
  unfold fail_active_request. wp_call (by apply fail_active_phase).
  intros [] s1 (Hl1 & Hr1 & Ha1 & Hq1 & Hc1). eapply wp_mono; [apply fail_queue_exact|].
  - split; [rewrite Hq1; by apply NoDup_app in Hnd as (_ & _ & ?)|]. rewrite Hq1. intros p Hp. rewrite Hr1.
    rewrite decide_False by (by apply Hdisj). destruct (own_lookup [] s p Ho) as [r ->]; [|done].
    unfold owned. rewrite !elem_of_app. right. by right.
  - by rewrite Hq1.
  - intros [] s2 (Hl2 & Hr2 & Hq2 & Ha2 & Hc2). split_and!.
    + apply map_eq. intros p. rewrite lookup_empty, Hr2, Hq1, Hr1. case_decide as Hq; [done|].
      case_decide as Ha; [done|]. apply not_elem_of_dom. rewrite (own_dom _ _ Ho). unfold owned. cbn.
      apply not_elem_of_app. split; [|done]. unfold active. destruct (c_active (rest s)) as [a|]; cbn.
      * rewrite list_elem_of_singleton. congruence.
      * apply not_elem_of_nil.
    + unfold all_requests. by rewrite Ha2, Ha1, Hq2.
    + by rewrite Hc2.
    + rewrite Hl2, Hl1, Hq1, <-app_assoc. f_equal. unfold all_requests. rewrite queue_log_app. f_equal.
      apply queue_log_ext. intros p Hp. rewrite Hr1. by rewrite decide_False by (by apply Hdisj).
Qed.

End Failing.

(** ** The end of a response *)

(** [stable P m]: when [m] returns, a property [P] of the client survives. *)
Section Stable.
Context `{ZL : Zlib} `{LL : LLHttp} `{UV : UvErr} {X : Type}.
Context (P : X → Prop).

Definition stable {A} (m : M (hstate X) A) : Prop :=
  ∀ s a s', m s = Ret (a, s') → P (rest s) → P (rest s').

Lemma stable_ret {A} (a : A) : stable (mret a).
Proof. intros s b s' [= _ <-]. done. Qed.
Lemma stable_bind {A B} (m : M (hstate X) A) (k : A → M (hstate X) B) :
  stable m → (∀ a, stable (k a)) → stable (m ≫= k).
Proof.
  intros Hm Hk s b s'. unfold mbind, M_bind. destruct (m s) as [[a s1]|] eqn:E; [|done].
  intros Hr HP. eapply Hk; [exact Hr|]. by eapply Hm.
Qed.
Lemma stable_get : stable get.
Proof. intros s a s' [= _ <-]. done. Qed.
Lemma stable_modify f : (∀ s, rest (f s) = rest s) → stable (modify f).
Proof. intros Hf s a s' [= _ <-]. by rewrite Hf. Qed.
Lemma stable_fail {A} f : stable (fail_with (A := A) f).
Proof. done. Qed.
Lemma stable_lift {A} (o : outcome A) : stable (liftO o).
Proof. intros s a s'. unfold liftO. destruct o; [intros [= _ <-]|]; done. Qed.
Lemma stable_from_opt {A} f (o : option A) : stable (from_opt f o).
Proof. destruct o; [apply stable_ret|apply stable_fail]. Qed.
Lemma stable_when b m : stable m → stable (when b m).
Proof. destruct b; [done|intros _; apply stable_ret]. Qed.
Hint Resolve stable_ret stable_bind stable_get stable_modify stable_fail stable_lift stable_from_opt stable_when : tlsuv.

Context (app : event → M (hstate X) unit) (Happ : ∀ ev, stable (app ev)).

Lemma stable_req_get p : stable (req_get p).
Proof. apply stable_bind; auto with tlsuv. Qed.
Lemma stable_req_modify p f : stable (req_modify p f).
Proof. apply stable_bind; [apply stable_req_get|]. intros r. by apply stable_modify. Qed.
Lemma stable_call ev : stable (call_app app ev).
Proof. apply stable_bind; [by apply stable_modify|auto]. Qed.
Hint Resolve stable_req_get stable_req_modify stable_call : tlsuv.

Lemma stable_resp_cb cb p : stable (call_resp_cb app cb p).
Proof. apply stable_bind; auto with tlsuv. Qed.
Hint Resolve stable_resp_cb : tlsuv.

Ltac stable_auto := repeat first
  [ progress auto with tlsuv
  | apply stable_bind; [|intros ?]
  | apply stable_when
  | match goal with |- stable (match ?x with _ => _ end) => destruct x end
  | match goal with |- stable (let '_ := ?x in _) => destruct x end ].

Lemma stable_inflate zenv gi si cb n : stable gi → (∀ i, stable (si i)) → (∀ d, stable (cb d)) →
  stable (inflate_loop zenv gi si cb n).
Proof.
  intros Hg Hs Hc. induction n as [|n IH]; cbn [inflate_loop]; [apply stable_fail|]. stable_auto.
Qed.

Lemma stable_proc zenv fuel p e : stable (http_proc zenv fuel app p e).
Proof.
  assert (stable (inf_get p)) by (unfold inf_get; stable_auto).
  assert (∀ i, stable (inf_set p i)) by (intros; unfold inf_set; stable_auto).
  destruct e; cbn [http_proc]; unfold http_status_cb, http_header_field_cb, http_header_value_cb,
    http_headers_complete_cb, http_body_cb, http_message_cb, set_resp, call_body_cb;
    stable_auto.
  unfold um_inflate. stable_auto. apply stable_inflate; auto with tlsuv.
Qed.

Lemma stable_process zenv fuel p buf : stable (http_req_process zenv fuel app p buf).
Proof.
  assert (∀ evs, stable (run_events zenv fuel app p evs)).
  { induction evs as [|e evs IH]; [apply stable_ret|].
    unfold run_events; fold (run_events zenv fuel app p).
    apply stable_bind; [apply stable_proc|done]. }
  unfold http_req_process. stable_auto.
Qed.
End Stable.

Section Completion.
Context `{ZL : Zlib} `{LL : LLHttp} `{UV : UvErr}.
Context (zenv : zlib_env) (Hz : ∀ sy, sym_loaded zenv sy = true) (fuel : nat).
Context (app : event → M (hstate tlsuv_http_t) unit).

Lemma finish_exact p r s : reqs s !! p = Some r → c_connected (rest s) = Connected →
  let ka := keep_alive (rs_http_version (r_resp r))
                       (tlsuv_http_resp_header (rs_headers (r_resp r)) (bs "Connection")) in
  wp (finish_request zenv p) (λ _ s', reqs s' !! p = None ∧ c_active (rest s') = None ∧
    c_connected (rest s') = (if ka then Connected else Disconnected) ∧
    (ka = true → c_proc_pending (rest s') = true) ∧
    log s' = log s ++ (if ka then [] else [EvLinkClose])) s.
Proof.
  intros Hr Hc ka. unfold finish_request. wp_simpl. apply (wp_req_get p r); [done|]. wp_simpl.
  apply wp_set_clt. wp_call (by eapply (destroy_req_exact zenv Hz)). intros [] s1 ->.
  fold ka. destruct ka.
  - apply wp_set_clt. cbn. rewrite lookup_delete_eq, app_nil_r. done.
  - eapply wp_mono; [apply close_connection_exact|]. intros [] s2 (Hl & Hr2 & Hc2 & Ha2 & _). cbn in *.
    rewrite Hc in Hl. rewrite Hr2, lookup_delete_eq. done.
Qed.

(** C3: the end of a response releases the request and decides the fate of the
    connection.  When the bytes read complete the response of the active request, the
    application has received exactly that response, the request is gone, and the
    connection is kept (the next request will be signalled) if the version and the
    Connection header allow it and closed otherwise. *)
Theorem response_completes p bc cb r buf parser code major minor status hdrs bodies s :
  app_sets_body_cb app p bc →
  (∀ ev, stable (λ c, c_active c = Some p ∧ c_connected c = Connected) (app ev)) →
  reqs s !! p = Some r → c_active (rest s) = Some p → c_connected (rest s) = Connected →
  buf ≠ [] →
  llhttp_execute (r_parser r) buf =
    (response_events code major minor status hdrs bodies, HPE_OK, parser) →
  r_resp_cb r = Some cb → r_inflater r = None →
  rs_headers (r_resp r) = [] → rs_curr_header (r_resp r) = None →
  cstr_ok status → Forall hdr_ok hdrs →
  tlsuv_http_resp_header (received hdrs) (bs "content-encoding") = None →
  let ka := keep_alive (version_text major minor) (tlsuv_http_resp_header (received hdrs) (bs "Connection")) in
  ∃ s', http_read_cb zenv fuel app (Z.of_nat (length buf)) (Some buf) s = Ret (tt, s') ∧
    reqs s' !! p = None ∧ c_active (rest s') = None ∧
    c_connected (rest s') = (if ka then Connected else Disconnected) ∧
    (ka = true → c_proc_pending (rest s') = true) ∧
    log s' = log s ++ delivery_log p bc cb code bodies ++ (if ka then [] else [EvLinkClose]).
Proof.
  intros Happ Hst Hr Ha Hc Hne Hx Hcb Hi Hh Hch Hs Hok Hce ka.
  destruct (process_delivers zenv fuel app p bc Happ cb r (log s) buf parser code major minor status
    hdrs bodies s) as (s1 & Hp & Hr1 & Hl1); [by split|done..|].
  destruct (stable_process _ app Hst zenv fuel p buf s _ s1 Hp (conj Ha Hc)) as [Ha1 Hc1].
  assert (wp (http_read_cb zenv fuel app (Z.of_nat (length buf)) (Some buf)) (λ _ s',
    reqs s' !! p = None ∧ c_active (rest s') = None ∧
    c_connected (rest s') = (if ka then Connected else Disconnected) ∧
    (ka = true → c_proc_pending (rest s') = true) ∧
    log s' = log s ++ delivery_log p bc cb code bodies ++ (if ka then [] else [EvLinkClose])) s) as Hw.
  { unfold http_read_cb. wp_simpl. apply wp_clt. rewrite Ha.
    assert (0 < Z.of_nat (length buf)) by (destruct buf; [done|cbn; lia]).
    destruct (Z.ltb_spec (Z.of_nat (length buf)) 0); [lia|].
    destruct (Z.ltb_spec 0 (Z.of_nat (length buf))); [|lia]. wp_simpl.
    rewrite Nat2Z.id, firstn_all. unfold wp at 1. rewrite Hp.
    destruct (Z.ltb_spec (Z.of_nat (length buf)) 0); [lia|]. wp_simpl. apply wp_clt. rewrite Ha1. wp_simpl.
    eapply wp_req_get; [exact Hr1|]. wp_simpl. rewrite bool_decide_eq_true_2 by done. unfold when. wp_simpl.
    eapply wp_mono; [apply (finish_exact p _ s1 Hr1 Hc1)|]. intros [] s2 Hs2. wp_simpl.
    cbn in Hs2. fold ka in Hs2. rewrite Hl1, <-app_assoc in Hs2. exact Hs2. }
  apply wp_run in Hw as ([] & s' & Hrun & ?). by exists s'.
Qed.
End Completion.

(** ** Changing the URL *)

Section SetUrl.
Context `{ZL : Zlib} `{LL : LLHttp} `{UV : UvErr}.

#[local] Arguments set_http_header : simpl never.
#[local] Arguments bs : simpl never.

Definition http_scheme (tls : bool) : list Z := if tls then bs "https" else bs "http".
Definition default_port (tls : bool) : Z := if tls then 443 else 80.

Lemma scheme_port_ok tls rest : scheme_port (http_scheme tls ++ rest) 0 (length (http_scheme tls)) =
  Some (default_port tls, tls).
Proof. destruct tls; reflexivity. Qed.

(** What a well-formed URL does to a client. *)
Definition url_applied (tls : bool) (host : list Z) (prt : option Z) (pth : list Z)
    (c c' : tlsuv_http_t) : Prop :=
  c_host c' = Some host ∧
  c_port c' = print_dec (match prt with Some n => n | None => default_port tls end) ∧
  c_prefix c' = (if decide (pth = []) then c_prefix c else Some pth) ∧
  c_ssl c' = tls || c_ssl c ∧
  c_host_change c' = bool_decide (is_Some (c_host c)) || c_host_change c ∧
  c_connected c' = c_connected c ∧ c_active c' = c_active c ∧ c_requests c' = c_requests c ∧
  (hdr_unique (c_headers c) → hdr_unique (c_headers c') ∧
   ∀ k, tlsuv_http_resp_header (c_headers c') k =
        if strcaseeq k (bs "Host") then Some host else tlsuv_http_resp_header (c_headers c) k).

Lemma host_header hl host : hdr_unique hl →
  let hl' := set_http_header (set_http_header hl (bs "Host") None) (bs "Host") (Some host) in
  hdr_unique hl' ∧ ∀ k, tlsuv_http_resp_header hl' k =
    if strcaseeq k (bs "Host") then Some host else tlsuv_http_resp_header hl k.
Proof.
  intros Hu hl'. destruct (set_http_header_spec hl (bs "Host") None Hu) as [Hu1 Hm1].
  destruct (set_http_header_spec _ (bs "Host") (Some host) Hu1) as [Hu2 Hm2].
  split; [exact Hu2|]. intros k. subst hl'. rewrite !resp_header_map, Hm2, Hm1, strcaseeq_lower.
  case_bool_decide as E; [by rewrite E, lookup_insert_eq|].
  by rewrite lookup_insert_ne, lookup_delete_ne by congruence.
Qed.

Lemma apply_url_ok tls host prt pth q c : url_parts_ok (http_scheme tls) host prt pth q →
  cstr_ok host → cstr_ok pth →
  let url := render_url (http_scheme tls) host prt pth q in
  let u := rendered (http_scheme tls) host prt pth q in
  url_applied tls host prt pth c
    (apply_url url u (length (http_scheme tls ++ SEP)) (default_port tls) tls c).
Proof.
  intros Hok Hh Hp url u.
  assert (strndup (drop (length (http_scheme tls ++ SEP)) url) (hostname_len u) = host) as Hhost.
  { subst url u. unfold render_url. rewrite app_assoc, drop_app_length.
    assert (hostname_len (rendered (http_scheme tls) host prt pth q) = length host) as ->
      by (unfold rendered; destruct pth, q; done). by apply strndup_app. }
  assert (port u = default 0 prt) as Hport by (subst u; unfold rendered; destruct pth, q; done).
  assert ((if default 0 prt =? 0 then default_port tls else default 0 prt) =
          match prt with Some n => n | None => default_port tls end) as Hpv.
  { pose proof (ok_port _ _ _ _ _ Hok). destruct prt as [n|]; [|done]. cbn. destruct (Z.eqb_spec n 0); [lia|done]. }
  assert (match path u with
          | Some off => pth ≠ [] ∧ strndup (drop off url) (path_len u) = pth
          | None => pth = []
          end) as Hpath.
  { subst u url. destruct pth as [|c0 pth]; [done|]. unfold rendered, render_url.
    destruct q; cbn [path path_len update_with]; (split; [done|]);
      rewrite (app_assoc _ SEP), (app_assoc _ host), (app_assoc _ _ ((c0 :: pth) ++ _)), drop_app_length;
      by apply strndup_app. }
  unfold apply_url, url_applied. rewrite Hhost, Hport, Hpv.
  destruct (path u) as [off|]; [destruct Hpath as [Hne Hpath]|];
    [rewrite (decide_False _ _ Hne); unfold http_set_prefix; cbn [fmap option_fmap option_map]; rewrite Hpath
    |subst pth; rewrite decide_True by done];
    destruct (c_host c) eqn:Hc, tls; cbn; rewrite Hc; cbn; split_and!; try done; apply host_header.
Qed.

(** A well-formed http or https URL sets host, port (the scheme's default when
    absent), prefix and Host header as written, switches TLS on for https, marks the
    host change for the next connection, and leaves the current connection and its
    requests alone, as documented. *)
Theorem set_url_effect tls host prt pth q s :
  url_parts_ok (http_scheme tls) host prt pth q → cstr_ok host → cstr_ok pth →
  ∃ s', tlsuv_http_set_url (render_url (http_scheme tls) host prt pth q) s = Ret (0, s') ∧
    url_applied tls host prt pth (rest s) (rest s') ∧ reqs s' = reqs s ∧ log s' = log s.
Proof.
  intros Hok Hh Hp. unfold tlsuv_http_set_url, mbind, M_bind, liftO.
  rewrite parse_url_rendered by done. cbn [negb Z.eqb].
  assert (scheme (rendered (http_scheme tls) host prt pth q) = Some 0%nat ∧
    scheme_len (rendered (http_scheme tls) host prt pth q) = length (http_scheme tls) ∧
    hostname (rendered (http_scheme tls) host prt pth q) = Some (length (http_scheme tls ++ SEP)))
    as (-> & -> & ->) by (unfold rendered; destruct pth, q; done).
  unfold render_url at 1. rewrite scheme_port_ok. eexists. split; [reflexivity|]. cbn.
  split; [by apply apply_url_ok|done].
Qed.
End SetUrl.

(** ** Concrete runs *)

#[local] Existing Instance ToyHttp.zlib.
#[local] Existing Instance ToyHttp.uv.
#[local] Existing Instance ToyHttp.parser.

Definition toy_post : tlsuv_http_req_s :=
  http_req_init req_zero (bs "POST") (bs "/up") <| r_client := true |> <| r_state := headers_sent |>
    <| r_resp_cb := Some 3 |>.

(** "hello" and "world" as two chunks. *)
Lemma chunked_body_roundtrip_witness :
  let body := [mkchunk (bs "hello") None 1; mkchunk (bs "world") (Some 4) 1] in
  let r := toy_post <| r_req_chunked := true |> <| r_req_body := body ++ [mkchunk [] None 1] |> in
  let s := mkh {[ 1 := r ]} [] clt_zero in
  ∃ s' r', send_body 1 s = Ret (tt, s') ∧ reqs s' !! 1 = Some r' ∧
    r_state r' = body_sent ∧ r_req_body r' = [] ∧
    ∃ wire, written (log s') = written (log s) ++ wire ∧
      decode_chunked 3 wire = Some (bs "helloworld").
Proof.
  intros body r s. apply (chunked_body_roundtrip 1 r body s); try reflexivity;
    repeat constructor; discriminate.
Defined.

Lemma plain_body_written_witness :
  let r := toy_post <| r_req_body_size := 10 |>
             <| r_req_body := [mkchunk (bs "hello") None 1; mkchunk (bs "world") None 1] |> in
  let s := mkh {[ 1 := r ]} [] clt_zero in
  ∃ s' r', send_body 1 s = Ret (tt, s') ∧ reqs s' !! 1 = Some r' ∧
    written (log s') = bs "helloworld" ∧ r_state r' = body_sent.
Proof.
  intros r s. apply (plain_body_written 1 r s); try reflexivity.
  - split; reflexivity.
  - repeat constructor; discriminate.
Defined.

(** A length, then an attempt to chunk. *)
Lemma framing_exclusive_witness :
  ∃ s' r', set_headers 1 [(bs "Content-Length", bs "5"); (bs "Transfer-Encoding", bs "chunked")]
             (mkh {[ 1 := toy_post ]} [] clt_zero) = Ret (tt, s') ∧ reqs s' !! 1 = Some r' ∧ framing_ok r'.
Proof. apply (framing_exclusive 1 toy_post); [reflexivity|discriminate]. Defined.

(** A client with an active request and two queued ones. *)
Definition busy_client : hstate tlsuv_http_t :=
  let r := toy_post <| r_req_body := [mkchunk (bs "d") (Some 9) 1] |> in
  mkh (list_to_map [(1, r); (2, toy_post); (3, toy_post)]) []
      (clt_zero <| c_active := Some 1 |> <| c_requests := [2; 3] |> <| c_connected := Connected |>).

Lemma busy_client_own : own [] busy_client.
Proof.
  split.
  - apply (bool_decide_unpack (NoDup [1; 2; 3])). vm_compute. exact I.
  - intros p. assert (dom (reqs busy_client) = {[1; 2; 3]}) as -> by (vm_compute; reflexivity).
    change (owned [] busy_client) with [1; 2; 3].
    rewrite !elem_of_union, !elem_of_singleton, !elem_of_cons, elem_of_nil. tauto.
  - apply (bool_decide_unpack (map_Forall _ (reqs busy_client))). vm_compute. exact I.
Qed.


(** A response with "Connection: close". *)
Lemma response_completes_witness :
  let evs := response_events 200 1 1 (bs "OK") [(bs "Connection", bs "close")] [bs "ab"; bs "c"] in
  let r := toy_post <| r_parser := ([(evs, HPE_OK)] : @llhttp_t ToyHttp.parser) |> in
  let s := mkh {[ 1 := r ]} [] (clt_zero <| c_active := Some 1 |> <| c_connected := Connected |>) in
  ∃ s', http_read_cb ToyZlib.env 10 ToyHttp.app 3 (Some (bs "raw")) s = Ret (tt, s') ∧
    reqs s' !! 1 = None ∧ c_active (rest s') = None ∧ c_connected (rest s') = Disconnected ∧
    (false = true → c_proc_pending (rest s') = true) ∧
    log s' = [EvResp 3 1 200; EvBody 7 1 (Some (bs "ab")) 2; EvBody 7 1 (Some (bs "c")) 1;
              EvBody 7 1 None (-4095); EvLinkClose].
Proof.
  intros evs r s.
  destruct (response_completes ToyZlib.env toy_loaded 10 ToyHttp.app 1 (Some 7) 3 r (bs "raw") []
    200 1 1 (bs "OK") [(bs "Connection", bs "close")] [bs "ab"; bs "c"] s)
    as (s' & Hrun & Hr & Ha & Hc & _ & Hl); try reflexivity.
  6: { exists s'. split; [exact Hrun|]. split; [exact Hr|]. split; [exact Ha|].
       split; [rewrite Hc; vm_compute; reflexivity|]. split; [discriminate|].
       rewrite Hl. vm_compute. reflexivity. }
  - apply ToyHttp.app_contract.
  - intros ev st a st'. destruct ev; intros [= _ <-]; auto.
  - discriminate.
  - repeat constructor.
  - repeat constructor. discriminate.
Defined.

Lemma set_url_effect_witness :
  ∃ s', tlsuv_http_set_url (bs "https://h:8443/api") toy_client = Ret (0, s') ∧
    url_applied true (bs "h") (Some 8443) (bs "/api") (rest toy_client) (rest s') ∧
    reqs s' = reqs toy_client ∧ log s' = log toy_client.
Proof.
  apply (set_url_effect true (bs "h") (Some 8443) (bs "/api") None toy_client);
    [split; [repeat constructor|repeat constructor|discriminate|lia|split; [reflexivity|repeat constructor]]
    |repeat constructor|repeat constructor].
Defined.

(** ** Runs the client does not survive *)

Fixpoint run_entries `{Zlib} `{LLHttp} `{UvErr} (default_tls : option Z) (l : list entry) (s : hstate tlsuv_http_t)
  : outcome (unit * hstate tlsuv_http_t) :=
  match l with
  | [] => Ret (tt, s)
  | e :: l => '(_, s) ← exec ToyZlib.env 10 observer (λ _, 0) default_tls e s; run_entries default_tls l s
  end.

(** A request is made, the client connects and sends it. *)
Definition start_get : list entry := [EReq (bs "GET") (bs "/x") (Some 3) 0; EAsync; EConnect 0; EAsync].

Lemma start_get_runs : ∃ s, run_entries None start_get toy_client = Ret (tt, s) ∧
  written (log s) = bs "GET /api/x HTTP/1.1" ++ CRLF ++ bs "Host: example.com" ++ CRLF ++
    bs "Connection: keep-alive" ++ CRLF ++ bs "Accept-Encoding: gzip, deflate" ++ CRLF ++ CRLF.
Proof. eexists. split; vm_compute; reflexivity. Qed.

(** Cancelling the active request before its response headers dereferences NULL. *)
Theorem cancel_active_crashes :
  ∃ s p, run_entries None start_get toy_client = Ret (tt, s) ∧ c_active (rest s) = Some p ∧
    tlsuv_http_req_cancel ToyZlib.env observer p s = Fault NullDeref.
Proof. eexists _, _. split; [vm_compute; reflexivity|]. split; vm_compute; reflexivity. Qed.

(** A parser that rejects its input. *)
Definition rejecting : LLHttp := {|
  llhttp_t := unit; llhttp_init := tt;
  llhttp_execute := λ _ _, ([], HPE_ERROR 1, tt);
  llhttp_resume_after_upgrade := λ x, x |}.

(** A response that is not HTTP crashes the client: after [fail_active_request] has
    cleared [c->active], [http_read_cb] reads [c->active->state]. *)
Theorem parse_error_crashes :
  let s0 := match tlsuv_http_init (H0 := rejecting) ToyZlib.env (bs "http://h") (mkh ∅ [] clt_zero) with
            | Ret (_, s) => s | Fault _ => mkh ∅ [] clt_zero end in
  run_entries (H0 := rejecting) None (start_get ++ [ERead 3 (Some (bs "bad"))]) s0 = Fault NullDeref.
Proof. vm_compute. reflexivity. Qed.

(** Changing the URL of an https client before its first connection crashes it: there
    is no engine to free. *)
Theorem early_set_url_crashes :
  let s0 := match tlsuv_http_init ToyZlib.env (bs "https://a") (mkh ∅ [] clt_zero) with
            | Ret (_, s) => s | Fault _ => mkh ∅ [] clt_zero end in
  run_entries (Some 1) [ESetUrl (bs "https://b"); EReq (bs "GET") (bs "/") (Some 3) 0; EAsync; EConnect 0] s0
  = Fault NullDeref.
Proof. vm_compute. reflexivity. Qed.

(** TLS stays on when the URL changes from https to http: plain-text requests would
    be sent through TLS to port 80. *)
Theorem ssl_not_reset :
  let s0 := match tlsuv_http_init ToyZlib.env (bs "https://a") (mkh ∅ [] clt_zero) with
            | Ret (_, s) => s | Fault _ => mkh ∅ [] clt_zero end in
  match tlsuv_http_set_url (bs "http://a") s0 with
  | Ret (rc, s) => rc = 0 ∧ c_ssl (rest s) = true ∧ c_port (rest s) = bs "80"
  | Fault _ => False
  end.
Proof. vm_compute. done. Qed.

(** Any prefix of "http" passes for that scheme, the empty one too. *)
Theorem scheme_prefix_accepted :
  ∀ sch, In sch [bs ""; bs "h"; bs "ht"; bs "htt"; bs "http"] →
  match tlsuv_http_set_url (sch ++ bs "://host") (mkh ∅ [] clt_zero) with
  | Ret (rc, s) => rc = 0 ∧ c_port (rest s) = bs "80"
  | Fault _ => False
  end.
Proof. intros sch Hin. repeat (destruct Hin as [<-|Hin]; [vm_compute; done|]). done. Qed.
