(* ===== verification/WebSocket.v ===== *)
(** * The WebSocket client (src/websocket.c, include/tlsuv/websocket.h)

    Framing is modelled on the bytes of the frame and read buffers, with every access
    checked against the buffer; the connection handlers over the state [hstate
    tlsuv_websocket_t] of HttpReq.v (the upgrade request is an HTTP request of its
    own, with no client).  [rand()] is an argument: four mask bytes, or the numbers
    the key is made of. *)
From S2P Require Import Prelude CLib Url Headers Compression HttpReq TlsEngine Http.
From stdpp Require Import base list gmap numbers strings.
From Stdlib Require Import ZArith Lia.
Open Scope Z_scope.

Definition WS_FIN : Z := 128.
Definition WS_OP_BITS : Z := 15.
Definition WS_MASK : Z := 128.
Definition OpCode_TXT : Z := 1.
Definition OpCode_BIN : Z := 2.
Definition OpCode_Close : Z := 8.
Definition OpCode_Ping : Z := 9.
Definition OpCode_Pong : Z := 10.

(** Big-endian integers, [htobe16]/[htobe64] and back. *)
Fixpoint be_bytes (n : nat) (v : Z) : list Z :=
  match n with
  | O => []
  | S n => be_bytes n (v / 256) ++ [v mod 256]
  end.
Definition be_value (l : list Z) : Z := fold_left (λ acc b, acc * 256 + b) l 0.

(** ** Writing frames *)

(** [mask[i % 4] ^ data[i]], stored in a [char] *)
Fixpoint mask_bytes (mask : list Z) (i : nat) (data : list Z) : list Z :=
  match data with
  | [] => []
  | b :: data => u8 (Z.lxor (nth (i mod 4) mask 0) b) :: mask_bytes mask (S i) data
  end.

Definition ws_headerlen (len : Z) : Z :=
  6 + (if 125 <? len then 2 else 0) + (if 65535 <? len then 6 else 0).

(** The frame of [tlsuv_websocket_write], stored field by field into
    [malloc(headerlen + len)]. *)
Definition ws_frame (mask payload : list Z) : outcome (list Z) :=
  let len := Z.of_nat (length payload) in
  let frame := replicate (Z.to_nat (ws_headerlen len + len)) 0 in
  frame ← buf_write frame 0 [Z.lor WS_FIN OpCode_BIN];
  '(frame, ptr) ←
    (if len <? 126 then
       frame ← buf_write frame 1 [Z.lor WS_MASK (u8 len)]; mret (frame, 2)
     else if len <=? 65535 then
       frame ← buf_write frame 1 [Z.lor WS_MASK 126];
       frame ← buf_write frame 2 (be_bytes 2 (u16 len)); mret (frame, 4)
     else
       frame ← buf_write frame 1 [Z.lor WS_MASK 127];
       frame ← buf_write frame 2 (be_bytes 8 len); mret (frame, 10));
  frame ← buf_write frame ptr mask;
  buf_write frame (ptr + 4) (mask_bytes mask 0 payload).

(** [send_pong]: the copy loop runs to [buf.len], which counts the header too.
    [data] is the memory from [ping_data] on. *)
Definition pong_frame (mask data : list Z) (len : Z) : outcome (list Z) :=
  let buflen := 2 + 4 + len in
  let buf := replicate (Z.to_nat buflen) 0 in
  buf ← buf_write buf 0 [Z.lor WS_FIN OpCode_Pong];
  buf ← buf_write buf 1 [Z.lor WS_MASK (Z.land 127 len)];
  buf ← buf_write buf 2 mask;
  if 0 <? len then
    if Z.of_nat (length data) <? buflen then Fault OutOfBounds
    else buf_write buf 6 (mask_bytes mask 0 (take (Z.to_nat buflen) data))
  else mret buf.

(** ** Reading frames *)

Definition mem_rd (mem : list Z) (i : nat) : outcome Z :=
  match mem !! i with Some b => Ret b | None => Fault OutOfBounds end.
Fixpoint mem_rds (mem : list Z) (i n : nat) : outcome (list Z) :=
  match n with
  | O => Ret []
  | S n => b ← mem_rd mem i; l ← mem_rds mem (S i) n; mret (b :: l)
  end.

Record frame_hdr := mkfh { fh_op : Z; fh_masked : bool; fh_len : Z; fh_dp : nat; fh_mask : list Z }.

(** The header at offset [off] of the read buffer.  [frame[1]] is a signed [char]: the
    promotion to [unsigned] in [frame[1] & (~WS_MASK)] extends its sign. *)
Definition parse_frame (mem : list Z) (off : nat) : outcome frame_hdr :=
  b0 ← mem_rd mem off;
  b1 ← mem_rd mem (off + 1);
  let op := Z.land b0 WS_OP_BITS in
  let masked := negb (Z.land b1 WS_MASK =? 0) in
  let len := Z.land (u32 (schar b1)) (4294967295 - WS_MASK) in
  '(len, dp) ←
    (if len =? 126 then l ← mem_rds mem (off + 2) 2; mret (be_value l, (off + 4)%nat)
     else if len =? 127 then l ← mem_rds mem (off + 2) 8; mret (be_value l, (off + 10)%nat)
     else mret (len, (off + 2)%nat));
  if masked then
    m ← mem_rds mem dp 4; mret (mkfh op masked len (dp + 4) m)
  else mret (mkfh op masked len dp [0; 0; 0; 0]).

(** [for (i = 0; i < len; i++) buf->base[i] = *dp++ ^ mask[i % 4]]; a read past the
    buffer ends it, so its size bounds the loop. *)
Fixpoint unmask_loop (fuel : nat) (mem mask : list Z) (dp i : nat) (len : Z) : outcome (list Z) :=
  if len <=? Z.of_nat i then Ret mem else
  match fuel with
  | O => Fault OutOfFuel
  | S fuel =>
    b ← mem_rd mem (dp + i);
    mem ← buf_write mem (Z.of_nat i) [u8 (Z.lxor b (nth (i mod 4) mask 0))];
    unmask_loop fuel mem mask dp (S i) len
  end.

(** ** The key of the upgrade request *)

Definition key_char (r : Z) : Z :=
  let v := Z.land r 63 in
  if v <? 26 then 65 + v
  else if v <? 52 then 97 + v - 26
  else if v <? 62 then 97 + v - 52
  else if v =? 62 then 43 else 47.
Definition ws_key (rnd : list Z) : list Z := map key_char (take 22 rnd) ++ bs "==".

(** ** The connection *)

(** [struct tlsuv_websocket_s].  [w_link] is [ws_link.data != NULL]. *)
Record tlsuv_websocket_t := mkws {
  w_req : option rid;
  w_host : option (list Z);
  w_conn_req : bool;
  w_src : bool;
  w_link : bool;
  w_tls : option Z;
  w_engine : option (list Z);
  w_closed : bool;
  w_close_cb : bool;
}.
#[export] Instance ws_upd : Updatable tlsuv_websocket_t := fun w =>
  mkws (w_req w) (w_host w) (w_conn_req w) (w_src w) (w_link w) (w_tls w) (w_engine w) (w_closed w)
       (w_close_cb w).

(** [ws_write_t]: the caller's write request, or NULL for the client's own frames. *)
Definition ws_write_t : Type := option Z.

Section WebSocket.
Context `{Zlib} `{LLHttp} `{UvErr}.
Context (zenv : zlib_env) (fuel : nat).
Context (app : event → M (hstate tlsuv_websocket_t) unit).
Context (src_connect_rc : list event → Z) (default_tls : option Z) (link_write_rc : list event → Z).
Abbreviation S := (hstate tlsuv_websocket_t).

Definition wsock : M S tlsuv_websocket_t := gets rest.
Definition set_ws (f : tlsuv_websocket_t → tlsuv_websocket_t) : M S unit := modify (λ s, s <| rest := f (rest s) |>).
Definition ws_link_write (bytes : list Z) : M S Z :=
  emit (EvWrite bytes);; s ← get; mret (link_write_rc (log s)).

(** [http_req_free(ws->req); free(ws->req); ws->req = NULL] *)
Definition drop_req : M S unit :=
  w ← wsock;
  match w_req w with
  | Some p => http_req_free zenv p;; req_dealloc p
  | None => mret tt
  end;;
  set_ws (λ w, w <| w_req := None |>).

Definition set_req_header (p : rid) (name : list Z) (value : option (list Z)) : M S unit :=
  req_modify p (λ r, r <| r_req_headers := set_http_header (r_req_headers r) name value |>).

Definition tlsuv_websocket_init_with_src (rnd : list Z) : M S Z :=
  s ← get;
  let p := fresh (dom (reqs s)) in
  req_put p req_zero;;
  set_ws (λ w, w <| w_src := true |> <| w_req := Some p |>);;
  set_req_header p (bs "Upgrade") (Some (bs "websocket"));;
  set_req_header p (bs "Connection") (Some (bs "Upgrade"));;
  set_req_header p (bs "Sec-WebSocket-Key") (Some (ws_key rnd));;
  set_req_header p (bs "Sec-WebSocket-Version") (Some (bs "13"));;
  mret 0.

(** [memset] and the default TCP source *)
Definition tlsuv_websocket_init (rnd : list Z) : M S Z :=
  set_ws (λ _, mkws None None false false false None None false false);;
  tlsuv_websocket_init_with_src rnd.

Definition tlsuv_websocket_set_header (name : list Z) (value : option (list Z)) : M S unit :=
  w ← wsock; p ← from_opt NullDeref (w_req w); set_req_header p name value.

Definition tlsuv_websocket_set_tls (ctx : option Z) : M S unit := set_ws (λ w, w <| w_tls := ctx |>).

(** The scheme test: the default port and whether TLS is wanted. *)
Definition ws_scheme_port (url : list Z) (off len : nat) : option (Z * bool) :=
  if strncaseeq (bs "ws") (drop off url) len then Some (80, false)
  else if strncaseeq (bs "wss") (drop off url) len then Some (443, true)
  else None.

(** The part of [tlsuv_websocket_connect] after the URL was accepted. *)
Definition ws_start_connect (host portstr path : list Z) : M S Z :=
  w ← wsock;
  match w_tls w with
  | Some _ => emit (EvNewEngine host);; set_ws (λ w, w <| w_engine := Some host |>)
  | None => mret tt
  end;;
  p ← from_opt NullDeref (w_req w);
  req_modify p (λ r, http_req_init r (bs "GET") path);;
  set_req_header p (bs "host") (Some host);;
  set_ws (λ w, w <| w_host := Some host |>);;
  emit (EvSrcConnect host portstr);;
  s ← get;
  mret (src_connect_rc (log s)).

Definition tlsuv_websocket_connect (url : list Z) : M S Z :=
  '(rc, u) ← liftO (tlsuv_parse_url url);
  if negb (rc =? 0) then mret UV_EINVAL else
  match scheme u with
  | None => mret UV_EINVAL
  | Some off =>
    match ws_scheme_port url off (scheme_len u) with
    | None => mret UV_EINVAL
    | Some (dport, ssl) =>
      w ← wsock;
      when (ssl && negb (bool_decide (is_Some (w_tls w)))) (tlsuv_websocket_set_tls default_tls);;
      match hostname u with
      | None => mret UV_EINVAL
      | Some hoff =>
        let host := strndup (drop hoff url) (hostname_len u) in
        let prt := if port u =? 0 then dport else port u in
        let pth := match path u with
                   | Some poff => strndup (drop poff url) (path_len u)
                   | None => bs "/"
                   end in
        ws_start_connect host (take 5 (print_dec prt)) pth
      end
    end
  end.

(** [ws_read_start]: the upgrade request *)
Definition ws_read_start : M S Z :=
  w ← wsock;
  p ← from_opt NullDeref (w_req w);
  r ← req_get p;
  '(len, buf, r) ← liftO (http_req_write None r (replicate (Z.to_nat 8196) 0) 8196);
  req_put p r;;
  if 8196 <? len then fail_with OutOfBounds else
  ws_link_write (take (Z.to_nat len) buf).

Definition ws_src_connect_cb (st : Z) : M S unit :=
  if st <? 0 then
    set_ws (λ w, w <| w_closed := true |>);; call_app app (EvConnectCb st)
  else
    set_ws (λ w, w <| w_conn_req := true |> <| w_link := true |>);;
    w ← wsock;
    emit (EvLinkOpen (bool_decide (is_Some (w_tls w))));;
    match w_tls w with
    | Some _ => mret tt               (* read_start of the TLS link: the handshake *)
    | None => ws_read_start;; mret tt
    end.

Definition tls_hs_cb (st : tls_handshake_state) : M S unit :=
  match st with
  | TLS_HS_COMPLETE => ws_read_start;; mret tt
  | _ => w ← wsock;
         if w_conn_req w then call_app app (EvConnectCb UV_ECONNABORTED) else fail_with NullDeref
  end.

Definition ws_write_cb (wreq : ws_write_t) (nwrote : Z) : M S unit :=
  when (nwrote <? 0) (set_ws (λ w, w <| w_closed := true |>));;
  match wreq with
  | Some wr => call_app app (EvWriteCb wr nwrote)
  | None => mret tt
  end.

Definition tlsuv_websocket_write (wr : Z) (mask payload : list Z) : M S Z :=
  w ← wsock;
  if w_closed w then call_app app (EvWriteCb wr UV_ECONNRESET);; mret UV_ECONNRESET
  else frame ← liftO (ws_frame mask payload); ws_link_write frame.

Definition send_pong (mask mem : list Z) (dp : nat) (len : Z) : M S unit :=
  f ← liftO (pong_frame mask (drop dp mem) len); ws_link_write f;; mret tt.

(** One frame at offset [off] of the read buffer. *)
Definition ws_frame_in (mask mem : list Z) (off : nat) : M S unit :=
  h ← liftO (parse_frame mem off);
  if (fh_op h =? OpCode_TXT) || (fh_op h =? OpCode_BIN) then
    mem ← liftO (unmask_loop (Datatypes.S (length mem)) mem (fh_mask h) (fh_dp h) 0 (fh_len h));
    call_app app (EvReadCb (i64 (fh_len h)) (take (Z.to_nat (fh_len h)) mem))
  else if fh_op h =? OpCode_Close then call_app app (EvReadCb UV_EOF mem)
  else if fh_op h =? OpCode_Ping then send_pong mask mem (fh_dp h) (i32 (fh_len h))
  else mret tt.

(** The upgrade response: the number of bytes it took, and whether it failed. *)
Definition ws_handshake (nread : Z) (mem : list Z) : M S (Z * bool) :=
  w ← wsock;
  if negb (w_conn_req w) then mret (0, false) else
  p ← from_opt NullDeref (w_req w);
  processed ← http_req_process zenv fuel app p (take (Z.to_nat nread) mem);
  if processed <? 0 then
    call_app app (EvConnectCb (-1));; drop_req;; mret (processed, true)
  else
    w ← wsock; p ← from_opt NullDeref (w_req w); r ← req_get p;
    if bool_decide (r_state r = completed) then
      let ok := rs_code (r_resp r) =? 101 in
      call_app app (EvConnectCb (if ok then 0 else -1));;
      set_ws (λ w, w <| w_conn_req := false |>);;
      drop_req;;
      mret (processed, negb ok)
    else mret (processed, false).

(** [mem] is the whole read buffer, of which [nread] bytes were received. *)
Definition ws_read_cb (mask : list Z) (nread : Z) (mem : list Z) : M S unit :=
  if nread <? 0 then
    set_ws (λ w, w <| w_closed := true |>);;
    w ← wsock;
    if w_conn_req w then
      call_app app (EvConnectCb nread);; set_ws (λ w, w <| w_conn_req := false |>)
    else call_app app (EvReadCb nread mem)
  else
    '(processed, failed) ← ws_handshake nread mem;
    if (failed : bool) || (processed =? nread) then mret tt
    else ws_frame_in mask mem (Z.to_nat processed).

Definition on_ws_close : M S unit :=
  w ← wsock;
  when (negb (w_closed w) && w_close_cb w) (call_app app EvClientClosed);;
  drop_req;;
  set_ws (λ w, w <| w_host := None |>);;
  w ← wsock;
  when (bool_decide (is_Some (w_tls w)) && bool_decide (is_Some (w_engine w)))
    (emit EvFreeEngine;; set_ws (λ w, w <| w_engine := None |>));;
  when (w_src w) (emit EvSrcCancel;; set_ws (λ w, w <| w_src := false |>));;
  set_ws (λ w, w <| w_closed := true |>).

Definition ws_close_cb : M S unit :=
  w ← wsock; when (w_link w) on_ws_close;; set_ws (λ w, w <| w_link := false |>).

Definition tlsuv_websocket_close (close_cb : bool) : M S Z :=
  set_ws (λ w, w <| w_close_cb := close_cb |>);;
  w ← wsock;
  (if w_link w then emit EvLinkClose else on_ws_close);;
  mret 0.
End WebSocket.
