(* ===== verification/WsProofs.v ===== *)
(** * WebSocket framing and handshake: properties of WebSocket.v

    The reference is RFC 6455: [rfc_frame] writes a frame, [rfc_decode] reads one. *)
From S2P Require Import Prelude CLib Url Headers Compression HttpReq TlsEngine Http HttpInv HttpSafety HttpBehaviour WebSocket.
From stdpp Require Import base list gmap numbers strings.
From Stdlib Require Import ZArith Lia.
Open Scope Z_scope.

(** ** Big-endian numbers *)

Lemma be_bytes_length n v : length (be_bytes n v) = n.
Proof. revert v. induction n as [|n IH]; intros v; cbn; [done|]. rewrite length_app, IH. cbn. lia. Qed.

Lemma be_bytes_ok n v : bytes_ok (be_bytes n v).
Proof.
  revert v. induction n as [|n IH]; intros v; cbn; [constructor|]. apply Forall_app. split; [apply IH|].
  constructor; [|constructor]. apply Z.mod_pos_bound. lia.
Qed.

Lemma be_value_app l b : be_value (l ++ [b]) = be_value l * 256 + b.
Proof. unfold be_value. by rewrite fold_left_app. Qed.

Lemma be_roundtrip n v : 0 ≤ v < 256 ^ Z.of_nat n → be_value (be_bytes n v) = v.
Proof.
  revert v. induction n as [|n IH]; intros v Hv; [cbn in *; lia|].
  cbn [be_bytes]. rewrite be_value_app, IH.
  - pose proof (Z.div_mod v 256). lia.
  - rewrite Nat2Z.inj_succ, Z.pow_succ_r in Hv by lia.
    split; [apply Z.div_pos; lia|]. apply Z.div_lt_upper_bound; lia.
Qed.

(** ** Frames *)

(** The length field: 7 bits, or 126 and 16 bits, or 127 and 64 bits. *)
Definition rfc_len (len : Z) : Z * list Z :=
  if len <? 126 then (len, [])
  else if len <=? 65535 then (126, be_bytes 2 len) else (127, be_bytes 8 len).

(** A final frame. *)
Definition rfc_frame (op : Z) (mask : option (list Z)) (payload : list Z) : list Z :=
  let '(l7, ext) := rfc_len (Z.of_nat (length payload)) in
  match mask with
  | Some m => [128 + op; 128 + l7] ++ ext ++ m ++ mask_bytes m 0 payload
  | None => [128 + op; l7] ++ ext ++ payload
  end.

(** Unmasking as RFC 6455 5.3 states it: octet [i] is combined with octet [i] modulo 4
    of the key, here by rotating the key. *)
Fixpoint rfc_unmask (key l : list Z) : list Z :=
  match l, key with
  | b :: l, k :: key => Z.lxor b k :: rfc_unmask (key ++ [k]) l
  | _, _ => []
  end.

(** What a receiver reads: opcode, whether masked, payload, and the rest of the stream. *)
Definition rfc_decode (s : list Z) : option (Z * bool * list Z * list Z) :=
  match s with
  | b0 :: b1 :: s =>
    if negb (128 <=? b0) then None else
    let masked := 128 <=? b1 in
    let l7 := b1 mod 128 in
    let '(len, s) :=
      if l7 =? 126 then (be_value (take 2 s), drop 2 s)
      else if l7 =? 127 then (be_value (take 8 s), drop 8 s)
      else (l7, s) in
    let '(key, s) := if masked then (take 4 s, drop 4 s) else ([], s) in
    if Z.of_nat (length s) <? len then None
    else let body := take (Z.to_nat len) s in
         Some (b0 mod 128, masked, if masked then rfc_unmask key body else body, drop (Z.to_nat len) s)
  | _ => None
  end.

Lemma mask_bytes_length m i l : length (mask_bytes m i l) = length l.
Proof. revert i. induction l as [|b l IH]; intros i; cbn; [done|]. by rewrite IH. Qed.

Lemma nth_byte m k : bytes_ok m → is_byte (nth k m 0).
Proof.
  intros Hm. revert k. induction Hm as [|b m Hb Hm IH]; intros [|k]; cbn; try done; split; lia.
Qed.

Lemma xor_zero b : is_byte b → u8 (Z.lxor 0 b) = b.
Proof. intros Hb. rewrite Z.lxor_0_l. by apply u8_small. Qed.

(** Unmasking undoes the masking of the code, at any position. *)
Lemma unmask_mask m i l : bytes_ok m → length m = 4%nat → bytes_ok l →
  rfc_unmask (rotate (i mod 4) m) (mask_bytes m i l) = l.
Proof.
  intros Hm H4 Hl. revert i. induction Hl as [|b l Hb Hl IH]; intros i; cbn [mask_bytes]; [done|].
  assert (∃ k key, rotate (i mod 4) m = k :: key ∧ k = nth (i mod 4) m 0 ∧
    key ++ [k] = rotate (S i mod 4) m) as (k & key & -> & -> & Hnext).
  { destruct m as [|a [|b' [|c [|d [|]]]]]; try done.
    pose proof (Nat.mod_upper_bound i 4 ltac:(lia)). 
    replace (S i mod 4)%nat with ((i mod 4 + 1) mod 4)%nat by (rewrite Nat.Div0.add_mod_idemp_l; f_equal; lia).
    destruct (i mod 4)%nat as [|[|[|[|]]]]; [eexists _, _; done..|lia]. }
  cbn [rfc_unmask]. rewrite Hnext, IH. f_equal. pose proof (nth_byte m (i mod 4) Hm) as Hk.
  set (k := nth _ _ _) in *. clearbody k. bits8.
Qed.
Lemma mask_zero i l : bytes_ok l → mask_bytes [0; 0; 0; 0] i l = l.
Proof.
  intros Hl. revert i. induction Hl as [|b l Hb Hl IH]; intros i; cbn [mask_bytes]; [done|].
  assert (nth (i mod 4) [0; 0; 0; 0] 0 = 0) as ->.
  { generalize (i mod 4)%nat. intros k. do 5 (destruct k as [|k]; [done|]). done. }
  by rewrite xor_zero, IH.
Qed.

Definition MAX_FRAME : Z := 9223372036854775808.

(** The length field of a frame, read back. *)
Lemma rfc_len_read len rest : 0 ≤ len < MAX_FRAME →
  let '(l7, ext) := rfc_len len in
  0 ≤ l7 < 128 ∧
  (if l7 =? 126 then (be_value (take 2 (ext ++ rest)), drop 2 (ext ++ rest))
   else if l7 =? 127 then (be_value (take 8 (ext ++ rest)), drop 8 (ext ++ rest))
   else (l7, ext ++ rest)) = (len, rest).
Proof.
  intros Hl. unfold rfc_len, MAX_FRAME in *. destruct (Z.ltb_spec len 126).
  - split; [lia|]. destruct (Z.eqb_spec len 126), (Z.eqb_spec len 127); try lia. done.
  - destruct (Z.leb_spec len 65535); (split; [lia|]); cbn [Z.eqb Pos.eqb];
      pose proof (be_bytes_length 2 len) as H2; pose proof (be_bytes_length 8 len) as H8.
    + rewrite take_app_length', drop_app_length', be_roundtrip by (done || lia). done.
    + rewrite take_app_length', drop_app_length', be_roundtrip by (done || lia). done.
Qed.

Lemma rfc_roundtrip op mask payload rest :
  0 ≤ op < 16 → bytes_ok payload → Z.of_nat (length payload) < MAX_FRAME →
  match mask with Some m => bytes_ok m ∧ length m = 4%nat | None => True end →
  rfc_decode (rfc_frame op mask payload ++ rest) =
    Some (op, bool_decide (is_Some mask), payload, rest).
Proof.
  intros Hop Hp Hlen Hm. unfold rfc_frame.
  pose proof (λ r, rfc_len_read (Z.of_nat (length payload)) r ltac:(lia)) as Hr.
  destruct (rfc_len (Z.of_nat (length payload))) as [l7 ext].
  destruct mask as [m|].
  - destruct Hm as [Hm Hm4]. specialize (Hr (m ++ mask_bytes m 0 payload ++ rest)) as [H7 Hr].
    rewrite <-!app_assoc. cbn [Datatypes.app rfc_decode].
    destruct (Z.leb_spec 128 (128 + op)); [|lia]. cbn [negb].
    destruct (Z.leb_spec 128 (128 + l7)); [|lia].
    replace ((128 + l7) mod 128) with l7 by (rewrite Z.add_mod, Z.mod_same, Z.add_0_l, Z.mod_mod, Z.mod_small; lia).
    rewrite Hr, take_app_length', drop_app_length' by done.
    rewrite length_app, mask_bytes_length.
    destruct (Z.ltb_spec (Z.of_nat (length payload + length rest)) (Z.of_nat (length payload))); [lia|].
    rewrite Nat2Z.id, take_app_length', drop_app_length' by (by rewrite mask_bytes_length).
    pose proof (unmask_mask m 0 payload Hm Hm4 Hp) as Hu. unfold rotate in Hu.
    rewrite Hm4 in Hu. change ((0 mod 4) mod 4)%nat with 0%nat in Hu.
    rewrite take_0, drop_0, app_nil_r in Hu. rewrite Hu.
    by replace ((128 + op) mod 128) with op
      by (rewrite Z.add_mod, Z.mod_same, Z.add_0_l, Z.mod_mod, Z.mod_small; lia).
  - specialize (Hr (payload ++ rest)) as [H7 Hr]. rewrite <-!app_assoc. cbn [Datatypes.app rfc_decode].
    destruct (Z.leb_spec 128 (128 + op)); [|lia]. cbn [negb].
    destruct (Z.leb_spec 128 l7); [lia|]. rewrite (Z.mod_small l7 128), Hr by lia.
    rewrite length_app.
    destruct (Z.ltb_spec (Z.of_nat (length payload + length rest)) (Z.of_nat (length payload))); [lia|].
    rewrite Nat2Z.id, take_app_length, drop_app_length by done.
    by replace ((128 + op) mod 128) with op
      by (rewrite Z.add_mod, Z.mod_same, Z.add_0_l, Z.mod_mod, Z.mod_small; lia).
Qed.

(** ** The frames the client writes *)

(** A buffer of [cap] bytes whose beginning is [s]. *)
Definition fill (cap : Z) (s buf : list Z) : Prop := Z.of_nat (length buf) = cap ∧ buf_has buf s.

Lemma fill_new cap : 0 ≤ cap → fill cap [] (replicate (Z.to_nat cap) 0).
Proof. intros. split; [rewrite length_replicate; lia|]. split; [done|cbn; lia]. Qed.
Lemma fill_write cap s buf off t : fill cap s buf → off = Z.of_nat (length s) →
  Z.of_nat (length (s ++ t)) ≤ cap → ∃ buf', buf_write buf off t = Ret buf' ∧ fill cap (s ++ t) buf'.
Proof.
  intros [Hc Hs] -> Hl. rewrite length_app in Hl.
  destruct (buf_write_app buf s t Hs) as (buf' & -> & Hl' & Hh); [lia|].
  exists buf'. split; [done|]. split; [lia|done].
Qed.
Lemma fill_full s buf : fill (Z.of_nat (length s)) s buf → buf = s.
Proof. intros [Hc [Ht _]]. by rewrite take_ge in Ht by lia. Qed.

Lemma lor_128 v : 0 ≤ v < 128 → Z.lor 128 v = 128 + v.
Proof.
  intros Hv. assert (forallb (λ v, Z.lor 128 v =? 128 + v) (seqZ 0 128) = true) as H by (vm_compute; done).
  rewrite forallb_forall in H. apply Z.eqb_eq, H, list_elem_of_In, elem_of_seqZ. lia.
Qed.

Lemma rfc_frame_length op m payload : length m = 4%nat →
  Z.of_nat (length (rfc_frame op (Some m) payload)) =
  ws_headerlen (Z.of_nat (length payload)) + Z.of_nat (length payload).
Proof.
  intros Hm. unfold rfc_frame, rfc_len, ws_headerlen.
  destruct (Z.ltb_spec (Z.of_nat (length payload)) 126),
    (Z.leb_spec (Z.of_nat (length payload)) 65535), (Z.ltb_spec 125 (Z.of_nat (length payload))),
    (Z.ltb_spec 65535 (Z.of_nat (length payload))); try lia;
    rewrite !length_app, mask_bytes_length, ?be_bytes_length, Hm; cbn [length]; lia.
Qed.

Lemma ws_frame_rfc mask payload : length mask = 4%nat → Z.of_nat (length payload) < MAX_FRAME →
  ws_frame mask payload = Ret (rfc_frame OpCode_BIN (Some mask) payload).
Proof.
  intros Hm Hl. unfold ws_frame. set (len := Z.of_nat (length payload)) in *.
  set (cap := ws_headerlen len + len).
  assert (cap = Z.of_nat (length (rfc_frame OpCode_BIN (Some mask) payload))) as Hcap
    by (symmetry; by apply rfc_frame_length).
  assert (0 ≤ len) by lia.
  assert (fill cap [] (replicate (Z.to_nat cap) 0)) as H0 by (apply fill_new; lia).
  unfold rfc_frame in Hcap |- *. unfold rfc_len in Hcap |- *. fold len in Hcap |- *.
  set (tail := mask ++ mask_bytes mask 0 payload) in *.
  assert (length tail = 4 + length payload)%nat as Ht
    by (unfold tail; by rewrite length_app, mask_bytes_length, Hm).
  assert (∀ s buf, fill cap s buf → cap = Z.of_nat (length (s ++ tail)) →
    (buf ← buf_write buf (Z.of_nat (length s)) mask;
     buf_write buf (Z.of_nat (length s) + 4) (mask_bytes mask 0 payload)) = Ret (s ++ tail)) as Htail.
  { intros s buf Hf Hc. destruct (fill_write cap s buf _ mask Hf eq_refl) as (b1 & -> & H1).
    { rewrite Hc, !length_app. lia. }
    cbn [mbind outcome_bind].
    destruct (fill_write cap _ b1 (Z.of_nat (length s) + 4) (mask_bytes mask 0 payload) H1) as (b2 & -> & H2).
    { rewrite length_app. lia. }
    { rewrite <-app_assoc. fold tail. lia. }
    rewrite <-app_assoc in H2. fold tail in H2. rewrite Hc in H2. by rewrite (fill_full _ _ H2). }
  destruct (fill_write cap [] _ 0 [130] H0 eq_refl) as (b1 & Hb1 & H1).
  { rewrite Hcap. repeat case_if; rewrite !length_app; cbn; lia. }
  change (Z.lor WS_FIN OpCode_BIN) with 130. rewrite Hb1. cbn [mbind outcome_bind].
  change (128 + OpCode_BIN) with 130 in *.
  destruct (Z.ltb_spec len 126) as [Ha|Ha]; [|destruct (Z.leb_spec len 65535) as [Hb|Hb]].
  - unfold WS_MASK. rewrite u8_small, (lor_128 len) by lia.
    destruct (fill_write cap _ b1 1 [128 + len] H1 eq_refl) as (b2 & -> & H2).
    { rewrite Hcap, !length_app. cbn. lia. }
    exact (Htail _ _ H2 Hcap).
  - destruct (fill_write cap _ b1 1 [254] H1 eq_refl) as (b2 & Hb2 & H2).
    { rewrite Hcap, !length_app. cbn. lia. }
    change (Z.lor WS_MASK 126) with 254. rewrite Hb2. cbn [mbind outcome_bind].
    rewrite u16_small by lia.
    destruct (fill_write cap _ b2 2 (be_bytes 2 len) H2 eq_refl) as (b3 & -> & H3).
    { rewrite Hcap, !length_app. cbn. lia. }
    specialize (Htail _ _ H3). rewrite <-!app_assoc in Htail. exact (Htail Hcap).
  - destruct (fill_write cap _ b1 1 [255] H1 eq_refl) as (b2 & Hb2 & H2).
    { rewrite Hcap, !length_app. cbn. lia. }
    change (Z.lor WS_MASK 127) with 255. rewrite Hb2. cbn [mbind outcome_bind].
    destruct (fill_write cap _ b2 2 (be_bytes 8 len) H2 eq_refl) as (b3 & -> & H3).
    { rewrite Hcap, !length_app. cbn. lia. }
    specialize (Htail _ _ H3). rewrite <-!app_assoc in Htail. exact (Htail Hcap).
Qed.

(** ** The frames the client reads *)

Lemma mem_rd_app pre b post : mem_rd (pre ++ b :: post) (length pre) = Ret b.
Proof. unfold mem_rd. rewrite lookup_app_r, Nat.sub_diag by lia. done. Qed.

Lemma mem_rds_app l : ∀ pre post, mem_rds (pre ++ l ++ post) (length pre) (length l) = Ret l.
Proof.
  induction l as [|b l IH]; intros pre post; cbn [mem_rds length]; [done|].
  cbn [Datatypes.app]. rewrite mem_rd_app. cbn [mbind outcome_bind].
  specialize (IH (pre ++ [b]) post). rewrite length_app, <-app_assoc in IH. cbn in IH.
  replace (length pre + 1)%nat with (S (length pre)) in IH by lia. by rewrite IH.
Qed.

Lemma land_len v : 0 ≤ v < 128 → Z.land (u32 (schar v)) (4294967295 - WS_MASK) = v ∧ Z.land v WS_MASK = 0.
Proof.
  intros Hv. assert (forallb (λ v, (Z.land (u32 (schar v)) (4294967295 - WS_MASK) =? v) && (Z.land v WS_MASK =? 0))
    (seqZ 0 128) = true) as H by (vm_compute; done).
  rewrite forallb_forall in H. specialize (H v ltac:(apply list_elem_of_In, elem_of_seqZ; lia)). lia.
Qed.
Lemma land_op op : 0 ≤ op < 16 → Z.land (128 + op) WS_OP_BITS = op.
Proof.
  intros Hv. assert (forallb (λ v, Z.land (128 + v) WS_OP_BITS =? v) (seqZ 0 16) = true) as H by (vm_compute; done).
  rewrite forallb_forall in H. apply Z.eqb_eq, H, list_elem_of_In, elem_of_seqZ. lia.
Qed.

(** The offset of the payload of an unmasked frame. *)
Definition payload_off (len : Z) : nat := if len <? 126 then 2 else if len <=? 65535 then 4 else 10.

Lemma rfc_frame_split op payload : ∃ hdr, rfc_frame op None payload = hdr ++ payload ∧
  length hdr = payload_off (Z.of_nat (length payload)).
Proof.
  unfold rfc_frame, rfc_len, payload_off. destruct (_ <? 126); [|destruct (_ <=? 65535)].
  - by exists [128 + op; Z.of_nat (length payload)].
  - exists ([128 + op; 126] ++ be_bytes 2 (Z.of_nat (length payload))). rewrite <-app_assoc.
    split; [done|]. by rewrite length_app, be_bytes_length.
  - exists ([128 + op; 127] ++ be_bytes 8 (Z.of_nat (length payload))). rewrite <-app_assoc.
    split; [done|]. by rewrite length_app, be_bytes_length.
Qed.

Lemma parse_frame_unmasked pre op payload post : 0 ≤ op < 16 → Z.of_nat (length payload) < MAX_FRAME →
  parse_frame (pre ++ rfc_frame op None payload ++ post) (length pre) =
  Ret (mkfh op false (Z.of_nat (length payload)) (length pre + payload_off (Z.of_nat (length payload))) [0; 0; 0; 0]).
Proof.
  intros Hop Hl. set (len := Z.of_nat (length payload)) in *. assert (0 ≤ len) by lia.
  unfold parse_frame, rfc_frame, rfc_len, payload_off. fold len.
  set (r := if len <? 126 then _ else _).
  assert (0 ≤ r.1 < 128) as Hr by (subst r; repeat case_if; cbn; lia).
  assert (∀ tail, (128 + op :: r.1 :: tail) = [128 + op] ++ r.1 :: tail) as Hs by done.
  destruct (land_len r.1 Hr) as [Hlen Hmask].
  assert ((let '(l7, ext) := r in [128 + op; l7] ++ ext ++ payload) = 128 + op :: r.1 :: r.2 ++ payload)
    as -> by (by destruct r). cbn [Datatypes.app]. rewrite mem_rd_app. cbn [mbind outcome_bind].
  rewrite Hs, (app_assoc pre) at 1.
  replace (length pre + 1)%nat with (length (pre ++ [128 + op])) at 1 by (rewrite length_app; done).
  rewrite mem_rd_app. cbn [mbind outcome_bind]. rewrite land_op, Hlen, Hmask by done. cbn [Z.eqb negb].
  assert (∀ n, length r.2 = n → mem_rds (pre ++ 128 + op :: r.1 :: (r.2 ++ payload) ++ post) (length pre + 2) n
          = Ret r.2) as Hext.
  { intros n <-. replace (pre ++ 128 + op :: r.1 :: (r.2 ++ payload) ++ post)
      with ((pre ++ [128 + op; r.1]) ++ r.2 ++ payload ++ post) by (by rewrite <-!app_assoc).
    replace (length pre + 2)%nat with (length (pre ++ [128 + op; r.1])) by (by rewrite length_app).
    apply mem_rds_app. }
  subst r. destruct (Z.ltb_spec len 126) as [Ha|Ha]; [|destruct (Z.leb_spec len 65535) as [Hb|Hb]]; cbn [fst snd] in *.
  - destruct (Z.eqb_spec len 126), (Z.eqb_spec len 127); try lia. done.
  - cbn [Z.eqb Pos.eqb]. rewrite Hext by apply be_bytes_length. cbn [mbind outcome_bind].
    unfold MAX_FRAME in *. rewrite be_roundtrip by (cbn; lia). done.
  - cbn [Z.eqb Pos.eqb]. rewrite Hext by apply be_bytes_length. cbn [mbind outcome_bind].
    unfold MAX_FRAME in *. rewrite be_roundtrip by (cbn; lia). done.
Qed.

(** The copy to the front of the buffer: [dp] stays ahead of the write position. *)
Lemma unmask_loop_spec pre payload post : bytes_ok payload → pre ≠ [] →
  ∀ k fuel, (k <= length payload)%nat → (k <= fuel)%nat →
  let i := (length payload - k)%nat in
  unmask_loop fuel (take i payload ++ drop i (pre ++ payload ++ post)) [0; 0; 0; 0]
    (length pre) i (Z.of_nat (length payload)) =
  Ret (payload ++ drop (length payload) (pre ++ payload ++ post)).
Proof.
  intros Hb Hpre. set (mem := pre ++ payload ++ post).
  induction k as [|k IH]; intros fuel Hk Hf i.
  { assert (i = length payload) as -> by lia. rewrite take_ge by lia.
    destruct fuel; cbn [unmask_loop]; by rewrite Z.leb_refl. }
  destruct fuel as [|fuel]; [lia|]. cbn [unmask_loop].
  assert (i < length payload)%nat as Hi by lia.
  destruct (Z.leb_spec (Z.of_nat (length payload)) (Z.of_nat i)); [lia|].
  destruct (lookup_lt_is_Some_2 payload i Hi) as [b Hbi].
  assert (0 < length pre)%nat by (destruct pre; [done|cbn; lia]).
  assert (i < length mem)%nat as Him by (unfold mem; rewrite !length_app; lia).
  assert (length (take i payload) = i) as Hti by (rewrite length_take; lia).
  assert (mem_rd (take i payload ++ drop i mem) (length pre + i) = Ret b) as ->.
  { unfold mem_rd. rewrite lookup_app_r, Hti, lookup_drop by lia.
    replace (i + (length pre + i - i))%nat with (length pre + i)%nat by lia.
    unfold mem. rewrite lookup_app_r by lia. replace (length pre + i - length pre)%nat with i by lia.
    rewrite lookup_app_l by lia. by rewrite Hbi. }
  cbn [mbind outcome_bind].
  assert (nth (i mod 4) [0; 0; 0; 0] 0 = 0) as ->.
  { generalize (i mod 4)%nat. intros j. do 5 (destruct j as [|j]; [done|]). done. }
  rewrite Z.lxor_0_r, u8_small by (by apply (Forall_lookup_1 _ _ _ _ Hb Hbi)).
  assert (buf_write (take i payload ++ drop i mem) (Z.of_nat i) [b] = Ret (take (S i) payload ++ drop (S i) mem)) as ->.
  { unfold buf_write. rewrite length_app, Hti, length_drop. cbn [length].
    destruct (Z.leb_spec 0 (Z.of_nat i)); [|lia].
    destruct (Z.leb_spec (Z.of_nat i + Z.of_nat 1) (Z.of_nat (i + (length mem - i)))); [|lia]. cbn [andb].
    rewrite Nat2Z.id, take_app_length' by done. rewrite drop_app_ge, Hti, drop_drop by lia.
    replace (i + (i + 1 - i))%nat with (S i) by lia.
    by rewrite (take_S_r _ _ _ Hbi), <-app_assoc. }
  cbn [mbind outcome_bind]. specialize (IH fuel ltac:(lia) ltac:(lia)). cbn in IH.
  by replace (length payload - k)%nat with (S i) in IH by lia.
Qed.

Lemma rfc_frame_payload_off pre op payload post :
  ∃ hdr, pre ++ rfc_frame op None payload ++ post = (pre ++ hdr) ++ payload ++ post ∧
    length (pre ++ hdr) = (length pre + payload_off (Z.of_nat (length payload)))%nat ∧ pre ++ hdr ≠ [].
Proof.
  destruct (rfc_frame_split op payload) as (hdr & -> & Hh). exists hdr.
  rewrite <-!app_assoc, length_app, Hh. split_and!; [done..|].
  assert (0 < length hdr)%nat by (rewrite Hh; unfold payload_off; repeat case_if; lia).
  destruct hdr; [cbn in *; lia|]. by destruct pre.
Qed.

Section WsTheorems.
Context `{ZL : Zlib} `{LL : LLHttp} `{UV : UvErr}.
Context (zenv : zlib_env) (fuel : nat) (link_write_rc : list event → Z).
Abbreviation S := (hstate tlsuv_websocket_t).
Implicit Types s : S.

(** C6: data written to a WebSocket arrives: for an open socket the bytes put on the
    wire are one masked, final, binary frame, stored without leaving its buffer,
    which a conforming server reads as exactly the data, whatever follows. *)
Theorem ws_write_roundtrip app wr mask payload s :
  w_closed (rest s) = false → bytes_ok payload → bytes_ok mask → length mask = 4%nat →
  Z.of_nat (length payload) < MAX_FRAME →
  ∃ rc s' frame, tlsuv_websocket_write app link_write_rc wr mask payload s = Ret (rc, s') ∧
    log s' = log s ++ [EvWrite frame] ∧ rest s' = rest s ∧
    ∀ more, rfc_decode (frame ++ more) = Some (OpCode_BIN, true, payload, more).
Proof.
  intros Hc Hp Hm H4 Hl. unfold tlsuv_websocket_write, mbind, M_bind, liftO, wsock, gets.
  rewrite Hc, ws_frame_rfc by done. eexists _, _, _. split; [reflexivity|]. split_and!; [done..|].
  intros more. by rewrite (rfc_roundtrip OpCode_BIN (Some mask)).
Qed.

(** A complete data frame at offset [length pre] of the buffer. *)
Lemma frame_in_exact mask pre op payload post s :
  0 ≤ op < 16 → op = OpCode_TXT ∨ op = OpCode_BIN → bytes_ok payload → Z.of_nat (length payload) < MAX_FRAME →
  ws_frame_in observer link_write_rc mask (pre ++ rfc_frame op None payload ++ post) (length pre) s =
  Ret (tt, s <| log := log s ++ [EvReadCb (Z.of_nat (length payload)) payload] |>).
Proof.
  intros Hr Hop Hp Hl. unfold ws_frame_in, mbind, M_bind, liftO.
  rewrite parse_frame_unmasked by done. cbn [fh_op fh_len fh_dp fh_mask].
  assert ((op =? OpCode_TXT) || (op =? OpCode_BIN) = true) as -> by (destruct Hop as [-> | ->]; done).
  destruct (rfc_frame_payload_off pre op payload post) as (hdr & E & Hlen & Hne). rewrite E, <-Hlen.
  pose proof (unmask_loop_spec (pre ++ hdr) payload post Hp Hne (length payload)
    (Datatypes.S (length ((pre ++ hdr) ++ payload ++ post))) ltac:(lia)) as Hu.
  cbn zeta in Hu. rewrite Nat.sub_diag, drop_0 in Hu. change (take 0 payload) with (@nil Z) in Hu.
  rewrite app_nil_l in Hu. rewrite Hu by (rewrite !length_app; lia).
  unfold call_app, emit, observer, modify, mbind, M_bind, mret, M_ret. rewrite Nat2Z.id, take_app_length.
  unfold MAX_FRAME in Hl. replace (i64 (Z.of_nat (length payload))) with (Z.of_nat (length payload))
    by (unfold i64; rewrite Z.mod_small; lia). done.
Qed.

(** A text or binary frame of the server that lies completely in the read buffer
    is delivered to the application exactly: its payload, moved to the front of the
    buffer, and its length; no access leaves the buffer. *)
Theorem ws_delivers_frame mask op payload post s :
  w_conn_req (rest s) = false → op = OpCode_TXT ∨ op = OpCode_BIN → bytes_ok payload →
  Z.of_nat (length payload) < MAX_FRAME →
  let mem := rfc_frame op None payload ++ post in
  let nread := Z.of_nat (length (rfc_frame op None payload)) in
  ws_read_cb zenv fuel observer link_write_rc mask nread mem s =
  Ret (tt, s <| log := log s ++ [EvReadCb (Z.of_nat (length payload)) payload] |>).
Proof.
  intros Hc Hop Hp Hl mem nread. assert (0 ≤ op < 16) as Hr by (unfold OpCode_TXT, OpCode_BIN in Hop; lia).
  assert (0 < nread) as Hn.
  { destruct (rfc_frame_split op payload) as (hdr & E & Hh). unfold nread. rewrite E, length_app, Hh.
    unfold payload_off. repeat case_if; lia. }
  unfold ws_read_cb. destruct (Z.ltb_spec nread 0); [lia|].
  unfold ws_handshake, mbind, M_bind, wsock, gets. rewrite Hc. cbn [negb mret M_ret orb].
  destruct (Z.eqb_spec 0 nread); [lia|]. exact (frame_in_exact mask [] op payload post s Hr Hop Hp Hl).
Qed.
End WsTheorems.

(** ** The upgrade *)

Section Upgrade.
Context `{ZL : Zlib} `{LL : LLHttp} `{UV : UvErr}.
Context (zenv : zlib_env) (fuel : nat) (link_write_rc : list event → Z).
Abbreviation S := (hstate tlsuv_websocket_t).
Implicit Types s : S.

(** The upgrade request has no callbacks: its response is only recorded. *)
Lemma run_silent {X} (app : event → M (hstate X) unit) p r l code major minor status hdrs :
  r_resp_cb r = None → r_inflater r = None → rs_body_cb (r_resp r) = None →
  rs_headers (r_resp r) = [] → rs_curr_header (r_resp r) = None →
  cstr_ok status → Forall hdr_ok hdrs →
  tlsuv_http_resp_header (received hdrs) (bs "content-encoding") = None →
  triple p r l (run_events zenv fuel app p (response_events code major minor status hdrs []))
    (answered None r code major minor status hdrs) l.
Proof.
  intros Hcb Hinf Hb Hh Hc Hst Hok Hce. unfold response_events, answered.
  destruct r as [? ? ? ? ? ? ? ? ? ? ? ? ? [? ? ? ? ? ?]]. cbn in Hcb, Hinf, Hh, Hc, Hb. subst.
  eapply triple_events; [apply triple_modify|]. cbn -[bs]. rewrite strndup_all by (done || lia).
  apply run_headers; [done..|]. cbn -[bs]. rewrite app_nil_r. fold (received hdrs).
  eapply triple_events.
  { cbn -[bs]. eapply triple_seq; [apply triple_modify|]. apply triple_get. cbn -[bs]. rewrite Hce.
    cbn -[bs]. eapply triple_seq; [apply triple_ret|]. apply triple_get. cbn -[bs].
    eapply triple_seq; [apply triple_ret|]. apply triple_get. apply triple_ret. }
  cbn -[bs]. eapply triple_events; [|apply triple_ret].
  cbn -[bs]. eapply triple_seq; [apply triple_modify|]. apply triple_get. cbn. apply triple_ret.
Qed.

Lemma process_silent {X} (app : event → M (hstate X) unit) p r buf err parser code major minor status hdrs (s : hstate X) :
  reqs s !! p = Some r →
  llhttp_execute (r_parser r) buf = (response_events code major minor status hdrs [], err, parser) →
  (err = HPE_OK ∨ ∃ pos, err = HPE_PAUSED_UPGRADE pos) →
  r_resp_cb r = None → r_inflater r = None → rs_body_cb (r_resp r) = None →
  rs_headers (r_resp r) = [] → rs_curr_header (r_resp r) = None →
  cstr_ok status → Forall hdr_ok hdrs →
  tlsuv_http_resp_header (received hdrs) (bs "content-encoding") = None →
  wp (http_req_process zenv fuel app p buf) (λ n (s' : hstate X), n = processed err buf ∧ log s' = log s ∧
    ∃ r', reqs s' !! p = Some r' ∧ r_state r' = completed ∧ rs_code (r_resp r') = code ∧ r_inflater r' = None) s.
Proof.
  intros Hr Hx Herr. intros. unfold http_req_process. wp_simpl. apply (wp_req_get p r); [done|]. rewrite Hx.
  wp_call (by apply (run_silent app p r (log s))). intros [] s1 [Hr1 Hl1].
  wp_simpl. apply (wp_req_modify p _ _ _ _ Hr1).
  destruct Herr as [-> | [pos ->]]; wp_simpl.
  - split; [done|]. split; [done|]. eexists. split; [apply reqs_put|]. done.
  - eapply wp_req_modify; [apply reqs_put|]. wp_simpl. split; [done|]. split; [done|].
    eexists. split; [apply reqs_put|]. done.
Qed.

(** The client waits for the answer to its upgrade request [p]. *)
Definition upgrading (p : rid) (r : tlsuv_http_req_s) s : Prop :=
  reqs s !! p = Some r ∧ w_req (rest s) = Some p ∧ w_conn_req (rest s) = true ∧
  r_resp_cb r = None ∧ r_inflater r = None ∧ rs_body_cb (r_resp r) = None ∧
  rs_headers (r_resp r) = [] ∧ rs_curr_header (r_resp r) = None.

Lemma stable_observer {X} (P : X → Prop) ev : stable P (observer ev).
Proof. apply stable_ret. Qed.

Lemma handshake_spec p r mem nread err parser code major minor status hdrs s :
  upgrading p r s →
  llhttp_execute (r_parser r) (take (Z.to_nat nread) mem) =
    (response_events code major minor status hdrs [], err, parser) →
  (err = HPE_OK ∨ ∃ pos, err = HPE_PAUSED_UPGRADE pos) →
  0 ≤ processed err (take (Z.to_nat nread) mem) →
  cstr_ok status → Forall hdr_ok hdrs →
  tlsuv_http_resp_header (received hdrs) (bs "content-encoding") = None →
  wp (ws_handshake zenv fuel observer nread mem) (λ '(n, failed) s',
    n = processed err (take (Z.to_nat nread) mem) ∧ failed = negb (code =? 101) ∧
    log s' = log s ++ [EvConnectCb (if code =? 101 then 0 else -1)] ∧
    reqs s' !! p = None ∧ w_req (rest s') = None ∧ w_conn_req (rest s') = false) s.
Proof.
  intros (Hr & Hq & Hc & Hcb & Hi & Hb & Hh & Hch) Hx Herr Hpos Hst Hok Hce.
  unfold ws_handshake. wp_simpl. unfold wsock. wp_simpl. rewrite Hc, Hq. cbn [negb]. wp_simpl.
  pose proof (process_silent observer p r _ err parser code major minor status hdrs s Hr Hx Herr
    Hcb Hi Hb Hh Hch Hst Hok Hce) as Hp.
  apply wp_run in Hp as (n & s1 & Hp & -> & Hl1 & r1 & Hr1 & Hs1 & Hcode & Hi1).
  pose proof (stable_process (λ w, w = rest s) observer (stable_observer _) zenv fuel p _ s _ s1 Hp eq_refl) as Hrest.
  unfold wp at 1. rewrite Hp. destruct (Z.ltb_spec (processed err (take (Z.to_nat nread) mem)) 0); [lia|].
  wp_simpl. rewrite Hrest, Hq. wp_simpl. apply (wp_req_get p r1); [done|].
  rewrite bool_decide_eq_true_2 by done. wp_simpl. unfold call_app, emit, observer. wp_simpl.
  unfold set_ws. wp_simpl. unfold drop_req, wsock. wp_simpl. cbn [rest update_with w_req]. rewrite Hrest, Hq.
  unfold http_req_free. wp_simpl. apply (wp_req_get p r1); [done|]. rewrite Hi1.
  unfold liftO at 1, wp at 1. cbn beta iota. cbn [fmap option_fmap option_map um_free_inflater].
  apply (wp_req_dealloc p r1); [done|]. unfold set_ws. wp_simpl. cbn. rewrite Hl1, Hcode, lookup_delete_eq. done.
Qed.

(** C7: the upgrade handshake.  When llhttp reports the server's answer complete, the
    connect callback is called exactly once, with 0 for status 101 and -1 otherwise,
    and the upgrade request is released; a frame that followed the answer in the same
    read is delivered next, from the position where the answer ended. *)
Theorem ws_upgrade mask p r resp op payload post parser major minor status hdrs s :
  upgrading p r s → bytes_ok payload → Z.of_nat (length payload) < MAX_FRAME →
  op = OpCode_TXT ∨ op = OpCode_BIN →
  let frame := rfc_frame op None payload in
  let nread := Z.of_nat (length (resp ++ frame)) in
  llhttp_execute (r_parser r) (resp ++ frame) =
    (response_events 101 major minor status hdrs [], HPE_PAUSED_UPGRADE (Z.of_nat (length resp)), parser) →
  cstr_ok status → Forall hdr_ok hdrs →
  tlsuv_http_resp_header (received hdrs) (bs "content-encoding") = None →
  ∃ s', ws_read_cb zenv fuel observer link_write_rc mask nread (resp ++ frame ++ post) s = Ret (tt, s') ∧
    log s' = log s ++ [EvConnectCb 0; EvReadCb (Z.of_nat (length payload)) payload] ∧
    reqs s' !! p = None ∧ w_conn_req (rest s') = false.
Proof.
  intros Hup Hp Hl Hop frame nread Hx Hst Hok Hce.
  assert (0 ≤ op < 16) as Hr by (unfold OpCode_TXT, OpCode_BIN in Hop; lia).
  assert (take (Z.to_nat nread) (resp ++ frame ++ post) = resp ++ frame) as Htake
    by (unfold nread; rewrite Nat2Z.id, app_assoc; apply take_app_length).
  pose proof (handshake_spec p r (resp ++ frame ++ post) nread
    (HPE_PAUSED_UPGRADE (Z.of_nat (length resp))) parser 101 major minor status hdrs s Hup) as Hh.
  rewrite Htake in Hh. specialize (Hh Hx (or_intror (ex_intro _ _ eq_refl)) ltac:(cbn; lia) Hst Hok Hce).
  apply wp_run in Hh as ([n failed] & s1 & Hrun & Hn & Hf & Hl1 & Hr1 & _ & Hc1).
  cbn in Hn, Hf, Hl1. subst n failed. destruct (rfc_frame_payload_off resp op payload post) as (hdr & E & Hlen & Hne).
  assert (0 < length frame)%nat as Hfr.
  { destruct (rfc_frame_split op payload) as (h0 & E0 & Hh0). unfold frame. rewrite E0, length_app, Hh0.
    unfold payload_off. repeat case_if; lia. }
  exists (s1 <| log := log s1 ++ [EvReadCb (Z.of_nat (length payload)) payload] |>).
  split; [|split_and!; [cbn; by rewrite Hl1, <-app_assoc|done|done]].
  unfold ws_read_cb. destruct (Z.ltb_spec nread 0); [unfold nread in *; lia|].
  unfold mbind at 1, M_bind at 1. rewrite Hrun. cbn [orb].
  destruct (Z.eqb_spec (Z.of_nat (length resp)) nread) as [Heq|_]; [unfold nread in Heq; rewrite length_app in Heq; lia|].
  rewrite Nat2Z.id. by apply frame_in_exact.
Qed.
End Upgrade.

(** ** The key, pings and closing *)

(** The base64 alphabet. *)
Definition base64_char (c : Z) : Prop :=
  65 ≤ c ≤ 90 ∨ 97 ≤ c ≤ 122 ∨ 48 ≤ c ≤ 57 ∨ c = 43 ∨ c = 47.

Lemma key_char_ok r : base64_char (key_char r).
Proof.
  unfold key_char, base64_char. pose proof (Z.land_nonneg r 63) as Hn.
  assert (0 ≤ Z.land r 63 < 64) as Hv.
  { change 63 with (Z.ones 6). rewrite Z.land_ones by lia. apply Z.mod_pos_bound. lia. }
  repeat case_if; lia.
Qed.

(** C40: the key of the upgrade request is well formed for any random numbers: 22
    characters of the base64 alphabet and two padding characters. *)
Theorem ws_key_wellformed rnd : (22 <= length rnd)%nat →
  ∃ body, ws_key rnd = body ++ bs "==" ∧ length body = 22%nat ∧ Forall base64_char body.
Proof.
  intros Hl. exists (map key_char (take 22 rnd)). split; [done|]. split.
  - rewrite length_map, length_take. lia.
  - apply Forall_forall. intros c Hc%list_elem_of_In. apply in_map_iff in Hc as (r & <- & _). apply key_char_ok.
Qed.

Lemma ws_key_wellformed_witness :
  ∃ body, ws_key (seqZ 40 22) = body ++ bs "==" ∧ length body = 22%nat ∧ Forall base64_char body.
Proof. apply (ws_key_wellformed (seqZ 40 22)). vm_compute. lia. Defined.

(** An empty ping is answered with an empty pong. *)
Lemma pong_empty mask data : length mask = 4%nat → bytes_ok mask →
  pong_frame mask data 0 = Ret (rfc_frame OpCode_Pong (Some mask) []).
Proof.
  intros Hm Hb. destruct mask as [|a [|b [|c [|d [|]]]]]; try done.
Qed.

(** A ping with data overflows the heap: the loop writes [2 + 4 + len] bytes after the
    6 bytes of the header into a buffer of [2 + 4 + len] bytes. *)
Theorem ping_with_data_overflows mask data len : 0 < len < 2147483640 → length mask = 4%nat →
  pong_frame mask data len = Fault OutOfBounds.
Proof.
  intros Hlen Hm. unfold pong_frame. set (cap := 2 + 4 + len).
  assert (fill cap [] (replicate (Z.to_nat cap) 0)) as H0 by (apply fill_new; lia).
  destruct (fill_write cap [] _ 0 [Z.lor WS_FIN OpCode_Pong] H0 eq_refl) as (b1 & -> & H1); [cbn; lia|].
  cbn [mbind outcome_bind].
  destruct (fill_write cap _ b1 1 [Z.lor WS_MASK (Z.land 127 len)] H1 eq_refl) as (b2 & -> & H2); [cbn; lia|].
  cbn [mbind outcome_bind].
  destruct (fill_write cap _ b2 2 mask H2 eq_refl) as (b3 & -> & [H3 _]); [rewrite !length_app, Hm; cbn; lia|].
  cbn [mbind outcome_bind]. destruct (Z.ltb_spec 0 len); [|lia].
  destruct (Z.ltb_spec (Z.of_nat (length data)) cap); [done|]. unfold buf_write.
  rewrite mask_bytes_length, length_take, H3.
  destruct (Z.leb_spec (6 + Z.of_nat (Z.to_nat cap `min` length data)) cap); [lia|]. by rewrite andb_false_r.
Qed.

(** A masked frame (a client must not get one, but the code handles masks) is given a
    length of about 4 GB: the sign of [frame[1]] is extended. *)
Theorem masked_frame_length_wrong :
  parse_frame ([130; 128 + 5] ++ [1; 2; 3; 4] ++ bs "hello") 0 =
  Ret (mkfh OpCode_BIN true 4294967045 6 [1; 2; 3; 4]).
Proof. vm_compute. reflexivity. Qed.

Section WsClose.
Context `{ZL : Zlib} `{LL : LLHttp} `{UV : UvErr}.
Context (zenv : zlib_env) (Hz : ∀ sy, sym_loaded zenv sy = true).
Implicit Types s : hstate tlsuv_websocket_t.

Lemma drop_req_exact s : (∀ p, w_req (rest s) = Some p → is_Some (reqs s !! p)) →
  wp (drop_req zenv) (λ _ s', log s' = log s ∧ rest s' = (rest s) <| w_req := None |> ∧
    reqs s' = match w_req (rest s) with Some p => delete p (reqs s) | None => reqs s end) s.
Proof.
  intros Hlive. unfold drop_req, wsock, set_ws. wp_simpl. destruct (w_req (rest s)) as [p|].
  - destruct (Hlive p eq_refl) as [r Hr]. unfold http_req_free. wp_simpl. apply (wp_req_get p r); [done|].
    assert (um_free_inflater zenv (fst <$> r_inflater r) = Ret tt) as ->.
    { destruct (r_inflater r); cbn; [|done]. by rewrite Hz. }
    unfold liftO at 1, wp at 1. cbn beta iota. apply (wp_req_dealloc p r); [done|]. by wp_simpl.
  - by wp_simpl.
Qed.

(** closing a WebSocket releases everything it holds.  When the close completes
    the upgrade request, the host name, the TLS engine and the source are released,
    each once, the socket is closed, and the application's callback has been called,
    provided the socket was not closed before. *)
Theorem ws_close_releases s :
  (∀ p, w_req (rest s) = Some p → is_Some (reqs s !! p)) →
  (is_Some (w_engine (rest s)) → is_Some (w_tls (rest s))) →
  ∃ s', on_ws_close zenv observer s = Ret (tt, s') ∧
    w_req (rest s') = None ∧ w_host (rest s') = None ∧ w_engine (rest s') = None ∧
    w_src (rest s') = false ∧ w_closed (rest s') = true ∧
    (∀ p, w_req (rest s) = Some p → reqs s' !! p = None) ∧
    log s' = log s ++
      (if negb (w_closed (rest s)) && w_close_cb (rest s) then [EvClientClosed] else []) ++
      (if bool_decide (is_Some (w_engine (rest s))) then [EvFreeEngine] else []) ++
      (if w_src (rest s) then [EvSrcCancel] else []).
Proof.
  intros Hlive Htls. set (cb := negb (w_closed (rest s)) && w_close_cb (rest s)).
  assert (wp (on_ws_close zenv observer) (λ _ s',
    w_req (rest s') = None ∧ w_host (rest s') = None ∧ w_engine (rest s') = None ∧
    w_src (rest s') = false ∧ w_closed (rest s') = true ∧
    (∀ p, w_req (rest s) = Some p → reqs s' !! p = None) ∧
    log s' = log s ++ (if cb then [EvClientClosed] else []) ++
      (if bool_decide (is_Some (w_engine (rest s))) then [EvFreeEngine] else []) ++
      (if w_src (rest s) then [EvSrcCancel] else [])) s) as Hw.
  { unfold on_ws_close. wp_simpl. unfold wsock at 1. wp_simpl. fold cb.
    apply (wp_mono _ (λ _ s1, s1 = s <| log := log s ++ (if cb then [EvClientClosed] else []) |>)).
    { destruct cb; unfold when; [done|]. wp_simpl. rewrite app_nil_r. by destruct s. }
    intros [] s1 ->. wp_simpl. eapply wp_mono; [by apply drop_req_exact|].
    intros [] s2 (Hl2 & Hc2 & Hr2). cbn in Hl2, Hc2, Hr2. unfold set_ws, wsock, when, emit. wp_simpl.
    cbn [rest update_with w_tls w_engine]. rewrite Hc2. cbn [rest update_with w_tls w_engine w_src].
    assert (∀ p, w_req (rest s) = Some p → reqs s2 !! p = None) as Hgone
      by (intros p Hp; rewrite Hr2, Hp; apply lookup_delete_eq).
    destruct (w_engine (rest s)) as [e|] eqn:He.
    - destruct (Htls ltac:(done)) as [t Ht]. rewrite Ht. rewrite !bool_decide_eq_true_2 by done. cbn [andb]. wp_simpl.
      cbn [rest update_with w_src]. rewrite ?Hc2. cbn [rest update_with w_src].
      destruct (w_src (rest s)) eqn:Hs; wp_simpl; cbn; rewrite Hl2, ?Hc2, <-?app_assoc; cbn; rewrite ?He, ?Hs; done.
    - rewrite (bool_decide_eq_false_2 (is_Some (@None (list Z)))) by (by intros []). rewrite andb_false_r. wp_simpl.
      cbn [rest update_with w_src]. rewrite ?Hc2. cbn [rest update_with w_src].
      destruct (w_src (rest s)) eqn:Hs; wp_simpl; cbn; rewrite Hl2, ?Hc2, <-?app_assoc; cbn; rewrite ?He, ?Hs, ?app_nil_r; done. }
  apply wp_run in Hw as ([] & s' & Hrun & ?). by exists s'.
Qed.
End WsClose.

(** ** Witnesses *)

#[local] Existing Instance ToyHttp.zlib.
#[local] Existing Instance ToyHttp.uv.
#[local] Existing Instance ToyHttp.parser.

Definition ws_open : tlsuv_websocket_t := mkws None (Some (bs "h")) false true true None None false true.
Definition ws_open_state : hstate tlsuv_websocket_t := mkh ∅ [] ws_open.

Lemma ws_write_roundtrip_witness :
  ∃ rc s' frame,
    tlsuv_websocket_write observer (λ _, 0) 1 [1; 2; 3; 250] (bs "hello") ws_open_state = Ret (rc, s') ∧
    log s' = [EvWrite frame] ∧ rest s' = ws_open ∧
    ∀ more, rfc_decode (frame ++ more) = Some (OpCode_BIN, true, bs "hello", more).
Proof.
  apply (ws_write_roundtrip (λ _, 0) observer 1 [1; 2; 3; 250] (bs "hello") ws_open_state);
    [reflexivity| | |reflexivity|reflexivity]; apply (bool_decide_unpack (bytes_ok _)); vm_compute; exact I.
Defined.

Lemma ws_delivers_frame_witness :
  ws_read_cb ToyZlib.env 5 observer (λ _, 0) [1; 2; 3; 4] 7 (rfc_frame OpCode_TXT None (bs "hello") ++ [0; 0]) ws_open_state =
  Ret (tt, ws_open_state <| log := [EvReadCb 5 (bs "hello")] |>).
Proof.
  apply (ws_delivers_frame ToyZlib.env 5 (λ _, 0) [1; 2; 3; 4] OpCode_TXT (bs "hello") [0; 0] ws_open_state);
    [reflexivity|left; reflexivity| |reflexivity]. apply (bool_decide_unpack (bytes_ok _)); vm_compute; exact I.
Defined.

(** A socket whose upgrade request 1 was sent; the server's answer is the next entry of
    the parser's script. *)
Definition ws_upgrading (script : @llhttp_t ToyHttp.parser) : hstate tlsuv_websocket_t :=
  mkh {[ 1 := http_req_init req_zero (bs "GET") (bs "/") <| r_parser := script |> ]} []
    (mkws (Some 1) (Some (bs "h")) true true true None None false true).
Definition switching : list llhttp_event :=
  response_events 101 1 1 (bs "Switching Protocols") [(bs "Upgrade", bs "websocket")] [].

Lemma ws_upgrade_witness :
  let s := ws_upgrading [(switching, HPE_PAUSED_UPGRADE 3)] in
  ∃ s', ws_read_cb ToyZlib.env 5 observer (λ _, 0) [1; 2; 3; 4] 10
          (bs "RSP" ++ rfc_frame OpCode_BIN None (bs "hello") ++ [0]) s = Ret (tt, s') ∧
    log s' = [EvConnectCb 0; EvReadCb 5 (bs "hello")] ∧ reqs s' !! 1 = None ∧ w_conn_req (rest s') = false.
Proof.
  intros s. eapply (ws_upgrade ToyZlib.env 5 (λ _, 0) [1; 2; 3; 4] 1 _ (bs "RSP") OpCode_BIN (bs "hello") [0]
    ([] : @llhttp_t ToyHttp.parser) 1 1 (bs "Switching Protocols") [(bs "Upgrade", bs "websocket")] s).
  - split_and!; reflexivity.
  - apply (bool_decide_unpack (bytes_ok _)); vm_compute; exact I.
  - reflexivity.
  - right. reflexivity.
  - reflexivity.
  - repeat constructor; discriminate.
  - repeat constructor; discriminate.
  - reflexivity.
Defined.

Lemma ws_close_releases_witness :
  let s := mkh {[ 1 := req_zero ]} [] (mkws (Some 1) (Some (bs "h")) false true false (Some 3) (Some (bs "h")) false true) in
  ∃ s', on_ws_close ToyZlib.env observer s = Ret (tt, s') ∧
    w_req (rest s') = None ∧ w_host (rest s') = None ∧ w_engine (rest s') = None ∧
    w_src (rest s') = false ∧ w_closed (rest s') = true ∧ reqs s' !! 1 = None ∧
    log s' = [EvClientClosed; EvFreeEngine; EvSrcCancel].
Proof.
  intros s. destruct (ws_close_releases ToyZlib.env toy_loaded s) as (s' & H1 & H2 & H3 & H4 & H5 & H6 & H7 & H8).
  - intros p Hp. injection Hp as <-. eexists. reflexivity.
  - intros _. eexists. reflexivity.
  - exists s'. split_and!; try assumption. apply H7. reflexivity.
Defined.

(** ** What the code does with other input *)

(** A frame that is not complete in the buffer is read past the bytes received. *)
Theorem partial_frame_reads_past_end :
  ws_read_cb ToyZlib.env 5 observer (λ _, 0) [1; 2; 3; 4] 4 (take 4 (rfc_frame OpCode_BIN None (bs "hello"))) ws_open_state =
  Fault OutOfBounds.
Proof. vm_compute. reflexivity. Qed.

(** Of two frames in one read only the first is delivered. *)
Theorem second_frame_lost :
  ws_read_cb ToyZlib.env 5 observer (λ _, 0) [1; 2; 3; 4] 8
    (rfc_frame OpCode_BIN None (bs "ab") ++ rfc_frame OpCode_BIN None (bs "cd")) ws_open_state =
  Ret (tt, ws_open_state <| log := [EvReadCb 2 (bs "ab")] |>).
Proof. vm_compute. reflexivity. Qed.

(** After a response that cannot be parsed the socket still waits for the upgrade, but
    without a request: data the server sends after it is processed with a NULL request. *)
Theorem read_after_failed_upgrade :
  let s := ws_upgrading [([], HPE_ERROR 1)] in
  ∃ s', ws_read_cb ToyZlib.env 5 observer (λ _, 0) [1; 2; 3; 4] 3 (bs "RSP") s = Ret (tt, s') ∧
    ws_read_cb ToyZlib.env 5 observer (λ _, 0) [1; 2; 3; 4] 3 (bs "RSP") s' = Fault NullDeref.
Proof. intros s. eexists. split; [vm_compute; reflexivity|]. vm_compute. reflexivity. Qed.

(** A socket that was already closed (by a read error) is not reported closed. *)
Theorem close_cb_lost :
  let s := mkh ∅ [] (ws_open <| w_closed := true |> <| w_link := false |>) in
  ∃ s', tlsuv_websocket_close ToyZlib.env observer true s = Ret (0, s') ∧ log s' = [EvSrcCancel].
Proof. eexists. split; vm_compute; reflexivity. Qed.
