(* ===== verification/UvLink.v ===== *)
(** * Chains of links (deps/uv_link_t: src/uv_link_t.c, src/defaults.c,
    src/uv_link_source_t.c, src/uv_link_observer_t.c, include/uv_link_t.h)

    A connection is a chain of links, from the source (a libuv stream) over the TLS
    link to the client's link.  Links live in a heap [links]; a method table is named
    by its [kind] and looked up in [vt], so the functions of uv_link_t.c, which call
    through the tables, and the methods, which call the functions of uv_link_t.c, are
    defined against each other without recursion; a client file ties the knot.  libuv's
    stream functions are actions of the log with a result chosen by [uv_rc]. *)
From S2P Require Import Prelude.
From stdpp Require Import base list gmap numbers.
From Stdlib Require Import ZArith Lia.
Open Scope Z_scope.

Definition lid : Type := Z.

(** The method tables of the program: the source, an observer, the TLS link, and
    those of the clients. *)
Inductive kind := KSource | KObserver | KTls | KUser (k : Z).
#[export] Instance kind_eq_dec : EqDecision kind.
Proof. solve_decision. Defined.

(** [alloc_cb] and [read_cb]: the defaults of uv_link_init, or the override of a table,
    or callbacks an application set. *)
Inductive link_cb := CbDef | CbOf (k : kind) | CbApp (cb : Z).

(** [uv_link_close_cb]: [uv_link_close_join], or a callback of a client. *)
Inductive close_cb_t := CJoin | CCall (cb : Z).

(** [UV_LINK_FIELDS] *)
Record uv_link_s := mklink {
  parent : option lid;
  child : option lid;
  alloc_cb : option link_cb;
  read_cb : option link_cb;
  methods : kind;
  saved_alloc_cb : option link_cb;
  saved_read_cb : option link_cb;
  err_prefix : Z;
  close_depth : Z;
  close_waiting : Z;
  saved_close_cb : option close_cb_t;
  pending_close_source : option lid;
}.
#[export] Instance uv_link_upd : Updatable uv_link_s := fun l =>
  mklink (parent l) (child l) (alloc_cb l) (read_cb l) (methods l) (saved_alloc_cb l)
    (saved_read_cb l) (err_prefix l) (close_depth l) (close_waiting l) (saved_close_cb l)
    (pending_close_source l).

(** The fields [uv_link_source_t] adds. *)
Record uv_link_source_s := mksource {
  stream : option Z;
  src_close_cb : option close_cb_t;
  close_source : option lid;
}.
#[export] Instance uv_link_source_upd : Updatable uv_link_source_s := fun s =>
  mksource (stream s) (src_close_cb s) (close_source s).

(** A libuv stream handle: its [data] field and whether [uv_close] was called. *)
Record uv_stream_s := mkstream { st_data : option lid; st_closing : bool }.
#[export] Instance uv_stream_upd : Updatable uv_stream_s := fun s => mkstream (st_data s) (st_closing s).

(** Calls to libuv and to the application. *)
Inductive levent :=
  | LReadStart (st : Z)
  | LReadStop (st : Z)
  | LWrite (st : Z) (bytes : list Z)
  | LTryWrite (st : Z) (bytes : list Z)
  | LShutdown (st : Z)
  | LUvClose (st : Z)
  | LAlloc (cb : Z) (l : lid) (size : Z)
  | LRead (cb : Z) (l : lid) (nread : Z) (buf : option (list Z))
  | LObserve (cb : Z) (l : lid) (nread : Z) (buf : option (list Z))
  | LWriteCb (l : option lid) (cb : Z) (st : Z)
  | LClosed (cb : Z) (l : lid)
  | LHandshake (l : lid) (st : Z).

(** [W] is the type of write callbacks with their argument, [X] the rest of the
    program's state.  [writes] and [shutdowns] are the requests in flight. *)
Record lstate {W X : Type} := mkl {
  links : gmap lid uv_link_s;
  sources : gmap lid uv_link_source_s;
  observers : gmap lid (option Z);  (* observer_read_cb *)
  streams : gmap Z uv_stream_s;
  writes : gmap Z (lid * W);
  shutdowns : gmap Z (lid * W);
  llog : list levent;
  lrest : X;
}.
Arguments lstate : clear implicits.
Arguments mkl {_ _}.
#[export] Instance lstate_upd {W X} : Updatable (lstate W X) := fun s =>
  mkl (links s) (sources s) (observers s) (streams s) (writes s) (shutdowns s) (llog s) (lrest s).

(** [struct uv_link_methods_s].  A buffer is the memory behind it, or NULL. *)
Record uv_link_methods_t {W X : Type} := mkmethods {
  m_read_start : lid → M (lstate W X) Z;
  m_read_stop : option (lid → M (lstate W X) Z);
  m_write : lid → lid → list (list Z) → W → M (lstate W X) Z;
  m_try_write : option (lid → list (list Z) → M (lstate W X) Z);
  m_shutdown : option (lid → lid → W → M (lstate W X) Z);
  m_close : lid → lid → close_cb_t → M (lstate W X) unit;
  m_strerror : option (lid → Z → M (lstate W X) (option (list Z)));
  m_alloc_cb_override : option (lid → Z → M (lstate W X) (option (list Z)));
  m_read_cb_override : option (lid → Z → option (list Z) → M (lstate W X) unit);
}.
Arguments uv_link_methods_t : clear implicits.
Arguments mkmethods {_ _}.

(** ** Error codes *)

Definition kErrorPrefixShift : Z := 16.
Definition kErrorValueMask : Z := 65535.
Definition kErrorPrefixMask : Z := 4294901760.

(** The prefix of link number [n] of a chain, as stored: [(unsigned short) n << 16]. *)
Definition prefix_of (n : Z) : Z := u32 (Z.shiftl (u16 n) kErrorPrefixShift).

Section UvLink.
Context {W X : Type}.
Abbreviation L := (lstate W X).
Context (vt : kind → uv_link_methods_t W X).
(** libuv: [UV_ERRNO_MAX], and the results of its stream functions. *)
Context (UV_ERRNO_MAX UV_EINVAL UV_EFAULT UV_ENOMEM : Z) (uv_rc : list levent → Z).
(** The application: its close, allocation and read callbacks, [malloc] for a request,
    and [uv_strerror]. *)
Context (app_close : Z → lid → M L unit) (app_alloc : Z → lid → Z → M L (option (list Z)))
  (app_read : Z → lid → Z → option (list Z) → M L unit) (run_write_cb : W → option lid → Z → M L unit)
  (malloc_ok : list levent → bool) (uv_strerror : Z → list Z).

Definition lemit (e : levent) : M L unit := modify (λ s, s <| llog := llog s ++ [e] |>).
Definition uv_call (e : levent) : M L Z := lemit e;; s ← get; mret (uv_rc (llog s)).
Definition link_get (l : lid) : M L uv_link_s := s ← get; from_opt UseAfterFree (links s !! l).
Definition link_put (l : lid) (k : uv_link_s) : M L unit := modify (λ s, s <| links := <[l := k]> (links s) |>).
Definition link_modify (l : lid) (f : uv_link_s → uv_link_s) : M L unit := k ← link_get l; link_put l (f k).
Definition source_get (l : lid) : M L uv_link_source_s := s ← get; from_opt BadCast (sources s !! l).
Definition source_put (l : lid) (k : uv_link_source_s) : M L unit :=
  modify (λ s, s <| sources := <[l := k]> (sources s) |>).
Definition stream_get (st : Z) : M L uv_stream_s := s ← get; from_opt UseAfterFree (streams s !! st).
Definition stream_put (st : Z) (k : uv_stream_s) : M L unit :=
  modify (λ s, s <| streams := <[st := k]> (streams s) |>).

(** [uv_link_error], [link] not NULL *)
Definition uv_link_error (k : uv_link_s) (err : Z) : Z :=
  if UV_ERRNO_MAX <=? err then err
  else if negb (Z.land (u32 (- err)) kErrorPrefixMask =? 0) then err
  else i32 (- Z.lor (u32 (- err)) (err_prefix k)).

Definition uv_link_init (l : lid) (m : kind) : M L Z :=
  link_put l (mklink None None (Some CbDef) (Some CbDef) m None None (prefix_of 1) 0 0 None None);; mret 0.

Definition uv_link_close_join (l : lid) : M L unit :=
  link_modify l (λ k, k <| close_waiting := i32 (close_waiting k - 1) |>);;
  k ← link_get l;
  if close_waiting k =? 0 then
    match saved_close_cb k with
    | Some (CCall cb) => app_close cb l
    | Some CJoin => fail_with BadCast     (* never stored: clients pass their own callback *)
    | None => fail_with NullDeref
    end
  else mret tt.

(** [cb(link)] for a close callback *)
Definition run_close_cb (cb : close_cb_t) (l : lid) : M L unit :=
  match cb with CJoin => uv_link_close_join l | CCall cb => app_close cb l end.

Definition uv_link_maybe_close (l : lid) : M L unit :=
  k ← link_get l;
  match pending_close_source k with
  | None => mret tt
  | Some source =>
    link_put l (k <| pending_close_source := None |>);;
    m_close (vt (methods k)) l source CJoin
  end.

(** [target->close_depth++; m; if (--target->close_depth == 0) uv_link_maybe_close(target)] *)
Definition guarded {A} (target : lid) (m : M L A) : M L A :=
  link_modify target (λ k, k <| close_depth := i32 (close_depth k + 1) |>);;
  a ← m;
  link_modify target (λ k, k <| close_depth := i32 (close_depth k - 1) |>);;
  k ← link_get target;
  when (close_depth k =? 0) (uv_link_maybe_close target);;
  mret a.

(** [CLOSE_WRAP] *)
Definition CLOSE_WRAP (l : lid) (m : M L Z) : M L Z :=
  err ← guarded l m; k ← link_get l; mret (uv_link_error k err).

(** [uv_link_error(NULL, UV_EFAULT)] for a NULL link *)
Definition on_link (l : option lid) (f : lid → M L Z) : M L Z :=
  match l with Some l => f l | None => mret UV_EFAULT end.

Definition uv_link_propagate_write (l : option lid) (source : lid) (bufs : list (list Z)) (cb : W) : M L Z :=
  on_link l (λ l, CLOSE_WRAP l (k ← link_get l; m_write (vt (methods k)) l source bufs cb)).

Definition uv_link_write (l : lid) (bufs : list (list Z)) (cb : W) : M L Z :=
  uv_link_propagate_write (Some l) l bufs cb.

Definition uv_link_propagate_shutdown (l : option lid) (source : lid) (cb : W) : M L Z :=
  on_link l (λ l, CLOSE_WRAP l
    (k ← link_get l; f ← from_opt NullDeref (m_shutdown (vt (methods k))); f l source cb)).

Definition uv_link_read_start (l : option lid) : M L Z :=
  on_link l (λ l, CLOSE_WRAP l (k ← link_get l; m_read_start (vt (methods k)) l)).

Definition uv_link_read_stop (l : option lid) : M L Z :=
  on_link l (λ l, k ← link_get l;
    match m_read_stop (vt (methods k)) with
    | Some f => CLOSE_WRAP l (f l)
    | None => mret 0
    end).

Definition uv_link_try_write (l : option lid) (bufs : list (list Z)) : M L Z :=
  on_link l (λ l, CLOSE_WRAP l
    (k ← link_get l; f ← from_opt NullDeref (m_try_write (vt (methods k))); f l bufs)).

(** ** Chaining *)

(** [uv_link_recalculate_prefixes]: from [l] to the leaf *)
Fixpoint set_prefixes (fuel : nat) (l : option lid) (prev : Z) : M L unit :=
  match l with
  | None => mret tt
  | Some l =>
    match fuel with
    | O => fail_with OutOfFuel
    | S fuel =>
      let prev := u16 (prev + 1) in
      link_modify l (λ k, k <| err_prefix := prefix_of prev |>);;
      k ← link_get l;
      set_prefixes fuel (child k) prev
    end
  end.
Definition uv_link_recalculate_prefixes (l : lid) : M L unit :=
  k ← link_get l;
  p ← from_opt NullDeref (parent k);
  pk ← link_get p;
  s ← get;
  set_prefixes (S (size (links s))) (Some l) (u16 (Z.shiftr (err_prefix pk) kErrorPrefixShift)).

Definition uv_link_chain (from to : lid) : M L Z :=
  f ← link_get from; t ← link_get to;
  if bool_decide (is_Some (child f)) || bool_decide (is_Some (parent t)) then mret UV_EINVAL else
  if bool_decide (m_alloc_cb_override (vt (methods t)) = None) || bool_decide (m_read_cb_override (vt (methods t)) = None)
  then fail_with AssertFailed else
  link_modify from (λ f, f <| child := Some to |>);;
  link_modify to (λ t, t <| parent := Some from |>);;
  link_modify from (λ f, f <| saved_alloc_cb := alloc_cb f |> <| saved_read_cb := read_cb f |>
                          <| alloc_cb := Some (CbOf (methods t)) |> <| read_cb := Some (CbOf (methods t)) |>);;
  uv_link_recalculate_prefixes to;;
  mret 0.

Definition uv_link_unchain (from to : lid) : M L Z :=
  f ← link_get from; t ← link_get to;
  if negb (bool_decide (child f = Some to)) || negb (bool_decide (parent t = Some from)) then mret UV_EINVAL else
  link_modify from (λ f, f <| child := None |>);;
  link_modify to (λ t, t <| parent := None |>);;
  link_modify from (λ f, f <| alloc_cb := saved_alloc_cb f |> <| read_cb := saved_read_cb f |>
                          <| saved_alloc_cb := None |> <| saved_read_cb := None |>);;
  mret 0.

(** ** Closing *)

(** [for (root = link; root->parent != NULL; root = root->parent) count++] *)
Fixpoint find_root (fuel : nat) (root : lid) (count : Z) : M L (lid * Z) :=
  k ← link_get root;
  match parent k with
  | None => mret (root, count)
  | Some p =>
    match fuel with
    | O => fail_with OutOfFuel
    | S fuel => find_root fuel p (i32 (count + 1))
    end
  end.

(** The loop from the root to the leaf. *)
Fixpoint close_loop (fuel : nat) (root : option lid) (source : lid) : M L unit :=
  match root with
  | None => mret tt
  | Some root =>
    match fuel with
    | O => fail_with OutOfFuel
    | S fuel =>
      k ← link_get root;
      match child k with
      | Some c => rc ← uv_link_unchain root c; when (negb (rc =? 0)) (fail_with AssertFailed)
      | None => mret tt
      end;;
      k' ← link_get root;
      (if close_depth k' =? 0 then m_close (vt (methods k')) root source CJoin
       else link_put root (k' <| pending_close_source := Some source |>));;
      close_loop fuel (child k) source
    end
  end.

Definition uv_link_propagate_close (l source : lid) (cb : Z) : M L unit :=
  k ← link_get l;
  if bool_decide (is_Some (child k)) then fail_with AssertFailed else
  s ← get;
  '(root, count) ← find_root (size (links s)) l 1;
  link_modify source (λ k, k <| close_waiting := i32 (close_waiting k + count) |>
                             <| saved_close_cb := Some (CCall cb) |>);;
  close_loop (S (size (links s))) (Some root) source.

Definition uv_link_close (l : lid) (cb : Z) : M L unit := uv_link_propagate_close l l cb.

(** ** Errors of a chain *)

(** [uv_link_errno]: the link the error comes from, and the link's own code *)
Fixpoint errno_loop (fuel : nat) (p : option lid) (prefix local_err err : Z) : M L (option lid * Z) :=
  match p with
  | None => mret (None, err)
  | Some p =>
    match fuel with
    | O => fail_with OutOfFuel
    | S fuel =>
      k ← link_get p;
      if prefix =? err_prefix k then mret (Some p, local_err)
      else errno_loop fuel (parent k) prefix local_err err
    end
  end.
Definition uv_link_errno (l : option lid) (err : Z) : M L (option lid * Z) :=
  if UV_ERRNO_MAX <=? err then mret (None, err) else
  let prefix := Z.land (u32 (- err)) kErrorPrefixMask in
  let local_err := - Z.land (i32 (- err)) kErrorValueMask in
  s ← get; errno_loop (S (size (links s))) l prefix local_err err.

Definition uv_link_strerror (l : option lid) (err : Z) : M L (option (list Z)) :=
  if UV_ERRNO_MAX <=? err then mret (Some (uv_strerror err)) else
  '(l, local_err) ← uv_link_errno l err;
  match l with
  | None => mret None
  | Some l => k ← link_get l; f ← from_opt NullDeref (m_strerror (vt (methods k))); f l local_err
  end.

(** ** Data from the source towards the leaf *)

Definition uv_link_def_alloc_cb (l : lid) (suggested : Z) : M L (option (list Z)) :=
  s ← get;
  if malloc_ok (llog s) then mret (Some (replicate (Z.to_nat suggested) 0)) else fail_with AssertFailed.
Definition uv_link_def_read_cb (l : lid) (nread : Z) (buf : option (list Z)) : M L unit :=
  when (nread <? 0) (uv_link_read_stop (Some l);; mret tt).

Definition call_alloc (cb : link_cb) (l : lid) (suggested : Z) : M L (option (list Z)) :=
  match cb with
  | CbDef => uv_link_def_alloc_cb l suggested
  | CbOf k => f ← from_opt NullDeref (m_alloc_cb_override (vt k)); f l suggested
  | CbApp cb => app_alloc cb l suggested
  end.
Definition call_read (cb : link_cb) (l : lid) (nread : Z) (buf : option (list Z)) : M L unit :=
  match cb with
  | CbDef => uv_link_def_read_cb l nread buf
  | CbOf k => f ← from_opt NullDeref (m_read_cb_override (vt k)); f l nread buf
  | CbApp cb => app_read cb l nread buf
  end.

Definition uv_link_propagate_alloc_cb (l : lid) (suggested : Z) : M L (option (list Z)) :=
  k ← link_get l;
  let target := default l (child k) in
  guarded target (k ← link_get l; cb ← from_opt NullDeref (alloc_cb k); call_alloc cb target suggested).

Definition uv_link_propagate_read_cb (l : lid) (nread : Z) (buf : option (list Z)) : M L unit :=
  k ← link_get l;
  let target := default l (child k) in
  let nread := if nread <? 0 then uv_link_error k (i32 nread) else nread in
  guarded target (k ← link_get l; cb ← from_opt NullDeref (read_cb k); call_read cb target nread buf).

(** ** The default methods (defaults.c) *)

Definition uv_link_default_read_start (l : lid) : M L Z := k ← link_get l; uv_link_read_start (parent k).
Definition uv_link_default_read_stop (l : lid) : M L Z := k ← link_get l; uv_link_read_stop (parent k).
Definition uv_link_default_write (l source : lid) (bufs : list (list Z)) (cb : W) : M L Z :=
  k ← link_get l; uv_link_propagate_write (parent k) source bufs cb.
Definition uv_link_default_try_write (l : lid) (bufs : list (list Z)) : M L Z :=
  k ← link_get l; uv_link_try_write (parent k) bufs.
Definition uv_link_default_shutdown (l source : lid) (cb : W) : M L Z :=
  k ← link_get l; uv_link_propagate_shutdown (parent k) source cb.
Definition uv_link_default_close (l source : lid) (cb : close_cb_t) : M L unit := run_close_cb cb source.
Definition uv_link_default_strerror (l : lid) (err : Z) : M L (option (list Z)) := mret None.
Definition uv_link_default_alloc_cb_override (l : lid) (suggested : Z) : M L (option (list Z)) :=
  uv_link_propagate_alloc_cb l suggested.
Definition uv_link_default_read_cb_override (l : lid) (nread : Z) (buf : option (list Z)) : M L unit :=
  uv_link_propagate_read_cb l nread buf.

(** ** The observer (uv_link_observer_t.c) *)

Definition uv_link_observer_read_cb (l : lid) (nread : Z) (buf : option (list Z)) : M L unit :=
  s ← get;
  match observers s !! l with
  | None => fail_with BadCast
  | Some (Some cb) => lemit (LObserve cb l nread buf)
  | Some None => mret tt
  end;;
  uv_link_propagate_read_cb l nread buf.
Definition uv_link_observer_methods : uv_link_methods_t W X :=
  mkmethods uv_link_default_read_start (Some uv_link_default_read_stop) uv_link_default_write
    (Some uv_link_default_try_write) (Some uv_link_default_shutdown) uv_link_default_close None
    (Some uv_link_default_alloc_cb_override) (Some uv_link_observer_read_cb).
Definition uv_link_observer_init (l : lid) : M L Z :=
  modify (λ s, s <| observers := <[l := None]> (observers s) |>);;
  uv_link_init l KObserver.

(** ** The source (uv_link_source_t.c) *)

Definition the_stream (l : lid) : M L Z := s ← source_get l; from_opt NullDeref (stream s).

(** libuv's callbacks of a reading stream *)
Definition uv_link_source_wrap_alloc_cb (st suggested : Z) : M L (option (list Z)) :=
  h ← stream_get st; l ← from_opt NullDeref (st_data h); uv_link_propagate_alloc_cb l suggested.
Definition uv_link_source_wrap_read_cb (st nread : Z) (buf : option (list Z)) : M L unit :=
  h ← stream_get st; l ← from_opt NullDeref (st_data h); uv_link_propagate_read_cb l nread buf.

Definition uv_link_source_read_start (l : lid) : M L Z := st ← the_stream l; uv_call (LReadStart st).
Definition uv_link_source_read_stop (l : lid) : M L Z := st ← the_stream l; uv_call (LReadStop st).

(** A request in flight is an entry of [writes]; libuv ends it with
    [uv_link_source_wrap_write_cb]. *)
Definition uv_link_source_wrap_write_cb (req st : Z) : M L unit :=
  s ← get;
  '(l, cb) ← from_opt UseAfterFree (writes s !! req);
  run_write_cb cb (Some l) st;;
  modify (λ s, s <| writes := delete req (writes s) |>).
Definition uv_link_source_write (l source : lid) (bufs : list (list Z)) (cb : W) : M L Z :=
  s ← get;
  if negb (malloc_ok (llog s)) then mret UV_ENOMEM else
  st ← the_stream l;
  rc ← uv_call (LWrite st (concat bufs));
  when (rc =? 0) (modify (λ s, s <| writes := <[fresh (dom (writes s)) := (source, cb)]> (writes s) |>));;
  mret rc.
Definition uv_link_source_try_write (l : lid) (bufs : list (list Z)) : M L Z :=
  st ← the_stream l; uv_call (LTryWrite st (concat bufs)).

Definition uv_link_source_wrap_shutdown_cb (req st : Z) : M L unit :=
  s ← get;
  '(l, cb) ← from_opt UseAfterFree (shutdowns s !! req);
  run_write_cb cb (Some l) st;;
  modify (λ s, s <| shutdowns := delete req (shutdowns s) |>).
Definition uv_link_source_shutdown (l source : lid) (cb : W) : M L Z :=
  s ← get;
  if negb (malloc_ok (llog s)) then mret UV_ENOMEM else
  st ← the_stream l;
  rc ← uv_call (LShutdown st);
  when (rc =? 0) (modify (λ s, s <| shutdowns := <[fresh (dom (shutdowns s)) := (source, cb)]> (shutdowns s) |>));;
  mret rc.

(** libuv's callback when the handle is closed *)
Definition uv_link_source_close_cb (st : Z) : M L unit :=
  h ← stream_get st;
  stream_put st (h <| st_data := None |>);;
  match st_data h with
  | None => mret tt
  | Some l =>
    src ← source_get l;
    source_put l (src <| stream := None |>);;
    match src_close_cb src with
    | Some cb => to ← from_opt NullDeref (close_source src); run_close_cb cb to
    | None => mret tt
    end
  end.

Definition uv_link_source_close (l source : lid) (cb : close_cb_t) : M L unit :=
  src ← source_get l;
  match stream src with
  | Some st =>
    h ← stream_get st;
    if st_closing h then mret tt
    else source_put l (src <| src_close_cb := Some cb |> <| close_source := Some source |>);;
         stream_put st (h <| st_closing := true |>);;
         lemit (LUvClose st)
  | None => run_close_cb cb source
  end.

Definition uv_link_source_methods : uv_link_methods_t W X :=
  mkmethods uv_link_source_read_start (Some uv_link_source_read_stop) uv_link_source_write
    (Some uv_link_source_try_write) (Some uv_link_source_shutdown) uv_link_source_close None None None.

Definition uv_link_source_init (l : lid) (st : Z) : M L Z :=
  err ← uv_link_init l KSource;
  if negb (err =? 0) then mret err else
  h ← stream_get st;
  source_put l (mksource (Some st) None None);;
  stream_put st (h <| st_data := Some l |>);;
  mret 0.
End UvLink.
