(* ===== verification/UvLinkProofs.v ===== *)
(** * Chains of links: properties of UvLink.v

    A chain is a list of links, root first ([chain]).  Chaining extends it and numbers
    its links, an error is attributed to the link it comes from, and closing a chain
    closes every link once and reports once. *)
From S2P Require Import Prelude UvLink.
From stdpp Require Import base gmap numbers list.
From Stdlib Require Import ZArith Lia.
Open Scope Z_scope.

(** ** Chains *)

(** The links of [ls], the first of which has parent [par], form a path that ends. *)
Fixpoint seg (lk : gmap lid uv_link_s) (par : option lid) (ls : list lid) : Prop :=
  match ls with
  | [] => True
  | l :: rest => ∃ k, lk !! l = Some k ∧ parent k = par ∧ child k = head rest ∧ seg lk (Some l) rest
  end.
Definition chain (lk : gmap lid uv_link_s) (ls : list lid) : Prop := NoDup ls ∧ seg lk None ls.

(** Link number [n], [n + 1], ... of a chain carry the prefixes of their numbers. *)
Fixpoint numbered (lk : gmap lid uv_link_s) (n : Z) (ls : list lid) : Prop :=
  match ls with
  | [] => True
  | l :: rest => (∃ k, lk !! l = Some k ∧ err_prefix k = prefix_of n) ∧ numbered lk (n + 1) rest
  end.

Lemma seg_insert lk par ls l k : l ∉ ls → seg lk par ls → seg (<[l := k]> lk) par ls.
Proof.
  revert par. induction ls as [|x ls IH]; intros par Hl; cbn; [done|].
  apply not_elem_of_cons in Hl as [Hx Hl]. intros (kx & Hk & Hp & Hc & Hs).
  exists kx. rewrite lookup_insert_ne by done. auto.
Qed.
Lemma numbered_insert lk n ls l k : l ∉ ls → numbered lk n ls → numbered (<[l := k]> lk) n ls.
Proof.
  revert n. induction ls as [|x ls IH]; intros n Hl; cbn; [done|].
  apply not_elem_of_cons in Hl as [Hx Hl]. intros [(kx & Hk & Hp) Hs].
  split; [exists kx; by rewrite lookup_insert_ne by done|auto].
Qed.
Lemma numbered_app lk n ls1 ls2 :
  numbered lk n (ls1 ++ ls2) ↔ numbered lk n ls1 ∧ numbered lk (n + Z.of_nat (length ls1)) ls2.
Proof.
  revert n. induction ls1 as [|x ls IH]; intros n; cbn [numbered app length].
  - rewrite Z.add_0_r. tauto.
  - rewrite IH. replace (n + 1 + Z.of_nat (length ls)) with (n + Z.of_nat (S (length ls))) by lia. tauto.
Qed.
Lemma seg_in lk par ls l : seg lk par ls → l ∈ ls → is_Some (lk !! l).
Proof.
  revert par. induction ls as [|x ls IH]; intros par; cbn; [by intros _ ?%elem_of_nil|].
  intros (k & Hk & _ & _ & Hs) [->|Hl]%elem_of_cons; [by exists k|eauto].
Qed.

(** The last link of a path. *)
Lemma seg_last lk par ls l :
  seg lk par (ls ++ [l]) → ∃ k, lk !! l = Some k ∧ child k = None ∧ parent k = from_option Some par (list.last ls).
Proof.
  revert par. induction ls as [|x ls IH]; intros par; cbn [seg app].
  - intros (k & Hk & Hp & Hc & _). by exists k.
  - intros (k & Hk & Hp & Hc & Hs). destruct (IH _ Hs) as (kl & Hkl & Hcl & Hpl).
    exists kl. split; [done|]. split; [done|]. rewrite Hpl, last_cons. by destruct (list.last ls).
Qed.

(** The last link gets a child. *)
Lemma seg_snoc lk par ls from to f t :
  seg lk par (ls ++ [from]) → from ∉ ls → to ∉ ls ++ [from] →
  lk !! from = Some f → parent t = Some from → child t = None → ∀ f',
  parent f' = parent f → child f' = Some to →
  seg (<[to := t]> (<[from := f']> lk)) par (ls ++ [from; to]).
Proof.
  revert par. induction ls as [|x ls IH]; intros par Hs Hnf Hnt Hf Hpt Hct f' Hpf Hcf; cbn [seg app] in *.
  - destruct Hs as (k & Hk & Hp & _ & _). assert (k = f) as -> by congruence.
    apply not_elem_of_cons in Hnt as [Hne _].
    exists f'. rewrite lookup_insert_ne, lookup_insert_eq by congruence. split_and!; [done|congruence|done|].
    exists t. by rewrite lookup_insert_eq.
  - destruct Hs as (k & Hk & Hp & Hc & Hs). apply not_elem_of_cons in Hnf as [Hx Hnf].
    apply not_elem_of_cons in Hnt as [Hxt Hnt].
    exists k. rewrite !lookup_insert_ne by congruence. split_and!; [done|done| |by eapply IH].
    rewrite Hc. by destruct ls.
Qed.

(** ** Error codes *)

Lemma prefix_of_small n : 0 ≤ n < 65536 → prefix_of n = n * 65536.
Proof.
  intros Hn. unfold prefix_of, kErrorPrefixShift. rewrite u16_small, Z.shiftl_mul_pow2 by lia.
  rewrite u32_small; lia.
Qed.
Lemma lor_prefix v n : 0 ≤ v < 65536 → Z.lor v (n * 65536) = n * 65536 + v.
Proof.
  intros Hv. assert (Z.land v (n * 65536) = 0) as H0.
  { change 65536 with (2 ^ 16). rewrite <-Z.shiftl_mul_pow2 by lia. apply Z.bits_inj'. intros i Hi.
    rewrite Z.land_spec, Z.bits_0, Z.shiftl_spec by lia. destruct (Z.lt_ge_cases i 16).
    - by rewrite (Z.testbit_neg_r n) by lia; rewrite andb_false_r.
    - rewrite <-(Z.mod_small v (2 ^ 16)), Z.mod_pow2_bits_high by lia. done. }
  pose proof (Z.add_lor_land v (n * 65536)). lia.
Qed.
Lemma land_prefix_mask x : 0 ≤ x < 4294967296 → Z.land x kErrorPrefixMask = x / 65536 * 65536.
Proof.
  intros Hx. unfold kErrorPrefixMask. change 4294901760 with (Z.land (Z.ones 32) (Z.lnot (Z.ones 16))).
  rewrite Z.land_assoc, Z.land_ones, Z.mod_small by lia. rewrite <-Z.ldiff_land, Z.ldiff_ones_r by lia.
  by rewrite Z.shiftl_mul_pow2, Z.shiftr_div_pow2 by lia.
Qed.
Lemma land_value_mask x : Z.land x kErrorValueMask = x mod 65536.
Proof. unfold kErrorValueMask. change 65535 with (Z.ones 16). by rewrite Z.land_ones by lia. Qed.

Section Errors.
Context (UV_ERRNO_MAX : Z) (Hmax : -65536 < UV_ERRNO_MAX < 0).

(** An error code of a link's own, which [uv_link_error] marks. *)
Definition own_error (err : Z) : Prop := -65536 < err < UV_ERRNO_MAX.

Lemma link_error_value k n err : own_error err → err_prefix k = prefix_of n → 0 < n < 32768 →
  uv_link_error UV_ERRNO_MAX k err = err - n * 65536.
Proof.
  intros He Hk Hn. unfold own_error in He. unfold uv_link_error.
  destruct (Z.leb_spec UV_ERRNO_MAX err); [lia|]. rewrite u32_small by lia.
  rewrite land_prefix_mask, (Z.div_small (- err)) by lia. change (0 * 65536 =? 0) with true. cbn [negb].
  rewrite Hk, prefix_of_small, lor_prefix by lia. rewrite i32_small; lia.
Qed.

(** Codes of libuv, and codes already marked, pass through a link unchanged. *)
Lemma link_error_uv k err : UV_ERRNO_MAX ≤ err → uv_link_error UV_ERRNO_MAX k err = err.
Proof. intros. unfold uv_link_error. by destruct (Z.leb_spec UV_ERRNO_MAX err); [|lia]. Qed.
Lemma link_error_marked k n err : own_error err → 0 < n < 32768 →
  uv_link_error UV_ERRNO_MAX k (err - n * 65536) = err - n * 65536.
Proof.
  intros He Hn. unfold own_error in He. unfold uv_link_error.
  destruct (Z.leb_spec UV_ERRNO_MAX (err - n * 65536)); [lia|].
  rewrite u32_small, land_prefix_mask by lia.
  replace (- (err - n * 65536)) with (- err + n * 65536) by lia. rewrite Z.div_add, Z.div_small by lia.
  destruct (Z.eqb_spec ((0 + n) * 65536) 0); [lia|done].
Qed.
End Errors.

(** The parent pointers of a path. *)
Fixpoint parents (lk : gmap lid uv_link_s) (par : option lid) (ls : list lid) : Prop :=
  match ls with
  | [] => True
  | l :: rest => (∃ k, lk !! l = Some k ∧ parent k = par) ∧ parents lk (Some l) rest
  end.
Lemma seg_parents lk par ls : seg lk par ls → parents lk par ls.
Proof.
  revert par. induction ls as [|l ls IH]; intros par; cbn; [done|].
  intros (k & Hk & Hp & _ & Hs). split; [by exists k|auto].
Qed.
Lemma parents_snoc lk par ls l :
  parents lk par (ls ++ [l]) ↔
  parents lk par ls ∧ ∃ k, lk !! l = Some k ∧ parent k = from_option Some par (list.last ls).
Proof.
  revert par. induction ls as [|x ls IH]; intros par; cbn [parents app]; [cbn; tauto|].
  rewrite IH, last_cons. destruct (list.last ls); cbn; tauto.
Qed.

Section ChainErrors.
Context {W X : Type}.
Abbreviation L := (lstate W X).
Context (UV_ERRNO_MAX : Z) (Hmax : -65536 < UV_ERRNO_MAX < 0).
Implicit Types s : L.

Lemma errno_loop_spec ls1 l ls2 n e err s :
  parents (links s) None (ls1 ++ l :: ls2) → numbered (links s) n (l :: ls2) →
  0 < n → n + Z.of_nat (length ls2) < 32768 → ∀ fuel, (length ls2 < fuel)%nat →
  errno_loop fuel (list.last (l :: ls2)) (prefix_of n) e err s = Ret ((Some l, e), s).
Proof.
  intros Hp Hn H0. induction ls2 as [|x ls2 IH] using rev_ind; intros Hlen fuel Hf.
  - destruct fuel as [|fuel]; [cbn in Hf; lia|]. destruct Hn as [(k & Hk & Hpre) _].
    unfold list.last, errno_loop, link_get, mbind, M_bind, get. rewrite Hk. cbn. by rewrite Hpre, Z.eqb_refl.
  - rewrite length_app in Hlen, Hf. cbn [length] in Hlen, Hf.
    rewrite app_comm_cons in Hn. apply numbered_app in Hn as [Hn [(k & Hk & Hpre) _]].
    rewrite app_comm_cons, app_assoc in Hp. apply parents_snoc in Hp as [Hp (k' & Hk' & Hpar)].
    assert (k' = k) as -> by congruence.
    destruct fuel as [|fuel]; [lia|]. rewrite app_comm_cons, last_snoc. cbn [errno_loop].
    unfold link_get, mbind, M_bind, get. rewrite Hk. cbn [from_opt mret M_ret].
    rewrite Hpre, !prefix_of_small by (cbn [length]; lia).
    destruct (Z.eqb_spec (n * 65536) ((n + Z.of_nat (length (l :: ls2))) * 65536)); [cbn [length] in *; lia|].
    rewrite Hpar, last_app_cons. destruct (list.last (l :: ls2)) as [y|] eqn:Hy; [|by apply last_None in Hy].
    cbn [from_option]. rewrite <-prefix_of_small by lia. apply (IH Hp Hn); lia.
Qed.

Lemma chain_size lk ls : chain lk ls → (length ls ≤ size lk)%nat.
Proof.
  intros [Hnd Hs]. rewrite <-size_dom, <-(size_list_to_set (C := gset lid) ls) by done.
  apply subseteq_size. intros l Hl%elem_of_list_to_set. apply elem_of_dom. by eapply seg_in.
Qed.

(** errors can be told apart along a chain.  A code of libuv passes through any
    link unchanged; a code of a link's own is marked by the first link it passes and
    by no later one, and [uv_link_errno] at the leaf finds the link it came from and
    the code it raised. *)
Theorem link_errors_roundtrip ls1 l ls2 k err s :
  chain (links s) (ls1 ++ l :: ls2) → numbered (links s) 1 (ls1 ++ l :: ls2) →
  Z.of_nat (length (ls1 ++ l :: ls2)) < 32768 → links s !! l = Some k → own_error UV_ERRNO_MAX err →
  let code := uv_link_error UV_ERRNO_MAX k err in
  uv_link_errno UV_ERRNO_MAX (list.last (ls1 ++ l :: ls2)) code s = Ret ((Some l, err), s) ∧
  (∀ k', uv_link_error UV_ERRNO_MAX k' code = code) ∧
  (∀ k' e, UV_ERRNO_MAX ≤ e → uv_link_error UV_ERRNO_MAX k' e = e).
Proof.
  intros Hch Hnum Hlen Hk He code. apply numbered_app in Hnum as [_ Hnum]. rewrite length_app in Hlen. cbn [length] in Hlen.
  set (n := 1 + Z.of_nat (length ls1)) in *. pose proof Hnum as [(k' & Hk' & Hpre) _].
  assert (k' = k) as -> by congruence. assert (0 < n < 32768) as Hn by lia.
  unfold code. rewrite (link_error_value _ Hmax k n) by done.
  split; [|split; [intros; by apply link_error_marked|intros; by apply link_error_uv]].
  pose proof He as [He1 He2]. unfold uv_link_errno.
  destruct (Z.leb_spec UV_ERRNO_MAX (err - n * 65536)); [lia|].
  replace (- (err - n * 65536)) with (- err + n * 65536) by lia.
  rewrite u32_small, land_prefix_mask, i32_small, land_value_mask by lia.
  rewrite Z.div_add, Z.div_small, Z.mod_add, Z.mod_small, Z.add_0_l, Z.opp_involutive by lia.
  rewrite <-prefix_of_small by lia. unfold mbind, M_bind, get. rewrite last_app_cons.
  pose proof (chain_size _ _ Hch) as Hsz. rewrite length_app in Hsz. cbn [length] in Hsz.
  destruct Hch as [_ Hs%seg_parents]. eapply errno_loop_spec; eauto; lia.
Qed.

End ChainErrors.

(** ** Steps on links *)

Section LinkSteps.
Context {W X : Type}.
Abbreviation L := (lstate W X).
Implicit Types s : L.

Lemma wp_link_get l k (Q : uv_link_s → L → Prop) s : links s !! l = Some k → Q k s → wp (link_get l) Q s.
Proof. intros Hk HQ. unfold link_get. wp_simpl. by rewrite Hk. Qed.
Lemma wp_link_put l k (Q : unit → L → Prop) s :
  Q tt (s <| links := <[l := k]> (links s) |>) → wp (link_put l k) Q s.
Proof. done. Qed.
Lemma wp_link_modify l f k (Q : unit → L → Prop) s : links s !! l = Some k →
  Q tt (s <| links := <[l := f k]> (links s) |>) → wp (link_modify l f) Q s.
Proof. intros Hk HQ. unfold link_modify. wp_simpl. by apply (wp_link_get l k). Qed.

Lemma links_links s a b : s <| links := a |> <| links := b |> = s <| links := b |>.
Proof. done. Qed.
Lemma links_eq s a b : a = b → s <| links := a |> = s <| links := b |>.
Proof. by intros ->. Qed.
Lemma links_get s a : links (s <| links := a |>) = a.
Proof. done. Qed.

End LinkSteps.

(** Looks a link up in an updated heap. *)
Ltac find_link :=
  rewrite ?links_links, ?links_get;
  repeat first [rewrite lookup_insert_eq | rewrite lookup_insert_ne by congruence]; first [eassumption | reflexivity].
(** One step on a link. *)
Ltac link_step :=
  wp_simpl; lazymatch goal with
  | |- wp (link_get _) _ _ => eapply wp_link_get; [find_link|]
  | |- wp (link_put _ _) _ _ => apply wp_link_put
  | |- wp (link_modify _ _) _ _ => eapply wp_link_modify; [find_link|]
  end; cbn beta iota; rewrite ?links_links, ?links_get.

Section Chains.
Context {W X : Type}.
Abbreviation L := (lstate W X).
Context (vt : kind → uv_link_methods_t W X) (UV_EINVAL : Z).
Implicit Types s : L.

(** What [uv_link_chain] makes of the two links. *)
Definition chained_from (to : lid) (f t : uv_link_s) : uv_link_s :=
  f <| child := Some to |> <| saved_alloc_cb := alloc_cb f |> <| saved_read_cb := read_cb f |>
    <| alloc_cb := Some (CbOf (methods t)) |> <| read_cb := Some (CbOf (methods t)) |>.
Definition chained_to (from : lid) (f t : uv_link_s) : uv_link_s :=
  t <| parent := Some from |>
    <| err_prefix := prefix_of (u16 (u16 (Z.shiftr (err_prefix f) kErrorPrefixShift) + 1)) |>.

Lemma insert_twice {A} (m : gmap lid A) i j a b c d : i ≠ j →
  <[i := a]> (<[j := b]> (<[i := c]> (<[j := d]> m))) = <[i := a]> (<[j := b]> m).
Proof.
  intros Hij. apply map_eq. intros x.
  destruct (decide (x = i)) as [->|]; [by rewrite !lookup_insert_eq|].
  destruct (decide (x = j)) as [->|]; [by rewrite !(lookup_insert_ne _ i), !lookup_insert_eq by done|].
  by rewrite !lookup_insert_ne by done.
Qed.

Lemma chain_exact from to f t s : from ≠ to → links s !! from = Some f → links s !! to = Some t →
  child f = None → parent t = None → child t = None →
  m_alloc_cb_override (vt (methods t)) ≠ None → m_read_cb_override (vt (methods t)) ≠ None →
  wp (uv_link_chain vt UV_EINVAL from to) (λ rc s', rc = 0 ∧
    s' = s <| links := <[to := chained_to from f t]> (<[from := chained_from to f t]> (links s)) |>) s.
Proof.
  intros Hne Hf Ht Hcf Hpt Hct Ha Hr. unfold uv_link_chain. link_step. link_step. rewrite Hcf, Hpt.
  rewrite !(bool_decide_eq_false_2 (is_Some _)) by (by intros []). rewrite !bool_decide_eq_false_2 by done. cbn [orb].
  do 3 link_step. unfold uv_link_recalculate_prefixes. link_step. cbn [parent update_with]. link_step.
  cbn [set_prefixes]. wp_simpl. cbn [set_prefixes]. link_step. link_step.
  cbn [child update_with]. cbn. rewrite Hct.
  destruct (size _); wp_simpl; (split; [done|]); rewrite insert_twice by done; done.
Qed.

(** Chaining a link to the leaf of a chain gives the chain with the new link as its
    leaf, numbered on; what the old leaf receives now goes to the new link's methods,
    and no other link, and nothing else, changes. *)
Theorem chain_extends ls from to f t s :
  chain (links s) (ls ++ [from]) → numbered (links s) 1 (ls ++ [from]) → to ∉ ls ++ [from] →
  Z.of_nat (length ls) < 32766 →
  links s !! from = Some f → links s !! to = Some t → parent t = None → child t = None →
  m_alloc_cb_override (vt (methods t)) ≠ None → m_read_cb_override (vt (methods t)) ≠ None →
  ∃ s' f' t', uv_link_chain vt UV_EINVAL from to s = Ret (0, s') ∧
    s' = s <| links := <[to := t']> (<[from := f']> (links s)) |> ∧
    chain (links s') (ls ++ [from; to]) ∧ numbered (links s') 1 (ls ++ [from; to]) ∧
    alloc_cb f' = Some (CbOf (methods t)) ∧ read_cb f' = Some (CbOf (methods t)) ∧
    alloc_cb t' = alloc_cb t ∧ read_cb t' = read_cb t.
Proof.
  intros [Hnd Hs] Hnum Hto Hlen Hf Ht Hpt Hct Ha Hr.
  apply list.NoDup_app in Hnd as (Hnd & Hdis & _).
  assert (from ∉ ls) as Hfr by (intros Hin; eapply Hdis; [done|by apply list_elem_of_singleton]).
  apply not_elem_of_app in Hto as [Hto1 Hto2]. rewrite list_elem_of_singleton in Hto2.
  destruct (seg_last _ _ _ _ Hs) as (f0 & Hf0 & Hcf & _). assert (f0 = f) as -> by congruence.
  pose proof (chain_exact from to f t s ltac:(congruence) Hf Ht Hcf Hpt Hct Ha Hr) as Hw.
  apply wp_run in Hw as (rc & s' & Hrun & -> & ->).
  eexists _, (chained_from to f t), (chained_to from f t). split; [exact Hrun|]. split; [done|]. rewrite links_get.
  split_and!; try done.
  - split.
    + apply list.NoDup_app. split; [done|]. split; [|apply NoDup_cons; split; [|apply NoDup_singleton]].
      * intros x Hx [->|[->|[]%elem_of_nil]%elem_of_cons]%elem_of_cons; done.
      * rewrite list_elem_of_singleton. congruence.
    + eapply seg_snoc; eauto. rewrite elem_of_app, list_elem_of_singleton. tauto.
  - apply numbered_app in Hnum as [Hn1 [(f0 & Hf0' & Hpre) _]]. assert (f0 = f) as -> by congruence.
    apply numbered_app. split.
    + apply numbered_insert; [done|]. by apply numbered_insert.
    + cbn [numbered]. split; [|split; [|done]].
      * exists (chained_from to f t). by rewrite lookup_insert_ne, lookup_insert_eq by done.
      * exists (chained_to from f t). rewrite lookup_insert_eq. split; [done|]. cbn. rewrite Hpre.
        rewrite (prefix_of_small (1 + Z.of_nat (length ls))) by lia.
        unfold kErrorPrefixShift. rewrite Z.shiftr_div_pow2, Z.div_mul by lia.
        rewrite (u16_small (1 + Z.of_nat (length ls))), u16_small by lia. done.
Qed.

(** [uv_link_unchain] undoes [uv_link_chain], up to the number of the second link. *)
Definition unchained_from (f : uv_link_s) : uv_link_s :=
  f <| child := None |> <| alloc_cb := saved_alloc_cb f |> <| read_cb := saved_read_cb f |>
    <| saved_alloc_cb := None |> <| saved_read_cb := None |>.

Lemma unchain_exact from to f t s : from ≠ to → links s !! from = Some f → links s !! to = Some t →
  child f = Some to → parent t = Some from →
  wp (uv_link_unchain UV_EINVAL from to) (λ rc s', rc = 0 ∧
    s' = s <| links := <[from := unchained_from f]> (<[to := t <| parent := None |>]> (links s)) |>) s.
Proof.
  intros Hne Hf Ht Hcf Hpt. unfold uv_link_unchain. link_step. link_step. rewrite Hcf, Hpt.
  rewrite !bool_decide_eq_true_2 by done. cbn [negb orb]. do 3 link_step. wp_simpl. split; [done|].
  apply links_eq, map_eq. intros x. unfold unchained_from.
  destruct (decide (x = from)) as [->|]; [by rewrite !lookup_insert_eq|].
  rewrite !(lookup_insert_ne _ from) by done. destruct (decide (x = to)) as [->|]; [by rewrite !lookup_insert_eq|].
  by rewrite !lookup_insert_ne by done.
Qed.

(** Unchaining undoes chaining: the callbacks of the first link are those it had,
    and both links are separate again. *)
Theorem unchain_chain from to f t s : from ≠ to → links s !! from = Some f → links s !! to = Some t →
  child f = None → parent t = None → child t = None → saved_alloc_cb f = None → saved_read_cb f = None →
  m_alloc_cb_override (vt (methods t)) ≠ None → m_read_cb_override (vt (methods t)) ≠ None →
  ∃ n, (uv_link_chain vt UV_EINVAL from to;; uv_link_unchain UV_EINVAL from to) s =
    Ret (0, s <| links := <[to := t <| err_prefix := prefix_of n |>]> (links s) |>).
Proof.
  intros Hne Hf Ht Hcf Hpt Hct Hsa Hsr Ha Hr. eexists.
  assert (∀ P, wp (uv_link_chain vt UV_EINVAL from to;; uv_link_unchain UV_EINVAL from to) (λ rc s', rc = 0 ∧ s' = P) s →
    (uv_link_chain vt UV_EINVAL from to;; uv_link_unchain UV_EINVAL from to) s = Ret (0, P)) as Hrun
    by (intros P (rc & s' & -> & -> & ->)%wp_run; done).
  apply Hrun. clear Hrun. wp_call (by apply chain_exact). intros rc s1 [-> ->].
  eapply wp_mono; [eapply unchain_exact; [done|find_link|find_link|done|done]|].
  cbn beta. intros rc s2 [-> ->]. split; [done|]. rewrite links_links, links_get.
  apply links_eq, map_eq. intros x. destruct (decide (x = from)) as [->|].
  - rewrite lookup_insert_eq, lookup_insert_ne, Hf by done. f_equal. destruct f; cbn in *. by subst.
  - rewrite (lookup_insert_ne _ from) by done. destruct (decide (x = to)) as [->|].
    + rewrite !lookup_insert_eq. f_equal. destruct t; cbn in *. by subst.
    + by rewrite !lookup_insert_ne by done.
Qed.

(** ** Closing a chain *)

(** The close callbacks of applications are only recorded. *)
Definition record_close (cb : Z) (l : lid) : M L unit := lemit (LClosed cb l).

(** A link of kind [k] closes at once: it may change the rest of the program's state
    and then calls back. *)
Definition closes_at_once (k : kind) : Prop := ∀ l source cb s,
  ∃ x, m_close (vt k) l source cb s = run_close_cb record_close cb source (s <| lrest := x |>).

(** What closing preserves of a link that is still to be closed. *)
Definition view (k : uv_link_s) : option lid * option lid * kind * Z := (parent k, child k, methods k, close_depth k).
Definition ready (k : uv_link_s) : Prop := closes_at_once (methods k) ∧ close_depth k = 0.

Lemma seg_view (lk lk' : gmap lid uv_link_s) par ls : (∀ l, l ∈ ls → view <$> (lk' !! l) = view <$> (lk !! l)) → seg lk par ls → seg lk' par ls.
Proof.
  revert par. induction ls as [|l ls IH]; intros par Hv; cbn; [done|].
  intros (k & Hk & Hp & Hc & Hs). pose proof (Hv l ltac:(left)) as Hl. rewrite Hk in Hl.
  destruct (lk' !! l) as [k'|]; [|done]. injection Hl as Hp' Hc' _ _. exists k'. split_and!; [done|congruence..|].
  apply IH; [|done]. intros x Hx. apply Hv. by right.
Qed.
Lemma ready_view (lk lk' : gmap lid uv_link_s) l k' : view <$> (lk' !! l) = view <$> (lk !! l) → lk' !! l = Some k' →
  (∀ k, lk !! l = Some k → ready k) → ready k'.
Proof.
  intros Hv Hk' Hr. rewrite Hk' in Hv. destruct (lk !! l) as [k|]; [|done]. injection Hv as _ _ Hm Hd.
  destruct (Hr k eq_refl) as [H1 H2]. unfold ready. rewrite Hm, Hd. done.
Qed.

(** [s'] is [s] after the links [ls] were closed on behalf of [source], [n] of which
    called back. *)
Record after_close (source : lid) (ls : list lid) (n : Z) (s s' : L) : Prop := {
  ac_log : llog s' = llog s;
  ac_sources : sources s' = sources s;
  ac_streams : streams s' = streams s;
  ac_apart : ∀ l k', l ∈ ls → links s' !! l = Some k' → parent k' = None ∧ child k' = None;
  ac_live : ∀ l, is_Some (links s' !! l) ↔ is_Some (links s !! l);
  ac_source : ∀ k, links s !! source = Some k → ∃ k', links s' !! source = Some k' ∧
    close_waiting k' = close_waiting k - n ∧ saved_close_cb k' = saved_close_cb k ∧
    (source ∉ ls → parent k' = parent k ∧ child k' = child k);
  ac_frame : ∀ l, l ∉ ls → l ≠ source → links s' !! l = links s !! l;
}.

Lemma close_join_waits source k s : links s !! source = Some k → 1 < close_waiting k < 2147483648 →
  wp (uv_link_close_join record_close source) (λ _ s',
    s' = s <| links := <[source := k <| close_waiting := close_waiting k - 1 |>]> (links s) |>) s.
Proof.
  intros Hk Hw. unfold uv_link_close_join. link_step. link_step. cbn [close_waiting update_with].
  cbn. rewrite i32_small by lia. destruct (Z.eqb_spec (close_waiting k - 1) 0); [lia|]. by wp_simpl.
Qed.

Lemma seg_unchain lk par l c rest ck k' : seg lk par (l :: c :: rest) → NoDup (l :: c :: rest) → lk !! c = Some ck →
  seg (<[l := k']> (<[c := ck <| parent := None |>]> lk)) None (c :: rest).
Proof.
  intros (k & Hk & _ & _ & ck' & Hck & _ & Hcc & Hs) [Hl [Hc Hnd]%NoDup_cons]%NoDup_cons Hc0.
  assert (ck' = ck) as -> by congruence. apply not_elem_of_cons in Hl as [Hlc Hl].
  exists (ck <| parent := None |>). rewrite lookup_insert_ne, lookup_insert_eq by done. split_and!; [done..|].
  apply seg_insert; [done|]. by apply seg_insert.
Qed.

(** The step of the loop before the link's own [close]. *)
Definition detach (l : lid) : M L uv_link_s :=
  k ← link_get l;
  match child k with
  | Some c => rc ← uv_link_unchain UV_EINVAL l c; when (negb (rc =? 0)) (fail_with AssertFailed)
  | None => mret tt
  end;;
  link_get l.

Lemma detach_spec l rest s : seg (links s) None (l :: rest) → NoDup (l :: rest) →
  wp (detach l) (λ k' s', ∃ lk', s' = s <| links := lk' |> ∧ lk' !! l = Some k' ∧ seg lk' None rest ∧
    parent k' = None ∧ child k' = None ∧
    (∀ k, links s !! l = Some k → methods k' = methods k ∧ close_depth k' = close_depth k) ∧
    (∀ x, x ≠ l → is_Some (head rest) ∧ head rest = Some x ∨ lk' !! x = links s !! x) ∧
    (∀ x k, links s !! x = Some k → ∃ k2, lk' !! x = Some k2 ∧ methods k2 = methods k ∧
      close_depth k2 = close_depth k ∧ close_waiting k2 = close_waiting k ∧ saved_close_cb k2 = saved_close_cb k) ∧
    (∀ x, is_Some (lk' !! x) ↔ is_Some (links s !! x))) s.
Proof.
  intros Hs Hnd. pose proof Hs as (k & Hk & Hp & Hc & Hr). unfold detach. link_step. rewrite Hc.
  destruct rest as [|c rest]; cbn [head].
  - wp_simpl. link_step. exists (links s). split; [by destruct s|]. split_and!; try done.
    + intros k0 Hk0. assert (k0 = k) as -> by congruence. done.
    + intros x Hx. by right.
    + intros x k0 Hk0. exists k0. done.
  - pose proof Hr as (ck & Hck & Hpc & _ & _).
    pose proof Hnd as [Hlc _]%NoDup_cons. apply not_elem_of_cons in Hlc as [Hlc _].
    wp_simpl. eapply wp_mono; [by eapply unchain_exact|]. intros rc s1 [-> ->]. cbn beta.
    change (negb (0 =? 0)) with false. cbn [when]. link_step.
    eexists. split; [reflexivity|]. rewrite lookup_insert_eq. split; [done|].
    split; [by eapply seg_unchain|]. split_and!; try done.
    + intros k0 Hk0. assert (k0 = k) as -> by congruence. done.
    + intros x Hx. rewrite lookup_insert_ne by done. destruct (decide (x = c)) as [->|]; [by left|right].
      by rewrite lookup_insert_ne.
    + intros x k0 Hk0. destruct (decide (x = l)) as [->|].
      * rewrite lookup_insert_eq. assert (k0 = k) as -> by congruence. by eexists.
      * rewrite lookup_insert_ne by done. destruct (decide (x = c)) as [->|].
        -- rewrite lookup_insert_eq. assert (k0 = ck) as -> by congruence. by eexists.
        -- rewrite lookup_insert_ne by done. by exists k0.
    + intros x. destruct (decide (x = l)) as [->|]; [rewrite lookup_insert_eq, Hk; split; by eexists|].
      rewrite lookup_insert_ne by done.
      destruct (decide (x = c)) as [->|]; [rewrite lookup_insert_eq, Hck; split; by eexists|].
      by rewrite lookup_insert_ne.
Qed.

Lemma close_loop_step fuel l k rest source (Q : unit → L → Prop) s :
  links s !! l = Some k → child k = head rest →
  wp (detach l) (λ k', wp
    ((if close_depth k' =? 0 then m_close (vt (methods k')) l source CJoin
      else link_put l (k' <| pending_close_source := Some source |>));;
     close_loop vt UV_EINVAL fuel (head rest) source) Q) s →
  wp (close_loop vt UV_EINVAL (S fuel) (Some l) source) Q s.
Proof.
  intros Hk Hc H. cbn [close_loop]. apply wp_bind, (wp_link_get l k); [done|]. rewrite Hc. apply wp_bind.
  unfold detach in H. rewrite wp_bind in H. unfold wp at 1, link_get at 1, mbind at 1, M_bind at 1, get at 1 in H.
  rewrite Hk in H. cbn [from_opt mret M_ret] in H. rewrite Hc, wp_bind in H.
  eapply wp_mono; [exact H|]. intros [] s1 H1. apply wp_bind. exact H1.
Qed.

Lemma after_close_cons source l ls n k0 s s2 s3 : l ∉ ls → links s !! source = Some k0 →
  llog s2 = llog s → sources s2 = sources s → streams s2 = streams s →
  (∀ y, y ∉ l :: ls → y ≠ source → links s2 !! y = links s !! y) →
  (∀ y, is_Some (links s2 !! y) ↔ is_Some (links s !! y)) →
  (∃ k2, links s2 !! l = Some k2 ∧ parent k2 = None ∧ child k2 = None) →
  (∃ k2, links s2 !! source = Some k2 ∧ close_waiting k2 = close_waiting k0 - 1 ∧
    saved_close_cb k2 = saved_close_cb k0 ∧ (source ∉ l :: ls → parent k2 = parent k0 ∧ child k2 = child k0)) →
  after_close source ls n s2 s3 → after_close source (l :: ls) (n + 1) s s3.
Proof.
  intros Hl Hk0 Hlog Hsrc Hstr Hfr Hlive (kl & Hkl & Hpl & Hcl) (k2 & Hk2 & Hw & Hsv & Hpc) [H1 H2 H3 H4 H5 H6 H7].
  destruct (H6 k2 Hk2) as (k3 & Hk3 & Hw3 & Hsv3 & Hpc3).
  split; try congruence.
  - intros y ky [->|Hy]%elem_of_cons Hky; [|by eapply H4]. destruct (decide (l = source)) as [->|Hne].
    + destruct (Hpc3 Hl). split; congruence.
    + rewrite H7 in Hky by done. by replace ky with kl by congruence.
  - intros y. by rewrite H5, Hlive.
  - intros k Hk. assert (k = k0) as -> by congruence. exists k3. split_and!; [done|lia|congruence|].
    intros Hns. destruct (Hpc Hns). destruct Hpc3; [by intros ?; apply Hns; right|]. split; congruence.
  - intros y Hy Hne. rewrite H7 by (done || by intros ?; apply Hy; right). by apply Hfr.
Qed.

Lemma close_loop_sync source ls s fuel : NoDup ls → seg (links s) None ls →
  (∀ l k, l ∈ ls → links s !! l = Some k → ready k) →
  (∃ k, links s !! source = Some k ∧ Z.of_nat (length ls) < close_waiting k < 2147483648) →
  (length ls < fuel)%nat →
  wp (close_loop vt UV_EINVAL fuel (head ls) source)
    (λ _, after_close source ls (Z.of_nat (length ls)) s) s.
Proof.
  revert s fuel. induction ls as [|l ls IH]; intros s fuel Hnd Hs Hready (k0 & Hk0 & Hw) Hfuel.
  { destruct fuel; wp_simpl; cbn; (split; try done); intros.
    all: try by match goal with H : _ ∈ [] |- _ => apply elem_of_nil in H end.
    all: eexists; split_and!; [done|lia|done|done]. }
  destruct fuel as [|fuel]; [cbn in Hfuel; lia|]. cbn [head length] in *.
  pose proof Hs as (k & Hk & _ & Hc & _). eapply close_loop_step; [done|done|].
  eapply wp_mono; [by apply (detach_spec l ls)|].
  intros k' s1 (lk1 & -> & Hk' & Hs1 & Hpk & Hck & Hl & Hfr & Hpres & Hlive).
  destruct (Hl k Hk) as [Hmk Hdk]. destruct (Hready l k ltac:(left) Hk) as [Hsync Hd0].
  rewrite Hdk, Hd0. change (0 =? 0) with true. cbn iota.
  destruct (Hpres source k0 Hk0) as (k1 & Hk1 & _ & _ & Hw1 & Hsv1).
  wp_simpl. unfold wp at 1. rewrite Hmk. destruct (Hsync l source CJoin (s <| links := lk1 |>)) as [x ->]. cbn [run_close_cb].
  match goal with |- match ?m ?st with _ => _ end => change (wp m (λ _, wp (close_loop vt UV_EINVAL fuel (head ls) source)
    (λ _, after_close source (l :: ls) (Z.of_nat (S (length ls))) s)) st) end.
  eapply wp_mono; [by apply (close_join_waits source k1); [|lia]|]. intros [] s2 ->.
  set (lk2 := <[source := k1 <| close_waiting := close_waiting k1 - 1 |>]> lk1).
  set (s2 := _ <| links := _ |>). assert (links s2 = lk2) as Hlk2 by done.
  pose proof Hnd as [Hnl Hnd']%NoDup_cons.
  assert (∀ y, view <$> (lk2 !! y) = view <$> (lk1 !! y)) as Hview.
  { intros y. unfold lk2. destruct (decide (y = source)) as [->|]; [by rewrite lookup_insert_eq, Hk1|by rewrite lookup_insert_ne]. }
  eapply wp_mono; [apply (IH s2 fuel); rewrite ?Hlk2; [done| | | |lia]|].
  - eapply seg_view; [|exact Hs1]. intros; apply Hview.
  - intros y ky Hy Hky. eapply ready_view; [apply Hview|exact Hky|]. intros ky1 Hky1.
    destruct (proj1 (Hlive y) ltac:(by eexists)) as [ky0 Hky0].
    destruct (Hpres y ky0 Hky0) as (ky2 & Hky2 & Hm2 & Hd2 & _). assert (ky2 = ky1) as -> by congruence.
    destruct (Hready y ky0 ltac:(by right) Hky0) as [H1 H2]. split; [by rewrite Hm2|congruence].
  - eexists. unfold lk2. rewrite lookup_insert_eq. split; [done|]. cbn. lia.
  - intros [] s3 H3. replace (Z.of_nat (S (length ls))) with (Z.of_nat (length ls) + 1) by lia.
    assert (∀ y, y ∉ l :: ls → lk1 !! y = links s !! y) as Hout.
    { intros y [Hyl Hy]%not_elem_of_cons. destruct (Hfr y Hyl) as [[_ Hh]|]; [|done].
      destruct ls; [done|]. injection Hh as ->. by destruct Hy; left. }
    apply (after_close_cons _ _ _ _ k0 s s2 s3); rewrite ?Hlk2; try done; unfold lk2.
    + intros y Hy Hne. rewrite lookup_insert_ne by done. by apply Hout.
    + intros y. rewrite lookup_insert_is_Some, <-Hlive. split; [intros [<-|[]]; [by eexists|done]|].
      destruct (decide (source = y)); [by left|by right].
    + destruct (decide (l = source)) as [->|]; [rewrite lookup_insert_eq|rewrite lookup_insert_ne by done]; [|by exists k'].
      eexists. split; [done|]. assert (k1 = k') as -> by congruence. done.
    + eexists. rewrite lookup_insert_eq. split_and!; [done|cbn; lia|done|]. intros Hns.
      rewrite (Hout _ Hns) in Hk1. assert (k1 = k0) as -> by congruence. done.
Qed.

Lemma find_root_spec root ls leaf s : parents (links s) None (root :: ls) → list.last (root :: ls) = Some leaf →
  ∀ fuel c, (length ls ≤ fuel)%nat → 0 ≤ c → c + Z.of_nat (length ls) < 2147483648 →
  find_root fuel leaf c s = Ret ((root, c + Z.of_nat (length ls)), s).
Proof.
  revert leaf. induction ls as [|x ls IH] using rev_ind; intros leaf Hp Hlast fuel c Hf Hc0 Hc.
  - injection Hlast as <-. destruct Hp as [(k & Hk & Hpk) _]. cbn in Hc |- *.
    destruct fuel; cbn; unfold link_get, mbind, M_bind, get; rewrite Hk; cbn; rewrite Hpk; by rewrite Z.add_0_r.
  - rewrite app_comm_cons in Hlast, Hp. rewrite last_snoc in Hlast. injection Hlast as <-.
    apply parents_snoc in Hp as [Hp (k & Hk & Hpk)]. rewrite length_app in Hf, Hc |- *. cbn [length] in Hf, Hc |- *.
    destruct (list.last (root :: ls)) as [y|] eqn:Hy; [|by apply last_None in Hy]. cbn in Hpk.
    destruct fuel as [|fuel]; [lia|]. cbn [find_root]. unfold link_get, mbind, M_bind, get. rewrite Hk.
    cbn [from_opt mret M_ret]. rewrite Hpk, i32_small by lia.
    rewrite (IH y Hp eq_refl) by lia. do 3 f_equal. lia.
Qed.

(** A source whose stream is open. *)
Definition open_source (l : lid) (st : Z) s : Prop :=
  (∃ src, sources s !! l = Some src ∧ stream src = Some st) ∧
  streams s !! st = Some (mkstream (Some l) false).

(** Closing an open source: [uv_close], and the callback is kept. *)
Lemma source_close_exact l st source cb s : open_source l st s →
  wp (uv_link_source_close record_close l source cb) (λ _ s', ∃ src, sources s !! l = Some src ∧
    s' = s <| sources := <[l := src <| src_close_cb := Some cb |> <| close_source := Some source |>]> (sources s) |>
           <| streams := <[st := mkstream (Some l) true]> (streams s) |> <| llog := llog s ++ [LUvClose st] |>) s.
Proof.
  intros [(src & Hsrc & Hst) Hh]. unfold uv_link_source_close, source_get, stream_get, source_put, stream_put, lemit.
  wp_simpl. rewrite Hsrc. wp_simpl. rewrite Hst. wp_simpl. rewrite Hh. wp_simpl. exists src. done.
Qed.

(** libuv reports the handle closed. *)
Lemma source_closed_exact l st src source s : streams s !! st = Some (mkstream (Some l) true) →
  sources s !! l = Some src → src_close_cb src = Some CJoin → close_source src = Some source →
  ∀ k cb, links s !! source = Some k → close_waiting k = 1 → saved_close_cb k = Some (CCall cb) →
  wp (uv_link_source_close_cb record_close st) (λ _ s', llog s' = llog s ++ [LClosed cb source] ∧
    links s' = <[source := k <| close_waiting := 0 |>]> (links s)) s.
Proof.
  intros Hh Hsrc Hcb Hto k cb Hk Hw Hsv. unfold uv_link_source_close_cb, stream_get, stream_put, source_get, source_put.
  wp_simpl. rewrite Hh. wp_simpl. cbn [st_data]. wp_simpl. cbn [sources update_with].
  cbn. rewrite Hsrc. wp_simpl. rewrite Hcb, Hto. wp_simpl. unfold run_close_cb, uv_link_close_join.
  wp_simpl. eapply wp_link_modify; [exact Hk|]. wp_simpl.
  eapply wp_link_get; [apply lookup_insert_eq|].
  cbn [close_waiting saved_close_cb update_with]. cbn. rewrite Hw. change (i32 (1 - 1)) with 0. cbn iota beta.
  rewrite Hsv. unfold record_close, lemit. wp_simpl. cbn. done.
Qed.

(** The chain is taken apart, the stream is closing, and the leaf waits for the stream
    only. *)
Record half_closed (root : lid) (ls : list lid) (leaf st cb : Z) (s s1 : L) : Prop := {
  hc_log : llog s1 = llog s ++ [LUvClose st];
  hc_apart : ∀ l k, l ∈ root :: ls → links s1 !! l = Some k → parent k = None ∧ child k = None;
  hc_stream : streams s1 !! st = Some (mkstream (Some root) true);
  hc_source : ∃ src, sources s1 !! root = Some src ∧ src_close_cb src = Some CJoin ∧ close_source src = Some leaf;
  hc_leaf : ∃ k, links s1 !! leaf = Some k ∧ close_waiting k = 1 ∧ saved_close_cb k = Some (CCall cb);
}.

Lemma close_loop_source root ls leaf st cb kr kl s fuel :
  NoDup (root :: ls) → leaf ∈ ls → seg (links s) None (root :: ls) → Z.of_nat (length ls) < 2147483646 →
  m_close (vt KSource) = uv_link_source_close record_close →
  links s !! root = Some kr → methods kr = KSource → close_depth kr = 0 →
  (∀ l k, l ∈ ls → links s !! l = Some k → ready k) → open_source root st s →
  links s !! leaf = Some kl → close_waiting kl = 1 + Z.of_nat (length ls) → saved_close_cb kl = Some (CCall cb) →
  (length ls < fuel)%nat →
  wp (close_loop vt UV_EINVAL (S fuel) (Some root) leaf) (λ _, half_closed root ls leaf st cb s) s.
Proof.
  intros Hnd Hin Hs Hlen Hvt Hkr Hmr Hdr Hready Hopen Hkl Hw Hsv Hf. pose proof Hnd as [Hroot Hnd']%NoDup_cons.
  pose proof Hs as (kr0 & Hkr0 & _ & Hcr & _). assert (kr0 = kr) as -> by congruence.
  eapply close_loop_step; [exact Hkr|exact Hcr|]. eapply wp_mono; [by apply (detach_spec root ls)|].
  intros k2 s2 (lk2 & -> & Hk2 & Hs2 & Hp2 & Hc2 & Hl2 & Hfr2 & Hpres2 & Hlive2).
  destruct (Hl2 kr Hkr) as [Hm2 Hd2]. rewrite Hd2, Hdr, Hm2, Hmr, Hvt. change (0 =? 0) with true. cbn iota.
  wp_simpl. eapply wp_mono; [by apply (source_close_exact root st)|]. intros [] s3 (src & Hsrc & ->). cbn beta.
  destruct (Hpres2 leaf kl Hkl) as (kl2 & Hkl2 & _ & _ & Hw2 & Hsv2).
  set (s3 := _ <| llog := _ |>). assert (links s3 = lk2) as Hl3 by done.
  eapply wp_mono; [apply (close_loop_sync leaf ls s3 fuel); rewrite ?Hl3; [done|done| | |done]|].
  - intros y ky Hy Hky. destruct (proj1 (Hlive2 y) ltac:(by eexists)) as [ky0 Hky0].
    destruct (Hpres2 y ky0 Hky0) as (ky2 & Hky2 & Hmy & Hdy & _). assert (ky2 = ky) as -> by congruence.
    destruct (Hready y ky0 Hy Hky0). split; [by rewrite Hmy|congruence].
  - exists kl2. split; [done|]. lia.
  - intros [] s4 [H1 H2 H3 H4 H5 H6 H7]. rewrite Hl3 in H6, H7.
    destruct (H6 kl2 Hkl2) as (k4 & Hk4 & Hw4 & Hsv4 & _). split.
    + by rewrite H1.
    + intros y ky [->|Hy]%elem_of_cons Hky; [|by eapply H4].
      rewrite H7 in Hky by (congruence || set_solver). by assert (ky = k2) as -> by congruence.
    + rewrite H3. cbn. apply lookup_insert_eq.
    + rewrite H2. cbn. rewrite lookup_insert_eq. by eexists.
    + exists k4. split; [done|]. split; [lia|congruence].
Qed.

Lemma close_chain_first root ls leaf st cb kr kl s :
  chain (links s) (root :: ls) → list.last ls = Some leaf → Z.of_nat (length ls) < 2147483646 →
  m_close (vt KSource) = uv_link_source_close record_close →
  links s !! root = Some kr → methods kr = KSource → close_depth kr = 0 →
  (∀ l k, l ∈ ls → links s !! l = Some k → ready k) →
  open_source root st s → links s !! leaf = Some kl → close_waiting kl = 0 →
  wp (uv_link_close vt UV_EINVAL leaf cb) (λ _, half_closed root ls leaf st cb s) s.
Proof.
  intros Hch Hlast Hlen Hvt Hkr Hmr Hdr Hready Hopen Hkl Hw. pose proof (chain_size _ _ Hch) as Hsz. cbn [length] in Hsz.
  destruct Hch as [Hnd Hs]. pose proof Hnd as [Hroot _]%NoDup_cons.
  apply last_Some in Hlast as Hsnoc. destruct Hsnoc as [ls0 Hls].
  assert (leaf ∈ ls) as Hin by (rewrite Hls; apply elem_of_app; right; by left).
  assert (root ≠ leaf) as Hrl by congruence.
  assert (child kl = None) as Hcl.
  { rewrite Hls, app_comm_cons in Hs. destruct (seg_last _ _ _ _ Hs) as (k & Hk & Hck & _). congruence. }
  unfold uv_link_close, uv_link_propagate_close. link_step. rewrite Hcl.
  rewrite bool_decide_eq_false_2 by (by intros []). wp_simpl. unfold wp at 1.
  rewrite (find_root_spec root ls leaf s (seg_parents _ _ _ Hs)) by (rewrite ?last_cons, ?Hlast; done || lia).
  wp_simpl. link_step. cbn [close_waiting update_with]. rewrite Hw, i32_small by lia.
  set (kl1 := kl <| close_waiting := _ |> <| saved_close_cb := _ |>).
  set (s1 := s <| links := <[leaf := kl1]> (links s) |>).
  assert (∀ y, view <$> (links s1 !! y) = view <$> (links s !! y)) as Hview.
  { intros y. unfold s1. rewrite links_get.
    destruct (decide (y = leaf)) as [->|]; [by rewrite lookup_insert_eq, Hkl|by rewrite lookup_insert_ne]. }
  eapply wp_mono; [apply (close_loop_source root ls leaf st cb kr kl1 s1); try done|].
  - eapply seg_view; [|exact Hs]. intros; apply Hview.
  - unfold s1. by rewrite links_get, lookup_insert_ne.
  - intros y ky Hy Hky. eapply ready_view; [apply Hview|exact Hky|]. intros; by eapply Hready.
  - unfold s1. rewrite links_get. apply lookup_insert_eq.
  - intros [] s2 []. by split.
Qed.

End Chains.

(** ** Witnesses: a source, a middle link and a leaf *)

Module ToyLinks.
Definition st : Type := lstate Z unit.
(** Links that only pass on what they get. *)
Definition plain : uv_link_methods_t Z unit :=
  mkmethods (λ _, mret 0) None (λ _ _ _ _, mret 0) None None (uv_link_default_close record_close) None
    (Some (λ _ _, mret None)) (Some (λ _ _ _, mret tt)).
Definition vt (k : kind) : uv_link_methods_t Z unit :=
  match k with
  | KSource => uv_link_source_methods (-12) (λ _, 0) record_close (λ _, true)
  | _ => plain
  end.
Definition start : st := mkl ∅ ∅ ∅ {[ 9 := mkstream None false ]} ∅ ∅ [] tt.
Definition build : M st Z :=
  uv_link_source_init 1 9;; uv_link_init 2 KTls;; uv_link_init 3 (KUser 0);;
  uv_link_chain vt (-22) 1 2;; uv_link_chain vt (-22) 2 3.
Definition built : st := match build start with Ret (_, s) => s | Fault _ => start end.
(** The chain of two links, and the leaf apart. *)
Definition half : st :=
  match (uv_link_source_init 1 9;; uv_link_init 2 KTls;; uv_link_init 3 (KUser 0);; uv_link_chain vt (-22) 1 2) start with
  | Ret (_, s) => s | Fault _ => start end.

Definition fresh_link : uv_link_s := mklink None None (Some CbDef) (Some CbDef) (KUser 0) None None (prefix_of 1) 0 0 None None.
Definition link_of (s : st) (l : lid) : uv_link_s := default fresh_link (links s !! l).

Lemma built_chain : chain (links built) [1; 2; 3].
Proof.
  split; [apply (bool_decide_unpack (NoDup [1; 2; 3])); vm_compute; exact I|].
  repeat (eexists; split_and!; [vm_compute; reflexivity|vm_compute; reflexivity|vm_compute; reflexivity|]). exact I.
Qed.
Lemma built_numbered : numbered (links built) 1 [1; 2; 3].
Proof. repeat split; eexists; (split; [vm_compute; reflexivity|vm_compute; reflexivity]). Qed.
Lemma half_chain : chain (links half) [1; 2].
Proof.
  split; [apply (bool_decide_unpack (NoDup [1; 2])); vm_compute; exact I|].
  repeat (eexists; split_and!; [vm_compute; reflexivity|vm_compute; reflexivity|vm_compute; reflexivity|]). exact I.
Qed.
Lemma half_numbered : numbered (links half) 1 [1; 2].
Proof. repeat split; eexists; (split; [vm_compute; reflexivity|vm_compute; reflexivity]). Qed.
Lemma plain_at_once k : k ≠ KSource → closes_at_once vt k.
Proof. intros Hk l source cb [? ? ? ? ? ? ? x]. exists x. destruct k; [done|reflexivity..]. Qed.
End ToyLinks.
Import ToyLinks.

(** An error of link 2 is found again at link 3. *)
Lemma link_errors_roundtrip_witness : ∃ k, links built !! 2 = Some k ∧
  uv_link_errno (-4096) (Some 3) (uv_link_error (-4096) k (-5000)) built = Ret ((Some 2, -5000), built).
Proof.
  eexists. split; [vm_compute; reflexivity|].
  refine (proj1 (link_errors_roundtrip (-4096) _ [1] 2 [3] _ (-5000) built built_chain built_numbered _ _ _));
    [lia|reflexivity|vm_compute; reflexivity|split; lia].
Defined.

Lemma chain_extends_witness : ∃ s' f' t', uv_link_chain vt (-22) 2 3 half = Ret (0, s') ∧
  s' = half <| links := <[3 := t']> (<[2 := f']> (links half)) |> ∧
  chain (links s') [1; 2; 3] ∧ numbered (links s') 1 [1; 2; 3] ∧
  alloc_cb f' = Some (CbOf (KUser 0)) ∧ read_cb f' = Some (CbOf (KUser 0)) ∧
  alloc_cb t' = Some CbDef ∧ read_cb t' = Some CbDef.
Proof.
  apply (chain_extends vt (-22) [1] 2 3 (link_of half 2) fresh_link half half_chain half_numbered);
    [apply (bool_decide_unpack (3 ∉ [1; 2])); vm_compute; exact I|reflexivity|vm_compute; reflexivity|vm_compute; reflexivity
    |reflexivity|reflexivity|discriminate|discriminate].
Defined.

Lemma unchain_chain_witness : ∃ n,
  (uv_link_chain vt (-22) 2 3;; uv_link_unchain (-22) 2 3) half =
    Ret (0, half <| links := <[3 := fresh_link <| err_prefix := prefix_of n |>]> (links half) |>).
Proof.
  apply (unchain_chain vt (-22) 2 3 (link_of half 2) fresh_link half);
    first [discriminate | vm_compute; reflexivity].
Defined.

