(* ===== verification/SslIo.v ===== *)
(** * A TLS library and its transport

    The TLS libraries are given two callbacks (mbedTLS: [mbed_ssl_recv] and [mbed_ssl_send]
    of src/mbedtls/engine.c) or two memory queues (OpenSSL) for the bytes of the
    connection.  A call into a library is an [ssl_run]: what it receives and sends, in
    order, each step depending on the answers to the ones before, and its result.  The
    library itself is a parameter; [run_ssl] runs a call over any pair of byte queues of
    the interface [ByteFifo] of Bio.v. *)
From S2P Require Import Prelude Bio.
From stdpp Require Import base list numbers.
From Stdlib Require Import ZArith Lia.
Open Scope Z_scope.

(** [SDone rc out s]: the call returns [rc], has stored [out] in the caller's buffer, and
    leaves the library's state [s]. *)
Inductive ssl_run (T : Type) :=
  | SDone (rc : Z) (out : list Z) (s : T)
  | SRecv (len : Z) (k : Z → list Z → ssl_run T)
  | SSend (bytes : list Z) (k : Z → ssl_run T).
Arguments SDone {T}.
Arguments SRecv {T}.
Arguments SSend {T}.

(** [P] holds of every result the call may have. *)
Fixpoint all_done {T} (P : Z → list Z → T → Prop) (r : ssl_run T) : Prop :=
  match r with
  | SDone rc out s => P rc out s
  | SRecv _ k => ∀ rc b, all_done P (k rc b)
  | SSend _ k => ∀ rc, all_done P (k rc)
  end.
(** The buffers of the call have sizes a buffer can have. *)
Fixpoint io_ok {T} (r : ssl_run T) : Prop :=
  match r with
  | SDone _ _ _ => True
  | SRecv len k => 0 ≤ len < 2147483648 ∧ ∀ rc b, io_ok (k rc b)
  | SSend b k => Z.of_nat (length b) < 18446744073709551616 ∧ ∀ rc, io_ok (k rc)
  end.

(** Byte strings are a queue: the specification of all others. *)
#[export] Program Instance list_fifo : ByteFifo (list Z) := {|
  fifo_new := [];
  fifo_put b d := b ++ d;
  fifo_read b n := Ret (Z.of_nat (length (take (Z.to_nat n) b)), take (Z.to_nat n) b, drop (Z.to_nat n) b);
  fifo_available b := u64 (Z.of_nat (length b));
  fifo_content b := b;
  fifo_ok b := True
|}.
Next Obligation. done. Qed.
Next Obligation. done. Qed.
Next Obligation. done. Qed.
Next Obligation. done. Qed.
Next Obligation. intros b n _ _. by eexists. Qed.
Next Obligation. done. Qed.

Section Run.
Context {B : Type} `{!ByteFifo B} {T : Type}.
(** What receiving from an empty queue returns. *)
Context (empty_rc : Z).

Definition ssl_recv (inq : B) (len : Z) : outcome (Z * list Z * B) :=
  if fifo_available inq =? 0 then Ret (empty_rc, [], inq) else fifo_read inq len.
Definition ssl_send (outq : B) (bytes : list Z) : Z * B := (i32 (Z.of_nat (length bytes)), fifo_put outq bytes).

Fixpoint run_ssl (r : ssl_run T) (inq outq : B) : outcome (Z * list Z * T * B * B) :=
  match r with
  | SDone rc out s => Ret (rc, out, s, inq, outq)
  | SRecv len k => '(rc, b, inq) ← ssl_recv inq len; run_ssl (k rc b) inq outq
  | SSend bytes k => let '(rc, outq) := ssl_send outq bytes in run_ssl (k rc) inq outq
  end.

(** A call ends, keeps the queues well formed, takes what it receives from the front of one
    and appends what it sends to the other. *)
Lemma run_ssl_ok r inq outq : io_ok r → fifo_ok inq → fifo_ok outq →
  ∃ rc out s inq' outq', run_ssl r inq outq = Ret (rc, out, s, inq', outq') ∧ fifo_ok inq' ∧ fifo_ok outq' ∧
    (∃ rcvd, fifo_content inq = rcvd ++ fifo_content inq') ∧ (∃ sent, fifo_content outq' = fifo_content outq ++ sent) ∧
    (∀ P, all_done P r → P rc out s).
Proof.
  revert inq outq. induction r as [rc out s|len k IH|bytes k IH]; intros inq outq Hio Hi Ho; cbn [run_ssl io_ok] in *.
  - eexists _, _, _, _, _. split; [done|]. split_and!; [done|done|by exists []|exists []; by rewrite app_nil_r|by intros P ?].
  - destruct Hio as [Hlen Hk]. unfold ssl_recv. destruct (fifo_available inq =? 0); cbn.
    + destruct (IH empty_rc [] inq outq (Hk _ _) Hi Ho) as (rc & out & s & i' & o' & Hr & Hi' & Ho' & H1 & H2 & H3).
      eexists _, _, _, _, _. split; [done|]. split_and!; try done. intros P HP. apply H3, HP.
    + destruct (fifo_read_spec inq len Hi Hlen) as (i1 & Hrd & Hi1 & Hc1). rewrite Hrd. cbn.
      destruct (IH (Z.of_nat (length (take (Z.to_nat len) (fifo_content inq)))) (take (Z.to_nat len) (fifo_content inq)) i1 outq (Hk _ _) Hi1 Ho)
        as (rc & out & s & i' & o' & Hr & Hi' & Ho' & [rcvd H1] & H2 & H3).
      eexists _, _, _, _, _. split; [done|]. split_and!; try done; [|intros P HP; apply H3, HP].
      exists (take (Z.to_nat len) (fifo_content inq) ++ rcvd). by rewrite <-app_assoc, <-H1, Hc1, take_drop.
  - destruct Hio as [Hlen Hk]. unfold ssl_send.
    destruct (IH (i32 (Z.of_nat (length bytes))) inq (fifo_put outq bytes) (Hk _) Hi (fifo_put_ok _ _ Ho Hlen))
      as (rc & out & s & i' & o' & Hr & Hi' & Ho' & H1 & [sent H2] & H3).
    eexists _, _, _, _, _. split; [done|]. split_and!; try done; [|intros P HP; apply H3, HP].
    exists (bytes ++ sent). by rewrite H2, fifo_put_content, app_assoc.
Qed.
End Run.

(** Two implementations of the queue with the same bytes in them. *)
Definition same_bytes {B C : Type} `{!ByteFifo B} `{!ByteFifo C} (b : B) (c : C) : Prop :=
  fifo_ok b ∧ fifo_ok c ∧ fifo_content b = fifo_content c.

Section Refine.
Context {B C : Type} `{!ByteFifo B} `{!ByteFifo C} {T : Type} (empty_rc : Z).
Implicit Types (b : B) (c : C).

Lemma same_put b c d : same_bytes b c → Z.of_nat (length d) < 18446744073709551616 → same_bytes (fifo_put b d) (fifo_put c d).
Proof.
  intros (Hb & Hc & Hbc) Hd. split; [by apply fifo_put_ok|]. split; [by apply fifo_put_ok|].
  rewrite !fifo_put_content by done. by rewrite Hbc.
Qed.
Lemma same_available b c : same_bytes b c → fifo_available b = fifo_available c.
Proof. intros (Hb & Hc & Hbc). by rewrite !fifo_available_spec, Hbc. Qed.
Lemma same_read b c n : same_bytes b c → 0 ≤ n < 2147483648 →
  ∃ rc out b' c', fifo_read b n = Ret (rc, out, b') ∧ fifo_read c n = Ret (rc, out, c') ∧ same_bytes b' c' ∧
    out = take (Z.to_nat n) (fifo_content b).
Proof.
  intros (Hb & Hc & Hbc) Hn. destruct (fifo_read_spec b n Hb Hn) as (b' & -> & Hb' & Hcb).
  destruct (fifo_read_spec c n Hc Hn) as (c' & -> & Hc' & Hcc). rewrite <-Hbc in *.
  eexists _, _, b', c'. split_and!; [done|done|split_and!; [done|done|by rewrite Hcb, Hcc]|done].
Qed.

(** A call has the same result over both. *)
Lemma run_ssl_same (r : ssl_run T) (i o : B) (i' o' : C) : io_ok r → same_bytes i i' → same_bytes o o' →
  ∃ rc out s i1 o1 i1' o1', run_ssl empty_rc r i o = Ret (rc, out, s, i1, o1) ∧ run_ssl empty_rc r i' o' = Ret (rc, out, s, i1', o1') ∧
    same_bytes i1 i1' ∧ same_bytes o1 o1' ∧ (∀ P, all_done P r → P rc out s).
Proof.
  revert i o i' o'. induction r as [rc out s|len k IH|bytes k IH]; intros i o i' o' Hio Hi Ho; cbn [run_ssl io_ok] in *.
  - eexists _, _, _, _, _, _, _. split; [done|]. split; [done|]. split_and!; [done|done|by intros P ?].
  - destruct Hio as [Hlen Hk]. unfold ssl_recv. rewrite <-(same_available i i' Hi). destruct (fifo_available i =? 0).
    + destruct (IH empty_rc [] i o i' o' (Hk _ _) Hi Ho) as (rc & out & s & i1 & o1 & i1' & o1' & ? & ? & ? & ? & HP).
      eexists _, _, _, _, _, _, _. split_and!; try done. intros P HP1. apply HP, HP1.
    + destruct (same_read i i' len Hi Hlen) as (rc1 & b1 & j & j' & -> & -> & Hj & _).
      destruct (IH rc1 b1 j o j' o' (Hk _ _) Hj Ho) as (rc & out & s & i1 & o1 & i1' & o1' & ? & ? & ? & ? & HP).
      eexists _, _, _, _, _, _, _. split_and!; try done. intros P HP1. apply HP, HP1.
  - destruct Hio as [Hlen Hk]. unfold ssl_send.
    destruct (IH (i32 (Z.of_nat (length bytes))) i (fifo_put o bytes) i' (fifo_put o' bytes) (Hk _) Hi (same_put _ _ _ Ho Hlen))
      as (rc & out & s & i1 & o1 & i1' & o1' & ? & ? & ? & ? & HP).
    eexists _, _, _, _, _, _, _. split_and!; try done. intros P HP1. apply HP, HP1.
Qed.
End Refine.
