(* ===== verification/MbedEngine.v ===== *)
(** * The mbedTLS engine (src/mbedtls/engine.c: the engine and its certificate check)

    An implementation of [TlsEngine]: the mbedTLS connection and the two byte queues it
    talks through.  The library is the class [MbedTls]: its calls are [ssl_run]s (SslIo.v),
    its laws are what its documentation says of buffer sizes and results.  The queues are
    any [ByteFifo]; the program's is [tlsuv_BIO]. *)
From S2P Require Import Prelude Bio TlsEngine SslIo.
From stdpp Require Import base list numbers.
From Stdlib Require Import ZArith Lia.
Open Scope Z_scope.

Class MbedTls := {
  ssl_t : Type;
  session_t : Type;
  ssl_config : Type;
  (* the field [state] of the connection, and two of its values *)
  ssl_state : ssl_t → Z;
  MBEDTLS_SSL_HELLO_REQUEST : Z;
  MBEDTLS_SSL_HANDSHAKE_OVER : Z;
  MBEDTLS_ERR_SSL_WANT_READ : Z;
  MBEDTLS_ERR_SSL_WANT_WRITE : Z;
  MBEDTLS_ERR_SSL_PEER_CLOSE_NOTIFY : Z;
  (* mbedtls_ssl_init, _setup, _set_hostname *)
  mbedtls_ssl_setup : ssl_config → option (list Z) → ssl_t;
  mbedtls_ssl_handshake : ssl_t → ssl_run ssl_t;
  mbedtls_ssl_write : ssl_t → list Z → ssl_run ssl_t;
  mbedtls_ssl_read : ssl_t → Z → ssl_run ssl_t;
  mbedtls_ssl_close_notify : ssl_t → ssl_run ssl_t;
  mbedtls_ssl_check_pending : ssl_t → bool;
  (* a session that was freed is [None] *)
  mbedtls_ssl_set_session : ssl_t → option session_t → ssl_t;
  mbedtls_ssl_get_session : ssl_t → option session_t;
  mbedtls_ssl_session_reset : ssl_t → ssl_t;
}.

(** What the engine relies on. *)
Class MbedTlsLaws `{MbedTls} := {
  want_read_neg : MBEDTLS_ERR_SSL_WANT_READ < 0;
  handshake_io s : io_ok (mbedtls_ssl_handshake s);
  write_io s d : io_ok (mbedtls_ssl_write s d);
  read_io s n : io_ok (mbedtls_ssl_read s n);
  close_io s : io_ok (mbedtls_ssl_close_notify s);
  (* the number of bytes written, or an error *)
  write_rc s d : d ≠ [] → all_done (λ rc _ _, rc < 0 ∨ 0 < rc ≤ Z.of_nat (length d)) (mbedtls_ssl_write s d);
  (* the number of bytes stored, or an error *)
  read_rc s n : 0 ≤ n → all_done (λ rc out _, rc ≤ n ∧ length out = Z.to_nat rc) (mbedtls_ssl_read s n);
  (* the plaintext still to be read when the bytes arrive *)
  mbed_plaintext : ssl_t → list Z → list Z;
  mbed_plaintext_online s a b : ∃ c, mbed_plaintext s (a ++ b) = mbed_plaintext s a ++ c;
  (* the end of the transport is not reported: the queue says that there is nothing yet *)
  mbed_read_plaintext s n c o rc out s' c' o' : 0 < n → Z.of_nat (length c) < 18446744073709551616 →
    run_ssl MBEDTLS_ERR_SSL_WANT_READ (mbedtls_ssl_read s n) c o = Ret (rc, out, s', c', o') → rc ≠ 0 ∧
    (0 < rc → ∀ more, mbed_plaintext s (c ++ more) = out ++ mbed_plaintext s' (c' ++ more)) ∧
    (rc = MBEDTLS_ERR_SSL_WANT_READ → (∀ more, mbed_plaintext s (c ++ more) = mbed_plaintext s' (c' ++ more)) ∧ mbed_plaintext s' c' = []);
  mbed_pending_plaintext s : mbedtls_ssl_check_pending s = false → mbed_plaintext s [] = [];
}.

Section Engine.
Context `{MbedTls} {B : Type} `{!ByteFifo B}.

Record mbedtls_engine := mkmbed {
  ssl : ssl_t;
  session : option (option session_t);
  e_in : B;
  e_out : B;
  e_error : Z;
  ip_len : Z;
  addr : list Z;
  cert_verify_f : option Z;   (* with verify_ctx *)
}.
#[export] Instance mbedtls_engine_upd : Updatable mbedtls_engine := fun e =>
  mkmbed (ssl e) (session e) (e_in e) (e_out e) (e_error e) (ip_len e) (addr e) (cert_verify_f e).

(** [mbed_ssl_recv] and [mbed_ssl_send] *)
Definition mbed_ssl_recv (inq : B) (len : Z) : outcome (Z * list Z * B) := ssl_recv MBEDTLS_ERR_SSL_WANT_READ inq len.
Definition mbed_ssl_send (outq : B) (bytes : list Z) : Z * B := ssl_send outq bytes.

(** A call of the library on the engine's connection. *)
Definition call_ssl (r : ssl_run ssl_t) (e : mbedtls_engine) : outcome (Z * list Z * mbedtls_engine) :=
  '(rc, out, s, i, o) ← run_ssl MBEDTLS_ERR_SSL_WANT_READ r (e_in e) (e_out e);
  Ret (rc, out, e <| ssl := s |> <| e_in := i |> <| e_out := o |>).

(** [tlsuv_BIO_put(eng->in, in, in_bytes)] if there are any *)
Definition put_in (input : option (list Z)) (e : mbedtls_engine) : mbedtls_engine :=
  match input with
  | Some ((_ :: _) as b) => e <| e_in := fifo_put (e_in e) b |>
  | _ => e
  end.
(** [*out_bytes = tlsuv_BIO_read(eng->out, out, maxout)] *)
Definition take_out (maxout : Z) (e : mbedtls_engine) : outcome (list Z * mbedtls_engine) :=
  '(_, out, o) ← fifo_read (e_out e) maxout; Ret (out, e <| e_out := o |>).

(** [inet6] and [inet4] are [uv_inet_pton]. *)
Definition new_mbedtls_engine (inet6 inet4 : list Z → option (list Z)) (cfg : ssl_config) (verify : option Z) (host : option (list Z))
  : mbedtls_engine :=
  let e := mkmbed (mbedtls_ssl_setup cfg host) None fifo_new fifo_new 0 0 (replicate 16 0) verify in
  match host with
  | None => e
  | Some h =>
    match inet6 h with
    | Some a => e <| addr := a |> <| ip_len := 16 |>
    | None => match inet4 h with Some a => e <| addr := a ++ drop 4 (addr e) |> <| ip_len := 4 |> | None => e end
    end
  end.

Definition mbedtls_hs_state (e : mbedtls_engine) : tls_handshake_state :=
  if ssl_state (ssl e) =? MBEDTLS_SSL_HANDSHAKE_OVER then TLS_HS_COMPLETE
  else if ssl_state (ssl e) =? MBEDTLS_SSL_HELLO_REQUEST then TLS_HS_BEFORE
  else TLS_HS_CONTINUE.

(** The session of an earlier connection is offered once; its content is then freed. *)
Definition use_session (e : mbedtls_engine) : mbedtls_engine :=
  if ssl_state (ssl e) =? MBEDTLS_SSL_HELLO_REQUEST then
    match session e with
    | Some s => e <| ssl := mbedtls_ssl_set_session (ssl e) s |> <| session := Some None |>
    | None => e
    end
  else e.

Definition mbedtls_continue_hs (e : mbedtls_engine) (input : option (list Z)) (maxout : Z)
  : outcome (tls_handshake_state * list Z * mbedtls_engine) :=
  let e := use_session (put_in input e) in
  '(state, _, e) ← call_ssl (mbedtls_ssl_handshake (ssl e)) e;
  '(out, e) ← take_out maxout e;
  Ret (if ssl_state (ssl e) =? MBEDTLS_SSL_HANDSHAKE_OVER then (TLS_HS_COMPLETE, out, e)
       else if (state =? MBEDTLS_ERR_SSL_WANT_READ) || (state =? MBEDTLS_ERR_SSL_WANT_WRITE) then (TLS_HS_CONTINUE, out, e)
       else (TLS_HS_ERROR, out, e <| e_error := state |>)).

(** [while (data_len > wrote)]: the result is the error, if any. *)
Fixpoint mbed_write_loop (fuel : nat) (data : list Z) (e : mbedtls_engine) : outcome (option Z * mbedtls_engine) :=
  match data with
  | [] => Ret (None, e)
  | _ =>
    match fuel with
    | O => Fault OutOfFuel
    | S fuel =>
      '(rc, _, e) ← call_ssl (mbedtls_ssl_write (ssl e) data) e;
      if rc <? 0 then Ret (Some rc, e <| e_error := rc |>) else mbed_write_loop fuel (drop (Z.to_nat rc) data) e
    end
  end.
Definition mbedtls_write (e : mbedtls_engine) (data : option (list Z)) (maxout : Z) : outcome (Z * list Z * mbedtls_engine) :=
  let data := default [] data in
  '(err, e) ← mbed_write_loop (length data) data e;
  match err with
  | Some rc => Ret (rc, [], e)
  | None => '(out, e) ← take_out maxout e; Ret (i32 (fifo_available (e_out e)), out, e)
  end.

(** [do ... while (rc > 0 && maxout - total_out > 0)]; [acc] is stored so far. *)
Fixpoint mbed_read_loop (fuel : nat) (room : Z) (acc : list Z) (e : mbedtls_engine) : outcome (Z * list Z * mbedtls_engine) :=
  match fuel with
  | O => Fault OutOfFuel
  | S fuel =>
    '(rc, out, e) ← call_ssl (mbedtls_ssl_read (ssl e) room) e;
    if 0 <? rc then
      if 0 <? room - rc then mbed_read_loop fuel (room - rc) (acc ++ out) e else Ret (rc, acc ++ out, e)
    else Ret (rc, acc, e)
  end.
Definition mbedtls_read (e : mbedtls_engine) (input : option (list Z)) (maxout : Z) : outcome (Z * list Z * mbedtls_engine) :=
  '(rc, out, e) ← mbed_read_loop (S (Z.to_nat maxout)) maxout [] (put_in input e);
  Ret (if rc =? MBEDTLS_ERR_SSL_WANT_READ then (if 0 <? fifo_available (e_out e) then TLS_HAS_WRITE else TLS_OK, out, e)
       else if rc =? MBEDTLS_ERR_SSL_PEER_CLOSE_NOTIFY then (TLS_EOF, out, e)
       else if rc <? 0 then (TLS_ERR, out, e <| e_error := rc |>)
       else if (0 <? fifo_available (e_in e)) || mbedtls_ssl_check_pending (ssl e) then (TLS_MORE_AVAILABLE, out, e)
       else (TLS_OK, out, e)).

Definition mbedtls_close (e : mbedtls_engine) (maxout : Z) : outcome (list Z * mbedtls_engine) :=
  '(_, _, e) ← call_ssl (mbedtls_ssl_close_notify (ssl e)) e;
  take_out maxout e.

(** The session is kept for the next connection, if the library gives it. *)
Definition mbedtls_reset (e : mbedtls_engine) : mbedtls_engine :=
  e <| session := Some <$> mbedtls_ssl_get_session (ssl e) |> <| ssl := mbedtls_ssl_session_reset (ssl e) |>.

#[export] Instance MbedTlsEngine : TlsEngine := {|
  engine_t := mbedtls_engine;
  e_handshake_state := mbedtls_hs_state;
  e_handshake := mbedtls_continue_hs;
  e_write := mbedtls_write;
  e_read := mbedtls_read;
  e_reset := Some mbedtls_reset;
|}.
End Engine.
Arguments mbedtls_engine {_} B.

(** ** The engine over any queue is the engine over byte strings *)

Section Refinement.
Context `{MbedTlsLaws} {B : Type} `{!ByteFifo B}.
Implicit Types (e : mbedtls_engine B) (a : mbedtls_engine (list Z)).

Record mbed_sim e a : Prop := {
  sim_ssl : ssl e = ssl a;
  sim_session : session e = session a;
  sim_error : e_error e = e_error a;
  sim_ip : ip_len e = ip_len a;
  sim_addr : addr e = addr a;
  sim_verify : cert_verify_f e = cert_verify_f a;
  sim_in : same_bytes (e_in e) (e_in a);
  sim_out : same_bytes (e_out e) (e_out a);
}.
Definition input_ok (input : option (list Z)) : Prop := Z.of_nat (length (default [] input)) < 18446744073709551616.
Definition room_ok (maxout : Z) : Prop := 0 ≤ maxout < 2147483648.

Lemma call_ssl_sim r e a : io_ok r → mbed_sim e a → ∃ rc out e' a',
  call_ssl r e = Ret (rc, out, e') ∧ call_ssl r a = Ret (rc, out, a') ∧ mbed_sim e' a' ∧ (∀ P, all_done P r → P rc out (ssl e')).
Proof.
  intros Hio []. unfold call_ssl.
  destruct (run_ssl_same MBEDTLS_ERR_SSL_WANT_READ r _ _ _ _ Hio sim_in0 sim_out0) as (rc & out & s & i1 & o1 & i1' & o1' & -> & -> & ? & ? & HP).
  eexists _, _, _, _. split; [done|]. split; [done|]. by split.
Qed.
Lemma put_in_sim input e a : input_ok input → mbed_sim e a → mbed_sim (put_in input e) (put_in input a).
Proof. intros Hin []. destruct input as [[|b d]|]; cbn [put_in]; split; try done. exact (same_put _ _ (b :: d) sim_in0 Hin). Qed.
Lemma take_out_sim n e a : room_ok n → mbed_sim e a → ∃ out e' a',
  take_out n e = Ret (out, e') ∧ take_out n a = Ret (out, a') ∧ mbed_sim e' a' ∧ Z.of_nat (length out) ≤ n ∧ ssl e' = ssl e.
Proof.
  intros Hn []. unfold take_out. destruct (same_read _ _ n sim_out0 Hn) as (rc & out & b' & c' & -> & -> & Hs & Ho).
  eexists _, _, _. split; [done|]. split; [done|]. split; [by split|]. split; [|done]. rewrite Ho, length_take. unfold room_ok in Hn. lia.
Qed.
Lemma use_session_sim e a : mbed_sim e a → mbed_sim (use_session e) (use_session a).
Proof.
  intros []. unfold use_session. rewrite <-sim_ssl0, <-sim_session0. destruct (_ =? _); [|by split]. destruct (session e) eqn:Hse; split; cbn; congruence || done.
Qed.
Lemma error_sim e a z : mbed_sim e a → mbed_sim (e <| e_error := z |>) (a <| e_error := z |>).
Proof. intros []. by split. Qed.

Lemma write_loop_sim fuel data e a : (length data ≤ fuel)%nat → mbed_sim e a → ∃ r e' a',
  mbed_write_loop fuel data e = Ret (r, e') ∧ mbed_write_loop fuel data a = Ret (r, a') ∧ mbed_sim e' a'.
Proof.
  revert data e a. induction fuel as [|fuel IH]; intros data e a Hf Hs.
  - destruct data; [|cbn in Hf; lia]. by eexists _, _, _.
  - destruct data as [|b d]; [by eexists _, _, _|]. set (data := b :: d) in *. assert (data ≠ []) as Hne by done. cbn [mbed_write_loop].
    rewrite <-(sim_ssl _ _ Hs). destruct (call_ssl_sim (mbedtls_ssl_write (ssl e) data) e a (write_io _ _) Hs) as (rc & out & e1 & a1 & -> & -> & Hs1 & HP).
    specialize (HP _ (write_rc _ _ Hne)). cbn in HP. destruct data as [|b' d'] eqn:Hd; [done|]. rewrite <-Hd in *. cbn. destruct (Z.ltb_spec rc 0).
    + eexists _, _, _. split; [done|]. split; [done|]. by apply error_sim.
    + apply IH; [|done]. rewrite length_drop. lia.
Qed.
Lemma read_loop_sim fuel room acc e a : 0 ≤ room → (Z.to_nat room < fuel)%nat → mbed_sim e a → ∃ rc out e' a',
  mbed_read_loop fuel room acc e = Ret (rc, out, e') ∧ mbed_read_loop fuel room acc a = Ret (rc, out, a') ∧ mbed_sim e' a' ∧
  Z.of_nat (length out) ≤ Z.of_nat (length acc) + room.
Proof.
  revert room acc e a. induction fuel as [|fuel IH]; intros room acc e a Hr Hf Hs; [lia|]. cbn [mbed_read_loop].
  rewrite <-(sim_ssl _ _ Hs). destruct (call_ssl_sim (mbedtls_ssl_read (ssl e) room) e a (read_io _ _) Hs) as (rc & out & e1 & a1 & -> & -> & Hs1 & HP).
  destruct (HP _ (read_rc _ _ Hr)) as [Hrc Hlen]. cbn. destruct (Z.ltb_spec 0 rc).
  - destruct (Z.ltb_spec 0 (room - rc)).
    + destruct (IH (room - rc) (acc ++ out) e1 a1) as (rc' & out' & e' & a' & ? & ? & ? & Hl); [lia|lia|done|].
      eexists _, _, _, _. split_and!; try done. rewrite length_app in Hl. lia.
    + eexists _, _, _, _. split; [done|]. split; [done|]. split; [done|]. rewrite length_app. lia.
  - eexists _, _, _, _. split; [done|]. split; [done|]. split; [done|]. lia.
Qed.

(** Two runs return the same result and output, which fits the buffer. *)
Definition agree {R} (maxout : Z) (m : outcome (R * list Z * mbedtls_engine B)) (m' : outcome (R * list Z * mbedtls_engine (list Z))) : Prop :=
  ∃ r out e a, m = Ret (r, out, e) ∧ m' = Ret (r, out, a) ∧ mbed_sim e a ∧ Z.of_nat (length out) ≤ maxout.

Lemma handshake_agrees e a input n : mbed_sim e a → input_ok input → room_ok n →
  agree n (mbedtls_continue_hs e input n) (mbedtls_continue_hs a input n).
Proof.
  intros Hs Hin Hn. pose proof (use_session_sim _ _ (put_in_sim _ _ _ Hin Hs)) as Hs1. unfold mbedtls_continue_hs.
  rewrite <-(sim_ssl _ _ Hs1). destruct (call_ssl_sim (mbedtls_ssl_handshake (ssl (use_session (put_in input e)))) _ _ (handshake_io _) Hs1) as (st & o & e1 & a1 & -> & -> & Hs2 & _).
  cbn [mbind outcome_bind]. destruct (take_out_sim n e1 a1 Hn Hs2) as (out & e2 & a2 & -> & -> & Hs3 & Hl & _). cbn [mbind outcome_bind]. rewrite <-(sim_ssl _ _ Hs3).
  destruct (_ =? _); [by eexists _, _, _, _|]. destruct (_ || _); [by eexists _, _, _, _|].
  eexists _, _, _, _. split; [done|]. split; [done|]. split; [by apply error_sim|done].
Qed.
Lemma write_agrees e a data n : mbed_sim e a → room_ok n → agree n (mbedtls_write e data n) (mbedtls_write a data n).
Proof.
  intros Hs Hn. unfold mbedtls_write. destruct (write_loop_sim _ (default [] data) e a (Nat.le_refl _) Hs) as (r & e1 & a1 & -> & -> & Hs1). cbn [mbind outcome_bind].
  destruct r as [rc|].
  - eexists _, _, _, _. split; [done|]. split; [done|]. split; [done|]. unfold room_ok in Hn. cbn. lia.
  - destruct (take_out_sim n e1 a1 Hn Hs1) as (out & e2 & a2 & -> & -> & Hs3 & Hl & _). cbn [mbind outcome_bind].
    rewrite <-(same_available _ _ (sim_out _ _ Hs3)). by eexists _, _, _, _.
Qed.
Lemma read_agrees e a input n : mbed_sim e a → input_ok input → room_ok n → agree n (mbedtls_read e input n) (mbedtls_read a input n).
Proof.
  intros Hs Hin Hn. unfold mbedtls_read. pose proof (put_in_sim _ _ _ Hin Hs) as Hs1. unfold room_ok in Hn.
  destruct (read_loop_sim (S (Z.to_nat n)) n [] _ _ ltac:(lia) ltac:(lia) Hs1) as (rc & out & e1 & a1 & -> & -> & Hs2 & Hl). cbn [mbind outcome_bind].
  rewrite <-(same_available _ _ (sim_out _ _ Hs2)), <-(same_available _ _ (sim_in _ _ Hs2)), <-(sim_ssl _ _ Hs2). cbn [length Z.of_nat Z.add] in Hl.
  repeat case_if; eexists _, _, _, _; (split; [done|]); (split; [done|]); (split; [|done]); by try apply error_sim.
Qed.

End Refinement.

(** ** What the TLS link relies on *)

Section Laws.
Context `{MbedTlsLaws} {B : Type} `{!ByteFifo B}.
Implicit Types e : mbedtls_engine B.

Definition mbed_ok e : Prop := fifo_ok (e_in e) ∧ fifo_ok (e_out e).
Definition mbed_pending e : list Z := fifo_content (e_out e).

Lemma call_ssl_ok r e : io_ok r → mbed_ok e → ∃ rc out e', call_ssl r e = Ret (rc, out, e') ∧ mbed_ok e' ∧
  ∃ sent, mbed_pending e' = mbed_pending e ++ sent.
Proof.
  intros Hio [Hi Ho]. unfold call_ssl.
  destruct (run_ssl_ok MBEDTLS_ERR_SSL_WANT_READ r _ _ Hio Hi Ho) as (rc & out & s & i & o & -> & ? & ? & _ & Hsent & _).
  eexists _, _, _. split; [done|]. by split.
Qed.
(** A call over the queues is the call over their contents. *)
Lemma call_ssl_content r e : io_ok r → mbed_ok e → ∃ rc out e', call_ssl r e = Ret (rc, out, e') ∧ mbed_ok e' ∧
  run_ssl MBEDTLS_ERR_SSL_WANT_READ r (fifo_content (e_in e)) (mbed_pending e) =
    Ret (rc, out, ssl e', fifo_content (e_in e'), mbed_pending e').
Proof.
  intros Hio [Hi Ho]. unfold call_ssl.
  destruct (run_ssl_same MBEDTLS_ERR_SSL_WANT_READ r (e_in e) (e_out e) (fifo_content (e_in e)) (fifo_content (e_out e)) Hio ltac:(by split_and!) ltac:(by split_and!))
    as (rc & out & s & i1 & o1 & c1 & d1 & -> & Hr2 & (? & _ & Hci) & (? & _ & Hco) & _).
  eexists _, _, _. split; [done|]. split; [done|]. unfold mbed_pending. rewrite Hr2. cbn in *. by rewrite Hci, Hco.
Qed.
Lemma take_out_ok n e : room_ok n → mbed_ok e → ∃ e', take_out n e = Ret (take (Z.to_nat n) (mbed_pending e), e') ∧ mbed_ok e' ∧
  mbed_pending e' = drop (Z.to_nat n) (mbed_pending e).
Proof.
  intros Hn [Hi Ho]. unfold take_out. destruct (fifo_read_spec _ n Ho Hn) as (o & -> & Hok & Hc).
  eexists. split; [done|]. by split.
Qed.
Lemma write_loop_ok fuel data e r e' : mbed_ok e → mbed_write_loop fuel data e = Ret (r, e') →
  mbed_ok e' ∧ (∃ sent, mbed_pending e' = mbed_pending e ++ sent) ∧ (∀ rc, r = Some rc → rc < 0).
Proof.
  revert data e. induction fuel as [|fuel IH]; intros data e Hok; cbn [mbed_write_loop]; destruct data as [|b d]; intros Hrun; try done;
    try (injection Hrun as <- <-; split_and!; [done|exists []; by rewrite app_nil_r|done]).
  destruct (call_ssl_ok (mbedtls_ssl_write (ssl e) (b :: d)) e (write_io _ _) Hok) as (rc & out & e1 & Hc & Hok1 & sent & Hs).
  rewrite Hc in Hrun. cbn in Hrun. destruct (Z.ltb_spec rc 0).
  - injection Hrun as <- <-. split_and!; [done|by exists sent|by intros ? [= <-]].
  - destruct (IH _ _ Hok1 Hrun) as (Hok' & [sent' Hs'] & Hr). split_and!; [done| |done].
    exists (sent ++ sent'). by rewrite Hs', Hs, app_assoc.
Qed.

Lemma mbed_write_wraps e d rc out e' : mbed_ok e → mbedtls_write e (Some d) 0 = Ret (rc, out, e') →
  mbed_ok e' ∧ (rc < 0 ∨ out = [] ∧ rc = i32 (Z.of_nat (length (mbed_pending e'))) ∧ ∃ rec, mbed_pending e' = mbed_pending e ++ rec).
Proof.
  intros Hok. unfold mbedtls_write. cbn [default]. destruct (mbed_write_loop _ _ _) as [[r e1]|f] eqn:Hl; [|done].
  destruct (write_loop_ok _ _ _ _ _ Hok Hl) as (Hok1 & [sent Hs] & Hr). cbn [mbind outcome_bind]. destruct r as [rc1|].
  - intros [= <- <- <-]. split; [done|]. left. by apply Hr.
  - destruct (take_out_ok 0 e1 ltac:(unfold room_ok; lia) Hok1) as (e2 & -> & Hok2 & Hp). cbn [mbind outcome_bind]. intros [= <- <- <-].
    split; [done|right]. split; [done|]. split; [|exists sent; by rewrite Hp, Hs]. rewrite fifo_available_spec by apply Hok2. by rewrite i32_u64.
Qed.
Lemma mbed_write_drains e n : mbed_ok e → 0 ≤ n < 2147483648 → Z.of_nat (length (mbed_pending e)) < 18446744073709551616 →
  ∃ rc out e', mbedtls_write e None n = Ret (rc, out, e') ∧ mbed_ok e' ∧ out = take (Z.to_nat n) (mbed_pending e) ∧
    mbed_pending e' = drop (Z.to_nat n) (mbed_pending e) ∧ rc = i32 (Z.of_nat (length (mbed_pending e'))).
Proof.
  intros Hok Hn _. unfold mbedtls_write. cbn [default mbed_write_loop length mbind outcome_bind].
  destruct (take_out_ok n e Hn Hok) as (e2 & -> & Hok2 & Hp). cbn [mbind outcome_bind]. eexists _, _, _. split; [done|]. split_and!; try done.
  rewrite fifo_available_spec by apply Hok2. by rewrite i32_u64.
Qed.
#[export] Instance mbed_laws : @TlsEngineLaws (MbedTlsEngine (B := B)) :=
  Build_TlsEngineLaws MbedTlsEngine mbed_pending mbed_ok mbed_write_wraps mbed_write_drains.

(** ** Reading *)

Definition mbed_plain e (bytes : list Z) : list Z := mbed_plaintext (ssl e) (fifo_content (e_in e) ++ bytes).
Definition mbed_waiting e : Z := Z.of_nat (length (fifo_content (e_in e))).

Lemma read_call_plain e room : mbed_ok e → 0 < room → mbed_waiting e < 18446744073709551616 → ∃ rc out e',
  call_ssl (mbedtls_ssl_read (ssl e) room) e = Ret (rc, out, e') ∧ mbed_ok e' ∧ rc ≠ 0 ∧ rc ≤ room ∧ length out = Z.to_nat rc ∧
  mbed_waiting e' ≤ mbed_waiting e ∧ (0 < rc → ∀ more, mbed_plain e more = out ++ mbed_plain e' more) ∧
  (rc = MBEDTLS_ERR_SSL_WANT_READ → (∀ more, mbed_plain e more = mbed_plain e' more) ∧ mbed_plain e' [] = []).
Proof.
  intros [Hi Ho] Hr Hw. unfold call_ssl.
  destruct (run_ssl_ok MBEDTLS_ERR_SSL_WANT_READ _ _ _ (read_io (ssl e) room) Hi Ho) as (rc & out & s & i & o & Hrun & Hi' & Ho' & [rcvd Hrcvd] & _ & HP).
  destruct (run_ssl_same MBEDTLS_ERR_SSL_WANT_READ _ (e_in e) (e_out e) (fifo_content (e_in e)) (fifo_content (e_out e)) (read_io (ssl e) room)
    ltac:(by split_and!) ltac:(by split_and!)) as (rc1 & out1 & s1 & i1 & o1 & c1 & d1 & Hr1 & Hr2 & (_ & _ & Hc1) & _).
  rewrite Hrun in Hr1. injection Hr1 as <- <- <- <- <-. rewrite Hrun. cbn [mbind outcome_bind]. cbn [fifo_content list_fifo] in Hc1. subst c1.
  destruct (mbed_read_plaintext _ _ _ _ _ _ _ _ _ Hr Hw Hr2) as (Hne & Hgood & Hwait). destruct (HP _ (read_rc (ssl e) room ltac:(lia))) as [Hle Hlen].
  eexists _, _, _. split; [done|]. unfold mbed_plain, mbed_waiting. cbn. rewrite app_nil_r. split_and!; try done. rewrite Hrcvd, length_app. lia.
Qed.

Lemma mbed_read_loop_ok fuel room acc e : 0 < room → (Z.to_nat room ≤ fuel)%nat → mbed_ok e → mbed_waiting e < 18446744073709551616 →
  ∃ rc new e', mbed_read_loop fuel room acc e = Ret (rc, acc ++ new, e') ∧ mbed_ok e' ∧ rc ≠ 0 ∧ Z.of_nat (length new) ≤ room ∧
  mbed_waiting e' ≤ mbed_waiting e ∧
  (0 < rc ∨ rc = MBEDTLS_ERR_SSL_WANT_READ → ∀ more, mbed_plain e more = new ++ mbed_plain e' more) ∧
  (rc = MBEDTLS_ERR_SSL_WANT_READ → mbed_plain e' [] = []) ∧ (0 < rc → new ≠ []).
Proof.
  pose proof want_read_neg as Hneg. revert room acc e. induction fuel as [|fuel IH]; intros room acc e Hr Hf Hok Hw; [lia|]. cbn [mbed_read_loop].
  destruct (read_call_plain e room Hok Hr Hw) as (rc & out & e1 & -> & Hok1 & Hne & Hle & Hlen & Hw1 & Hgood & Hwait). cbn [mbind outcome_bind].
  destruct (Z.ltb_spec 0 rc) as [Hrc|Hrc].
  - assert (out ≠ []) as Hout by (intros ->; cbn in Hlen; lia). destruct (Z.ltb_spec 0 (room - rc)).
    + destruct (IH (room - rc) (acc ++ out) e1) as (rc' & new & e' & -> & Hok' & Hne' & Hl & Hw' & Hpl & Hend & Hnn); [lia|lia|done|lia|].
      eexists rc', (out ++ new), e'. rewrite <-app_assoc, length_app. split; [done|]. split_and!; [done|done|lia|lia| |done|by destruct out].
      intros Hrc' more. rewrite <-app_assoc, <-Hpl by done. by apply Hgood.
    + eexists rc, out, e1. split; [done|]. split_and!; [done|done|lia|done| |lia|done]. intros _. by apply Hgood.
  - eexists rc, [], e1. rewrite app_nil_r. split; [done|]. split_and!; [done|done|cbn; lia|done| | |lia]; [|intros Hwr; by apply Hwait].
    intros [?|Hwr] more; [lia|]. by apply Hwait.
Qed.

Lemma mbed_put_ok inp e : mbed_ok e → Z.of_nat (length (default [] inp)) < 18446744073709551616 → mbed_ok (put_in inp e) ∧
  ssl (put_in inp e) = ssl e ∧ fifo_content (e_in (put_in inp e)) = fifo_content (e_in e) ++ default [] inp.
Proof.
  intros [Hi Ho] Hl. destruct inp as [[|b d]|]; cbn [put_in default from_option id] in *; try (rewrite app_nil_r; by split_and!).
  split_and!; [split; [by apply fifo_put_ok|done]|done|]. by apply fifo_put_content.
Qed.

Lemma mbed_read_plain x inp n : mbed_ok x → 0 < n < 2147483648 → Z.of_nat (length (default [] inp)) < 2147483648 →
  mbed_waiting x + Z.of_nat (length (default [] inp)) < 18446744073709551616 →
  ∃ rc out x', mbedtls_read x inp n = Ret (rc, out, x') ∧ Z.of_nat (length out) ≤ n ∧ mbed_ok x' ∧
    mbed_waiting x' ≤ mbed_waiting x + Z.of_nat (length (default [] inp)) ∧ 0 ≤ mbed_waiting x' ∧
    (rc = TLS_OK ∨ rc = TLS_HAS_WRITE ∨ rc = TLS_MORE_AVAILABLE → ∀ more, mbed_plain x (default [] inp ++ more) = out ++ mbed_plain x' more) ∧
    (rc = TLS_OK ∨ rc = TLS_HAS_WRITE → mbed_plain x' [] = []) ∧ (rc = TLS_MORE_AVAILABLE → out ≠ []) ∧ rc ≠ TLS_READ_AGAIN.
Proof.
  intros Hok Hn Hl Hw. unfold mbedtls_read. destruct (mbed_put_ok inp x Hok ltac:(lia)) as (Hok1 & Hssl & Hin).
  assert (mbed_waiting (put_in inp x) = mbed_waiting x + Z.of_nat (length (default [] inp))) as Hwi by (unfold mbed_waiting; rewrite Hin, length_app; lia).
  destruct (mbed_read_loop_ok (S (Z.to_nat n)) n [] (put_in inp x)) as (rc & new & e & -> & Hok2 & Hne & Hlen & Hw2 & Hpl & Hend & Hnn); [lia|lia|done|lia|].
  cbn [mbind outcome_bind app]. rewrite Hwi in Hw2. assert (0 ≤ mbed_waiting e) by (unfold mbed_waiting; lia).
  assert (∀ more, mbed_plain (put_in inp x) more = mbed_plain x (default [] inp ++ more)) as Hpi
    by (intros more; unfold mbed_plain; by rewrite Hssl, Hin, <-app_assoc).
  destruct (Z.eqb_spec rc MBEDTLS_ERR_SSL_WANT_READ) as [Hwr|Hwr].
  { eexists _, new, e. split; [done|]. split_and!; try done; [|intros _; by apply Hend|by case_if..]. intros _ more. rewrite <-Hpi. by apply Hpl; right. }
  destruct (rc =? MBEDTLS_ERR_SSL_PEER_CLOSE_NOTIFY); [eexists _, new, e; split; [done|]; split_and!; try done; rc_cases|].
  destruct (Z.ltb_spec rc 0); [eexists _, new, _; split; [done|]; split_and!; try done; rc_cases|].
  assert (∀ more, mbed_plain x (default [] inp ++ more) = new ++ mbed_plain e more) as Hall by (intros more; rewrite <-Hpi; apply Hpl; left; lia).
  destruct (_ || _) eqn:Hpend.
  - eexists _, new, e. split; [done|]. split_and!; try done; [rc_cases|]. intros _. apply Hnn. lia.
  - apply orb_false_iff in Hpend as [Hav Hsp]. rewrite fifo_available_spec, u64_small in Hav; [|unfold mbed_waiting in *; lia|apply Hok2].
    apply Z.ltb_ge in Hav. assert (fifo_content (e_in e) = []) as Hnil by (destruct (fifo_content (e_in e)); [done|]; cbn [length] in Hav; lia).
    eexists _, new, e. split; [done|]. split_and!; try done. intros _. unfold mbed_plain. rewrite Hnil. by apply mbed_pending_plaintext.
Qed.
Lemma mbed_plain_online x a b : ∃ c, mbed_plain x (a ++ b) = mbed_plain x a ++ c.
Proof. unfold mbed_plain. rewrite app_assoc. apply mbed_plaintext_online. Qed.
#[export] Instance mbed_read_laws : @TlsReadLaws (MbedTlsEngine (B := B)) :=
  Build_TlsReadLaws MbedTlsEngine mbed_plain mbed_waiting mbed_ok mbed_plain_online mbed_read_plain.
End Laws.

(** ** The certificate check *)

Section CertVerify.
Context `{MbedTls} {B : Type} `{!ByteFifo B}.
(** The bits of [MBEDTLS_X509_BADCERT_CN_MISMATCH] and [MBEDTLS_X509_BADCERT_NOT_TRUSTED],
    [MBEDTLS_ASN1_TAG_VALUE_MASK] and [MBEDTLS_X509_SAN_IP_ADDRESS]; the user's callback. *)
Context (cn_bit nt_bit tag_mask san_ip : Z) (verify : Z → Z).
Implicit Types e : mbedtls_engine B.

Definition CN_MISMATCH : Z := Z.shiftl 1 cn_bit.
Definition NOT_TRUSTED : Z := Z.shiftl 1 nt_bit.
(** [*flags &= ~f] on a [uint32_t] *)
Definition clear_flag (flags f : Z) : Z := Z.land flags (u32 (Z.lnot f)).

(** The list of alternative names: the tag and the bytes of each. *)
Fixpoint san_loop (sans : list (Z * list Z)) e (flags : Z) : Z :=
  match sans with
  | [] => flags
  | (tag, buf) :: sans =>
    if (Z.land (u8 tag) tag_mask =? san_ip) &&
       ((Z.of_nat (length buf) =? ip_len e) && bool_decide (take (Z.to_nat (ip_len e)) buf = take (Z.to_nat (ip_len e)) (addr e)))
    then clear_flag flags CN_MISMATCH
    else san_loop sans e flags
  end.

Definition internal_cert_verify e (sans : list (Z * list Z)) (depth flags : Z) : Z :=
  let flags :=
    if (depth =? 0) && (0 <? ip_len e) && negb (Z.land flags CN_MISMATCH =? 0) then san_loop sans e flags else flags in
  match cert_verify_f e with
  | None => flags
  | Some f =>
    if 0 <? depth then clear_flag flags NOT_TRUSTED
    else if verify f =? 0 then clear_flag flags NOT_TRUSTED else Z.lor flags NOT_TRUSTED
  end.

(** The certificate names the address of the peer. *)
Definition names_address e (sans : list (Z * list Z)) : Prop :=
  ∃ tag buf, (tag, buf) ∈ sans ∧ Z.land (u8 tag) tag_mask = san_ip ∧ Z.of_nat (length buf) = ip_len e ∧
    take (Z.to_nat (ip_len e)) (addr e) = buf.

Context (Hcn : 0 ≤ cn_bit < 32) (Hnt : 0 ≤ nt_bit < 32) (Hne : cn_bit ≠ nt_bit).

Lemma testbit_clear flags b n : 0 ≤ flags < 4294967296 → 0 ≤ b < 32 → 0 ≤ n →
  Z.testbit (clear_flag flags (Z.shiftl 1 b)) n = Z.testbit flags n && negb (n =? b).
Proof.
  intros Hf Hb Hn. unfold clear_flag, u32. change 4294967296 with (2 ^ 32) in *. rewrite Z.land_spec. destruct (Z.lt_ge_cases n 32).
  - rewrite Z.mod_pow2_bits_low, Z.lnot_spec, Z.shiftl_1_l, Z.pow2_bits_eqb by lia. by rewrite Z.eqb_sym.
  - rewrite Z.mod_pow2_bits_high by lia. rewrite <-(Z.mod_small flags (2 ^ 32)), Z.mod_pow2_bits_high by lia. done.
Qed.
Lemma clear_bound flags f : 0 ≤ flags < 4294967296 → 0 ≤ clear_flag flags f < 4294967296.
Proof.
  intros Hf. unfold clear_flag, u32. split; [apply Z.land_nonneg; lia|]. change 4294967296 with (2 ^ 32) in *.
  destruct (Z.eq_dec (Z.land flags (Z.lnot f mod 2 ^ 32)) 0) as [->|]; [lia|]. apply Z.log2_lt_pow2.
  - assert (0 ≤ Z.land flags (Z.lnot f mod 2 ^ 32)) by (apply Z.land_nonneg; lia). lia.
  - eapply Z.le_lt_trans; [apply Z.log2_land; [lia|apply Z.mod_pos_bound; lia]|]. eapply Z.le_lt_trans; [apply Z.le_min_l|].
    destruct (Z.eq_dec flags 0) as [->|]; [done|]. apply Z.log2_lt_pow2; lia.
Qed.

(** The check of the names. *)
Lemma san_match tag buf e :
  (Z.land (u8 tag) tag_mask =? san_ip) &&
    ((Z.of_nat (length buf) =? ip_len e) && bool_decide (take (Z.to_nat (ip_len e)) buf = take (Z.to_nat (ip_len e)) (addr e))) = true ↔
  Z.land (u8 tag) tag_mask = san_ip ∧ Z.of_nat (length buf) = ip_len e ∧ take (Z.to_nat (ip_len e)) (addr e) = buf.
Proof.
  rewrite !andb_true_iff, !Z.eqb_eq, bool_decide_eq_true. split; intros (Ht & Hl & Hb); split_and!; try done.
  - rewrite <-Hb, <-Hl, Nat2Z.id. apply firstn_all.
  - rewrite Hb, <-Hl, Nat2Z.id. apply firstn_all.
Qed.
Lemma san_loop_spec sans e flags :
  (names_address e sans ∧ san_loop sans e flags = clear_flag flags CN_MISMATCH) ∨ (¬ names_address e sans ∧ san_loop sans e flags = flags).
Proof.
  induction sans as [|[tag buf] sans IH]; cbn [san_loop].
  - right. split; [|done]. by intros (? & ? & ?%elem_of_nil & _).
  - case_if.
    + left. split; [|done]. apply san_match in Heqb as (? & ? & ?). exists tag, buf. split; [by left|done].
    + destruct IH as [[(t1 & b1 & ? & ?) ?]|[Hno ?]]; [left|right]; (split; [|done]).
      * exists t1, b1. split; [by right|done].
      * intros (t1 & b1 & [[= -> ->]|Hin]%elem_of_cons & Hm); [|by apply Hno; exists t1, b1].
        apply san_match in Hm. congruence.
Qed.

(** The two steps of the check. *)
Definition name_flags e sans depth flags : Z :=
  if (depth =? 0) && (0 <? ip_len e) && negb (Z.land flags CN_MISMATCH =? 0) then san_loop sans e flags else flags.
Definition trust_flags e depth flags : Z :=
  match cert_verify_f e with
  | None => flags
  | Some f => if 0 <? depth then clear_flag flags NOT_TRUSTED
              else if verify f =? 0 then clear_flag flags NOT_TRUSTED else Z.lor flags NOT_TRUSTED
  end.

Lemma trust_bits e depth fl m : 0 ≤ fl < 4294967296 → 0 ≤ m → Z.testbit (trust_flags e depth fl) m =
  if m =? nt_bit then match cert_verify_f e with None => Z.testbit fl m | Some f => negb (0 <? depth) && negb (verify f =? 0) end
  else Z.testbit fl m.
Proof.
  intros Hfl Hm. unfold trust_flags. destruct (cert_verify_f e) as [f|]; [|by case_if].
  unfold NOT_TRUSTED. destruct (0 <? depth); [|destruct (verify f =? 0)].
  1,2: rewrite testbit_clear by lia; case_if; by rewrite ?andb_false_r, ?andb_true_r.
  rewrite Z.lor_spec, Z.shiftl_1_l, Z.pow2_bits_eqb, (Z.eqb_sym nt_bit) by lia. case_if; by rewrite ?orb_true_r, ?orb_false_r.
Qed.
Lemma name_bits e sans depth flags : 0 ≤ flags < 4294967296 → let fl := name_flags e sans depth flags in
  0 ≤ fl < 4294967296 ∧ (∀ m, 0 ≤ m → m ≠ cn_bit → Z.testbit fl m = Z.testbit flags m) ∧
  (Z.testbit fl cn_bit = true ↔ Z.testbit flags cn_bit = true ∧ ¬ (depth = 0 ∧ 0 < ip_len e ∧ names_address e sans)).
Proof.
  intros Hf fl. unfold fl, name_flags. case_if.
  - rewrite !andb_true_iff, Z.eqb_eq, Z.ltb_lt in Heqb. destruct Heqb as [[-> Hip] _].
    destruct (san_loop_spec sans e flags) as [[Hna ->]|[Hna ->]]; [|tauto].
    split_and!; [by apply clear_bound..| |]; unfold CN_MISMATCH.
    + intros m Hm Hmc. rewrite testbit_clear by lia. destruct (Z.eqb_spec m cn_bit); [done|]. by rewrite andb_true_r.
    + rewrite testbit_clear, Z.eqb_refl, andb_false_r by lia. split; [done|]. tauto.
  - split; [done|]. split; [done|]. split; [|tauto]. intros Hb. split; [done|]. intros (-> & Hip & _).
    rewrite Z.eqb_refl in Heqb. destruct (Z.ltb_spec 0 (ip_len e)); [|lia]. apply negb_false_iff, Z.eqb_eq in Heqb.
    assert (Z.testbit (Z.land flags CN_MISMATCH) cn_bit = true) as Ht; [|by rewrite Heqb, Z.bits_0 in Ht].
    unfold CN_MISMATCH. by rewrite Z.land_spec, Hb, Z.shiftl_1_l, Z.pow2_bits_true by lia.
Qed.

(** C16: the certificate check changes two bits of the library's verdict and no other.  The
    mismatch of the name is forgiven exactly for the peer's own certificate, when the host
    was given as an address and the certificate names that very address; the trust bit
    is the user's to decide for the peer's certificate, if there is a user's check, and
    is then cleared for the certificates above it. *)
Theorem mbed_cert_verify e sans depth flags n : 0 ≤ flags < 4294967296 → 0 ≤ n →
  (n = cn_bit → Z.testbit (internal_cert_verify e sans depth flags) n = true ↔
     Z.testbit flags n = true ∧ ¬ (depth = 0 ∧ 0 < ip_len e ∧ names_address e sans)) ∧
  (n = nt_bit → Z.testbit (internal_cert_verify e sans depth flags) n =
     match cert_verify_f e with None => Z.testbit flags n | Some f => negb (0 <? depth) && negb (verify f =? 0) end) ∧
  (n ≠ cn_bit → n ≠ nt_bit → Z.testbit (internal_cert_verify e sans depth flags) n = Z.testbit flags n).
Proof.
  intros Hf Hn. destruct (name_bits e sans depth flags Hf) as (Hfl & Hkeep & Hcnb).
  change (internal_cert_verify e sans depth flags) with (trust_flags e depth (name_flags e sans depth flags)).
  rewrite trust_bits by done. split_and!.
  - intros ->. destruct (Z.eqb_spec cn_bit nt_bit); [done|]. exact Hcnb.
  - intros ->. rewrite Z.eqb_refl. destruct (cert_verify_f e); [done|]. by apply Hkeep.
  - intros H1 H2. destruct (Z.eqb_spec n nt_bit); [done|]. by apply Hkeep.
Qed.
End CertVerify.


(** ** A library that satisfies the laws

    Its records are its data with every byte inverted, of at most 256 bytes; its
    handshake sends three bytes and waits for three.  The connection is its state. *)
Module ToyMbed.
Definition invert (l : list Z) : list Z := (λ b, Z.lxor b 255) <$> l.
Definition record (n : Z) : Z := Z.max 0 (Z.min n 256).
Definition send_record (s : Z) (d : list Z) : ssl_run Z :=
  let r := take (Z.to_nat 256) d in SSend (invert r) (λ _, SDone (Z.of_nat (length r)) [] s).
Definition recv_record (s n : Z) : ssl_run Z :=
  SRecv (record n) (λ rc b, if rc <? 0 then SDone rc [] s
                            else let r := take (Z.to_nat (record n)) b in SDone (Z.of_nat (length r)) (invert r) s).
Definition hello (s : Z) : ssl_run Z :=
  if s =? 0 then SSend [1; 2; 3] (λ _, SRecv 3 (λ rc _, if rc <? 0 then SDone rc [] 1 else SDone 0 [] 16))
  else if s =? 1 then SRecv 3 (λ rc _, if rc <? 0 then SDone rc [] 1 else SDone 0 [] 16)
  else SDone 0 [] s.

#[local] Instance lib : MbedTls := {|
  ssl_t := Z; session_t := unit; ssl_config := unit; ssl_state := id;
  MBEDTLS_SSL_HELLO_REQUEST := 0; MBEDTLS_SSL_HANDSHAKE_OVER := 16;
  MBEDTLS_ERR_SSL_WANT_READ := -26880; MBEDTLS_ERR_SSL_WANT_WRITE := -26752; MBEDTLS_ERR_SSL_PEER_CLOSE_NOTIFY := -30848;
  mbedtls_ssl_setup _ _ := 0;
  mbedtls_ssl_handshake := hello; mbedtls_ssl_write := send_record; mbedtls_ssl_read := recv_record;
  mbedtls_ssl_close_notify s := SSend [0] (λ _, SDone 0 [] s);
  mbedtls_ssl_check_pending _ := false;
  mbedtls_ssl_set_session s _ := s; mbedtls_ssl_get_session _ := Some tt; mbedtls_ssl_session_reset _ := 0
|}.
#[local] Instance lib_laws : MbedTlsLaws.
Proof.
  refine {| mbed_plaintext := (λ _, invert) : ssl_t → list Z → list Z |}; cbn [io_ok all_done send_record invert MBEDTLS_ERR_SSL_WANT_READ mbedtls_ssl_handshake mbedtls_ssl_write mbedtls_ssl_read mbedtls_ssl_close_notify lib].
  - done.
  - intros s. unfold hello. case_if; [|case_if; [|done]]; cbn [io_ok]; (split; [cbn; lia|]); intros; [split; [lia|]; intros|]; by case_if.
  - intros s d. cbn [io_ok]. unfold invert. rewrite length_fmap, length_take. split; [lia|done].
  - intros s n. unfold recv_record, record. cbn [io_ok]. split; [lia|]. intros rc b. by destruct (rc <? 0).
  - intros s. split; [cbn; lia|done].
  - intros s d Hd _. right. rewrite length_take. destruct d; [done|]. cbn [length]. lia.
  - intros s n Hn rc b. unfold recv_record, record. case_if; cbn [all_done]; unfold invert.
    + split; [lia|]. destruct rc; [done|lia|done].
    + rewrite length_fmap, length_take. split; lia.
  - intros s a b. exists (invert b). apply fmap_app.
  - intros s n c o rc out s' c' o' Hn Hl. unfold recv_record. cbn [run_ssl]. unfold ssl_recv. cbn [fifo_available fifo_read list_fifo].
    destruct c as [|b c]; [by intros [= <- <- <- <- <-]|]. rewrite u64_small by lia.
    destruct (Z.eqb_spec (Z.of_nat (length (b :: c))) 0); [cbn [length] in *; lia|]. cbn [mbind outcome_bind].
    destruct (Z.ltb_spec (Z.of_nat (length (take (Z.to_nat (record n)) (b :: c)))) 0); [lia|].
    rewrite firstn_firstn, Nat.min_id. destruct (Z.to_nat (record n)) as [|k] eqn:Hk; [unfold record in Hk; lia|]. cbn [firstn skipn].
    intros [= <- <- <- <- <-]. split_and!; [done| |done]. intros _ more. rewrite <-(take_drop k c) at 1. unfold invert. cbn. by rewrite !fmap_app, app_assoc.
  - done.
Defined.

(** An engine in its handshake: the first two bytes of the answer are here. *)
Definition eng (B : Type) `{!ByteFifo B} : mbedtls_engine B :=
  mkmbed 1 None (fifo_put fifo_new [7; 8]) (fifo_put fifo_new [1; 2; 3]) 0 4 (replicate 16 0) (Some 5).

Lemma eng_sim : mbed_sim (eng tlsuv_BIO) (eng (list Z)).
Proof. split; try done; apply same_put; try done; (split; [apply fifo_new_ok|split; [done|apply fifo_new_content]]). Qed.


(** A certificate that names the peer's address, which the user trusts. *)
Lemma mbed_cert_verify_witness :
  Z.testbit (internal_cert_verify 2 3 31 7 (λ _, 0) (eng (list Z)) [(135, [0; 0; 0; 0])] 0 12) 2 ≠ true.
Proof.
  destruct (mbed_cert_verify 2 3 31 7 (λ _, 0) ltac:(done) ltac:(done) ltac:(done) (eng (list Z)) [(135, [0; 0; 0; 0])] 0 12 2 ltac:(done) ltac:(done)) as [Hcn _].
  intros Hb. destruct (Hcn eq_refl) as [Hcn1 _]. destruct (Hcn1 Hb) as [_ Hno]. apply Hno. split_and!; [done..|].
  exists 135, [0; 0; 0; 0]. split; [by left|done].
Defined.
End ToyMbed.
