(* ===== verification/MbedCerts.v ===== *)
(** * Certificates of the mbedTLS engine (src/mbedtls/engine.c: [parse_pkcs7_certs],
    [write_cert_pem], the subject name of [generate_csr])

    Pointers into a buffer are offsets.  The ASN.1, base64, X.509 and PEM functions of the
    library are parameters. *)
From S2P Require Import Prelude CLib.
From stdpp Require Import base list numbers strings.
From Stdlib Require Import ZArith Lia.
Open Scope Z_scope.

(** A failing call returns its code. *)
#[local] Instance err_ret : MRet (sum Z) := fun A a => inr a.
#[local] Instance err_bind : MBind (sum Z) := fun A B k m => match m with inl e => inl e | inr a => k a end.

Class Asn1 := {
  (* the bytes from the pointer to the end; the size of the header and of the content *)
  asn1_get_tag : list Z → Z → Z + nat * nat;
  asn1_get_int : list Z → Z + nat;
  tag_SEQUENCE : Z;      (* with MBEDTLS_ASN1_CONSTRUCTED *)
  tag_SET : Z;
  tag_CONTEXT : Z;
  tag_OID : Z;
  base64_decode : list Z → Z + list Z;
  (* the chain, as the DER form of its certificates, is extended in place *)
  mbedtls_x509_crt_parse : list (list Z) → list Z → Z * list (list Z);
}.
Class Asn1Laws `{Asn1} := {
  get_tag_inside b t h n : asn1_get_tag b t = inr (h, n) → (0 < h)%nat ∧ (h + n ≤ length b)%nat;
  get_int_inside b n : asn1_get_int b = inr n → (n ≤ length b)%nat;
}.

Section Pkcs7.
Context `{Asn1}.
(** [OID_PKCS7_SIGNED_DATA] and [OID_PKCS7_DATA] *)
Context (oid_signed oid_data : list Z).

Definition get_tag (der : list Z) (p : nat) (tag : Z) : Z + nat * nat :=
  '(h, n) ← asn1_get_tag (drop p der) tag; inr (p + h, n)%nat.
(** [!MBEDTLS_OID_CMP(oid, &buf)]: the identifiers are the same *)
Definition oid_same (oid buf : list Z) : bool := bool_decide (oid = buf).

(** Up to the first certificate. *)
Definition pkcs7_head (der : list Z) : Z + nat :=
  '(p, _) ← get_tag der 0 tag_SEQUENCE;
  '(p, len) ← get_tag der p tag_OID;
  if oid_same oid_signed (take len (drop p der)) then inl (-1) else
  let p := (p + len)%nat in
  '(p, _) ← get_tag der p tag_CONTEXT;
  '(p, _) ← get_tag der p tag_SEQUENCE;
  n ← asn1_get_int (drop p der);
  let p := (p + n)%nat in
  '(p, _) ← get_tag der p tag_SET;
  '(p, _) ← get_tag der p tag_SEQUENCE;
  '(p, len) ← get_tag der p tag_OID;
  if oid_same oid_data (take len (drop p der)) then inl (-1) else
  let p := (p + len)%nat in
  '(p, _) ← get_tag der p tag_CONTEXT;
  inr p.

(** [do ... while (rc == 0)]: the code and the chain; a certificate that does not parse drops
    the chain. *)
Fixpoint pkcs7_certs (fuel : nat) (der : list Z) (cert_buf : nat) (certs : option (list (list Z)))
  : outcome (Z * option (list (list Z))) :=
  match fuel with
  | O => Fault OutOfFuel
  | S fuel =>
    match get_tag der cert_buf tag_SEQUENCE with
    | inl _ => Ret (0, certs)
    | inr (cbp, len) =>
      let cert_len := (len + (cbp - cert_buf))%nat in
      if (cert_buf + cert_len <=? length der)%nat then
        let '(rc, certs') := mbedtls_x509_crt_parse (default [] certs) (take cert_len (drop cert_buf der)) in
        if negb (rc =? 0) then Ret (rc, None)
        else pkcs7_certs fuel der (cert_buf + cert_len) (Some certs')
      else Fault OutOfBounds
    end
  end.
(** The chain is written unless the message is malformed. *)
Definition parse_pkcs7_certs (fuel : nat) (pkcs7 : list Z) : outcome (Z * option (option (list (list Z)))) :=
  match base64_decode pkcs7 with
  | inl rc => Ret (rc, None)
  | inr der =>
    match pkcs7_head der with
    | inl rc => Ret (rc, None)
    | inr cert_buf => '(rc, certs) ← pkcs7_certs fuel der cert_buf None; Ret (rc, Some certs)
    end
  end.
End Pkcs7.

(** ** It ends, and finds the certificates *)

Section Pkcs7Proofs.
Context `{Asn1Laws}.
Context (oid_signed oid_data : list Z).

Lemma get_tag_ok der p t q n : get_tag der p t = inr (q, n) → (p ≤ length der)%nat → (p < q)%nat ∧ (q + n ≤ length der)%nat.
Proof.
  unfold get_tag. destruct (asn1_get_tag (drop p der) t) as [?|[h m]] eqn:Ht; [done|]. intros [= <- <-] Hp.
  apply get_tag_inside in Ht as [? Hl]. rewrite length_drop in Hl. lia.
Qed.
Lemma pkcs7_certs_ends der fuel p certs : (p ≤ length der)%nat → (length der - p < fuel)%nat → ∃ rc c,
  pkcs7_certs fuel der p certs = Ret (rc, c) ∧ (rc ≠ 0 → c = None).
Proof.
  revert p certs. induction fuel as [|fuel IH]; intros p certs Hp Hf; [lia|]. cbn [pkcs7_certs].
  destruct (get_tag der p tag_SEQUENCE) as [?|[q n]] eqn:Ht; [by eexists _, _|]. destruct (get_tag_ok _ _ _ _ _ Ht Hp) as [Hq Hn].
  destruct (Nat.leb_spec (p + (n + (q - p))) (length der)); [|lia].
  destruct (mbedtls_x509_crt_parse _ _) as [rc certs']. case_if; [by eexists _, _|]. apply IH; lia.
Qed.
Lemma pkcs7_head_inside der p : pkcs7_head oid_signed oid_data der = inr p → (p ≤ length der)%nat.
Proof.
  unfold pkcs7_head. intros Hh.
  repeat match type of Hh with
  | mbind _ ?m = inr _ => let x := fresh "p" in let n := fresh "n" in let Hm := fresh "Hm" in
      destruct m as [?|x] eqn:Hm; cbn [mbind err_bind] in Hh; [discriminate|];
      first [destruct x as [x n]; apply get_tag_ok in Hm as [? ?]; [|lia] | apply get_int_inside in Hm; rewrite length_drop in Hm]
  | (if ?b then _ else _) = inr _ => destruct b; [discriminate|]
  end.
  injection Hh as <-. lia.
Qed.

(** *** A well-formed message

    [hdr t n] is the header of an element of [n] bytes, [elem t b] the element. *)
Context (hdr : Z → nat → list Z).
Context (get_hdr : ∀ t n b, (n ≤ length b)%nat → asn1_get_tag (hdr t n ++ b) t = inr (length (hdr t n), n)).
Definition elem (t : Z) (b : list Z) : list Z := hdr t (length b) ++ b.
Definition signed_data (oid1 oid2 version : list Z) (certs : list (list Z)) (signers : list Z) : list Z :=
  elem tag_SEQUENCE (elem tag_OID oid1 ++ elem tag_CONTEXT (elem tag_SEQUENCE
    (version ++ elem tag_SET [] ++ elem tag_SEQUENCE (elem tag_OID oid2) ++ elem tag_CONTEXT (concat (elem tag_SEQUENCE <$> certs)) ++ signers))).

(** The bytes at the pointer, before and after a step. *)
Lemma get_tag_step der p t n b : drop p der = hdr t n ++ b → (n ≤ length b)%nat →
  get_tag der p t = inr (p + length (hdr t n), n)%nat ∧ drop (p + length (hdr t n)) der = b.
Proof. intros Hd Hn. unfold get_tag. rewrite Hd, get_hdr by done. split; [done|]. by rewrite <-drop_drop, Hd, drop_app_length. Qed.
Lemma get_tag_next der p t n b : drop p der = hdr t n ++ b → (n ≤ length b)%nat → ∃ q, get_tag der p t = inr (q, n) ∧ drop q der = b.
Proof. intros Hd Hn. destruct (get_tag_step _ _ _ _ _ Hd Hn). eauto. Qed.
Lemma skip_step (der : list Z) p a b : drop p der = a ++ b → take (length a) (drop p der) = a ∧ drop (p + length a) der = b.
Proof. intros Hd. rewrite <-drop_drop, Hd, take_app_length, drop_app_length. done. Qed.

(** Reads the next tag of the message whose bytes at the pointer [Hd] tells. *)
Ltac next_tag Hd :=
  let q := fresh "q" in let Ht := fresh in let Hd' := fresh "Hd" in
  destruct (get_tag_next _ _ _ _ _ Hd) as (q & Ht & Hd'); [rewrite ?length_app; cbn; lia|];
  rewrite Ht; clear Ht Hd; rename Hd' into Hd; cbn [mbind err_bind].
Lemma pkcs7_head_finds der oid1 oid2 version certs signers : der = signed_data oid1 oid2 version certs signers →
  oid1 ≠ oid_signed → oid2 ≠ oid_data → (∀ b, asn1_get_int (version ++ b) = inr (length version)) →
  ∃ p, pkcs7_head oid_signed oid_data der = inr p ∧ drop p der = concat (elem tag_SEQUENCE <$> certs) ++ signers.
Proof.
  intros Hder H1 H2 Hv. unfold signed_data, elem in Hder. fold elem in Hder. unfold pkcs7_head.
  assert (∀ o o' : list Z, o' ≠ o → oid_same o o' = false) as Hoid by (intros; apply bool_decide_false; congruence).
  assert (drop 0 der = der) as Hd by done. rewrite Hder in Hd at 2. rewrite <-!app_assoc in Hd.
  next_tag Hd. next_tag Hd. destruct (skip_step _ _ _ _ Hd) as [Ho Hd1]. rewrite Ho, Hoid by done. clear Hd Ho.
  next_tag Hd1. next_tag Hd1. rewrite Hd1, Hv. cbn [mbind err_bind]. apply skip_step in Hd1 as [_ Hd1].
  next_tag Hd1. cbn [app] in Hd1.
  next_tag Hd1. next_tag Hd1. destruct (skip_step _ _ _ _ Hd1) as [Ho Hd2]. rewrite Ho, Hoid by done. clear Hd1 Ho.
  next_tag Hd2. eexists. split; [done|]. done.
Qed.

Lemma pkcs7_certs_finds der rc signers : asn1_get_tag signers tag_SEQUENCE = inl rc → ∀ fuel p acc certs,
  (∀ t n, 0 < length (hdr t n))%nat → (∀ l c, c ∈ certs → mbedtls_x509_crt_parse l (elem tag_SEQUENCE c) = (0, l ++ [elem tag_SEQUENCE c])) →
  drop p der = concat (elem tag_SEQUENCE <$> certs) ++ signers → (length certs < fuel)%nat →
  pkcs7_certs fuel der p acc = Ret (0, match certs with [] => acc | _ => Some (default [] acc ++ (elem tag_SEQUENCE <$> certs)) end).
Proof.
  intros Hsig fuel. induction fuel as [|fuel IH]; intros p acc certs Hh Hparse Hd Hf; [lia|]. cbn [pkcs7_certs]. destruct certs as [|c certs].
  - cbn in Hd. unfold get_tag. by rewrite Hd, Hsig.
  - cbn [fmap list_fmap concat] in Hd. unfold elem in Hd at 1. rewrite <-!app_assoc in Hd.
    destruct (get_tag_step _ _ _ _ _ Hd) as [-> Hd1]; [rewrite !length_app; lia|].
    replace (length c + (p + length (hdr tag_SEQUENCE (length c)) - p))%nat with (length (elem tag_SEQUENCE c)) by (unfold elem; rewrite length_app; lia).
    rewrite (app_assoc (hdr _ _)) in Hd. fold (elem tag_SEQUENCE c) in Hd. destruct (skip_step _ _ _ _ Hd) as [Ht Hd2].
    assert (p + length (elem tag_SEQUENCE c) ≤ length der)%nat as Hle.
    { apply (f_equal length) in Hd. rewrite length_drop, length_app in Hd.
      assert (0 < length (elem tag_SEQUENCE c))%nat by (unfold elem; rewrite length_app; pose proof (Hh tag_SEQUENCE (length c)); lia). lia. }
    rewrite (proj2 (Nat.leb_le _ _) Hle), Ht, Hparse by (by left). cbn [Z.eqb negb].
    rewrite (IH _ _ certs) by (done || (cbn in Hf; lia) || (intros; apply Hparse; by right)).
    f_equal. f_equal. destruct certs; [done|]. cbn [default from_option id]. by rewrite <-app_assoc.
Qed.

End Pkcs7Proofs.

(** An encoding with one byte for the length of any element, and no base64. *)
Module ToyAsn1.
#[local] Instance lib : Asn1 := {|
  asn1_get_tag b t := match b with
    | t' :: n :: rest => if (t' =? t) && (0 <=? n) && (n <=? Z.of_nat (length rest)) then inr (2, Z.to_nat n)%nat else inl (-98)
    | _ => inl (-96)
    end;
  asn1_get_int b := match b with
    | 2 :: n :: rest => if (0 <=? n) && (n <=? Z.of_nat (length rest)) then inr (2 + Z.to_nat n)%nat else inl (-100)
    | _ => inl (-98)
    end;
  tag_SEQUENCE := 48; tag_SET := 49; tag_CONTEXT := 160; tag_OID := 6;
  base64_decode b := inr b;
  mbedtls_x509_crt_parse l c := (0, l ++ [c])
|}.
#[local] Instance lib_laws : Asn1Laws.
Proof.
  split; cbn.
  - intros b t h n. destruct b as [|t' [|m rest]]; try done. destruct (_ && _) eqn:Hb; [|done]. intros [= <- <-].
    rewrite !andb_true_iff, !Z.leb_le in Hb. cbn. lia.
  - intros b n. destruct b as [|[|[[]|[]|]|] [|m rest]]; try done. destruct (_ && _) eqn:Hb; [|done]. intros [= <-].
    rewrite !andb_true_iff, !Z.leb_le in Hb. cbn [length]. lia.
Qed.
Definition hdr (t : Z) (n : nat) : list Z := [t; Z.of_nat n].
Lemma get_hdr t n b : (n ≤ length b)%nat → asn1_get_tag (hdr t n ++ b) t = inr (length (hdr t n), n).
Proof.
  intros Hn. cbn. rewrite Z.eqb_refl. destruct (Z.leb_spec 0 (Z.of_nat n)); [|lia]. destruct (Z.leb_spec (Z.of_nat n) (Z.of_nat (length b))); [|lia].
  cbn. by rewrite Nat2Z.id.
Qed.
Definition message : list Z := signed_data hdr [7; 2] [7; 1] [2; 1; 1] [[10; 11]; [12]] [49; 0].


(** The identifiers are compared for equality where a difference was meant, and their names
    are exchanged: a message of any type but two is taken for signed data. *)
Lemma other_oids_accepted : parse_pkcs7_certs [7; 1] [7; 2] 3 (signed_data hdr [99] [98] [2; 1; 1] [[12]] [49; 0]) =
  Ret (0, Some (Some [elem hdr 48 [12]])).
Proof. done. Qed.
End ToyAsn1.

(** ** Certificates as text *)

Lemma buf_has_prefix buf s t : buf_has buf (s ++ t) → buf_has buf s.
Proof.
  intros [H1 H2]. rewrite length_app in H2. split; [|lia]. apply (f_equal (take (length s))) in H1.
  rewrite take_take, take_app_length, length_app, Nat.min_l in H1 by lia. done.
Qed.

Section Pem.
(** The text [mbedtls_pem_write_buffer] writes for a certificate, with a NUL behind it. *)
Context (pem_text : list Z → list Z).

(** [while (c != NULL)] over the chain, or its first certificate *)
Definition pem_certs (full_chain : bool) (chain : list (list Z)) : list (list Z) := if full_chain then chain else take 1 chain.
Definition pem_total (certs : list (list Z)) : Z := foldl (λ n c, n + Z.of_nat (length (pem_text c)) + 1) 0 certs.
(** Each text is written over the NUL of the one before it. *)
Fixpoint pem_store (buf : list Z) (pos total : Z) (certs : list (list Z)) : outcome (list Z) :=
  match certs with
  | [] => Ret buf
  | c :: certs =>
    let text := pem_text c in
    if total - pos <? Z.of_nat (length text) + 1 then pem_store buf (pos + Z.of_nat (length text)) total certs
    else buf ← buf_write buf pos (text ++ [0]); pem_store buf (pos + Z.of_nat (length text)) total certs
  end.
(** The buffer and [*pemlen]; [mem] is what [malloc] gave. *)
Definition write_cert_pem (mem : Z → list Z) (full_chain : bool) (chain : list (list Z)) : outcome (list Z * Z) :=
  let certs := pem_certs full_chain chain in
  let total := pem_total certs in
  buf ← pem_store (mem (total + 1)) 0 total certs;
  Ret (buf, total).

Lemma pem_total_eq certs n : foldl (λ n c, n + Z.of_nat (length (pem_text c)) + 1) n certs =
  n + Z.of_nat (length (concat (pem_text <$> certs))) + Z.of_nat (length certs).
Proof. revert n. induction certs as [|c certs IH]; intros n; cbn; [lia|]. rewrite IH, length_app. cbn. lia. Qed.
Lemma pem_store_text total certs buf s : buf_has buf s → Z.of_nat (length s + length (concat (pem_text <$> certs)) + length certs) ≤ total →
  total ≤ Z.of_nat (length buf) → ∃ buf', pem_store buf (Z.of_nat (length s)) total certs = Ret buf' ∧ length buf' = length buf ∧
    (certs = [] ∧ buf' = buf ∨ buf_has buf' (s ++ concat (pem_text <$> certs) ++ [0])).
Proof.
  revert buf s. induction certs as [|c certs IH]; intros buf s Hs Hl Ht; cbn [pem_store fmap list_fmap concat] in *.
  - exists buf. split_and!; [done|done|]. by left.
  - rewrite length_app in Hl. cbn [length] in Hl. destruct (Z.ltb_spec (total - Z.of_nat (length s)) (Z.of_nat (length (pem_text c)) + 1)); [lia|].
    destruct (buf_write_app buf s (pem_text c ++ [0]) Hs) as (b1 & -> & Hl1 & Hs1); [rewrite length_app; cbn; lia|]. cbn [mbind outcome_bind].
    assert (buf_has b1 (s ++ pem_text c)) as Hs2 by (rewrite app_assoc in Hs1; by eapply buf_has_prefix).
    rewrite <-Nat2Z.inj_add, <-length_app.
    destruct (IH b1 (s ++ pem_text c) Hs2) as (b2 & -> & Hl2 & Hfin); [rewrite length_app; lia|lia|].
    exists b2. rewrite <-!app_assoc in *. split_and!; [done|lia|]. right. destruct Hfin as [[-> ->]|?]; done.
Qed.

Lemma concat_cstr l : (∀ x, cstr_ok (pem_text x)) → cstr_ok (concat (pem_text <$> l)).
Proof. intros Ht. induction l as [|x l IHl]; [constructor|]. cbn. apply Forall_app. split; [apply Ht|exact IHl]. Qed.

(** The text of a certificate, or of a whole chain: it is stored inside the buffer allocated
    for it and is the texts of the certificates, in order, as one C string.  The length
    reported counts a NUL for each certificate. *)
Theorem write_cert_pem_text mem full_chain c chain : (∀ n, 0 ≤ n → Z.of_nat (length (mem n)) = n) → (∀ x, cstr_ok (pem_text x)) →
  let certs := pem_certs full_chain (c :: chain) in
  ∃ buf, write_cert_pem mem full_chain (c :: chain) = Ret (buf, Z.of_nat (length (concat (pem_text <$> certs)) + length certs)) ∧
    strndup buf (length buf) = concat (pem_text <$> certs) ∧ certs = if full_chain then c :: chain else [c].
Proof.
  intros Hmem Htext certs. unfold write_cert_pem. fold certs. unfold pem_total. rewrite pem_total_eq.
  set (total := 0 + _ + _). assert (certs ≠ []) as Hne by (unfold certs; by destruct full_chain).
  assert (0 ≤ total) by lia. pose proof (Hmem (total + 1) ltac:(lia)) as Hm.
  destruct (pem_store_text total certs (mem (total + 1)) []) as (buf & Hrun & Hlen & Hfin); [split; [done|cbn; lia]|cbn; lia|lia|].
  change (Z.of_nat (length [])) with 0 in Hrun. rewrite Hrun. cbn [mbind outcome_bind]. exists buf. split; [f_equal; f_equal; lia|]. split; [|by destruct full_chain].
  destruct Hfin as [[? _]|[Ht Hl]]; [done|]. cbn [app] in Ht, Hl.
  rewrite <-(take_drop (length (concat (pem_text <$> certs) ++ [0])) buf), Ht, <-app_assoc. cbn [app].
  apply strndup_nul; [|rewrite length_app; cbn; lia]. by apply concat_cstr.
Qed.
End Pem.

(** A chain of two; the text has a letter for each byte. *)
Lemma write_cert_pem_text_witness : ∃ buf,
  write_cert_pem (λ c, 45 :: replicate (length c) 65) (λ n, replicate (Z.to_nat n) 7) true [[1; 2]; [3; 4]] = Ret (buf, 8) ∧
  strndup buf (length buf) = [45; 65; 65; 45; 65; 65].
Proof.
  destruct (write_cert_pem_text (λ c, 45 :: replicate (length c) 65) (λ n, replicate (Z.to_nat n) 7) true [1; 2] [[3; 4]]) as (buf & H1 & H2 & _).
  - intros n Hn. rewrite length_replicate. lia.
  - intros x. constructor; [lia|]. apply Forall_replicate. lia.
  - exists buf. split; [exact H1|exact H2].
Defined.

(** ** The subject of a signing request *)

(** [strcpy] *)
Definition strcpy (buf : list Z) (pos : Z) (text : list Z) : outcome (list Z) := buf_write buf pos (text ++ [0]).
(** [if (!first) *s++ = ','] *)
Definition csr_comma (buf : list Z) (pos : Z) (first : bool) : outcome (list Z * Z) :=
  if first then Ret (buf, pos) else buf ← buf_write buf pos [44]; Ret (buf, pos + 1).
(** The arguments in pairs, up to the first NULL. *)
Fixpoint csr_subject (buf : list Z) (pos : Z) (first : bool) (fields : list (list Z * list Z)) : outcome (list Z) :=
  match fields with
  | [] => buf_write buf pos [0]
  | (id, val) :: fields =>
    '(buf, pos) ← csr_comma buf pos first;
    buf ← strcpy buf pos id;
    let pos := pos + Z.of_nat (length id) in
    buf ← buf_write buf pos [61];
    let pos := pos + 1 in
    buf ← strcpy buf pos val;
    csr_subject buf (pos + Z.of_nat (length val)) false fields
  end.

(** [id=val,id=val] *)
Fixpoint subject_text (first : bool) (fields : list (list Z * list Z)) : list Z :=
  match fields with
  | [] => []
  | (id, val) :: fields => (if first then [] else [44]) ++ id ++ [61] ++ val ++ subject_text false fields
  end.

(** A write after what is there: it fits or faults. *)
Lemma write_fits buf s t : buf_has buf s → if decide (length s + length t ≤ length buf)%nat
  then ∃ buf', buf_write buf (Z.of_nat (length s)) t = Ret buf' ∧ length buf' = length buf ∧ buf_has buf' (s ++ t)
  else buf_write buf (Z.of_nat (length s)) t = Fault OutOfBounds.
Proof.
  intros Hs. destruct (decide _) as [Hl|Hl]; [by apply buf_write_app|]. unfold buf_write.
  destruct (Z.leb_spec (Z.of_nat (length s) + Z.of_nat (length t)) (Z.of_nat (length buf))); [lia|]. by rewrite andb_false_r.
Qed.
Lemma strcpy_fits buf s t : buf_has buf s → if decide (length s + length t < length buf)%nat
  then ∃ buf', strcpy buf (Z.of_nat (length s)) t = Ret buf' ∧ length buf' = length buf ∧ buf_has buf' (s ++ t)
  else strcpy buf (Z.of_nat (length s)) t = Fault OutOfBounds.
Proof.
  intros Hs. pose proof (write_fits buf s (t ++ [0]) Hs) as Hw. rewrite length_app in Hw. cbn [length] in Hw.
  destruct (decide (length s + length t < length buf)%nat), (decide _); try lia; [|done].
  destruct Hw as (buf' & ? & ? & Hh). rewrite app_assoc in Hh. apply buf_has_prefix in Hh. eauto.
Qed.
Lemma csr_comma_fits buf s first : buf_has buf s → let c := if first : bool then [] else [44] in if decide (length s + length c ≤ length buf)%nat
  then ∃ buf', csr_comma buf (Z.of_nat (length s)) first = Ret (buf', Z.of_nat (length (s ++ c))) ∧ length buf' = length buf ∧ buf_has buf' (s ++ c)
  else csr_comma buf (Z.of_nat (length s)) first = Fault OutOfBounds.
Proof.
  intros Hs c. unfold csr_comma, c. destruct first.
  - rewrite app_nil_r. destruct Hs as [Ht Hl]. cbn [length]. destruct (decide _); [|lia]. by exists buf.
  - pose proof (write_fits buf s [44] Hs) as Hw. destruct (decide _); [|by rewrite Hw].
    destruct Hw as (buf' & -> & ? & ?). exists buf'. rewrite length_app, Nat2Z.inj_add. done.
Qed.

(** Continues after a write that fits; one that does not ends the proof. *)
Ltac text_step H := let Hw := fresh in
  pose proof H as Hw; cbn zeta in Hw; destruct (decide _) in Hw;
  [ let b := fresh "b" in let Hb := fresh "Hb" in let Hl := fresh "Hl" in destruct Hw as (b & -> & Hl & Hb); cbn [mbind outcome_bind]
  | rewrite Hw; cbn [mbind outcome_bind]; destruct (decide _) as [Hd|]; [rewrite !length_app in Hd; cbn [length] in *; rewrite ?length_app in *; cbn [length] in *; lia|done] ].
Lemma csr_subject_fits fields : ∀ buf s first, buf_has buf s →
  if decide (length s + length (subject_text first fields) + 1 ≤ length buf)%nat
  then ∃ buf', csr_subject buf (Z.of_nat (length s)) first fields = Ret buf' ∧ length buf' = length buf ∧ buf_has buf' (s ++ subject_text first fields ++ [0])
  else csr_subject buf (Z.of_nat (length s)) first fields = Fault OutOfBounds.
Proof.
  induction fields as [|[id val] fields IH]; intros buf s first Hs; cbn [csr_subject subject_text].
  { pose proof (write_fits buf s [0] Hs) as Hw. cbn [length app] in *. destruct (decide _), (decide _); (done || lia). }
  text_step (csr_comma_fits buf s first Hs). set (c := if first then [] else [44]) in *.
  text_step (strcpy_fits b (s ++ c) id Hb).
  replace (Z.of_nat (length (s ++ c)) + Z.of_nat (length id)) with (Z.of_nat (length ((s ++ c) ++ id))) by (rewrite (length_app _ id); lia).
  text_step (write_fits b0 ((s ++ c) ++ id) [61] Hb0).
  replace (Z.of_nat (length ((s ++ c) ++ id)) + 1) with (Z.of_nat (length (((s ++ c) ++ id) ++ [61]))) by (rewrite (length_app _ [61]); cbn; lia).
  text_step (strcpy_fits b1 (((s ++ c) ++ id) ++ [61]) val Hb1).
  replace (Z.of_nat (length (((s ++ c) ++ id) ++ [61])) + Z.of_nat (length val)) with (Z.of_nat (length ((((s ++ c) ++ id) ++ [61]) ++ val)))
    by (rewrite (length_app _ val); lia).
  specialize (IH b2 _ false Hb2). generalize dependent (Z.of_nat (length ((((s ++ c) ++ id) ++ [61]) ++ val))). intros pos IH.
  rewrite !length_app in IH |- *. cbn [length] in *.
  destruct (decide _), (decide _); try lia; [|exact IH]. destruct IH as (b' & Hr & Hlen & Hh). exists b'. split; [exact Hr|]. split; [lia|].
  revert Hh. rewrite <-!app_assoc. done.
Qed.

(** ** The signing request *)

Section Csr.
(** [mbedtls_ctr_drbg_seed], [mbedtls_x509write_csr_set_subject_name] and [mbedtls_x509write_csr_pem],
    which writes the text of the request for a subject into a buffer of 4096 bytes. *)
Context (drbg_seed : Z) (set_subject_name : list Z → Z) (write_csr_pem : list Z → Z * list Z).

(** [generate_csr]: [subject_name] is the buffer on the stack; the result with [*pem] and [*pemlen]
    where they are set. *)
Definition mbed_generate_csr (subject_name : list Z) (fields : list (list Z * list Z)) : outcome (Z * option (list Z * Z)) :=
  subject_name ← csr_subject subject_name 0 true fields;
  if negb (drbg_seed =? 0) then Ret (drbg_seed, None)
  else
    let name := strndup subject_name (length subject_name) in
    let ret := set_subject_name name in
    if negb (ret =? 0) then Ret (ret, None)
    else
      let '(ret, pembuf) := write_csr_pem name in
      Ret (ret, if ret =? 0 then Some (pembuf, Z.of_nat (length pembuf) + 1) else None).
End Csr.

(** The subject is the fields as [id=value], in order, exactly when that fits the buffer. *)
Lemma csr_subject_bound buf fields : Forall (λ f, cstr_ok f.1 ∧ cstr_ok f.2) fields →
  if decide (length (subject_text true fields) < length buf)%nat
  then ∃ buf', csr_subject buf 0 true fields = Ret buf' ∧ strndup buf' (length buf') = subject_text true fields
  else csr_subject buf 0 true fields = Fault OutOfBounds.
Proof.
  intros HF. pose proof (csr_subject_fits fields buf [] true) as Hc. cbn [length app Nat.add] in Hc.
  specialize (Hc ltac:(split; [done|cbn; lia])). destruct (decide _) in Hc; destruct (decide _); try lia; [|exact Hc].
  destruct Hc as (buf' & Hr & Hl & Ht & Hl'). exists buf'. split; [exact Hr|]. rewrite length_app in Hl'. cbn [length] in Hl'.
  rewrite <-(take_drop (length (subject_text true fields ++ [0])) buf'), Ht, <-app_assoc. cbn [app].
  apply strndup_nul; [|rewrite length_app; cbn; lia].
  assert (∀ first, cstr_ok (subject_text first fields)) as Hcs; [|apply Hcs].
  clear -HF. induction HF as [|[i v] fields [Hi Hv] _ IH]; intros first; [constructor|]. cbn [subject_text fst snd] in *.
  apply Forall_app; split; [destruct first; repeat constructor; lia|]. apply Forall_app; split; [done|]. constructor; [lia|]. apply Forall_app; split; [done|apply IH].
Qed.

Lemma csr_subject_bound_witness : ∃ buf', csr_subject (replicate 256 0) 0 true [(bs "C", bs "US"); (bs "CN", bs "me")] = Ret buf' ∧
  strndup buf' (length buf') = bs "C=US,CN=me".
Proof.
  pose proof (csr_subject_bound (replicate 256 0) [(bs "C", bs "US"); (bs "CN", bs "me")] ltac:(repeat constructor; cbn; lia)) as Hs.
  destruct (decide _) as [|Hn] in Hs; [exact Hs|]. exfalso. apply Hn. vm_compute. lia.
Defined.

(** C26: [generate_csr] asks for a request whose subject is the given fields as [id=value], separated
    by commas and in order, exactly when that fits the buffer of fixed size, and writes outside of
    the buffer otherwise.  A failure of the library is returned, with nothing stored; a success
    stores the text and its length with the NUL. *)
Theorem csr_for_subject seed set_name write subject_name fields : Forall (λ f, cstr_ok f.1 ∧ cstr_ok f.2) fields →
  let subject := subject_text true fields in
  mbed_generate_csr seed set_name write subject_name fields =
  if decide (length subject < length subject_name)%nat then
    Ret (if decide (seed = 0 ∧ set_name subject = 0 ∧ (write subject).1 = 0)
         then (0, Some ((write subject).2, Z.of_nat (length (write subject).2) + 1))
         else (if decide (seed = 0) then if decide (set_name subject = 0) then (write subject).1 else set_name subject else seed, None))
  else Fault OutOfBounds.
Proof.
  intros HF subject. pose proof (csr_subject_bound subject_name fields HF) as Hs. fold subject in Hs. unfold mbed_generate_csr.
  destruct (decide _); [|by rewrite Hs]. destruct Hs as (buf & -> & Hb). cbn [mbind outcome_bind]. rewrite Hb. fold subject.
  destruct (Z.eqb_spec seed 0) as [->|]; cbn [negb].
  - rewrite (decide_True (P := 0 = 0)) by done. destruct (Z.eqb_spec (set_name subject) 0) as [->|]; cbn [negb].
    + rewrite (decide_True (P := 0 = 0)) by done. destruct (write subject) as [rc text]. cbn [fst snd].
      destruct (Z.eqb_spec rc 0) as [->|]; [by rewrite decide_True|by rewrite decide_False by tauto].
    + rewrite !decide_False by tauto. done.
  - rewrite !decide_False by tauto. done.
Qed.

Lemma csr_for_subject_witness : mbed_generate_csr 0 (λ _, 0) (λ s, (0, bs "csr:" ++ s)) (replicate 256 170) [(bs "C", bs "US"); (bs "CN", bs "me")] =
  Ret (0, Some (bs "csr:C=US,CN=me", 15)) ∧ mbed_generate_csr 0 (λ _, 0) (λ s, (0, s)) (replicate 7 170) [(bs "CN", bs "example")] = Fault OutOfBounds.
Proof.
  split; [refine (eq_trans (csr_for_subject _ _ _ _ _ _) _)|refine (eq_trans (csr_for_subject _ _ _ _ _ _) _)].
  - repeat constructor; cbn; lia.
  - vm_compute. reflexivity.
  - repeat constructor; cbn; lia.
  - vm_compute. reflexivity.
Defined.
