(* ===== verification/MbedCtx.v ===== *)
(** * The mbedTLS context (src/mbedtls/engine.c: certificates, keys and protocols)

    The context keeps pointers to a private key, a certificate and a list of protocol names, and so
    does the library's configuration, which was given them by [mbedtls_ssl_conf_own_cert] and
    [mbedtls_ssl_conf_alpn_protocols].  The model has the heap those pointers lead into, so that
    what the configuration may still use, what is freed and what is lost can be told. *)
From S2P Require Import Prelude CLib.
From stdpp Require Import base list gmap sets numbers strings.
From Stdlib Require Import ZArith Lia.
Open Scope Z_scope.

(** A chain of certificates as the library keeps it, and the calls that extend it: a negative code
    is an error, a positive one the number of certificates that were skipped. *)
Class MbedX509 := {
  crt : Type;
  crt_init : crt;
  x509_crt_parse : crt → list Z → Z * crt;
  x509_crt_parse_file : crt → list Z → Z * crt;
  ssl_conf_own_cert : Z → Z → Z;                 (* certificate and key; not 0 without memory *)
}.

Section Ctx.
Context `{MbedX509}.
Context (access : list Z → bool).               (* whether a file can be read *)

(** [struct priv_key_s] with or without its functions, [mbedtls_x509_crt], an array of strings, a
    string, and the other structures of the library. *)
Inductive mobj := MKey (api : bool) | MCrt (c : crt) | MPtrs (l : list Z) | MStr (s : list Z) | MLib.

Record mbedtls_context := mkmctx {
  m_heap : gmap Z mobj;
  m_next : Z;
  own_key : option Z;
  own_cert : option Z;
  alpn_protocols : option Z;
  cert_verify_f : option Z;
  (* config: certificates with keys, protocols, CA chain, random generator and its entropy *)
  conf_own : list (Z * Z);
  conf_alpn : option Z;
  ca_chain : option Z;
  p_rng : option Z;
  p_entropy : option Z;
}.
#[export] Instance mbedtls_context_upd : Updatable mbedtls_context := fun c =>
  mkmctx (m_heap c) (m_next c) (own_key c) (own_cert c) (alpn_protocols c) (cert_verify_f c) (conf_own c) (conf_alpn c)
         (ca_chain c) (p_rng c) (p_entropy c).
Abbreviation MC := (M mbedtls_context).

Definition m_alloc (o : mobj) : MC Z := fun c =>
  Ret (m_next c, c <| m_heap := <[m_next c := o]> (m_heap c) |> <| m_next := m_next c + 1 |>).
Definition m_free (p : option Z) : MC unit :=
  match p with
  | None => mret tt
  | Some p => c ← get;
    match m_heap c !! p with
    | Some _ => modify (λ c, c <| m_heap := delete p (m_heap c) |>)
    | None => fail_with DoubleFree
    end
  end.
Definition m_deref (p : option Z) : MC mobj :=
  match p with
  | None => fail_with NullDeref
  | Some p => c ← get; from_opt UseAfterFree (m_heap c !! p)
  end.
Definition m_put (p : Z) (o : mobj) : MC unit := modify (λ c, c <| m_heap := <[p := o]> (m_heap c) |>).

(** [key->free(key)]: a call through a null pointer when the structure has no functions. *)
Definition key_free (key : option Z) : MC unit :=
  o ← m_deref key;
  match o with
  | MKey true => m_free key
  | MKey false => fail_with NullDeref
  | _ => fail_with BadCast
  end.
(** [mbedtls_x509_crt_free] and [free]. *)
Definition crt_free (cert : option Z) : MC unit :=
  o ← m_deref cert; match o with MCrt _ => m_free cert | _ => fail_with BadCast end.

(** ** Making the context *)

Definition caFiles : list (list Z) :=
  [bs "/etc/ssl/certs/ca-certificates.crt"; bs "/etc/pki/tls/certs/ca-bundle.crt"; bs "/etc/ssl/ca-bundle.pem";
   bs "/etc/pki/tls/cacert.pem"; bs "/etc/pki/ca-trust/extracted/pem/tls-ca-bundle.pem"; bs "/etc/ssl/cert.pem"].
(** The first of the files that can be read. *)
Definition default_ca : crt :=
  match list_find (λ f, access f = true) caFiles with
  | Some (_, f) => (x509_crt_parse_file crt_init f).2
  | None => crt_init
  end.
(** The certificates trusted: those of the text, or of the file it names, or of the system. *)
Definition load_ca (cabuf : option (list Z)) : crt :=
  match cabuf with
  | Some buf =>
    let '(rc, ca) := match buf with [] => (0, crt_init) | _ => x509_crt_parse crt_init buf end in
    if rc <? 0 then (x509_crt_parse_file crt_init buf).2 else ca
  | None => default_ca
  end.
Definition init_ssl_context (cabuf : option (list Z)) : MC unit :=
  drbg ← m_alloc MLib;
  entropy ← m_alloc MLib;
  seed ← m_alloc MLib;
  ca ← m_alloc (MCrt (load_ca cabuf));
  _ ← modify (λ c, c <| p_rng := Some drbg |> <| p_entropy := Some entropy |> <| ca_chain := Some ca |>);
  m_free (Some seed).
(** [calloc] of the context, in a heap that has [heap] already. *)
Definition new_mbedtls_ctx (heap : gmap Z mobj) (next : Z) (ca : option (list Z)) : outcome mbedtls_context :=
  '(_, c) ← init_ssl_context ca (mkmctx heap next None None None None [] None None None None);
  Ret c.

(** ** Operations *)

Definition mbedtls_set_cert_verify (verify_f : option Z) : MC unit := modify (λ c, c <| cert_verify_f := verify_f |>).

Fixpoint free_all (l : list Z) : MC unit :=
  match l with [] => mret tt | p :: l => _ ← m_free (Some p); free_all l end.
(** The strings of the array up to the NULL, then the array. *)
Definition free_alpn : MC unit :=
  c ← get;
  match alpn_protocols c with
  | None => mret tt
  | Some a =>
    o ← m_deref (Some a);
    match o with MPtrs l => _ ← free_all l; m_free (Some a) | _ => fail_with BadCast end
  end.
Fixpoint dup_all (l : list (list Z)) : MC (list Z) :=
  match l with [] => mret [] | s :: l => p ← m_alloc (MStr s); ps ← dup_all l; mret (p :: ps) end.
Definition mbedtls_set_alpn_protocols (protos : list (list Z)) : MC unit :=
  _ ← free_alpn;
  a ← m_alloc (MPtrs []);
  _ ← modify (λ c, c <| alpn_protocols := Some a |>);
  ps ← dup_all protos;
  _ ← m_put a (MPtrs ps);
  modify (λ c, c <| conf_alpn := Some a |>).

(** The library keeps the pointers it is given, unless it runs out of memory. *)
Definition conf_own_cert (cert key : option Z) : MC Z :=
  match cert, key with
  | Some cert, Some key =>
    let rc := ssl_conf_own_cert cert key in
    _ ← when (rc =? 0) (modify (λ c, c <| conf_own := conf_own c ++ [(cert, key)] |>));
    mret rc
  | _, _ => fail_with NullDeref
  end.

Definition mbedtls_set_own_key (key : Z) : MC Z :=
  _ ← modify (λ c, c <| own_key := Some key |>);
  c ← get;
  match own_cert c with
  | None => mret 0
  | Some cert =>
    rc ← conf_own_cert (Some cert) (Some key);
    mret (if rc =? 0 then 0 else -1)
  end.

(** Parses into the structure [p], from the text or else from the file it names. *)
Definition parse_into (p : Z) (buf : list Z) : MC Z :=
  let '(rc, c1) := x509_crt_parse crt_init buf in
  if rc <? 0 then
    let '(rc, c2) := x509_crt_parse_file c1 buf in _ ← m_put p (MCrt c2); mret rc
  else _ ← m_put p (MCrt c1); mret rc.

Definition mbedtls_set_own_cert (cert_buf : list Z) : MC Z :=
  p ← m_alloc (MCrt crt_init);
  _ ← modify (λ c, c <| own_cert := Some p |>);
  rc ← parse_into p cert_buf;
  if rc <? 0 then
    _ ← crt_free (Some p);
    _ ← modify (λ c, c <| own_cert := None |>);
    c ← get;
    _ ← key_free (own_key c);
    _ ← modify (λ c, c <| own_key := None |>);
    mret rc
  else
    c ← get;
    match own_key c with
    | Some key => conf_own_cert (Some p) (Some key)
    | None => mret rc
    end.

(** [mp11_load_key] fills in the key structure; [TLS_ERR] and [TLS_OK]. *)
Definition mbedtls_set_own_cert_p11 (mp11_load_key : Z) (cert_buf : list Z) : MC Z :=
  k ← m_alloc (MKey false);
  _ ← modify (λ c, c <| own_key := Some k |>);
  if negb (mp11_load_key =? 0) then
    _ ← m_free (Some k);
    _ ← modify (λ c, c <| own_key := None |>);
    mret (-1)
  else
    p ← m_alloc (MCrt crt_init);
    _ ← modify (λ c, c <| own_cert := Some p |>);
    rc ← parse_into p cert_buf;
    if rc <? 0 then
      _ ← crt_free (Some p);
      _ ← modify (λ c, c <| own_cert := None |>);
      _ ← key_free (Some k);
      _ ← modify (λ c, c <| own_key := None |>);
      mret (-1)
    else
      _ ← conf_own_cert (Some p) (Some k);
      mret 0.

(** The byte before the end of the buffer is looked at, and one after it read when it is not NUL;
    [after] is that byte. *)
Definition mbedtls_load_cert (after : option Z) (cert_buf : list Z) : MC (Z * option Z) :=
  p ← m_alloc (MCrt crt_init);
  buf ← match last cert_buf with
        | None => fail_with OutOfBounds
        | Some 0 => mret cert_buf
        | Some _ => b ← from_opt OutOfBounds after; mret (cert_buf ++ [b])
        end;
  rc ← parse_into p buf;
  if rc <? 0 then _ ← crt_free (Some p); mret (rc, None) else mret (rc, Some p).

Definition mbedtls_free_cert (cert : option Z) : MC (option Z) := _ ← crt_free cert; mret None.

Definition mbedtls_free_ctx : MC unit :=
  c ← get;
  _ ← crt_free (ca_chain c);
  _ ← m_deref (p_rng c);
  _ ← m_free (p_entropy c);
  _ ← m_free (p_rng c);
  _ ← free_alpn;
  _ ← match own_key c with Some k => key_free (Some k) | None => mret tt end;
  match own_cert c with Some p => crt_free (Some p) | None => mret tt end.

(** ** Using the heap *)

Definition wipe (l : list Z) (h : gmap Z mobj) : gmap Z mobj := foldl (λ h p, delete p h) h l.
Lemma lookup_wipe l h p : wipe l h !! p = if decide (p ∈ l) then None else h !! p.
Proof.
  revert h. induction l as [|q l IH]; intros h; cbn; [by rewrite decide_False by set_solver|].
  unfold wipe in IH. rewrite IH. destruct (decide (p = q)) as [->|Hq].
  - rewrite lookup_delete_eq. destruct (decide (q ∈ l)); by rewrite decide_True by set_solver.
  - rewrite lookup_delete_ne by done.
    destruct (decide (p ∈ l)); [by rewrite decide_True by set_solver|by rewrite decide_False by set_solver].
Qed.

Lemma wipe_app l1 l2 h : wipe (l1 ++ l2) h = wipe l2 (wipe l1 h).
Proof. apply foldl_app. Qed.

Lemma lookup_filter_keys (l : list Z) (h : gmap Z mobj) p :
  filter (λ x : Z * mobj, x.1 ∈ l) h !! p = if decide (p ∈ l) then h !! p else None.
Proof. rewrite map_lookup_filter. by destruct (h !! p); repeat (case_decide || simplify_option_eq). Qed.
Implicit Types (c : mbedtls_context) (h : gmap Z mobj).

Lemma wp_m_alloc o (Q : Z → mbedtls_context → Prop) c :
  wp (m_alloc o) Q c ↔ Q (m_next c) (c <| m_heap := <[m_next c := o]> (m_heap c) |> <| m_next := m_next c + 1 |>).
Proof. done. Qed.
Lemma wp_m_free p o (Q : unit → mbedtls_context → Prop) c :
  m_heap c !! p = Some o → Q tt (c <| m_heap := delete p (m_heap c) |>) → wp (m_free (Some p)) Q c.
Proof. intros Hp HQ. unfold m_free. wp_simpl. by rewrite Hp. Qed.
Lemma wp_m_deref p o (Q : mobj → mbedtls_context → Prop) c :
  m_heap c !! p = Some o → Q o c → wp (m_deref (Some p)) Q c.
Proof. intros Hp HQ. unfold m_deref. wp_simpl. by rewrite Hp. Qed.
Lemma wp_crt_free p x (Q : unit → mbedtls_context → Prop) c :
  m_heap c !! p = Some (MCrt x) → Q tt (c <| m_heap := delete p (m_heap c) |>) → wp (crt_free (Some p)) Q c.
Proof. intros Hp HQ. unfold crt_free. wp_simpl. eapply wp_m_deref; [done|]. eapply wp_m_free; eauto. Qed.
Lemma wp_key_free p (Q : unit → mbedtls_context → Prop) c :
  m_heap c !! p = Some (MKey true) → Q tt (c <| m_heap := delete p (m_heap c) |>) → wp (key_free (Some p)) Q c.
Proof. intros Hp HQ. unfold key_free. wp_simpl. eapply wp_m_deref; [done|]. eapply wp_m_free; eauto. Qed.
Lemma wp_free_all l (Q : unit → mbedtls_context → Prop) c :
  NoDup l → Forall (λ p, is_Some (m_heap c !! p)) l → Q tt (c <| m_heap := wipe l (m_heap c) |>) → wp (free_all l) Q c.
Proof.
  revert c. induction l as [|p l IH]; intros c Hnd Hl HQ; cbn [free_all].
  - wp_simpl. by destruct c.
  - apply NoDup_cons in Hnd as [Hp Hnd]. apply Forall_cons in Hl as [[o Ho] Hl]. wp_simpl.
    eapply wp_m_free; [done|]. apply IH; [done| |by destruct c].
    rewrite Forall_forall in Hl |- *. intros q Hq. cbn. rewrite lookup_delete_ne by set_solver. auto.
Qed.
(** [strdup] of each: fresh pointers, in order, to the strings. *)
Lemma wp_dup_all l (Q : list Z → mbedtls_context → Prop) c :
  (∀ h ps n, ps = seqZ (m_next c) (Z.of_nat (length l)) → n = m_next c + Z.of_nat (length l) →
     (∀ p, p ∉ ps → h !! p = m_heap c !! p) → Forall2 (λ p s, h !! p = Some (MStr s)) ps l →
     Q ps (c <| m_heap := h |> <| m_next := n |>)) →
  wp (dup_all l) Q c.
Proof.
  revert c Q. induction l as [|s l IH]; intros c Q HQ; cbn [dup_all]; wp_simpl.
  - destruct c as [hp nx]. apply (HQ hp [] nx); [done|symmetry; apply Z.add_0_r|done|constructor].
  - apply wp_m_alloc. wp_simpl. apply IH. cbn -[Z.of_nat seqZ]. intros h ps n -> -> Hh Hps. wp_simpl.
    assert (Hnin : m_next c ∉ seqZ (m_next c + 1) (Z.of_nat (length l))) by (rewrite elem_of_seqZ; lia).
    specialize (HQ h (m_next c :: seqZ (m_next c + 1) (Z.of_nat (length l))) (m_next c + 1 + Z.of_nat (length l))).
    destruct c as [hp nx]. cbn -[Z.of_nat seqZ] in *. apply HQ.
    + cbn [length]. rewrite Nat2Z.inj_succ, (seqZ_cons nx) by lia. by rewrite Z.pred_succ, Z.add_1_r.
    + lia.
    + intros p Hp. apply not_elem_of_cons in Hp as [Hne Hp]. rewrite Hh by done. by rewrite lookup_insert_ne.
    + constructor; [|done]. rewrite Hh by done. by rewrite lookup_insert_eq.
Qed.

(** ** What the context owns

    A caller gives keys, certificates and protocol names to a context in any order.  [keys] are the
    keys given so far, [certs] the structures the certificates were read into, [names] the strings
    of the current protocol list. *)

Inductive ctx_op := SetKey (key : Z) | SetCert (buf : list Z) | SetAlpn (protos : list (list Z)) | SetVerify (f : option Z).
Definition run_ctx_op (o : ctx_op) : MC unit :=
  match o with
  | SetKey k => _ ← mbedtls_set_own_key k; mret tt
  | SetCert b => _ ← mbedtls_set_own_cert b; mret tt
  | SetAlpn l => mbedtls_set_alpn_protocols l
  | SetVerify f => mbedtls_set_cert_verify f
  end.
Fixpoint run_ctx_ops (l : list ctx_op) : MC unit :=
  match l with [] => mret tt | o :: l => _ ← run_ctx_op o; run_ctx_ops l end.

Definition op_keys (l : list ctx_op) : list Z := omap (λ o, match o with SetKey k => Some k | _ => None end) l.
Definition op_certs (l : list ctx_op) : list (list Z) := omap (λ o, match o with SetCert b => Some b | _ => None end) l.
Definition op_protos (l : list ctx_op) : list (list (list Z)) := omap (λ o, match o with SetAlpn p => Some p | _ => None end) l.

(** The code the certificate's text ends with: its own, or the file's. *)
Definition parse_rc (buf : list Z) : Z :=
  let '(rc, c1) := x509_crt_parse crt_init buf in if rc <? 0 then (x509_crt_parse_file c1 buf).1 else rc.

Section Owned.
Context (h0 : gmap Z mobj) (n0 : Z).
Hypothesis h0_below : ∀ p, is_Some (h0 !! p) → p < n0.

(** A key is the caller's, with its functions; a certificate is one that can be read. *)
Definition op_ok (o : ctx_op) : Prop :=
  match o with SetKey k => h0 !! k = Some (MKey true) | SetCert b => 0 ≤ parse_rc b | _ => True end.

Definition alpn_ptrs c (names : list Z) : list Z := match alpn_protocols c with Some a => a :: names | None => [] end.
Definition names_ok c (names : list Z) (protos : option (list (list Z))) : Prop :=
  match alpn_protocols c, protos with
  | Some a, Some l => m_heap c !! a = Some (MPtrs names) ∧ Forall2 (λ p s, m_heap c !! p = Some (MStr s)) names l
  | None, None => True
  | _, _ => False
  end.

Record owned (keys certs : list Z) (protos : option (list (list Z))) (base : list Z) (names : list Z) c : Prop := {
  o_next : ∀ p, is_Some (m_heap c !! p) → p < m_next c;
  o_high : n0 ≤ m_next c;
  o_nodup : NoDup (base ++ certs ++ alpn_ptrs c names);
  o_dom : ∀ p, n0 ≤ p → is_Some (m_heap c !! p) ↔ p ∈ base ++ certs ++ alpn_ptrs c names;
  o_ptrs : Forall (λ p, n0 ≤ p) (base ++ certs ++ alpn_ptrs c names);
  o_h0 : ∀ p, p < n0 → m_heap c !! p = h0 !! p;
  o_base : ∃ ca rng ent x, base = [ca; ent; rng] ∧ ca_chain c = Some ca ∧ p_rng c = Some rng ∧ p_entropy c = Some ent ∧
    m_heap c !! ca = Some (MCrt x);
  o_certs : Forall (λ p, ∃ x, m_heap c !! p = Some (MCrt x)) certs;
  o_cert : own_cert c = last certs;
  o_keys : Forall (λ k, h0 !! k = Some (MKey true)) keys;
  o_key : own_key c = last keys;
  o_names : names_ok c names protos;
  o_conf_alpn : conf_alpn c = alpn_protocols c;
  o_conf_own : Forall (λ x, x.1 ∈ certs ∧ x.2 ∈ keys) (conf_own c);
  o_conf_last : (∀ p k, ssl_conf_own_cert p k = 0) → ∀ p k, last certs = Some p → last keys = Some k →
    last (conf_own c) = Some (p, k);
}.

Lemma owned_new cabuf :
  wp (init_ssl_context cabuf) (λ _, owned [] [] None [n0 + 3; n0 + 1; n0] [])
     (mkmctx h0 n0 None None None None [] None None None None).
Proof.
  unfold init_ssl_context. do 4 (wp_simpl; apply wp_m_alloc). wp_simpl. cbn -[Z.add m_free wp].
  assert (Hno : ∀ p, n0 ≤ p → h0 !! p = None).
  { intros p Hp. destruct (h0 !! p) eqn:E; [|done]. assert (p < n0) by (apply h0_below; eauto). lia. }
  eapply wp_m_free; cbn -[Z.add].
  { by rewrite lookup_insert_ne, lookup_insert_eq by lia. }
  rewrite <- !Z.add_assoc. constructor; cbn -[Z.add]; try done; try lia.
  - intros p. rewrite lookup_delete_is_Some, !lookup_insert_is_Some. intros [? Hp].
    assert (is_Some (h0 !! p) → p < n0) by auto. naive_solver lia.
  - repeat constructor; set_unfold; lia.
  - intros p Hp. rewrite lookup_delete_is_Some, !lookup_insert_is_Some, Hno by done.
    pose proof (@is_Some_None mobj). set_unfold.
    destruct (decide (p = n0)), (decide (p = n0 + 1)), (decide (p = n0 + 2)), (decide (p = n0 + 3)); naive_solver lia.
  - repeat constructor; lia.
  - intros p Hp. by rewrite lookup_delete_ne, !lookup_insert_ne by lia.
  - eexists _, _, _, _. do 4 (split; [done|]). by rewrite lookup_delete_ne, lookup_insert_eq by lia.
Qed.

Lemma owned_set_key keys certs protos base names k c :
  h0 !! k = Some (MKey true) → owned keys certs protos base names c →
  wp (mbedtls_set_own_key k) (λ _, owned (keys ++ [k]) certs protos base names) c.
Proof.
  intros Hk [? ? ? ? ? ? ? ? Hc Hks ? ? ? Hown ?]. unfold mbedtls_set_own_key. wp_simpl. cbn.
  assert (Hown' : Forall (λ x, x.1 ∈ certs ∧ x.2 ∈ keys ++ [k]) (conf_own c)).
  { eapply Forall_impl; [done|]. set_solver. }
  rewrite Hc. destruct (last certs) as [p|] eqn:Hl; unfold conf_own_cert; wp_simpl.
  - apply last_Some in Hl as [cs ->]. unfold when. destruct (_ =? 0) eqn:E; wp_simpl.
    + constructor; cbn; rewrite ?last_snoc; try done.
      * by apply Forall_app_2; [|constructor].
      * apply Forall_app_2; [done|]. constructor; [set_solver|done].
      * naive_solver.
    + constructor; cbn; rewrite ?last_snoc; try done.
      * by apply Forall_app_2; [|constructor].
      * intros H0. by rewrite H0 in E.
  - constructor; cbn; rewrite ?last_snoc, ?Hl; try done. by apply Forall_app_2; [|constructor].
Qed.

(** A structure more, with its certificate, after those there are; [conf] is what the configuration
    then has. *)
Lemma owned_new_cert keys certs protos base names x conf c :
  owned keys certs protos base names c →
  (conf = conf_own c ∧ ((∀ p k, ssl_conf_own_cert p k = 0) → last keys = None)) ∨
  (∃ k, last keys = Some k ∧ conf = conf_own c ++ [(m_next c, k)]) →
  owned keys (certs ++ [m_next c]) protos base names
    (c <| m_heap := <[m_next c := MCrt x]> (m_heap c) |> <| m_next := m_next c + 1 |>
       <| own_cert := Some (m_next c) |> <| conf_own := conf |>).
Proof.
  intros [Hnext Hhigh Hnd Hdom Hptrs Hh0 Hbase Hcs Hc Hks Hk Hn Hal Hown Hlast] Hconf.
  set (p := m_next c) in *.
  assert (Hfresh : ∀ q o, m_heap c !! q = Some o → q ≠ p).
  { intros q o Hq ->. assert (p < p) by (apply Hnext; eauto). lia. }
  assert (Hkeep : ∀ q o, m_heap c !! q = Some o → <[p := MCrt x]> (m_heap c) !! q = Some o).
  { intros q o Hq. rewrite lookup_insert_ne; [done|]. by intros ->; eapply Hfresh. }
  assert (Hp : p ∉ base ++ certs ++ alpn_ptrs c names).
  { intros Hp. apply Hdom in Hp as [o Ho]; [|done]. by eapply Hfresh. }
  constructor; cbn -[Z.add]; rewrite ?last_snoc; try done.
  - intros q. rewrite lookup_insert_is_Some. intros [<-|[_ Hq]]; [lia|]. apply Hnext in Hq. lia.
  - lia.
  - change (NoDup (base ++ (certs ++ [p]) ++ alpn_ptrs c names)).
    rewrite <- (app_assoc certs), (app_assoc base). cbn [app]. rewrite <- Permutation_middle, <- app_assoc. by constructor.
  - change (∀ q, n0 ≤ q → is_Some (<[p := MCrt x]> (m_heap c) !! q) ↔ q ∈ base ++ (certs ++ [p]) ++ alpn_ptrs c names).
    intros q Hq. rewrite lookup_insert_is_Some', Hdom by done. set_solver.
  - change (Forall (λ q, n0 ≤ q) (base ++ (certs ++ [p]) ++ alpn_ptrs c names)).
    rewrite !Forall_app in *. intuition.
  - intros q Hq. rewrite lookup_insert_ne by lia. auto.
  - destruct Hbase as (ca & rng & ent & y & Hb). exists ca, rng, ent, y. naive_solver.
  - apply Forall_app; split; [|by repeat constructor; exists x; rewrite lookup_insert_eq].
    eapply Forall_impl; [done|]. naive_solver.
  - unfold names_ok in *. cbn in *. destruct (alpn_protocols c), protos; try done. destruct Hn as [? Hn].
    split; [auto|]. eapply Forall2_impl; [done|]. naive_solver.
  - destruct Hconf as [[-> _]|(k & Hl & ->)].
    + eapply Forall_impl; [done|]. set_solver.
    + apply Forall_app; split; [eapply Forall_impl; [done|]; set_solver|].
      apply last_Some in Hl as [ks ->]. repeat constructor; set_solver.
  - intros Hz q k [= <-] Hq. destruct Hconf as [[-> Hno]|(k' & Hl & ->)].
    + rewrite Hno in Hq; done.
    + rewrite last_snoc. congruence.
Qed.

Lemma owned_set_cert keys certs protos base names buf c :
  0 ≤ parse_rc buf → owned keys certs protos base names c →
  wp (mbedtls_set_own_cert buf) (λ _, owned keys (certs ++ [m_next c]) protos base names) c.
Proof.
  intros Hrc Ho. pose proof (o_key _ _ _ _ _ _ Ho) as Hkey.
  assert (Hp : ∀ Q c1, (∀ x, Q (parse_rc buf) (c1 <| m_heap := <[m_next c := MCrt x]> (m_heap c1) |>)) →
               wp (parse_into (m_next c) buf) Q c1).
  { intros Q c1 HQ. unfold parse_into, parse_rc in *. destruct (x509_crt_parse crt_init buf) as [rc c2].
    destruct (rc <? 0); [destruct (x509_crt_parse_file c2 buf)|]; unfold m_put; wp_simpl; apply HQ. }
  unfold mbedtls_set_own_cert. wp_simpl. apply wp_m_alloc. wp_simpl. apply Hp. intros x. wp_simpl.
  destruct (Z.ltb_spec (parse_rc buf) 0); [lia|]. wp_simpl. cbn -[Z.add wp conf_own_cert].
  rewrite insert_insert_eq, Hkey. destruct (last keys) as [k|] eqn:Hl.
  - unfold conf_own_cert, when. destruct (_ =? 0) eqn:E; wp_simpl.
    + eapply owned_new_cert in Ho; [exact Ho|]. right. eauto.
    + eapply (owned_new_cert _ _ _ _ _ x (conf_own c)) in Ho; [by destruct c|]. left. split; [done|].
      intros Hz. by rewrite Hz in E.
  - wp_simpl. eapply (owned_new_cert _ _ _ _ _ x (conf_own c)) in Ho; [by destruct c|]. auto.
Qed.

(** The protocol names and their array are the context's: freeing them leaves the rest. *)
Lemma wp_free_alpn protos names (Q : unit → mbedtls_context → Prop) c :
  names_ok c names protos → NoDup (alpn_ptrs c names) →
  Q tt (c <| m_heap := wipe (alpn_ptrs c names) (m_heap c) |>) → wp free_alpn Q c.
Proof.
  intros Hn Hnd HQ. unfold free_alpn, alpn_ptrs, names_ok in *. wp_simpl.
  destruct (alpn_protocols c) as [a|]; wp_simpl; [|by destruct c].
  destruct protos as [l|]; [|done]. destruct Hn as [Ha Hn]. eapply wp_m_deref; [done|]. wp_simpl.
  apply NoDup_cons in Hnd as [Hna Hnd]. apply wp_free_all; [done| |].
  { rewrite Forall_forall. intros p Hp. apply list_elem_of_lookup in Hp as [i Hi].
    eapply Forall2_lookup_l in Hn as (? & _ & Hs); [|done]. eauto. }
  wp_simpl. eapply wp_m_free; cbn; [rewrite lookup_wipe, decide_False by done; exact Ha|].
  replace (delete a (wipe names (m_heap c))) with (wipe (a :: names) (m_heap c)); [by destruct c|].
  apply map_eq. intros p. rewrite lookup_delete, !lookup_wipe. repeat case_decide; set_solver.
Qed.
Lemma names_ok_keep names protos c h :
  names_ok c names protos → (∀ p, p ∈ alpn_ptrs c names → h !! p = m_heap c !! p) → names_ok (c <| m_heap := h |>) names protos.
Proof.
  unfold names_ok, alpn_ptrs. cbn. destruct (alpn_protocols c) as [a|], protos as [l|]; try done. intros [Ha Hn] Hh.
  rewrite Hh by set_solver. split; [done|]. apply Forall2_same_length_lookup in Hn as [Hlen Hn].
  apply Forall2_same_length_lookup. split; [done|]. intros i p s Hi Hs. apply list_elem_of_lookup_2 in Hi as Hp.
  rewrite Hh by set_solver. eauto.
Qed.

(** The objects there are when the names [ps] and their array [a] have replaced the old ones. *)
Lemma renewed_names old a ps l h h1 :
  (∀ p, p ∉ ps → h1 !! p = <[a := MPtrs []]> (wipe old h) !! p) → Forall2 (λ p s, h1 !! p = Some (MStr s)) ps l →
  ∀ p, is_Some (<[a := MPtrs ps]> h1 !! p) ↔ p = a ∨ p ∈ ps ∨ ((p ∉ old) ∧ is_Some (h !! p)).
Proof.
  intros Hh Hps p. rewrite lookup_insert_is_Some'. destruct (decide (p = a)) as [->|Hpa]; [naive_solver|].
  destruct (decide (p ∈ ps)) as [Hp|Hp].
  - apply list_elem_of_lookup in Hp as Hi. destruct Hi as [i Hi].
    eapply Forall2_lookup_l in Hps as (? & _ & Hs); [|done]. rewrite Hs. naive_solver.
  - rewrite Hh, lookup_insert_ne, lookup_wipe by done. pose proof (@is_Some_None mobj). case_decide; naive_solver.
Qed.
Lemma owned_set_alpn keys certs protos base names l c :
  owned keys certs protos base names c →
  wp (mbedtls_set_alpn_protocols l) (λ _ c', ∃ names', owned keys certs (Some l) base names' c') c.
Proof.
  intros Ho. unfold mbedtls_set_alpn_protocols. wp_simpl.
  destruct Ho as [Hnext Hhigh Hnd Hdom Hptrs Hh0 Hbase Hcs Hc Hks Hk Hn _ Hown Hlast].
  eapply wp_free_alpn; [done|by apply NoDup_app in Hnd as (_ & _ & Hnd); apply NoDup_app in Hnd as (_ & _ & Hnd)|]. clear Hn.
  set (a := m_next c) in *. set (old := alpn_ptrs c names) in *.
  wp_simpl. apply wp_m_alloc. wp_simpl. apply wp_dup_all. cbn -[Z.add seqZ]. fold a old.
  intros h ps n Eps -> Hh Hps. wp_simpl. unfold m_put. wp_simpl. exists ps.
  assert (Hseq : ∀ p, p ∈ ps → a < p < a + 1 + Z.of_nat (length l)) by (intros p; rewrite Eps, elem_of_seqZ; lia).
  assert (Hold : ∀ p, p ∈ base ++ certs ++ old → n0 ≤ p < a).
  { rewrite Forall_forall in Hptrs. intros p Hp. split; [auto|]. apply Hnext, Hdom; auto. }
  assert (Hlow : ∀ p, p < a → p ∉ old → <[a := MPtrs ps]> h !! p = m_heap c !! p).
  { intros p Hp Hpo. rewrite lookup_insert_ne, Hh, lookup_insert_ne, lookup_wipe, decide_False; try done; try lia.
    intros Hps'. apply Hseq in Hps'. lia. }
  apply NoDup_app in Hnd as (Hnb & Hdb & Hnd). apply NoDup_app in Hnd as (Hnc & Hdc & _).
  assert (Hkb : ∀ p, p ∈ base ++ certs → <[a := MPtrs ps]> h !! p = m_heap c !! p).
  { intros p Hp. apply Hlow; [apply Hold; set_solver|]. set_solver. }
  assert (Hnew := renewed_names _ _ _ _ _ _ Hh Hps).
  constructor; cbn -[Z.add]; try done.
  - intros p. rewrite Hnew. intros [->|[Hp|[_ Hp]]]; [lia|apply Hseq in Hp; lia|apply Hnext in Hp; lia].
  - lia.
  - change (NoDup (base ++ certs ++ a :: ps)). rewrite app_assoc. apply NoDup_app. split; [apply NoDup_app; set_solver|].
    split.
    + intros p Hp. assert (n0 ≤ p < a) by (apply Hold; set_solver). intros [?|Hp']%elem_of_cons; [lia|apply Hseq in Hp'; lia].
    + constructor; [intros Hp; apply Hseq in Hp; lia|]. rewrite Eps. apply NoDup_seqZ.
  - change (∀ p, n0 ≤ p → is_Some (<[a := MPtrs ps]> h !! p) ↔ p ∈ base ++ certs ++ a :: ps).
    intros p Hp. rewrite Hnew, (Hdom p Hp). set_solver.
  - change (Forall (λ p, n0 ≤ p) (base ++ certs ++ a :: ps)). rewrite Forall_forall. intros p. rewrite app_assoc.
    intros [Hp|[->|Hp]%elem_of_cons]%elem_of_app; [|done|apply Hseq in Hp; lia]. apply Hold. set_solver.
  - intros p Hp. rewrite Hlow, Hh0; [done|done|lia|]. intros Hpo. assert (n0 ≤ p < a) by (apply Hold; set_solver). lia.
  - destruct Hbase as (ca & rng & ent & x & -> & ? & ? & ? & Hca). exists ca, rng, ent, x. rewrite Hkb by set_solver. done.
  - rewrite Forall_forall in Hcs |- *. intros p Hp. rewrite Hkb by set_solver. auto.
  - unfold names_ok. cbn. rewrite lookup_insert_eq. split; [done|].
    apply Forall2_same_length_lookup in Hps as [Hlen Hps]. apply Forall2_same_length_lookup. split; [done|].
    intros i p s Hi Hs. apply list_elem_of_lookup_2 in Hi as Hp. apply Hseq in Hp. rewrite lookup_insert_ne by lia. eauto.
Qed.

Definition protos_after (protos : option (list (list Z))) (ops : list ctx_op) : option (list (list Z)) :=
  from_option Some protos (last (op_protos ops)).
Lemma owned_run ops : Forall op_ok ops → ∀ keys certs protos base names c, owned keys certs protos base names c →
  wp (run_ctx_ops ops) (λ _ c', ∃ certs' names', length certs' = length (op_certs ops) ∧
    owned (keys ++ op_keys ops) (certs ++ certs') (protos_after protos ops) base names' c') c.
Proof.
  induction 1 as [|o ops Hok _ IH]; intros keys certs protos base names c Ho; cbn [run_ctx_ops]; wp_simpl.
  - exists [], names. by rewrite !app_nil_r.
  - destruct o as [k|b|l|f]; unfold run_ctx_op; wp_simpl.
    + eapply wp_mono; [by apply owned_set_key|]. cbn beta. intros _ c1 Ho1. wp_simpl. apply IH in Ho1.
      by rewrite <- app_assoc in Ho1.
    + eapply wp_mono; [by eapply owned_set_cert|]. cbn beta. intros _ c1 Ho1. wp_simpl. apply IH in Ho1.
      eapply wp_mono; [done|]. cbn beta. intros _ c2 (certs' & names' & Hlen & Ho2). exists (m_next c :: certs'), names'.
      rewrite <- app_assoc in Ho2. cbn. by rewrite Hlen.
    + eapply wp_mono; [by eapply owned_set_alpn|]. cbn beta. intros _ c1 (names1 & Ho1). apply IH in Ho1.
      eapply wp_mono; [done|]. cbn beta. intros _ c2 (certs' & names' & Hlen & Ho2). exists certs', names'. split; [done|].
      unfold protos_after in *. cbn. rewrite last_cons. fold (op_protos ops). by destruct (last (op_protos ops)).
    + unfold mbedtls_set_cert_verify. wp_simpl. eapply (IH _ _ _ _ names). by destruct Ho; constructor.
Qed.

(** The last two steps of [mbedtls_free_ctx]. *)
Lemma wp_free_own ok oc (Q : unit → mbedtls_context → Prop) c :
  (∀ k, ok = Some k → m_heap c !! k = Some (MKey true)) → (∀ p, oc = Some p → ∃ x, m_heap c !! p = Some (MCrt x)) →
  (∀ c', m_heap c' = wipe (option_list ok ++ option_list oc) (m_heap c) → Q tt c') →
  wp (_ ← match ok with Some k => key_free (Some k) | None => mret tt end;
      match oc with Some p => crt_free (Some p) | None => mret tt end) Q c.
Proof.
  intros Hk Hp HQ. wp_simpl.
  assert (Hcert : ∀ c', m_heap c' = wipe (option_list ok) (m_heap c) →
    wp (match oc with Some p => crt_free (Some p) | None => mret tt end) Q c').
  { intros c' Hc'. destruct oc as [p|]; [|apply HQ; by rewrite app_nil_r].
    destruct (Hp p) as [x Hx]; [done|]. eapply wp_crt_free.
    - rewrite Hc', lookup_wipe. rewrite decide_False; [done|]. destruct ok as [k|]; [|set_solver].
      specialize (Hk k eq_refl). set_unfold. naive_solver.
    - apply HQ. cbn. rewrite Hc'. by destruct ok. }
  destruct ok as [k|]; wp_simpl; [|by apply Hcert]. eapply wp_key_free; [auto|]. by apply Hcert.
Qed.
(** Freeing the context frees its part, its key and its certificate. *)
Lemma owned_free_ctx keys certs protos base names c :
  owned keys certs protos base names c →
  wp mbedtls_free_ctx (λ _ c', m_heap c' =
    wipe (base ++ alpn_ptrs c names ++ option_list (last keys) ++ option_list (last certs)) (m_heap c)) c.
Proof.
  intros [Hnext Hhigh Hnd Hdom Hptrs Hh0 Hbase Hcs Hc Hks Hk Hn _ _ _].
  destruct Hbase as (ca & rng & ent & x & -> & Eca & Erng & Eent & Hca).
  assert (Hlive : ∀ p, p ∈ [ca; ent; rng] → is_Some (m_heap c !! p)).
  { intros p Hp. rewrite Forall_forall in Hptrs. apply Hdom; [apply Hptrs|]; set_solver. }
  apply NoDup_app in Hnd as (Hnb & Hdb & Hnd). apply NoDup_app in Hnd as (Hnc & Hdc & Hna).
  repeat setoid_rewrite NoDup_cons in Hnb.
  destruct (Hlive rng) as [o1 Ho1]; [set_solver|]. destruct (Hlive ent) as [o2 Ho2]; [set_solver|].
  unfold mbedtls_free_ctx. wp_simpl. rewrite Eca, Erng, Eent.
  eapply wp_crt_free; [done|]. wp_simpl. eapply wp_m_deref; [cbn; rewrite lookup_delete_ne by set_solver; exact Ho1|].
  wp_simpl. eapply wp_m_free; [cbn; rewrite lookup_delete_ne by set_solver; exact Ho2|].
  wp_simpl. eapply wp_m_free; [cbn; rewrite !lookup_delete_ne by set_solver; exact Ho1|].
  wp_simpl. set (base := [ca; ent; rng]) in *.
  match goal with |- wp _ _ ?c3 => change c3 with (c <| m_heap := wipe base (m_heap c) |>) end.
  eapply wp_free_alpn; [apply names_ok_keep; [exact Hn|]|exact Hna|].
  { intros p Hp. rewrite lookup_wipe, decide_False by set_solver. done. }
  match goal with |- wp _ _ ?c4 => change c4 with (c <| m_heap := wipe (alpn_ptrs c names) (wipe base (m_heap c)) |>) end.
  rewrite <- wipe_app, Hk, Hc. clearbody base. apply wp_free_own; cbn -[wipe].
  - intros k Hl. apply last_Some_elem_of in Hl as Hin. rewrite Forall_forall in Hks, Hptrs.
    assert (k < n0) by (apply h0_below; eauto). rewrite lookup_wipe, decide_False, Hh0; [auto|lia|].
    intros Hp. assert (n0 ≤ k) by (apply Hptrs; set_solver). lia.
  - intros p Hl. apply last_Some_elem_of in Hl as Hin. rewrite Forall_forall in Hcs.
    rewrite lookup_wipe, decide_False; [auto|]. set_solver.
  - intros c' ->. by rewrite <- wipe_app, <- app_assoc.
Qed.

(** What is left after it: the caller's objects but for the last key, and the certificates that
    were replaced. *)
Lemma owned_lost keys certs protos base names c h :
  owned keys certs protos base names c →
  h = wipe (base ++ alpn_ptrs c names ++ option_list (last keys) ++ option_list (last certs)) (m_heap c) →
  ∃ lost, h = from_option (λ k, delete k h0) h0 (last keys) ∪ lost ∧ h0 ##ₘ lost ∧
    size lost = pred (length certs) ∧ map_Forall (λ _ o, ∃ x, o = MCrt x) lost.
Proof.
  intros [Hnext Hhigh Hnd Hdom Hptrs Hh0 Hbase Hcs Hc Hks Hk Hn _ _ _] ->.
  rewrite Forall_forall in Hptrs, Hcs. apply NoDup_app in Hnd as (_ & Hdb & Hnd). apply NoDup_app in Hnd as (Hnc & Hdc & _).
  assert (Hkl : ∀ k, last keys = Some k → k < n0).
  { intros k Hl%last_Some_elem_of. rewrite Forall_forall in Hks. apply h0_below. eauto. }
  destruct (last_split certs) as (cs & Ecs & Hlen).
  assert (Hin : ∀ p, p ∈ certs ↔ p ∈ cs ∨ p ∈ option_list (last certs)) by (intros; rewrite Ecs at 1; apply elem_of_app).
  rewrite Ecs in Hnc. apply NoDup_app in Hnc as (Hnc & Hdl & _).
  set (lost := filter (λ x : Z * mobj, x.1 ∈ cs) (m_heap c)).
  assert (Hlost : ∀ p, lost !! p = if decide (p ∈ cs) then m_heap c !! p else None) by apply lookup_filter_keys.
  assert (Hdl0 : dom lost = list_to_set cs).
  { apply set_eq. intros p. rewrite elem_of_dom, elem_of_list_to_set, Hlost. pose proof (@is_Some_None mobj).
    case_decide; [|done]. destruct (Hcs p) as [x Hx]; [by apply Hin; left|]. rewrite Hx. naive_solver. }
  exists lost. split; [|split; [|split]].
  - apply map_eq. intros p. rewrite lookup_union, lookup_wipe, Hlost. destruct (Z.lt_ge_cases p n0) as [Hp|Hp].
    + assert (Hnp : p ∉ base ++ certs ++ alpn_ptrs c names) by (intros Hp'; apply Hptrs in Hp'; lia).
      rewrite (decide_False (P := p ∈ cs)), (right_id None (∪)) by set_solver.
      destruct (last keys) as [k|]; cbn.
      * rewrite lookup_delete. destruct (decide (k = p)) as [->|Hkp]; [by rewrite decide_True by set_solver|].
        rewrite decide_False, Hh0 by set_solver. done.
      * rewrite decide_False, Hh0 by set_solver. done.
    + assert (Hno : from_option (λ k, delete k h0) h0 (last keys) !! p = None).
      { assert (h0 !! p = None) by (apply eq_None_not_Some; intros Hs; apply h0_below in Hs; lia).
        destruct (last keys) as [k|]; cbn; [|done]. rewrite lookup_delete. by case_decide. }
      rewrite Hno, (left_id None (∪)).
      assert (Hnk : p ∉ option_list (last keys)).
      { destruct (last keys) as [k|]; [|set_solver]. cbn. specialize (Hkl k eq_refl). set_unfold. lia. }
      assert (is_Some (m_heap c !! p) ↔ p ∈ base ++ certs ++ alpn_ptrs c names) as Hd by auto.
      rewrite !elem_of_app, Hin in Hd. setoid_rewrite elem_of_app in Hdb. setoid_rewrite Hin in Hdb. setoid_rewrite Hin in Hdc.
      destruct (decide (p ∈ cs)) as [Hpc|Hpc].
      * rewrite decide_False; [done|]. rewrite !elem_of_app. specialize (Hdb p). specialize (Hdc p). specialize (Hdl p). tauto.
      * case_decide as Hw; [done|]. rewrite !elem_of_app in Hw. apply eq_None_not_Some. tauto.
  - apply map_disjoint_spec. intros p x y Hx Hy. assert (p < n0) by (apply h0_below; eauto).
    assert (p ∈ cs) by (apply (elem_of_list_to_set (C := gset Z)); rewrite <- Hdl0; apply elem_of_dom; eauto).
    assert (n0 ≤ p) by (apply Hptrs; rewrite !elem_of_app, Hin; auto). lia.
  - rewrite <- size_dom, Hdl0, size_list_to_set by done. done.
  - intros p o. rewrite Hlost. case_decide; [|done]. destruct (Hcs p) as [x Hx]; [by apply Hin; left|]. rewrite Hx.
    intros [= <-]. eauto.
Qed.
End Owned.

End Ctx.

(** ** A concrete library

    Certificates are texts that start with a dash; the only file has the name "f". *)
Module ToyMbed.
#[export] Instance toy_x509 : MbedX509 := {|
  crt := list (list Z);
  crt_init := [];
  x509_crt_parse c b := match b with 45 :: _ => (0, c ++ [b]) | _ => (-8576, c) end;
  x509_crt_parse_file c b := if decide (b = bs "f") then (0, c ++ [bs "-file"]) else (-10624, c);
  ssl_conf_own_cert _ _ := 0;
|}.
Definition heap0 : gmap Z mobj := <[1 := MKey true]> (<[2 := MKey true]> ∅).
Definition ops0 : list ctx_op :=
  [SetCert (bs "-one"); SetKey 1; SetAlpn [bs "h2"]; SetKey 2; SetCert (bs "f"); SetAlpn [bs "h2"; bs "http/1.1"]].

Lemma heap0_below : ∀ p, is_Some (heap0 !! p) → p < 3.
Proof. intros p. unfold heap0. rewrite !lookup_insert_is_Some, lookup_empty. intros [<-|[_ [<-|[_ [? ?]]]]]; [lia|lia|done]. Defined.

Definition ctx0 : mbedtls_context := match new_mbedtls_ctx (λ _, false) heap0 3 None with Ret c => c | Fault _ => mkmctx ∅ 0 None None None None [] None None None None end.

(** A certificate that cannot be read, before any key was set: the missing key is freed. *)
Lemma unreadable_cert_without_key : mbedtls_set_own_cert (bs "no") ctx0 = Fault NullDeref.
Proof. vm_compute. reflexivity. Qed.
(** The same with a key in use: the caller's key is freed while the configuration refers to it. *)
Lemma unreadable_cert_frees_key_in_use : ∃ c,
  (_ ← run_ctx_ops [SetKey 1; SetCert (bs "-one")]; mbedtls_set_own_cert (bs "no")) ctx0 = Ret (-10624, c) ∧
  (7, 1) ∈ conf_own c ∧ m_heap c !! 1 = None.
Proof. eexists. split; [vm_compute; reflexivity|]. split; [apply list_elem_of_here|]. vm_compute. reflexivity. Qed.
(** The key structure made for a token has no functions to free it by. *)
Lemma token_key_cannot_be_freed :
  (_ ← mbedtls_set_own_cert_p11 0 (bs "-one"); mbedtls_free_ctx) ctx0 = Fault NullDeref.
Proof. vm_compute. reflexivity. Qed.
(** An empty certificate is looked at before its start; one without a NUL is read past its end. *)
Lemma load_cert_reads_outside :
  mbedtls_load_cert None [] ctx0 = Fault OutOfBounds ∧ mbedtls_load_cert None (bs "-one") ctx0 = Fault OutOfBounds.
Proof. split; vm_compute; reflexivity. Qed.
End ToyMbed.
