(* ===== verification/EngineMem.v ===== *)
(** * What an mbedTLS engine owns (src/mbedtls/engine.c)

    The engine as structures in memory, from [new_mbedtls_engine] to [mbedtls_free].  It owns the
    library's connection, a saved
    session and two BIOs, in which the data waits that was received and is to be sent; [MbedEngine]
    models what it does with them.  The objects of the library are structures of which only
    what this code relies on is known: that they must be alive when they are passed on. *)
From S2P Require Import Prelude CLib CMem Queue Bio BioMem.
From stdpp Require Import base list gmap numbers strings.
From Stdlib Require Import ZArith Lia.
Local Open Scope string_scope.
Local Open Scope list_scope.
Open Scope Z_scope.
Set Warnings "-clear-no-such-hyp".

(** [calloc] of the structures. *)
Definition tls_engine_zero : obj := OStruct (list_to_map [(["api"], NULL); (["engine"], NULL)]).
Definition mbedtls_engine_zero : obj := OStruct (list_to_map
  [(["ssl"], NULL); (["session"], NULL); (["in"], NULL); (["out"], NULL); (["error"], INT 0); (["ip_len"], INT 0)]).
Definition lib_zero : obj := OStruct (list_to_map [(["p_bio"], NULL)]).

Definition load_fld (v : cval) (f : string) : M mem cval := a ← fld v [f]; load a.
Definition store_fld (v : cval) (f : string) (w : cval) : M mem unit := a ← fld v [f]; store a w.

(** A library function that is given [v]: [lib_use] for one that needs an object, [lib_clear] for
    one that frees what is inside of it and accepts NULL. *)
Definition lib_use (v : cval) : M mem unit := λ m,
  match v with
  | PTR p => match objs m !! p with Some _ => Ret (tt, m) | None => Fault UseAfterFree end
  | NULL => Fault NullDeref
  | _ => Fault BadCast
  end.
Definition lib_clear (v : cval) : M mem unit := if decide (v = NULL) then mret tt else lib_use v.

(** ** The mbedTLS engine *)

(** The three structures: [engine], [mbed_eng] and [ssl]; and the whole, where [api] is the address of
    the static table of functions. *)
Definition mem_new_base : M mem (cval * cval * cval) :=
  ssl ← alloc lib_zero;
  _ ← lib_use ssl;
  engine ← alloc tls_engine_zero;
  mbed_eng ← alloc mbedtls_engine_zero;
  _ ← store_fld engine "engine" mbed_eng;
  _ ← store_fld mbed_eng "ssl" ssl;
  mret (engine, mbed_eng, ssl).
Definition mem_new_mbedtls_engine (api : cval) : M mem cval :=
  '(engine, mbed_eng, ssl) ← mem_new_base;
  i ← mem_BIO_new true;
  _ ← store_fld mbed_eng "in" i;
  o ← mem_BIO_new true;
  _ ← store_fld mbed_eng "out" o;
  _ ← store_fld ssl "p_bio" mbed_eng;
  _ ← store_fld engine "api" api;
  mret engine.

(** [got] is whether [mbedtls_ssl_get_session] has one to give. *)
Definition mem_mbedtls_reset (got : bool) (engine : cval) : M mem unit :=
  e ← load_fld engine "engine";
  s ← load_fld e "session";
  _ ← (if decide (s = NULL) then p ← alloc lib_zero; store_fld e "session" p else mret tt);
  ssl ← load_fld e "ssl";
  s ← load_fld e "session";
  _ ← lib_use ssl;
  _ ← lib_use s;
  _ ← (if (got : bool) then mret tt
       else
         s ← load_fld e "session"; _ ← lib_clear s;
         s ← load_fld e "session"; _ ← free s;
         store_fld e "session" NULL);
  lib_use ssl.

(** The session in [mbedtls_continue_hs]: offered to the library at the start of a handshake, which
    [hello] says it is; what is inside of it is then freed. *)
Definition mem_use_session (hello : bool) (engine : cval) : M mem unit :=
  e ← load_fld engine "engine";
  ssl ← load_fld e "ssl"; _ ← lib_use ssl;
  s ← load_fld e "session";
  if decide (hello = true ∧ s ≠ NULL) then _ ← lib_use ssl; _ ← lib_use s; lib_clear s else mret tt.

Definition mem_mbedtls_free (fuel : nat) (engine : cval) : M mem unit :=
  e ← load_fld engine "engine";
  i ← load_fld e "in"; _ ← mem_BIO_free fuel i;
  o ← load_fld e "out"; _ ← mem_BIO_free fuel o;
  ssl ← load_fld e "ssl"; _ ← lib_clear ssl;
  _ ← (if decide (ssl ≠ NULL) then _ ← free ssl; store_fld e "ssl" NULL else mret tt);
  ssl ← load_fld e "ssl"; _ ← free ssl;
  s ← load_fld e "session";
  _ ← (if decide (s ≠ NULL) then _ ← lib_clear s; free s else mret tt);
  _ ← free e;
  free engine.

(** What the operations do to the memory: they put into one queue and read from the other, themselves
    or through the functions the library calls back; they use the session and renew it. *)
Inductive eng_op := EIn (o : fifo_op) | EOut (o : fifo_op) | EUse (hello : bool) | EReset (got : bool).
Definition run_eng_op (fuel : nat) (engine : cval) (o : eng_op) : M mem unit :=
  match o with
  | EIn o => e ← load_fld engine "engine"; q ← load_fld e "in"; _ ← mem_run fuel q [o]; mret tt
  | EOut o => e ← load_fld engine "engine"; q ← load_fld e "out"; _ ← mem_run fuel q [o]; mret tt
  | EUse hello => mem_use_session hello engine
  | EReset got => mem_mbedtls_reset got engine
  end.
Fixpoint run_eng_ops (fuel : nat) (engine : cval) (ops : list eng_op) : M mem unit :=
  match ops with
  | [] => mret tt
  | o :: ops => _ ← run_eng_op fuel engine o; run_eng_ops fuel engine ops
  end.

(** ** The representation *)

Record eng := mkeng {
  g_top : ptr; g_eng : ptr; g_ssl : ptr; g_session : option ptr;
  g_in : ptr; g_ins : list mnode; g_out : ptr; g_outs : list mnode
}.
Definition g_base (g : eng) : list ptr := [g_top g; g_eng g; g_ssl g].
Definition g_inq (g : eng) : list ptr := g_in g :: msgs_owned (g_ins g).
Definition g_outq (g : eng) : list ptr := g_out g :: msgs_owned (g_outs g).
Definition g_owned (g : eng) : list ptr := g_base g ++ option_list (g_session g) ++ g_inq g ++ g_outq g.
Definition opt_ptr (p : option ptr) : cval := match p with Some p => PTR p | None => NULL end.

(** All but the pointer to the session. *)
Record eng_core (g : eng) (bi bo : tlsuv_BIO) (m : mem) : Prop := {
  er_engine : cell m (g_top g, ["engine"]) = Some (PTR (g_eng g));
  er_ssl : cell m (g_eng g, ["ssl"]) = Some (PTR (g_ssl g));
  er_in : cell m (g_eng g, ["in"]) = Some (PTR (g_in g));
  er_out : cell m (g_eng g, ["out"]) = Some (PTR (g_out g));
  er_inq : bio_rep (g_in g) (g_ins g) bi m;
  er_outq : bio_rep (g_out g) (g_outs g) bo m;
  er_wf : bio_wf bi ∧ bio_wf bo;
  er_live p : p ∈ g_owned g → is_Some (objs m !! p);
  er_sep : NoDup (g_owned g)
}.
Record eng_rep (g : eng) (bi bo : tlsuv_BIO) (m : mem) : Prop := {
  er_core : eng_core g bi bo m;
  er_session : cell m (g_eng g, ["session"]) = Some (opt_ptr (g_session g))
}.

Section lemmas.
Implicit Types (m : mem) (g : eng) (p : ptr).

Lemma wp_load_fld m p f v (Q : cval → mem → Prop) :
  cell m (p, [f]) = Some v → v ≠ UNDEF → Q v m → wp (load_fld (PTR p) f) Q m.
Proof. intros. unfold load_fld. wp_simpl. by eapply wp_load. Qed.
Lemma wp_store_fld m p f v w (Q : unit → mem → Prop) :
  cell m (p, [f]) = Some w → Q tt (set_cell m (p, [f]) v) → wp (store_fld (PTR p) f v) Q m.
Proof. intros. unfold store_fld. wp_simpl. by eapply wp_store. Qed.
Lemma wp_lib_use m p (Q : unit → mem → Prop) : is_Some (objs m !! p) → Q tt m → wp (lib_use (PTR p)) Q m.
Proof. intros [o E] HQ. unfold wp, lib_use. by rewrite E. Qed.
Lemma wp_lib_clear m p (Q : unit → mem → Prop) : is_Some (objs m !! p) → Q tt m → wp (lib_clear (PTR p)) Q m.
Proof. intros. unfold lib_clear. rewrite decide_False by done. by apply wp_lib_use. Qed.

(** The parts of an engine, the one that is used last. *)
Definition but_in g : list ptr := g_base g ++ option_list (g_session g) ++ g_outq g.
Definition but_out g : list ptr := g_base g ++ option_list (g_session g) ++ g_inq g.
Definition but_session g : list ptr := g_base g ++ g_inq g ++ g_outq g.
Lemma owned_in g : g_owned g ≡ₚ but_in g ++ g_inq g.
Proof. unfold g_owned, but_in. solve_Permutation. Qed.
Lemma owned_out g : g_owned g ≡ₚ but_out g ++ g_outq g.
Proof. unfold g_owned, but_out. solve_Permutation. Qed.
Lemma owned_session g : g_owned g ≡ₚ but_session g ++ option_list (g_session g).
Proof. unfold g_owned, but_session. solve_Permutation. Qed.

(** A change of one part: the list of objects is the engine's up to order. *)
Lemma part_step g (r o n all : list ptr) m m' : g_owned g ≡ₚ r ++ o → all ≡ₚ r ++ n →
  NoDup (g_owned g) → (∀ p, p ∈ g_owned g → is_Some (objs m !! p)) → NoDup n → heap_step (λ _, False) o n m m' →
  NoDup all ∧ heap_step (λ _, False) (g_owned g) all m m' ∧ (∀ p, p ∈ all → is_Some (objs m' !! p)) ∧
  (∀ b, b.1 ∈ r → cell m' b = cell m b) ∧ (∀ p, p ∈ r → buf_at m' p = buf_at m p).
Proof.
  intros Ho Ha Hnd Hl Hn S. setoid_rewrite Ha. setoid_rewrite Ho. setoid_rewrite Ho in Hl. rewrite Ho in Hnd.
  by apply step_part.
Qed.

Lemma eng_in_step g bi bo m ns' bi' m' : eng_rep g bi bo m → bio_wf bi' → bio_rep (g_in g) ns' bi' m' →
  bio_step (g_in g) (g_ins g) ns' m m' →
  let g' := mkeng (g_top g) (g_eng g) (g_ssl g) (g_session g) (g_in g) ns' (g_out g) (g_outs g) in
  eng_rep g' bi' bo m' ∧ heap_step (λ _, False) (g_owned g) (g_owned g') m m'.
Proof.
  intros [[A1 A2 A4 A5 Bi Bo [Wi Wo] Hl Sep] A3] W R S g'.
  destruct (part_step g _ _ _ (g_owned g') _ _ (owned_in g) (owned_in g') Sep Hl (br_sep _ _ _ _ R) S) as (N & S' & Hl' & Hc & Hb).
  split; [|done]. split; [split|]; cbn [g' g_top g_eng g_ssl g_session g_in g_ins g_out g_outs]; try done;
    try (rewrite Hc by (unfold but_in; cbn; set_solver); done).
  eapply bio_frame; [..|exact Bo]; [intros; apply Hc|intros; apply Hb|by eapply br_ok];
    unfold but_in, g_outq; rewrite !elem_of_app; tauto.
Qed.
Lemma eng_out_step g bi bo m ns' bo' m' : eng_rep g bi bo m → bio_wf bo' → bio_rep (g_out g) ns' bo' m' →
  bio_step (g_out g) (g_outs g) ns' m m' →
  let g' := mkeng (g_top g) (g_eng g) (g_ssl g) (g_session g) (g_in g) (g_ins g) (g_out g) ns' in
  eng_rep g' bi bo' m' ∧ heap_step (λ _, False) (g_owned g) (g_owned g') m m'.
Proof.
  intros [[A1 A2 A4 A5 Bi Bo [Wi Wo] Hl Sep] A3] W R S g'.
  destruct (part_step g _ _ _ (g_owned g') _ _ (owned_out g) (owned_out g') Sep Hl (br_sep _ _ _ _ R) S) as (N & S' & Hl' & Hc & Hb).
  split; [|done]. split; [split|]; cbn [g' g_top g_eng g_ssl g_session g_in g_ins g_out g_outs]; try done;
    try (rewrite Hc by (unfold but_out; cbn; set_solver); done).
  eapply bio_frame; [..|exact Bi]; [intros; apply Hc|intros; apply Hb|by eapply br_ok];
    unfold but_out, g_inq; rewrite !elem_of_app; tauto.
Qed.

(** ** The session *)

Definition with_session g (s : option ptr) : eng :=
  mkeng (g_top g) (g_eng g) (g_ssl g) s (g_in g) (g_ins g) (g_out g) (g_outs g).
Lemma core_session g s bi bo m m' : eng_core g bi bo m →
  heap_step (λ _, False) (option_list (g_session g)) (option_list s) m m' → mem_ok m' →
  eng_core (with_session g s) bi bo m' ∧ heap_step (λ _, False) (g_owned g) (g_owned (with_session g s)) m m' ∧
  cell m' (g_eng g, ["session"]) = cell m (g_eng g, ["session"]).
Proof.
  intros [A1 A2 A4 A5 Bi Bo W Hl Sep] S Ok. set (g' := with_session g s).
  destruct (part_step g _ _ _ (g_owned g') m m' (owned_session g) (owned_session g') Sep Hl) as (N & S' & Hl' & Hc & Hb);
    [by destruct s; [apply NoDup_singleton|constructor]|exact S|].
  split_and!; [|done|apply Hc; unfold but_session; cbn; set_solver].
  split; cbn [g' with_session g_top g_eng g_ssl g_session g_in g_ins g_out g_outs]; try done;
    try (rewrite Hc by (unfold but_session; cbn; set_solver); done);
    (eapply bio_frame; [..|eassumption]; [intros; apply Hc|intros; apply Hb|done];
     unfold but_session, g_inq, g_outq; rewrite !elem_of_app; tauto).
Qed.
Lemma core_set_session g bi bo v w m : eng_core g bi bo m → cell m (g_eng g, ["session"]) = Some w →
  eng_core g bi bo (set_cell m (g_eng g, ["session"]) v) ∧
  heap_step (λ _, False) (g_owned g) (g_owned g) m (set_cell m (g_eng g, ["session"]) v).
Proof.
  intros [A1 A2 A4 A5 Bi Bo W Hl Sep] E.
  assert ((g_eng g ∉ g_inq g) ∧ (g_eng g ∉ g_outq g)) as [Hi Ho].
  { unfold g_owned, g_base in Sep. cbn [app] in Sep. apply NoDup_cons in Sep as [_ [Sep _]%NoDup_cons].
    rewrite elem_of_cons, !elem_of_app in Sep. tauto. }
  split; [|by apply step_set; [unfold g_owned; cbn; set_solver|]].
  split; rewrite ?cell_set_ne by congruence; try done.
  - eapply bio_frame; [..|exact Bi]; [|intros; by apply buf_at_set|by eapply mem_ok_set, br_ok].
    intros c Hc. apply cell_set_ne. intros <-. done.
  - eapply bio_frame; [..|exact Bo]; [|intros; by apply buf_at_set|by eapply mem_ok_set, br_ok].
    intros c Hc. apply cell_set_ne. intros <-. done.
  - intros p Hp. by apply live_set, Hl.
Qed.
Lemma eng_new_session g bi bo m : eng_rep g bi bo m → g_session g = None →
  wp (p ← alloc lib_zero; store_fld (PTR (g_eng g)) "session" p) (λ _ m', ∃ s,
    eng_rep (with_session g (Some s)) bi bo m' ∧ heap_step (λ _, False) (g_owned g) (g_owned (with_session g (Some s))) m m') m.
Proof.
  intros [C E] Hn. pose proof (br_ok _ _ _ _ (er_inq _ _ _ _ C)) as Ok. wp_simpl. apply wp_alloc.
  destruct (core_session g (Some (brk m)) bi bo m (mkmem (<[brk m := lib_zero]> (objs m)) (Pos.succ (brk m))) C) as (C1 & S1 & E1); [rewrite Hn; cbn; by apply step_alloc; [|intros ? ?%elem_of_nil]|by apply mem_ok_alloc|].
  rewrite E in E1. eapply wp_store_fld; [exact E1|]. destruct (core_set_session _ _ _ (PTR (brk m)) _ _ C1 E1) as [C2 S2].
  exists (brk m). split; [split; [done|by eapply cell_set_eq]|by eapply step_trans].
Qed.
Lemma eng_drop_session g s bi bo m : eng_rep g bi bo m → g_session g = Some s →
  wp (_ ← free (PTR s); store_fld (PTR (g_eng g)) "session" NULL) (λ _ m',
    eng_rep (with_session g None) bi bo m' ∧ heap_step (λ _, False) (g_owned g) (g_owned (with_session g None)) m m') m.
Proof.
  intros [C E] Hs. pose proof (br_ok _ _ _ _ (er_inq _ _ _ _ C)) as Ok.
  assert (is_Some (objs m !! s)) as Hl by (apply (er_live _ _ _ _ C); unfold g_owned; rewrite Hs; set_solver).
  wp_simpl. apply wp_free; [done|].
  destruct (core_session g None bi bo m (mkmem (delete s (objs m)) (brk m)) C) as (C1 & S1 & E1);
    [rewrite Hs; cbn; by apply step_free_head; [by intros ?%elem_of_nil|intros ? ->%list_elem_of_singleton]|by apply mem_ok_free|].
  rewrite E in E1. wp_simpl. eapply wp_store_fld; [exact E1|]. destruct (core_set_session _ _ _ NULL _ _ C1 E1) as [C2 S2].
  split; [split; [done|by eapply cell_set_eq]|by eapply step_trans].
Qed.

(** ** The operations *)

Definition waiting g : nat := (length (g_ins g) + length (g_outs g))%nat.
Definition eng_op_ok (o : eng_op) : Prop := match o with EIn o | EOut o => fifo_op_ok o | _ => True end.

Lemma with_session_id g : with_session g (g_session g) = g.
Proof. by destruct g. Qed.
Lemma eng_step_refl g bi bo m : eng_rep g bi bo m → heap_step (λ _, False) (g_owned g) (g_owned g) m m.
Proof.
  intros [C _]. eapply (step_touches _ _ []); [by intros ? ?%elem_of_nil| |apply touches_refl]. apply (er_live _ _ _ _ C).
Qed.

(** An engine with a session that is kept or dropped. *)
Lemma reset_tail_spec got g s bi bo m : eng_rep g bi bo m → g_session g = Some s →
  wp (ssl ← load_fld (PTR (g_eng g)) "ssl"; s ← load_fld (PTR (g_eng g)) "session"; _ ← lib_use ssl; _ ← lib_use s;
      _ ← (if (got : bool) then mret tt
           else s ← load_fld (PTR (g_eng g)) "session"; _ ← lib_clear s;
                s ← load_fld (PTR (g_eng g)) "session"; _ ← free s; store_fld (PTR (g_eng g)) "session" NULL);
      lib_use ssl) (λ _ m', ∃ g', g_top g' = g_top g ∧ waiting g' = waiting g ∧ eng_rep g' bi bo m' ∧
    heap_step (λ _, False) (g_owned g) (g_owned g') m m') m.
Proof.
  intros R Hs. pose proof R as [C E]. rewrite Hs in E. pose proof (er_live _ _ _ _ C) as Hl.
  assert (is_Some (objs m !! g_ssl g)) as H1 by (apply Hl; unfold g_owned; cbn; set_solver).
  assert (is_Some (objs m !! s)) as H2 by (apply Hl; unfold g_owned; rewrite Hs; set_solver).
  wp_simpl. eapply wp_load_fld; [apply C|done|]. wp_simpl. eapply wp_load_fld; [exact E|done|]. wp_simpl.
  apply wp_lib_use; [done|]. wp_simpl. apply wp_lib_use; [done|]. wp_simpl. destruct got; wp_simpl.
  - apply wp_lib_use; [done|]. exists g. split_and!; try done. by eapply eng_step_refl.
  - eapply wp_load_fld; [exact E|done|]. wp_simpl. apply wp_lib_clear; [done|]. wp_simpl.
    eapply wp_load_fld; [exact E|done|]. cbn [opt_ptr]. rewrite <-wp_bind, wp_bind.
    eapply wp_mono; [by eapply eng_drop_session|]. intros _ m' [R' S']. apply wp_lib_use.
    + apply (er_live _ _ _ _ (er_core _ _ _ _ R')). unfold g_owned. cbn. set_solver.
    + by exists (with_session g None).
Qed.
Lemma reset_spec got g bi bo m : eng_rep g bi bo m →
  wp (mem_mbedtls_reset got (PTR (g_top g))) (λ _ m', ∃ g', g_top g' = g_top g ∧ waiting g' = waiting g ∧
    eng_rep g' bi bo m' ∧ heap_step (λ _, False) (g_owned g) (g_owned g') m m') m.
Proof.
  intros R. pose proof R as [C E]. unfold mem_mbedtls_reset. rewrite wp_bind.
  eapply wp_load_fld; [apply C|done|]. rewrite wp_bind. eapply wp_load_fld; [exact E|by destruct (g_session g)|].
  destruct (g_session g) as [s|] eqn:Hs; cbn [opt_ptr].
  - rewrite decide_False by done. rewrite wp_bind, wp_ret. by eapply reset_tail_spec.
  - rewrite decide_True by done. rewrite wp_bind. eapply wp_mono; [by eapply eng_new_session|].
    intros _ m1 (s & R1 & S1). eapply wp_mono; [exact (reset_tail_spec got _ s _ _ _ R1 eq_refl)|].
    intros _ m2 (g' & H1 & H2 & R2 & S2). exists g'. split_and!; try done. by eapply step_trans.
Qed.

Lemma use_session_spec hello g bi bo m : eng_rep g bi bo m → mem_use_session hello (PTR (g_top g)) m = Ret (tt, m).
Proof.
  intros [C E]. cut (wp (mem_use_session hello (PTR (g_top g))) (λ _ m', m' = m) m);
    [by intros ([] & m' & Hr & ->)%wp_run|].
  pose proof (er_live _ _ _ _ C) as Hl. assert (is_Some (objs m !! g_ssl g)) as H1 by (apply Hl; unfold g_owned; cbn; set_solver).
  unfold mem_use_session. wp_simpl. eapply wp_load_fld; [apply C|done|]. wp_simpl. eapply wp_load_fld; [apply C|done|]. wp_simpl.
  apply wp_lib_use; [done|]. wp_simpl. eapply wp_load_fld; [exact E|by destruct (g_session g)|]. case_decide as D; [|done].
  destruct (g_session g) as [s|] eqn:Hs; [|by destruct D]. cbn [opt_ptr].
  assert (is_Some (objs m !! s)) as H2 by (apply Hl; unfold g_owned; rewrite Hs; set_solver).
  wp_simpl. apply wp_lib_use; [done|]. wp_simpl. apply wp_lib_use; [done|]. by apply wp_lib_clear.
Qed.
Lemma eng_op_spec fuel o g bi bo m : eng_rep g bi bo m → eng_op_ok o → (S (waiting g) < fuel)%nat →
  wp (run_eng_op fuel (PTR (g_top g)) o) (λ _ m', ∃ g' bi' bo', g_top g' = g_top g ∧ (waiting g' ≤ S (waiting g))%nat ∧
    eng_rep g' bi' bo' m' ∧ heap_step (λ _, False) (g_owned g) (g_owned g') m m') m.
Proof.
  intros R Ho Hf. pose proof R as [C E]. pose proof (er_wf _ _ _ _ C) as [Wi Wo]. unfold waiting in *.
  destruct o as [o|o|hello|got]; cbn [run_eng_op eng_op_ok] in *.
  - wp_simpl. eapply wp_load_fld; [apply C|done|]. wp_simpl. eapply wp_load_fld; [apply C|done|].
    wp_call (eapply mem_run_spec; [by constructor|apply C|done|cbn; lia]).
    intros _ m' (ns' & b' & R' & W' & _ & L & S). wp_simpl. destruct (eng_in_step _ _ _ _ _ _ _ R W' R' S) as [R2 S2].
    eexists _, b', bo. split_and!; [| |exact R2|exact S2]; cbn in *; [done|lia].
  - wp_simpl. eapply wp_load_fld; [apply C|done|]. wp_simpl. eapply wp_load_fld; [apply C|done|].
    wp_call (eapply mem_run_spec; [by constructor|apply C|done|cbn; lia]).
    intros _ m' (ns' & b' & R' & W' & _ & L & S). wp_simpl. destruct (eng_out_step _ _ _ _ _ _ _ R W' R' S) as [R2 S2].
    eexists _, bi, b'. split_and!; [| |exact R2|exact S2]; cbn in *; [done|lia].
  - unfold wp. erewrite use_session_spec by done. exists g, bi, bo. split_and!; try done; [lia|]. by eapply eng_step_refl.
  - eapply wp_mono; [by eapply reset_spec|]. intros _ m' (g' & H1 & H2 & R' & S'). unfold waiting in H2.
    exists g', bi, bo. split_and!; try done. lia.
Qed.
Lemma eng_ops_spec fuel ops : Forall eng_op_ok ops → ∀ g bi bo m, eng_rep g bi bo m → (waiting g + length ops < fuel)%nat →
  wp (run_eng_ops fuel (PTR (g_top g)) ops) (λ _ m', ∃ g' bi' bo', g_top g' = g_top g ∧ (waiting g' < fuel)%nat ∧
    eng_rep g' bi' bo' m' ∧ heap_step (λ _, False) (g_owned g) (g_owned g') m m') m.
Proof.
  induction 1 as [|o ops Ho Hops IH]; intros g bi bo m R Hf; cbn [run_eng_ops length] in *.
  - wp_simpl. exists g, bi, bo. split_and!; try done; [lia|]. by eapply eng_step_refl.
  - wp_call (eapply eng_op_spec; [done..|lia]). intros _ m1 (g1 & bi1 & bo1 & Ht & Hw & R1 & S1).
    rewrite <-Ht. eapply wp_mono; [eapply IH; [exact R1|lia]|]. intros _ m2 (g2 & bi2 & bo2 & Ht2 & Hw2 & R2 & S2).
    exists g2, bi2, bo2. split_and!; try done. by eapply step_trans.
Qed.

(** ** Freeing *)

(** What is left of a structure when the part [o] has been freed. *)
Record left_of (r o : list ptr) m m' : Prop := {
  lo_step : heap_step (λ _, False) (r ++ o) r m m';
  lo_sep : NoDup r;
  lo_live p : p ∈ r → is_Some (objs m' !! p);
  lo_cell b : b.1 ∈ r → cell m' b = cell m b;
  lo_buf p : p ∈ r → buf_at m' p = buf_at m p
}.
Lemma drop_part (r o : list ptr) m m' : heap_step (λ _, False) o [] m m' → NoDup (r ++ o) →
  (∀ p, p ∈ r ++ o → is_Some (objs m !! p)) → left_of r o m m'.
Proof.
  intros S N Hl. destruct (step_part _ _ _ _ _ S N (NoDup_nil_2) Hl) as (A & B & C & D & E).
  rewrite app_nil_r in *. by split.
Qed.
Lemma free_part (r : list ptr) x m (Q : unit → mem → Prop) : NoDup (r ++ [x]) →
  (∀ p, p ∈ r ++ [x] → is_Some (objs m !! p)) → (∀ m', (mem_ok m → mem_ok m') → left_of r [x] m m' → Q tt m') → wp (free (PTR x)) Q m.
Proof.
  intros N Hl HQ. assert (is_Some (objs m !! x)) as Hx by (apply Hl; set_solver).
  apply wp_free; [done|]. apply HQ; [apply mem_ok_free|]. apply drop_part; [|done..].
  apply step_free_head; [by intros ?%elem_of_nil|by intros ? ->%list_elem_of_singleton].
Qed.

(** The end of [mbedtls_free], when the BIOs and the connection are gone. *)
Lemma free_rest_spec top e s m : NoDup ([top; e] ++ option_list s) →
  (∀ p, p ∈ [top; e] ++ option_list s → is_Some (objs m !! p)) → cell m (e, ["session"]) = Some (opt_ptr s) →
  wp (s ← load_fld (PTR e) "session";
      _ ← (if decide (s ≠ NULL) then _ ← lib_clear s; free s else mret tt);
      _ ← free (PTR e); free (PTR top)) (λ _ m', heap_step (λ _, False) ([top; e] ++ option_list s) [] m m') m.
Proof.
  intros N Hl E.
  assert (∀ m1, NoDup [top; e] → (∀ p, p ∈ [top; e] → is_Some (objs m1 !! p)) →
    wp (_ ← free (PTR e); free (PTR top)) (λ _ m', heap_step (λ _, False) [top; e] [] m1 m') m1) as Hend.
  { intros m1 N1 Hl1. wp_simpl. apply (free_part [top]); [done..|]. intros m2 _ L2.
    apply (free_part []); [exact (lo_sep _ _ _ _ L2)|exact (lo_live _ _ _ _ L2)|]. intros m3 _ L3.
    eapply step_trans; [exact (lo_step _ _ _ _ L2)|exact (lo_step _ _ _ _ L3)]. }
  rewrite wp_bind. eapply wp_load_fld; [exact E|by destruct s|]. rewrite wp_bind. destruct s as [s|]; cbn [opt_ptr option_list] in *.
  - rewrite decide_True by done. wp_simpl. apply wp_lib_clear; [apply Hl; set_solver|]. apply (free_part [top; e]); [done..|].
    intros m1 _ L1. eapply wp_mono; [apply Hend; apply L1|]. intros [] m2 S2.
    eapply step_trans; [exact (lo_step _ _ _ _ L1)|done].
  - rewrite decide_False by tauto. rewrite wp_ret. apply Hend; [done|]. intros p Hp. apply Hl. by rewrite app_nil_r.
Qed.

(** The same with the connection. *)
Lemma free_conn_spec top e c s m : NoDup ([top; e; c] ++ option_list s) →
  (∀ p, p ∈ [top; e; c] ++ option_list s → is_Some (objs m !! p)) →
  cell m (e, ["ssl"]) = Some (PTR c) → cell m (e, ["session"]) = Some (opt_ptr s) →
  wp (ssl ← load_fld (PTR e) "ssl"; _ ← lib_clear ssl;
      _ ← (if decide (ssl ≠ NULL) then _ ← free ssl; store_fld (PTR e) "ssl" NULL else mret tt);
      ssl ← load_fld (PTR e) "ssl"; _ ← free ssl;
      s ← load_fld (PTR e) "session";
      _ ← (if decide (s ≠ NULL) then _ ← lib_clear s; free s else mret tt);
      _ ← free (PTR e); free (PTR top))
    (λ _ m', heap_step (λ _, False) ([top; e; c] ++ option_list s) [] m m') m.
Proof.
  intros N Hl A B. assert ([top; e; c] ++ option_list s ≡ₚ ([top; e] ++ option_list s) ++ [c]) as Hr by solve_Permutation.
  rewrite Hr in N. setoid_rewrite Hr in Hl. rewrite wp_bind. eapply wp_load_fld; [exact A|done|]. rewrite wp_bind.
  apply wp_lib_clear; [apply Hl; set_solver|]. rewrite wp_bind, decide_True, wp_bind by done.
  apply (free_part _ _ _ _ N Hl). intros m1 _ [T1 N1 L1 C1 D1].
  rewrite <-(C1 (e, ["ssl"])) in A by (cbn; set_solver). rewrite <-(C1 (e, ["session"])) in B by (cbn; set_solver).
  eapply wp_store_fld; [exact A|]. set (m2 := set_cell _ _ _).
  assert (heap_step (λ _, False) ([top; e] ++ option_list s) ([top; e] ++ option_list s) m1 m2) as T2
    by (apply step_set; [cbn; set_solver|done]).
  rewrite wp_bind. eapply wp_load_fld; [by eapply cell_set_eq|done|]. rewrite wp_bind. unfold wp at 1. cbn [free].
  eapply wp_mono; [apply (free_rest_spec top e s)|].
  - done.
  - intros p Hp. by apply live_set, L1.
  - unfold m2. by rewrite cell_set_ne.
  - intros [] m3 T3. rewrite Hr. eapply step_trans; [exact T1|]. by eapply step_trans.
Qed.

Lemma mbedtls_free_spec fuel g bi bo m : eng_rep g bi bo m → (waiting g ≤ fuel)%nat →
  wp (mem_mbedtls_free fuel (PTR (g_top g))) (λ _ m', heap_step (λ _, False) (g_owned g) [] m m') m.
Proof.
  intros [[A1 A2 A4 A5 Bi Bo W Hl Sep] E] Hf. unfold waiting in Hf. unfold mem_mbedtls_free. rewrite wp_bind.
  eapply wp_load_fld; [exact A1|done|]. rewrite wp_bind. eapply wp_load_fld; [exact A4|done|].
  setoid_rewrite owned_in in Hl. rewrite owned_in in Sep.
  wp_call (eapply bio_free_spec; [exact Bi|lia]). intros _ m1 [Ok1 S1].
  pose proof (drop_part (but_in g) _ _ _ S1 Sep Hl) as [T1 N1 L1 C1 D1].
  rewrite wp_bind. eapply wp_load_fld; [rewrite C1 by (unfold but_in; cbn; set_solver); exact A5|done|].
  set (r := g_base g ++ option_list (g_session g)).
  assert (but_in g ≡ₚ r ++ g_outq g) as Hr by (unfold but_in, r; solve_Permutation).
  wp_call (eapply (bio_free_spec _ _ (g_outs g) bo)).
  { eapply bio_frame; [..|exact Bo]; [intros; apply C1|intros; apply D1|done]; rewrite Hr, elem_of_app; by right. }
  { lia. }
  intros _ m2 [Ok2 S2]. rewrite Hr in N1. setoid_rewrite Hr in L1.
  pose proof (drop_part r _ _ _ S2 N1 L1) as [T2 N2 L2 C2 D2].
  assert (∀ f, cell m2 (g_eng g, f) = cell m (g_eng g, f)) as Hc.
  { intros f. rewrite C2 by (unfold r; cbn; set_solver). apply C1. rewrite Hr. unfold r. cbn. set_solver. }
  eapply wp_mono; [apply (free_conn_spec (g_top g) (g_eng g) (g_ssl g) (g_session g)); [done..|by rewrite Hc|by rewrite Hc]|].
  intros [] m3 S3. rewrite owned_in. eapply step_trans; [exact T1|]. rewrite Hr. by eapply step_trans.
Qed.

(** ** Making an engine *)

(** The structures of an engine before its BIOs; [i] and [o] are the pointers to them. *)
Record base_rep (top e c : ptr) (i o : cval) m : Prop := {
  ba_engine : cell m (top, ["engine"]) = Some (PTR e);
  ba_api : is_Some (cell m (top, ["api"]));
  ba_ssl : cell m (e, ["ssl"]) = Some (PTR c);
  ba_session : cell m (e, ["session"]) = Some NULL;
  ba_in : cell m (e, ["in"]) = Some i;
  ba_out : cell m (e, ["out"]) = Some o;
  ba_bio : is_Some (cell m (c, ["p_bio"]));
  ba_sep : NoDup [top; e; c];
  ba_ok : mem_ok m
}.
Lemma base_live top e c i o m p : base_rep top e c i o m → p ∈ [top; e; c] → is_Some (objs m !! p).
Proof.
  intros [A _ B _ _ _ [? C] _ _]. rewrite !elem_of_cons, elem_of_nil. intros [->|[->|[->|[]]]];
    by eapply (cell_live m (_, _)).
Qed.
Lemma base_agree top e c i o m m' : (∀ b, b.1 ∈ [top; e; c] → cell m' b = cell m b) → mem_ok m' →
  base_rep top e c i o m → base_rep top e c i o m'.
Proof. intros Hc Ok [A1 A2 A3 A4 A5 A6 A7 A8 _]. split; rewrite ?Hc by (cbn; set_solver); done. Qed.

(** An object is added to the objects [r]. *)
Record added (r : list ptr) (o : obj) (x : ptr) m m' : Prop := {
  ad_step : heap_step (λ _, False) r (x :: r) m m';
  ad_sep : NoDup (x :: r);
  ad_live p : p ∈ x :: r → is_Some (objs m' !! p);
  ad_new f : cell m' (x, f) = match o with OStruct fs => fs !! f | _ => None end;
  ad_old b : b.1 ∈ r → cell m' b = cell m b;
  ad_ok : mem_ok m'
}.
Lemma wp_alloc_added r o m (Q : cval → mem → Prop) : mem_ok m → NoDup r → (∀ p, p ∈ r → is_Some (objs m !! p)) →
  (∀ x m', added r o x m m' → Q (PTR x) m') → wp (alloc o) Q m.
Proof.
  intros Ok N Hl HQ. apply wp_alloc, HQ. pose proof (step_alloc (λ _, False) r m o Ok Hl) as S.
  assert (∀ p, p ∈ r → p ≠ brk m) as Hf by (intros p Hp; by apply mem_ok_fresh, Hl). split.
  - done.
  - apply NoDup_cons. split; [|done]. by intros ?%Hf.
  - intros p Hp. apply S. by left.
  - intros f. apply cell_alloc_new.
  - intros b Hb. by apply cell_alloc, Hf.
  - by apply mem_ok_alloc.
Qed.

Lemma new_base_spec m : mem_ok m →
  wp mem_new_base
    (λ r m', ∃ top e c, r = (PTR top, PTR e, PTR c) ∧ base_rep top e c NULL NULL m' ∧
      heap_step (λ _, False) [] [top; e; c] m m') m.
Proof.
  intros Ok. unfold mem_new_base. wp_simpl. apply (wp_alloc_added []); [done|constructor|by intros ? ?%elem_of_nil|].
  intros c m1 [S1 N1 L1 C1 _ Ok1]. wp_simpl. apply wp_lib_use; [apply L1; elem|]. wp_simpl.
  apply (wp_alloc_added [c]); [done..|]. intros top m2 [S2 N2 L2 C2 K2 Ok2]. wp_simpl.
  apply (wp_alloc_added [top; c]); [done..|]. intros e m3 [S3 N3 L3 C3 K3 Ok3].
  assert (e ≠ top ∧ e ≠ c ∧ top ≠ c) as (H1 & H2 & H3).
  { rewrite !NoDup_cons in N3. set_solver. }
  assert (∀ f, cell m3 (top, f) = cell m2 (top, f)) as Kt by (intros; apply K3; cbn; elem).
  assert (∀ f, cell m3 (c, f) = cell m1 (c, f)) as Kc by (intros; rewrite K3 by (cbn; elem); apply K2; cbn; elem).
  wp_simpl. eapply wp_store_fld; [rewrite Kt, C2; reflexivity|]. wp_simpl.
  eapply wp_store_fld; [rewrite cell_set_ne, C3 by congruence; reflexivity|]. wp_simpl.
  exists top, e, c. split; [done|]. split; [split|]; try (by rewrite !cell_set_ne, C3 by congruence).
  - rewrite cell_set_ne by congruence. eapply cell_set_eq. by rewrite Kt, C2.
  - rewrite !cell_set_ne, Kt, C2 by congruence. eexists. reflexivity.
  - eapply cell_set_eq. by rewrite cell_set_ne, C3 by congruence.
  - rewrite !cell_set_ne, Kc, C1 by congruence. eexists. reflexivity.
  - repeat (apply NoDup_cons; split; [rewrite ?elem_of_cons, elem_of_nil; naive_solver|]). constructor.
  - by apply mem_ok_set, mem_ok_set.
  - eapply step_trans; [exact S1|]. eapply step_trans; [exact S2|]. eapply step_trans; [exact S3|].
    eapply (step_equiv _ [e; top; c] _ [e; top; c]); [done|intros p; rewrite !elem_of_cons, elem_of_nil; tauto|].
    eapply step_trans; apply step_set; [set_solver|done|set_solver|]. intros p Hp. by apply live_set, L3.
Qed.

(** The engine while it is made from the memory [m0], with the BIOs [bs] so far. *)
Record pre_eng m0 (top e c : ptr) (i o : cval) (bs : list ptr) m : Prop := {
  pe_base : base_rep top e c i o m;
  pe_bios p : p ∈ bs → bio_rep p [] tlsuv_BIO_new m;
  pe_sep : NoDup ([top; e; c] ++ bs);
  pe_live p : p ∈ [top; e; c] ++ bs → is_Some (objs m !! p);
  pe_step : heap_step (λ _, False) [] ([top; e; c] ++ bs) m0 m
}.
Lemma pre_set m0 top e c i o bs m a w v i' o' : pre_eng m0 top e c i o bs m → cell m a = Some w → a.1 ∈ [top; e; c] →
  a ≠ (top, ["engine"]) → a ≠ (e, ["ssl"]) → a ≠ (e, ["session"]) →
  i' = (if decide (a = (e, ["in"])) then v else i) → o' = (if decide (a = (e, ["out"])) then v else o) →
  pre_eng m0 top e c i' o' bs (set_cell m a v).
Proof.
  intros [[A1 A2 A3 A4 A5 A6 A7 A8 Ok] R N L S] Ha Hin N1 N2 N3 -> ->.
  assert (∀ b, is_Some (cell m b) → is_Some (cell (set_cell m a v) b)) as Hd.
  { intros b. apply (t_def [a]). apply touches_set. left. }
  split; [split| |done|..].
  7: by apply Hd.
  7: done.
  7: by apply mem_ok_set.
  1,3,4: by rewrite cell_set_ne.
  - by apply Hd.
  - case_decide as D; [subst a; by eapply cell_set_eq|]. by rewrite cell_set_ne.
  - case_decide as D; [subst a; by eapply cell_set_eq|]. by rewrite cell_set_ne.
  - intros p Hp. apply bio_set_other; [by apply R|]. apply NoDup_app in N as (_ & N & _). intros E%list_elem_of_singleton. apply (N a.1); [done|by rewrite E].
  - intros p Hp. by apply live_set, L.
  - eapply step_trans; [exact S|]. apply step_set; [apply elem_of_app; by left|done].
Qed.
Lemma pre_bio m0 top e c i o bs m : pre_eng m0 top e c i o bs m →
  wp (mem_BIO_new true) (λ v m', ∃ p, v = PTR p ∧ pre_eng m0 top e c i o (bs ++ [p]) m') m.
Proof.
  intros [B R N L S]. eapply wp_mono; [apply mem_new_spec; apply B|]. intros v m' (p & -> & R' & S'). exists p. split; [done|].
  destruct (step_part ([top; e; c] ++ bs) [] [p] m m' S') as (A' & B' & C' & D' & E'); rewrite ?app_nil_r in *;
    [done|apply NoDup_singleton|done|]. rewrite <-app_assoc in A', B', C'.
  split; [| |done..|by eapply step_trans]; [|intros q Hq; apply elem_of_app in Hq as [Hq| ->%list_elem_of_singleton]; [|done]].
  - eapply base_agree; [|by eapply br_ok|exact B]. intros b Hb. apply D'. apply elem_of_app. by left.
  - eapply bio_frame; [..|by eapply br_ok|by apply R]; intros x Hx; [apply D'|apply E']; rewrite elem_of_app; right;
      (replace (msgs_owned []) with ([] : list ptr) in Hx by done); [|by apply list_elem_of_singleton in Hx as ->].
    apply list_elem_of_singleton in Hx. by rewrite Hx.
Qed.

Lemma new_engine_spec api m : mem_ok m → wp (mem_new_mbedtls_engine api) (λ v m', ∃ g, v = PTR (g_top g) ∧
  waiting g = 0%nat ∧ eng_rep g tlsuv_BIO_new tlsuv_BIO_new m' ∧ heap_step (λ _, False) [] (g_owned g) m m') m.
Proof.
  intros Ok. unfold mem_new_mbedtls_engine. wp_call (by apply new_base_spec). intros r m1 (top & e & c & -> & B1 & S1).
  assert (pre_eng m top e c NULL NULL [] m1) as P1.
  { split; rewrite ?app_nil_r; [done|by intros ? ?%elem_of_nil|apply B1|intros p; by eapply base_live|done]. }
  wp_call (by apply pre_bio). intros v m2 (i & -> & P2). wp_simpl. eapply wp_store_fld; [apply (pe_base _ _ _ _ _ _ _ _ P2)|].
  eapply (pre_set _ _ _ _ _ _ _ _ (e, ["in"]) _ (PTR i) (PTR i) NULL) in P2;
    [|apply P2|cbn; elem|done..|by rewrite decide_True|by rewrite decide_False].
  wp_call (by apply pre_bio). intros v m3 (o & -> & P3). wp_simpl. eapply wp_store_fld; [apply (pe_base _ _ _ _ _ _ _ _ P3)|].
  eapply (pre_set _ _ _ _ _ _ _ _ (e, ["out"]) _ (PTR o) (PTR i) (PTR o)) in P3;
    [|apply P3|cbn; elem|done..|by rewrite decide_False|by rewrite decide_True].
  destruct (ba_bio _ _ _ _ _ _ (pe_base _ _ _ _ _ _ _ _ P3)) as [w4 E4]. wp_simpl. eapply wp_store_fld; [exact E4|].
  eapply (pre_set _ _ _ _ _ _ _ _ (c, ["p_bio"]) _ (PTR e) (PTR i) (PTR o)) in P3;
    [|exact E4|cbn; elem|done..|by rewrite decide_False|by rewrite decide_False].
  destruct (ba_api _ _ _ _ _ _ (pe_base _ _ _ _ _ _ _ _ P3)) as [w5 E5]. wp_simpl. eapply wp_store_fld; [exact E5|].
  eapply (pre_set _ _ _ _ _ _ _ _ (top, ["api"]) _ api (PTR i) (PTR o)) in P3;
    [|exact E5|cbn; elem|done..|by rewrite decide_False|by rewrite decide_False].
  wp_simpl. destruct P3 as [[A1 A2 A3 A4 A5 A6 A7 A8 Ok5] R N L S]. cbn [app] in *.
  exists (mkeng top e c None i [] o []). split_and!; [done..| |exact S].
  split; [split|]; try done; cbn; [apply R; elem|apply R; elem|split; apply bio_new_wf].
Qed.
End lemmas.

(** ** Properties *)

(** C34: An mbedTLS engine in memory: from [new_mbedtls_engine], through any sequence of what its
    operations do to the two BIOs and to the saved session, to [mbedtls_free], nothing faults; no
    object of others is changed, and after [mbedtls_free] exactly the objects are alive that were
    before the engine was made: the connection, the session, both queues and every message in
    them are freed, once. *)
Theorem mbedtls_engine_owned api ops fuel m : mem_ok m → Forall eng_op_ok ops → (length ops < fuel)%nat →
  ∃ engine m1 m2 m3,
    mem_new_mbedtls_engine api m = Ret (engine, m1) ∧
    run_eng_ops fuel engine ops m1 = Ret (tt, m2) ∧
    mem_mbedtls_free fuel engine m2 = Ret (tt, m3) ∧
    (∀ p, is_Some (objs m3 !! p) ↔ is_Some (objs m !! p)) ∧
    (∀ p, is_Some (objs m !! p) → buf_at m2 p = buf_at m p ∧ buf_at m3 p = buf_at m p) ∧
    (∀ a, is_Some (objs m !! a.1) → cell m2 a = cell m a ∧ cell m3 a = cell m a).
Proof.
  intros Ok Hops Hf. pose proof (new_engine_spec api m Ok) as (engine & m1 & E1 & g & -> & Hw & R1 & S1)%wp_run.
  pose proof (eng_ops_spec fuel ops Hops _ _ _ _ R1 ltac:(lia)) as ([] & m2 & E2 & g2 & bi & bo & Ht & Hw2 & R2 & S2)%wp_run.
  pose proof (mbedtls_free_spec fuel _ _ _ _ R2 ltac:(lia)) as ([] & m3 & E3 & S3)%wp_run. rewrite Ht in E3.
  pose proof (step_trans _ _ _ _ _ _ _ S1 S2) as S12. pose proof (step_trans _ _ _ _ _ _ _ S12 S3) as [A _ C D].
  exists (PTR (g_top g)), m1, m2, m3. split_and!; try done.
  - intros q. rewrite A, elem_of_nil. tauto.
  - intros q Hq. split; [apply S12|apply D]; try done; by intros ?%elem_of_nil.
  - intros a Ha. split; [apply S12|apply C]; try done; try (by intros ?%elem_of_nil); tauto.
Qed.

(** Two connections with data left in both queues, the second of which resumes the first. *)
Lemma mbedtls_engine_owned_witness :
  let m := mkmem {[1%positive := OBuf [9]]} 2 in
  let ops := [EUse true; EIn (OpPut [1; 2; 3]); EIn (OpRead 2); EOut (OpPut [4; 5]); EReset true; EUse true;
              EOut (OpRead 1); EOut (OpPut [6]); EReset false; EReset true] in
  ∃ engine m1 m2 m3, mem_new_mbedtls_engine NULL m = Ret (engine, m1) ∧ run_eng_ops 11 engine ops m1 = Ret (tt, m2) ∧
    mem_mbedtls_free 11 engine m2 = Ret (tt, m3) ∧ (∀ p, is_Some (objs m3 !! p) ↔ is_Some (objs m !! p)).
Proof.
  intros m ops. destruct (mbedtls_engine_owned NULL ops 11 m) as (engine & m1 & m2 & m3 & H1 & H2 & H3 & H4 & _).
  - intros p [o Ho]. cbn in Ho. apply lookup_singleton_Some in Ho as [<- _]. cbn. lia.
  - repeat constructor; cbn; lia.
  - cbn. lia.
  - exists engine, m1, m2, m3. split_and!; [exact H1|exact H2|exact H3|exact H4].
Defined.
