(* ===== verification/OsslMem.v ===== *)
(** * What an OpenSSL engine owns (src/openssl/engine.c)

    The engine as structures in memory, from [new_openssl_engine] to [tls_free]: the connection and
    its BIOs, which are the library's, and the string of the protocol that was selected.  [OpenSslEngine]
    models what the engine does with them. *)
From S2P Require Import Prelude CLib CMem Queue Bio BioMem EngineMem.
From stdpp Require Import base list gmap numbers strings.
From Stdlib Require Import ZArith Lia.
Local Open Scope string_scope.
Local Open Scope list_scope.
Open Scope Z_scope.
Set Warnings "-clear-no-such-hyp".

Definition openssl_engine_zero : obj := OStruct (list_to_map
  [(["ssl"], NULL); (["alpn"], NULL); (["in"], NULL); (["out"], NULL); (["error"], INT 0)]).

(** The library's connection and its memory BIOs, which belong to it once it is given them and are
    freed with it. *)
Class SslMem := {
  SSL_new : M mem cval;
  BIO_new_mem : M mem cval;
  SSL_set_bio : cval → cval → cval → M mem unit;
  SSL_free : cval → M mem unit;
  ssl_owns : ptr → ptr → ptr → mem → Prop
}.
(** [f] makes one object. *)
Definition makes (f : M mem cval) : Prop := ∀ m, mem_ok m →
  ∃ p m', f m = Ret (PTR p, m') ∧ mem_ok m' ∧ heap_step (λ _, False) [] [p] m m'.
Class SslMemLaws `{SslMem} := {
  SSL_new_makes : makes SSL_new;
  BIO_new_makes : makes BIO_new_mem;
  SSL_set_bio_spec s i o m : mem_ok m → NoDup [s; i; o] → (∀ p, p ∈ [s; i; o] → is_Some (objs m !! p)) →
    ∃ m', SSL_set_bio (PTR s) (PTR i) (PTR o) m = Ret (tt, m') ∧ mem_ok m' ∧ ssl_owns s i o m' ∧
      heap_step (λ _, False) [s; i; o] [s; i; o] m m';
  SSL_free_spec s i o m : mem_ok m → ssl_owns s i o m → NoDup [s; i; o] → (∀ p, p ∈ [s; i; o] → is_Some (objs m !! p)) →
    ∃ m', SSL_free (PTR s) m = Ret (tt, m') ∧ mem_ok m' ∧ heap_step (λ _, False) [s; i; o] [] m m';
  ssl_owns_frame s i o m m' : (∀ b, b.1 ∈ [s; i; o] → cell m' b = cell m b) →
    (∀ p, p ∈ [s; i; o] → buf_at m' p = buf_at m p) → ssl_owns s i o m → ssl_owns s i o m'
}.

Section OpenSsl.
Context `{SslMem}.

(** The two structures; and the whole, where [api] is the address of the static table of functions. *)
Definition mem_new_ossl_base : M mem (cval * cval) :=
  engine ← alloc tls_engine_zero;
  eng ← alloc openssl_engine_zero;
  _ ← store_fld engine "engine" eng;
  mret (engine, eng).
Definition mem_new_openssl_engine (api : cval) : M mem cval :=
  '(engine, eng) ← mem_new_ossl_base;
  ssl ← SSL_new; _ ← store_fld eng "ssl" ssl;
  i ← BIO_new_mem; _ ← store_fld eng "in" i;
  o ← BIO_new_mem; _ ← store_fld eng "out" o;
  _ ← SSL_set_bio ssl i o;
  _ ← store_fld engine "api" api;
  mret engine.

(** [proto] is what was selected; [strncpy] into a buffer of zeros, one byte longer. *)
Definition mem_get_alpn (proto : list Z) (engine : cval) : M mem cval :=
  e ← load_fld engine "engine";
  let text := strndup proto (length proto) in
  p ← alloc (OBuf (text ++ replicate (length proto + 1 - length text) 0));
  _ ← store_fld e "alpn" p;
  load_fld e "alpn".

Definition mem_tls_free (engine : cval) : M mem unit :=
  e ← load_fld engine "engine";
  ssl ← load_fld e "ssl"; _ ← SSL_free ssl;
  a ← load_fld e "alpn";
  _ ← (if decide (a ≠ NULL) then free a else mret tt);
  _ ← free e;
  free engine.

Fixpoint get_alpns (engine : cval) (protos : list (list Z)) : M mem (list cval) :=
  match protos with
  | [] => mret []
  | proto :: protos => v ← mem_get_alpn proto engine; vs ← get_alpns engine protos; mret (v :: vs)
  end.

Context `{!SslMemLaws}.

(** [ps] are the strings the engine has pointed to, the last of which it still does. *)
Record ossl_rep (top e s i o : ptr) (ps : list ptr) (m : mem) : Prop := {
  os_engine : cell m (top, ["engine"]) = Some (PTR e);
  os_ssl : cell m (e, ["ssl"]) = Some (PTR s);
  os_alpn : cell m (e, ["alpn"]) = Some (opt_ptr (last ps));
  os_owns : ssl_owns s i o m;
  os_sep : NoDup ([top; e; s; i; o] ++ ps);
  os_live p : p ∈ [top; e; s; i; o] ++ ps → is_Some (objs m !! p);
  os_ok : mem_ok m
}.

(** An engine that is being made from the memory [m0]; [r] are the objects of the library so far. *)
Record made (top e : ptr) (sslv : cval) (r : list ptr) (m0 m : mem) : Prop := {
  md_engine : cell m (top, ["engine"]) = Some (PTR e);
  md_api : is_Some (cell m (top, ["api"]));
  md_ssl : cell m (e, ["ssl"]) = Some sslv;
  md_alpn : cell m (e, ["alpn"]) = Some NULL;
  md_in : is_Some (cell m (e, ["in"]));
  md_out : is_Some (cell m (e, ["out"]));
  md_sep : NoDup ([top; e] ++ r);
  md_live p : p ∈ [top; e] ++ r → is_Some (objs m !! p);
  md_step : heap_step (λ _, False) [] ([top; e] ++ r) m0 m;
  md_ok : mem_ok m
}.
Lemma made_set top e sslv sslv' r m0 m a w v : made top e sslv r m0 m → cell m a = Some w → a.1 ∈ [top; e] →
  a ≠ (top, ["engine"]) → a ≠ (e, ["alpn"]) → sslv' = (if decide (a = (e, ["ssl"])) then v else sslv) →
  made top e sslv' r m0 (set_cell m a v).
Proof.
  intros [A B C D E F N L S Ok] Ha Hin N1 N2 ->.
  assert (∀ b, is_Some (cell m b) → is_Some (cell (set_cell m a v) b)) as Hd.
  { intros b. apply (t_def [a]). apply touches_set. left. }
  split; auto; [by rewrite cell_set_ne| |by rewrite cell_set_ne|..].
  - case_decide as Hs; [subst a; by eapply cell_set_eq|]. by rewrite cell_set_ne.
  - intros p Hp. by apply live_set, L.
  - eapply step_trans; [exact S|]. apply step_set; [apply elem_of_app; by left|done].
  - by apply mem_ok_set.
Qed.
(** The part [o] of its objects becomes [n]. *)
Lemma made_part top e sslv r o n m0 m m' : made top e sslv (r ++ o) m0 m → NoDup n → mem_ok m' →
  heap_step (λ _, False) o n m m' → made top e sslv (r ++ n) m0 m'.
Proof.
  intros [A B C D E F N L S Ok] Hn Ok' S'. rewrite app_assoc in N, S. setoid_rewrite app_assoc in L.
  destruct (step_part _ _ _ _ _ S' N Hn L) as (N' & T' & L' & K' & _).
  assert (∀ b, b.1 ∈ [top; e] → cell m' b = cell m b) as K by (intros; apply K', elem_of_app; by left).
  split; rewrite ?K, ?app_assoc by (cbn; set_solver); try done. by eapply step_trans.
Qed.
Lemma made_new f top e sslv r m0 m : makes f → made top e sslv r m0 m →
  wp f (λ v m', ∃ p, v = PTR p ∧ made top e sslv (r ++ [p]) m0 m') m.
Proof.
  intros Hf R. destruct (Hf m (md_ok _ _ _ _ _ _ R)) as (p & m' & E & Ok & S). unfold wp. rewrite E.
  exists p. split; [done|]. rewrite <-(app_nil_r r) in R. eapply made_part; [exact R|apply NoDup_singleton|done..].
Qed.
(** A store into a field of the engine. *)
Lemma made_store top e sslv sslv' r m0 m p f v (Q : unit → mem → Prop) : made top e sslv r m0 m →
  is_Some (cell m (p, [f])) → p ∈ [top; e] → (p, [f]) ≠ (top, ["engine"]) → (p, [f]) ≠ (e, ["alpn"]) →
  sslv' = (if decide ((p, [f]) = (e, ["ssl"])) then v else sslv) →
  (∀ m', made top e sslv' r m0 m' → Q tt m') → wp (store_fld (PTR p) f v) Q m.
Proof. intros R [w Hw] Hp H1 H2 H3 HQ. eapply wp_store_fld; [exact Hw|]. by eapply HQ, made_set. Qed.

Lemma made_base m : mem_ok m →
  wp mem_new_ossl_base (λ r m', ∃ top e, r = (PTR top, PTR e) ∧ made top e NULL [] m m') m.
Proof.
  intros Ok. unfold mem_new_ossl_base. wp_simpl. apply (wp_alloc_added []); [done|constructor|by intros ? ?%elem_of_nil|].
  intros top m1 [S1 N1 L1 C1 _ Ok1]. wp_simpl. apply (wp_alloc_added [top]); [done..|]. intros e m2 [S2 N2 L2 C2 K2 Ok2].
  assert (e ≠ top) as Hne by (rewrite !NoDup_cons in N2; set_solver).
  assert (∀ f, cell m2 (top, f) = cell m1 (top, f)) as Kt by (intros; apply K2; cbn; elem).
  wp_simpl. eapply wp_store_fld; [rewrite Kt, C1; reflexivity|]. wp_simpl. exists top, e. split; [done|].
  split; rewrite ?app_nil_r; try (by rewrite cell_set_ne, C2 by congruence).
  - eapply cell_set_eq. by rewrite Kt, C1.
  - rewrite cell_set_ne, Kt, C1 by congruence. eexists. reflexivity.
  - eapply NoDup_Permutation_proper; [|exact N2]. solve_Permutation.
  - intros p Hp. apply live_set, L2. set_solver.
  - eapply step_trans; [exact S1|]. eapply step_trans; [exact S2|].
    eapply (step_equiv _ [e; top] _ [e; top]); [done|intros p; rewrite !elem_of_cons, elem_of_nil; tauto|].
    apply step_set; [cbn; elem|done].
  - by apply mem_ok_set.
Qed.
Lemma new_openssl_spec api m : mem_ok m → wp (mem_new_openssl_engine api) (λ v m', ∃ top e s i o, v = PTR top ∧
  ossl_rep top e s i o [] m' ∧ heap_step (λ _, False) [] [top; e; s; i; o] m m') m.
Proof.
  intros Ok. unfold mem_new_openssl_engine. wp_call (by apply made_base). intros r m1 (top & e & -> & R1).
  wp_call (apply made_new; [apply SSL_new_makes|exact R1]). intros v m2 (s & -> & R2). wp_simpl.
  eapply (made_store _ _ _ (PTR s) _ _ _ e "ssl"); [exact R2|rewrite (md_ssl _ _ _ _ _ _ R2); by eexists|elem|done..|by rewrite decide_True|].
  intros m3 R3. wp_call (apply made_new; [apply BIO_new_makes|exact R3]). intros v m4 (i & -> & R4). wp_simpl.
  eapply (made_store _ _ _ (PTR s) _ _ _ e "in"); [exact R4|apply R4|elem|done..|by rewrite decide_False|].
  intros m5 R5. wp_call (apply made_new; [apply BIO_new_makes|exact R5]). intros v m6 (o & -> & R6). wp_simpl.
  eapply (made_store _ _ _ (PTR s) _ _ _ e "out"); [exact R6|apply R6|elem|done..|by rewrite decide_False|].
  intros m7 R7. cbn [app] in R7. wp_simpl. pose proof (md_sep _ _ _ _ _ _ R7) as N7.
  assert (NoDup [s; i; o]) as Ns by (cbn in N7; by apply NoDup_cons in N7 as [_ [_ ?]%NoDup_cons]).
  destruct (SSL_set_bio_spec s i o m7) as (m8 & E8 & Ok8 & W8 & S8); [apply R7|done|intros; apply R7; set_solver|].
  unfold wp at 1. rewrite E8. pose proof (made_part _ _ _ [] _ _ _ _ _ R7 Ns Ok8 S8) as R8. cbn [app] in R8.
  destruct (md_api _ _ _ _ _ _ R8) as [w Hw]. wp_simpl. eapply wp_store_fld; [exact Hw|]. wp_simpl.
  assert (top ∉ [s; i; o]) as Ht by (cbn in N7; apply NoDup_cons in N7 as [? _]; set_solver).
  pose proof (made_set _ _ _ (PTR s) _ _ _ (top, ["api"]) _ api R8 Hw ltac:(cbn; elem) ltac:(done) ltac:(done) ltac:(by rewrite decide_False)) as R9.
  exists top, e, s, i, o. split; [done|]. destruct R9 as [A B C D E F N L S Ok9]. split; [|done]. split; try done.
  eapply ssl_owns_frame; [..|exact W8]; [|intros; apply buf_at_set]. intros b Hb. apply cell_set_ne. intros <-. done.
Qed.

(** The string of a protocol, as a reader of the buffer sees it. *)
Definition alpn_buf (proto : list Z) : list Z :=
  let text := strndup proto (length proto) in text ++ replicate (length proto + 1 - length text) 0.
Lemma get_alpn_spec top e s i o ps proto m : ossl_rep top e s i o ps m →
  wp (mem_get_alpn proto (PTR top)) (λ v m', ∃ p, v = PTR p ∧ ossl_rep top e s i o (ps ++ [p]) m' ∧
    heap_step (λ _, False) ([top; e; s; i; o] ++ ps) ([top; e; s; i; o] ++ ps ++ [p]) m m' ∧ buf_at m' p = Some (alpn_buf proto) ∧
    (∀ q, q ∈ ps → buf_at m' q = buf_at m q)) m.
Proof.
  intros [A B C W N L Ok]. unfold mem_get_alpn. wp_simpl. eapply wp_load_fld; [exact A|done|]. wp_simpl.
  apply wp_alloc. pose proof (step_alloc (λ _, False) _ m (OBuf (alpn_buf proto)) Ok L) as S1.
  assert (∀ q, q ∈ [top; e; s; i; o] ++ ps → q ≠ brk m) as Hf by (intros q Hq; by apply mem_ok_fresh, L).
  pose proof (mem_ok_alloc m (OBuf (alpn_buf proto)) Ok) as Ok1.
  assert (∀ b n, b.1 ∈ [top; e; s; i; o] ++ ps → cell (mkmem (<[brk m := OBuf (alpn_buf proto)]> (objs m)) n) b = cell m b) as K
    by (intros; by apply cell_alloc, Hf).
  assert (∀ q, q ∈ ps → buf_at (mkmem (<[brk m := OBuf (alpn_buf proto)]> (objs m)) (Pos.succ (brk m))) q = buf_at m q) as D
    by (intros; apply buf_at_alloc, Hf, elem_of_app; by right).
  wp_simpl. eapply wp_store_fld; [rewrite K by (cbn; set_solver); exact C|]. wp_simpl.
  eapply wp_load_fld; [eapply cell_set_eq; rewrite K by (cbn; set_solver); exact C|done|].
  exists (brk m). split; [done|].
  assert ([top; e; s; i; o] ++ ps ++ [brk m] ≡ₚ brk m :: [top; e; s; i; o] ++ ps) as Hp by solve_Permutation.
  split_and!; [split| | |]; rewrite ?Hp.
  - rewrite cell_set_ne, K by (cbn; first [congruence|set_solver]). exact A.
  - rewrite cell_set_ne, K by (cbn; first [congruence|set_solver]). exact B.
  - rewrite last_snoc. eapply cell_set_eq. rewrite K by (cbn; set_solver). exact C.
  - eapply ssl_owns_frame; [..|exact W].
    + intros b Hb. rewrite cell_set_ne, K; [done|set_solver|]. intros <-. cbn in N, Hb. apply NoDup_cons in N as [_ [N _]%NoDup_cons]. set_solver.
    + intros q Hq. rewrite buf_at_set. apply buf_at_alloc, Hf. set_solver.
  - apply NoDup_cons. split; [|done]. by intros ?%Hf.
  - intros q. rewrite Hp. intros Hq. apply live_set, S1. by left.
  - by apply mem_ok_set.
  - eapply step_trans; [exact S1|]. apply step_set; [cbn; set_solver|]. intros q Hq. apply S1. by left.
  - rewrite buf_at_set. unfold buf_at. cbn. by rewrite lookup_insert_eq.
  - intros q Hq. rewrite buf_at_set. by apply D.
Qed.
Lemma get_alpns_spec top e s i o protos : ∀ ps m, ossl_rep top e s i o ps m →
  wp (get_alpns (PTR top) protos) (λ vs m', ∃ qs, vs = PTR <$> qs ∧ ossl_rep top e s i o (ps ++ qs) m' ∧
    heap_step (λ _, False) ([top; e; s; i; o] ++ ps) ([top; e; s; i; o] ++ ps ++ qs) m m' ∧
    Forall2 (λ q proto, buf_at m' q = Some (alpn_buf proto)) qs protos ∧ (∀ q, q ∈ ps → buf_at m' q = buf_at m q)) m.
Proof.
  induction protos as [|proto protos IH]; intros ps m R; cbn [get_alpns].
  - wp_simpl. exists []. rewrite !app_nil_r. split_and!; try done.
    eapply (step_touches _ _ []); [by intros ? ?%elem_of_nil|apply R|apply touches_refl].
  - wp_call (by eapply get_alpn_spec). intros v m1 (p & -> & R1 & S1 & B1 & D1).
    wp_call (by apply IH). intros vs m2 (qs & -> & R2 & S2 & B2 & D2). wp_simpl. exists (p :: qs).
    rewrite <-app_assoc in R2, S2. cbn [app] in R2, S2. split_and!; try done.
    + by eapply step_trans.
    + constructor; [|done]. rewrite D2; [done|]. set_solver.
    + intros q Hq. rewrite D2 by set_solver. by apply D1.
Qed.

Lemma tls_free_spec top e s i o l al m : ossl_rep top e s i o (l ++ option_list al) m → last (l ++ option_list al) = al →
  wp (mem_tls_free (PTR top)) (λ _ m', heap_step (λ _, False) ([top; e; s; i; o] ++ l ++ option_list al) l m m') m.
Proof.
  intros [A B C W N L Ok] Hlast. rewrite Hlast in C. unfold mem_tls_free. rewrite wp_bind.
  eapply wp_load_fld; [exact A|done|]. rewrite wp_bind. eapply wp_load_fld; [exact B|done|].
  set (r := (l ++ [top; e]) ++ option_list al).
  assert ([top; e; s; i; o] ++ l ++ option_list al ≡ₚ r ++ [s; i; o]) as Hr by (unfold r; solve_Permutation).
  rewrite Hr in N. setoid_rewrite Hr in L. rewrite wp_bind.
  destruct (SSL_free_spec s i o m Ok W) as (m1 & E1 & Ok1 & S1); [by apply NoDup_app in N as (_ & _ & ?)|intros; apply L; set_solver|].
  unfold wp at 1. rewrite E1. destruct (drop_part r [s; i; o] m m1 S1 N L) as [T1 N1 L1 C1 D1].
  rewrite wp_bind. eapply wp_load_fld; [rewrite C1 by (unfold r; cbn; set_solver); exact C|by destruct al|]. rewrite wp_bind.
  assert (∀ m2, NoDup (l ++ [top; e]) → (∀ p, p ∈ l ++ [top; e] → is_Some (objs m2 !! p)) →
    wp (_ ← free (PTR e); free (PTR top)) (λ _ m', heap_step (λ _, False) (l ++ [top; e]) l m2 m') m2) as Hend.
  { intros m2 N2 L2. replace (l ++ [top; e]) with ((l ++ [top]) ++ [e]) in * by (by rewrite <-app_assoc). wp_simpl.
    apply (free_part (l ++ [top])); [done..|]. intros m3 _ L3. apply (free_part l); [apply L3|apply L3|].
    intros m4 _ L4. eapply step_trans; [apply L3|apply L4]. }
  destruct al as [al|]; cbn [opt_ptr].
  - rewrite decide_True by done. apply (free_part (l ++ [top; e])); [done..|]. intros m2 _ L2.
    eapply wp_mono; [apply Hend; apply L2|]. intros [] m3 S3. rewrite Hr. eapply step_trans; [exact T1|].
    eapply step_trans; [apply L2|done].
  - rewrite decide_False by tauto. rewrite wp_ret. unfold r in *. cbn in Hr. rewrite app_nil_r in *.
    eapply wp_mono; [by apply Hend|]. intros [] m3 S3. cbn. rewrite Hr, (app_nil_r (l ++ [top; e])). by eapply step_trans.
Qed.

(** An OpenSSL engine in memory, from [new_openssl_engine] to [tls_free]: asking for the protocol
    any number of times gives each time a string that stays readable until the engine is freed
    and holds the protocol; [tls_free] frees the engine and the last of these strings, and those
    before it are all that is left: without a second question nothing leaks. *)
Theorem openssl_engine_owned api protos m : mem_ok m →
  ∃ engine m1 ps m2 m3,
    mem_new_openssl_engine api m = Ret (engine, m1) ∧
    get_alpns engine protos m1 = Ret (PTR <$> ps, m2) ∧
    Forall2 (λ p proto, buf_at m2 p = Some (alpn_buf proto)) ps protos ∧
    mem_tls_free engine m2 = Ret (tt, m3) ∧
    (∀ p, is_Some (objs m3 !! p) ↔ is_Some (objs m !! p) ∨ p ∈ take (pred (length protos)) ps) ∧
    (∀ p, is_Some (objs m !! p) → buf_at m3 p = buf_at m p) ∧
    (∀ a, is_Some (objs m !! a.1) → cell m3 a = cell m a).
Proof.
  intros Ok. pose proof (new_openssl_spec api m Ok) as (engine & m1 & E1 & top & e & s & i & o & -> & R1 & S1)%wp_run.
  pose proof (get_alpns_spec top e s i o protos _ _ R1) as (vs & m2 & E2 & ps & -> & R2 & S2 & B2 & _)%wp_run. cbn [app] in R2, S2.
  destruct (last_split ps) as (l & Hl & Hlen). rewrite (Forall2_length _ _ _ B2) in Hlen.
  assert (wp (mem_tls_free (PTR top)) (λ _ m', heap_step (λ _, False) ([top; e; s; i; o] ++ ps) l m2 m') m2) as W.
  { pose proof R2 as R2'. rewrite Hl in R2' |- *. apply tls_free_spec; [done|]. by rewrite <-Hl. }
  apply wp_run in W as ([] & m3 & E3 & S3).
  pose proof (step_trans _ _ _ _ _ _ _ S1 (step_trans _ _ _ _ _ _ _ S2 S3)) as [A _ C D].
  exists (PTR top), m1, ps, m2, m3. split_and!; try done.
  - intros p. rewrite A, elem_of_nil. rewrite Hl, take_app_le, take_ge by lia. tauto.
  - intros p Hp. apply D; [done|]. by intros ?%elem_of_nil.
  - intros a Ha. apply C; [exact (λ F, F)|done|]. by intros ?%elem_of_nil.
Qed.
End OpenSsl.

Module ToySsl.
(** A connection keeps pointers to its BIOs and frees them. *)
Definition ssl_obj (i o : cval) : obj := OStruct (list_to_map [(["rbio"], i); (["wbio"], o)]).
#[export] Instance toy : SslMem := {|
  SSL_new := alloc (ssl_obj NULL NULL);
  BIO_new_mem := alloc (OBuf []);
  SSL_set_bio s i o := λ m, match s with PTR p => Ret (tt, mkmem (<[p := ssl_obj i o]> (objs m)) (brk m)) | _ => Fault NullDeref end;
  SSL_free s := i ← load_fld s "rbio"; o ← load_fld s "wbio"; _ ← free o; _ ← free i; free s;
  ssl_owns s i o m := cell m (s, ["rbio"]) = Some (PTR i) ∧ cell m (s, ["wbio"]) = Some (PTR o)
|}.
Lemma alloc_makes o : makes (alloc o).
Proof.
  intros m Ok. eexists (brk m), _. split; [reflexivity|]. split; [by apply mem_ok_alloc|].
  apply (step_alloc _ [] m); [done|by intros ? ?%elem_of_nil].
Qed.
#[export] Instance toy_laws : SslMemLaws.
Proof.
  split; [apply alloc_makes|apply alloc_makes|..].
  - intros s i o m Ok N L. eexists. split; [reflexivity|]. split_and!.
    + intros p. cbn. rewrite lookup_insert_is_Some'. intros [->|?]; apply Ok; [apply L; elem|done].
    + split; unfold cell; cbn [objs fst snd]; rewrite lookup_insert_eq; reflexivity.
    + split.
      * intros p. cbn. rewrite lookup_insert_is_Some'. destruct (decide (p ∈ [s; i; o])); [|set_solver]. pose proof (L p). tauto.
      * by left.
      * intros b _ _ Hb. unfold cell. cbn. rewrite lookup_insert_ne; [done|]. set_solver.
      * intros p _ Hp. unfold buf_at. cbn. rewrite lookup_insert_ne; [done|]. set_solver.
  - intros s i o m Ok [A B] N L.
    cut (wp (SSL_free (PTR s)) (λ _ m', mem_ok m' ∧ heap_step (λ _, False) [s; i; o] [] m m') m).
    { intros ([] & m' & E & Hm)%wp_run. by exists m'. }
    cbn [SSL_free toy]. wp_simpl. eapply wp_load_fld; [exact A|done|]. wp_simpl. eapply wp_load_fld; [exact B|done|]. wp_simpl.
    apply (free_part [s; i]); [done..|]. intros m1 Ok1 L1. wp_simpl. apply (free_part [s]); [apply L1|apply L1|].
    intros m2 Ok2 L2. apply (free_part []); [apply L2|apply L2|]. intros m3 Ok3 L3. split; [by auto|].
    eapply step_trans; [apply L1|]. eapply step_trans; [apply L2|apply L3].
  - intros s i o m m' K _ [A B]. split; rewrite K; cbn; done || elem.
Qed.

Lemma openssl_engine_owned_witness :
  let m := mkmem {[1%positive := OBuf [9]]} 2 in
  ∃ engine m1 ps m2 m3, mem_new_openssl_engine NULL m = Ret (engine, m1) ∧
    get_alpns engine [[104; 50]; []; [104; 50]] m1 = Ret (PTR <$> ps, m2) ∧
    Forall2 (λ p proto, buf_at m2 p = Some (alpn_buf proto)) ps [[104; 50]; []; [104; 50]] ∧
    mem_tls_free engine m2 = Ret (tt, m3) ∧ (∀ p, is_Some (objs m3 !! p) ↔ is_Some (objs m !! p) ∨ p ∈ take 2 ps).
Proof.
  intros m. destruct (openssl_engine_owned NULL [[104; 50]; []; [104; 50]] m) as (engine & m1 & ps & m2 & m3 & H1 & H2 & H3 & H4 & H5 & _).
  - intros p [o Ho]. cbn in Ho. apply lookup_singleton_Some in Ho as [<- _]. cbn. lia.
  - exists engine, m1, ps, m2, m3. split_and!; [exact H1|exact H2|exact H3|exact H4|exact H5].
Defined.

(** Asked twice, the engine has lost the first string when it is freed. *)
Lemma alpn_string_lost : ∃ engine m1 p q m2 m3, let m := mkmem ∅ 1 in
  mem_new_openssl_engine NULL m = Ret (engine, m1) ∧ get_alpns engine [[104; 50]; [104; 50]] m1 = Ret ([PTR p; PTR q], m2) ∧
  mem_tls_free engine m2 = Ret (tt, m3) ∧ buf_at m3 p = Some [104; 50; 0].
Proof. do 6 eexists. vm_compute. repeat split; reflexivity. Qed.
End ToySsl.
