(* ===== verification/OpenSslEngine.v ===== *)
(** * The OpenSSL engine (src/openssl/engine.c: the engine)

    An implementation of [TlsEngine]: an OpenSSL connection and the two memory queues
    ([BIO_s_mem]) it talks through.  The library is the class [OpenSsl]: its calls are
    [ssl_run]s (SslIo.v) over the two queues, which are any [ByteFifo].  [OpenSslLaws] is what
    its documentation says of buffer sizes, results and the data it delivers. *)
From S2P Require Import Prelude CLib Bio TlsEngine SslIo.
From stdpp Require Import base list numbers.
From Stdlib Require Import ZArith Lia.
Open Scope Z_scope.

Class OpenSsl := {
  (* a connection, with the error queue of the thread *)
  SSL : Type;
  SSL_CTX : Type;
  (* SSL_new, _set_tlsext_host_name, _set1_host, _set_connect_state, and _set_alpn_protos
     if there are any *)
  SSL_new : SSL_CTX → option (list Z) → option (list Z) → SSL;
  SSL_get_state : SSL → Z;
  TLS_ST_OK : Z;
  TLS_ST_BEFORE : Z;
  SSL_do_handshake : SSL → ssl_run SSL;
  SSL_get_error : SSL → Z → Z;
  SSL_ERROR_NONE : Z;
  SSL_ERROR_WANT_READ : Z;
  SSL_ERROR_WANT_WRITE : Z;
  ERR_clear_error : SSL → SSL;
  ERR_get_error : SSL → Z * SSL;
  SSL_get0_alpn_selected : SSL → list Z;
  (* with the number of bytes written *)
  SSL_write_ex : SSL → list Z → ssl_run (SSL * Z);
  SSL_read_ex : SSL → Z → ssl_run SSL;
  SSL_get_shutdown : SSL → Z;
  SSL_pending : SSL → Z;
  SSL_shutdown : SSL → ssl_run SSL;
  SSL_clear : SSL → Z * SSL;
}.

(** Reading from an empty memory queue. *)
Definition BIO_EMPTY : Z := -1.

Class OpenSslLaws `{OpenSsl} := {
  ossl_handshake_io s : io_ok (SSL_do_handshake s);
  ossl_write_io s d : io_ok (SSL_write_ex s d);
  ossl_read_io s n : io_ok (SSL_read_ex s n);
  ossl_shutdown_io s : io_ok (SSL_shutdown s);
  ossl_write_rc s d : d ≠ [] → all_done (λ rc _ sw, rc = 0 ∨ 0 < sw.2 ≤ Z.of_nat (length d)) (SSL_write_ex s d);
  ossl_read_rc s n : 0 < n → all_done (λ rc out _, rc = 0 ∨ 0 < Z.of_nat (length out) ≤ n) (SSL_read_ex s n);
  (* the plaintext still to be read when the bytes arrive *)
  plaintext : SSL → list Z → list Z;
  plaintext_online s a b : ∃ c, plaintext s (a ++ b) = plaintext s a ++ c;
  clear_plaintext s c : plaintext (ERR_clear_error s) c = plaintext s c;
  read_plaintext s n c o rc out s' c' o' : 0 < n → Z.of_nat (length c) < 18446744073709551616 →
    run_ssl BIO_EMPTY (SSL_read_ex s n) c o = Ret (rc, out, s', c', o') →
    (rc ≠ 0 → ∀ more, plaintext s (c ++ more) = out ++ plaintext s' (c' ++ more)) ∧
    (rc = 0 → SSL_get_error s' 0 = SSL_ERROR_WANT_READ →
       (∀ more, plaintext s (c ++ more) = plaintext s' (c' ++ more)) ∧ plaintext s' c' = []);
  pending_plaintext s : SSL_pending s = 0 → plaintext s [] = [];
  want_read_error : SSL_ERROR_WANT_READ ≠ SSL_ERROR_NONE;
  failed_read_error s : SSL_get_error s 0 ≠ SSL_ERROR_NONE;
}.

Section Engine.
Context `{OpenSsl} {B : Type} `{!ByteFifo B}.

Record openssl_engine := mkossl { o_ssl : SSL; o_alpn : option (list Z); o_in : B; o_out : B; o_error : Z }.
#[export] Instance openssl_engine_upd : Updatable openssl_engine := fun e =>
  mkossl (o_ssl e) (o_alpn e) (o_in e) (o_out e) (o_error e).

(** A memory queue is given its length as an [int]. *)
Definition BIO_write (q : B) (bytes : list Z) : B :=
  let n := i32 (Z.of_nat (length bytes)) in if 0 <? n then fifo_put q (take (Z.to_nat n) bytes) else q.
Definition give_in (input : option (list Z)) (e : openssl_engine) : openssl_engine :=
  match input with
  | Some ((_ :: _) as b) => e <| o_in := BIO_write (o_in e) b |>
  | _ => e
  end.
(** [if (BIO_ctrl_pending(eng->out) > 0) *out_bytes = BIO_read(eng->out, out, (int)maxout)] *)
Definition read_out (maxout : Z) (e : openssl_engine) : outcome (list Z * openssl_engine) :=
  if 0 <? fifo_available (o_out e) then
    '(_, out, o) ← fifo_read (o_out e) (i32 maxout); Ret (out, e <| o_out := o |>)
  else Ret ([], e).

Definition call_openssl {T} (r : ssl_run T) (set : T → SSL) (e : openssl_engine) : outcome (Z * list Z * T * openssl_engine) :=
  '(rc, out, t, i, o) ← run_ssl BIO_EMPTY r (o_in e) (o_out e);
  Ret (rc, out, t, e <| o_ssl := set t |> <| o_in := i |> <| o_out := o |>).
Definition clear_error (e : openssl_engine) : openssl_engine := e <| o_ssl := ERR_clear_error (o_ssl e) |>.
(** [eng->error = ERR_get_error()] *)
Definition record_error (e : openssl_engine) : openssl_engine :=
  let '(err, s) := ERR_get_error (o_ssl e) in e <| o_ssl := s |> <| o_error := err |>.

(** [alpn_protocols] is the buffer of the context, given to the library up to its first NUL. *)
Definition new_openssl_engine (ctx : SSL_CTX) (alpn_protocols : option (list Z)) (host : option (list Z)) : openssl_engine :=
  mkossl (SSL_new ctx host ((λ b, strndup b (length b)) <$> alpn_protocols)) None fifo_new fifo_new 0.

Definition tls_hs_state (e : openssl_engine) : tls_handshake_state :=
  if SSL_get_state (o_ssl e) =? TLS_ST_OK then TLS_HS_COMPLETE
  else if SSL_get_state (o_ssl e) =? TLS_ST_BEFORE then TLS_HS_BEFORE
  else TLS_HS_CONTINUE.

Definition tls_continue_hs (e : openssl_engine) (input : option (list Z)) (maxout : Z)
  : outcome (tls_handshake_state * list Z * openssl_engine) :=
  let e := clear_error (give_in input e) in
  '(rc, _, _, e) ← call_openssl (SSL_do_handshake (o_ssl e)) id e;
  '(out, e) ← read_out maxout e;
  if rc =? 1 then Ret (TLS_HS_COMPLETE, out, e)
  else
    let err := SSL_get_error (o_ssl e) rc in
    if rc =? 0 then Ret (TLS_HS_ERROR, out, record_error e)
    else if (err =? SSL_ERROR_WANT_READ) || (err =? SSL_ERROR_WANT_WRITE) then Ret (TLS_HS_CONTINUE, out, e)
    else Ret (TLS_HS_ERROR, out, record_error e).

Definition tls_get_alpn (e : openssl_engine) : list Z * openssl_engine :=
  let proto := SSL_get0_alpn_selected (o_ssl e) in
  let alpn := strndup proto (length proto) in
  (alpn, e <| o_alpn := Some alpn |>).

(** [while (data_len > wrote)]; the result tells whether all was written. *)
Fixpoint ossl_write_loop (fuel : nat) (data : list Z) (e : openssl_engine) : outcome (bool * openssl_engine) :=
  match data with
  | [] => Ret (true, e)
  | _ =>
    match fuel with
    | O => Fault OutOfFuel
    | S fuel =>
      '(ok, _, sw, e) ← call_openssl (SSL_write_ex (o_ssl e) data) fst e;
      if ok =? 0 then Ret (false, record_error e) else ossl_write_loop fuel (drop (Z.to_nat (sw.2)) data) e
    end
  end.
Definition tls_write (e : openssl_engine) (data : option (list Z)) (maxout : Z) : outcome (Z * list Z * openssl_engine) :=
  let data := default [] data in
  '(ok, e) ← ossl_write_loop (length data) data (clear_error e);
  if negb ok then Ret (-1, [], e)
  else '(out, e) ← read_out maxout e; Ret (i32 (fifo_available (o_out e)), out, e).

(** [while (maxout - total_out > 0)]: the error of the read that stopped it, and what was
    stored after [acc]. *)
Fixpoint ossl_read_loop (fuel : nat) (room : Z) (acc : list Z) (e : openssl_engine) : outcome (Z * list Z * openssl_engine) :=
  if room =? 0 then Ret (SSL_ERROR_NONE, acc, e)
  else
    match fuel with
    | O => Fault OutOfFuel
    | S fuel =>
      '(ok, out, _, e) ← call_openssl (SSL_read_ex (o_ssl e) room) id e;
      if ok =? 0 then Ret (SSL_get_error (o_ssl e) 0, acc, e)
      else ossl_read_loop fuel (room - Z.of_nat (length out)) (acc ++ out) e
    end.
Definition tls_read (e : openssl_engine) (ssl_in : option (list Z)) (maxout : Z) : outcome (Z * list Z * openssl_engine) :=
  '(err, out, e) ← ossl_read_loop (Z.to_nat maxout) maxout [] (clear_error (give_in ssl_in e));
  let has_write := if 0 <? fifo_available (o_out e) then TLS_HAS_WRITE else TLS_OK in
  Ret (if err =? SSL_ERROR_WANT_READ then (has_write, out, e)
       else if negb (SSL_get_shutdown (o_ssl e) =? 0) then (TLS_EOF, out, e)
       else if negb (err =? SSL_ERROR_NONE) then (TLS_ERR, out, record_error e)
       else if (0 <? fifo_available (o_in e)) || negb (SSL_pending (o_ssl e) =? 0) then (TLS_MORE_AVAILABLE, out, e)
       else (has_write, out, e)).

Definition tls_close (e : openssl_engine) (maxout : Z) : outcome (list Z * openssl_engine) :=
  let e := clear_error e in
  '(_, _, _, e) ← call_openssl (SSL_shutdown (o_ssl e)) id e;
  read_out maxout e.

Definition tls_reset (e : openssl_engine) : Z * openssl_engine :=
  let e := clear_error e in
  let '(ok, s) := SSL_clear (o_ssl e) in (if ok =? 0 then -1 else 0, e <| o_ssl := s |>).

#[export] Instance OpenSslEngine : TlsEngine := {|
  engine_t := openssl_engine;
  e_handshake_state := tls_hs_state;
  e_handshake := tls_continue_hs;
  e_write := tls_write;
  e_read := tls_read;
  e_reset := Some (λ e, (tls_reset e).2);
|}.
End Engine.
Arguments openssl_engine {_} B.

(** ** What the TLS link relies on *)

Section Laws.
Context `{OpenSslLaws} {B : Type} `{!ByteFifo B}.
Implicit Types e : openssl_engine B.

Definition ossl_ok e : Prop := fifo_ok (o_in e) ∧ fifo_ok (o_out e).
Definition ossl_pending e : list Z := fifo_content (o_out e).

Lemma record_error_keeps e : o_in (record_error e) = o_in e ∧ o_out (record_error e) = o_out e.
Proof. unfold record_error. by destruct (ERR_get_error _). Qed.

(** A call over the queues is the call over their contents. *)
Lemma call_openssl_ok {T} (r : ssl_run T) set e : io_ok r → ossl_ok e → ∃ rc out t e',
  call_openssl r set e = Ret (rc, out, t, e') ∧ ossl_ok e' ∧ o_ssl e' = set t ∧
  run_ssl BIO_EMPTY r (fifo_content (o_in e)) (ossl_pending e) = Ret (rc, out, t, fifo_content (o_in e'), ossl_pending e') ∧
  (∃ rcvd, fifo_content (o_in e) = rcvd ++ fifo_content (o_in e')) ∧
  (∃ sent, ossl_pending e' = ossl_pending e ++ sent) ∧ (∀ P, all_done P r → P rc out t).
Proof.
  intros Hio [Hi Ho]. unfold call_openssl.
  destruct (run_ssl_ok BIO_EMPTY r _ _ Hio Hi Ho) as (rc & out & t & i & o & Hr & Hi' & Ho' & Hrcvd & Hsent & HP).
  destruct (run_ssl_same BIO_EMPTY r (o_in e) (o_out e) (fifo_content (o_in e)) (fifo_content (o_out e)) Hio ltac:(by split_and!) ltac:(by split_and!))
    as (rc' & out' & t' & i1 & o1 & c1 & d1 & Hr1 & Hr2 & (_ & _ & Hci) & (_ & _ & Hco) & _).
  rewrite Hr in Hr1. injection Hr1 as <- <- <- <- <-. rewrite Hr. eexists _, _, _, _. split; [done|]. split_and!; try done.
  unfold ossl_pending. rewrite Hr2. cbn in *. by rewrite Hci, Hco.
Qed.

Lemma read_out_ok n e : 0 ≤ n < 2147483648 → ossl_ok e → Z.of_nat (length (ossl_pending e)) < 18446744073709551616 →
  ∃ e', read_out n e = Ret (take (Z.to_nat n) (ossl_pending e), e') ∧ ossl_ok e' ∧ ossl_pending e' = drop (Z.to_nat n) (ossl_pending e) ∧
    o_in e' = o_in e ∧ o_ssl e' = o_ssl e.
Proof.
  intros Hn [Hi Ho] Hl. unfold read_out, ossl_pending in *. rewrite fifo_available_spec, u64_small, i32_small by (done || lia).
  destruct (Z.ltb_spec 0 (Z.of_nat (length (fifo_content (o_out e))))).
  - destruct (fifo_read_spec _ n Ho ltac:(lia)) as (o & -> & Hok & Hc). eexists. split; [done|]. by split_and!.
  - assert (fifo_content (o_out e) = []) as Hnil by (destruct (fifo_content (o_out e)); [done|cbn in *; lia]).
    exists e. rewrite Hnil, take_nil, drop_nil. by split_and!.
Qed.
Lemma read_out_none e : ossl_ok e → ∃ e', read_out 0 e = Ret ([], e') ∧ ossl_ok e' ∧ ossl_pending e' = ossl_pending e.
Proof.
  intros [Hi Ho]. unfold read_out, ossl_pending. destruct (0 <? _); [|by exists e].
  destruct (fifo_read_spec _ 0 Ho ltac:(lia)) as (o & Hr & Hok & Hc). change (i32 0) with 0. rewrite Hr. eexists. split; [done|]. split; [done|].
  cbn. rewrite Hc. done.
Qed.

Lemma ossl_write_loop_ok fuel data e : (length data ≤ fuel)%nat → ossl_ok e → ∃ ok e',
  ossl_write_loop fuel data e = Ret (ok, e') ∧ ossl_ok e' ∧ ∃ sent, ossl_pending e' = ossl_pending e ++ sent.
Proof.
  revert data e. induction fuel as [|fuel IH]; intros data e Hf Hok.
  - destruct data; [|cbn in Hf; lia]. eexists _, _. split; [done|]. split; [done|]. exists []. by rewrite app_nil_r.
  - destruct data as [|b d]; cbn [ossl_write_loop].
    { eexists _, _. split; [done|]. split; [done|]. exists []. by rewrite app_nil_r. }
    destruct (call_openssl_ok (SSL_write_ex (o_ssl e) (b :: d)) fst e (ossl_write_io _ _) Hok) as (rc & out & sw & e1 & -> & Hok1 & _ & _ & _ & [sent Hs] & HP).
    specialize (HP _ (ossl_write_rc (o_ssl e) (b :: d) ltac:(done))). cbn beta in HP. cbn [mbind outcome_bind]. destruct (Z.eqb_spec rc 0).
    + destruct (record_error_keeps e1) as [Hri Hro]. eexists _, _. split; [done|]. unfold ossl_ok, ossl_pending. rewrite Hri, Hro. split; [done|]. by exists sent.
    + destruct (IH (drop (Z.to_nat sw.2) (b :: d)) e1) as (ok & e' & -> & Hok' & [sent' Hs']); [rewrite length_drop; lia|done|].
      eexists _, _. split; [done|]. split; [done|]. exists (sent ++ sent'). by rewrite Hs', Hs, app_assoc.
Qed.

Lemma tls_write_wraps e d rc out e' : ossl_ok e → tls_write e (Some d) 0 = Ret (rc, out, e') →
  ossl_ok e' ∧ (rc < 0 ∨ out = [] ∧ rc = i32 (Z.of_nat (length (ossl_pending e'))) ∧ ∃ rec, ossl_pending e' = ossl_pending e ++ rec).
Proof.
  intros Hok. unfold tls_write. cbn [default from_option id].
  destruct (ossl_write_loop_ok (length d) d (clear_error e) ltac:(lia) Hok) as (ok & e1 & -> & Hok1 & [sent Hs]). cbn [mbind outcome_bind].
  destruct ok; cbn [negb].
  - destruct (read_out_none e1 Hok1) as (e2 & -> & Hok2 & Hp2). cbn [mbind outcome_bind]. intros [= <- <- <-]. split; [done|right].
    split; [done|]. split; [|exists sent; by rewrite Hp2, Hs]. rewrite fifo_available_spec by apply Hok2. by rewrite i32_u64.
  - intros [= <- <- <-]. split; [done|]. left. lia.
Qed.
Lemma tls_write_drains e n : ossl_ok e → 0 ≤ n < 2147483648 → Z.of_nat (length (ossl_pending e)) < 18446744073709551616 →
  ∃ rc out e', tls_write e None n = Ret (rc, out, e') ∧ ossl_ok e' ∧ out = take (Z.to_nat n) (ossl_pending e) ∧
    ossl_pending e' = drop (Z.to_nat n) (ossl_pending e) ∧ rc = i32 (Z.of_nat (length (ossl_pending e'))).
Proof.
  intros Hok Hn Hl. unfold tls_write. cbn [default from_option ossl_write_loop length mbind outcome_bind negb].
  destruct (read_out_ok n (clear_error e) Hn Hok Hl) as (e2 & -> & Hok2 & Hp & _). cbn [mbind outcome_bind]. eexists _, _, _. split; [done|]. split_and!; try done.
  rewrite fifo_available_spec by apply Hok2. by rewrite i32_u64.
Qed.
#[export] Instance ossl_laws : @TlsEngineLaws (OpenSslEngine (B := B)) :=
  Build_TlsEngineLaws OpenSslEngine ossl_pending ossl_ok tls_write_wraps tls_write_drains.

(** ** Reading *)

Definition ossl_plain e (bytes : list Z) : list Z := plaintext (o_ssl e) (fifo_content (o_in e) ++ bytes).
Definition ossl_waiting e : Z := Z.of_nat (length (fifo_content (o_in e))).

Lemma clear_error_plain e bytes : ossl_plain (clear_error e) bytes = ossl_plain e bytes.
Proof. apply clear_plaintext. Qed.
Lemma give_in_ok inp e : ossl_ok e → Z.of_nat (length (default [] inp)) < 2147483648 →
  ossl_ok (give_in inp e) ∧ o_ssl (give_in inp e) = o_ssl e ∧ fifo_content (o_in (give_in inp e)) = fifo_content (o_in e) ++ default [] inp.
Proof.
  intros [Hi Ho] Hl. destruct inp as [[|b d]|]; cbn [give_in default from_option id] in *; try (rewrite app_nil_r; by split_and!).
  unfold BIO_write. rewrite i32_small by lia. cbn [o_in update_with]. destruct (Z.ltb_spec 0 (Z.of_nat (length (b :: d)))); [|cbn in *; lia].
  rewrite Nat2Z.id, firstn_all. split_and!; [split; [apply fifo_put_ok; [done|lia]|done]|done|]. apply fifo_put_content; [done|lia].
Qed.

(** What the loop has read when it ends, and why it ended. *)
Lemma ossl_read_loop_ok fuel room acc e : 0 ≤ room → (Z.to_nat room ≤ fuel)%nat → ossl_ok e → ossl_waiting e < 18446744073709551616 →
  ∃ err new e',
  ossl_read_loop fuel room acc e = Ret (err, acc ++ new, e') ∧ ossl_ok e' ∧ Z.of_nat (length new) ≤ room ∧ ossl_waiting e' ≤ ossl_waiting e ∧
  (err = SSL_ERROR_NONE ∨ err = SSL_ERROR_WANT_READ → ∀ more, ossl_plain e more = new ++ ossl_plain e' more) ∧
  (err = SSL_ERROR_WANT_READ → ossl_plain e' [] = []) ∧ (err = SSL_ERROR_NONE → Z.of_nat (length new) = room).
Proof.
  revert room acc e. induction fuel as [|fuel IH]; intros room acc e Hr Hf Hok Hwb; cbn [ossl_read_loop]; destruct (Z.eqb_spec room 0) as [->|Hr0]; try lia.
  1,2: eexists _, [], e; rewrite app_nil_r; split; [done|]; split_and!; try done; intros Heq; by pose proof want_read_error.
  destruct (call_openssl_ok (SSL_read_ex (o_ssl e) room) id e (ossl_read_io _ _) Hok) as (rc & out & s' & e1 & -> & Hok1 & Hssl & Hrun & [rcvd Hrcvd] & _ & HP).
  destruct (read_plaintext (o_ssl e) room _ _ _ _ _ _ _ ltac:(lia) Hwb Hrun) as [Hgood Hwait]. specialize (HP _ (ossl_read_rc (o_ssl e) room ltac:(lia))). cbn beta in HP.
  assert (ossl_waiting e1 ≤ ossl_waiting e) as Hw by (unfold ossl_waiting; rewrite Hrcvd, length_app; lia).
  cbn [mbind outcome_bind id] in *. destruct (Z.eqb_spec rc 0) as [->|Hrc].
  - eexists _, [], e1. rewrite app_nil_r. split; [done|]. pose proof (failed_read_error (o_ssl e1)). rewrite Hssl in *. unfold ossl_plain. rewrite Hssl.
    split_and!; [done|cbn; lia|done| | |done]; [intros [?|Hwr]; [done|]; by apply Hwait|]. rewrite app_nil_r. intros Hwr. by apply Hwait.
  - destruct (IH (room - Z.of_nat (length out)) (acc ++ out) e1) as (err & new & e' & -> & Hok' & Hl & Hw' & Hpl & Hend & Hfull); [lia|lia|done|lia|].
    eexists err, (out ++ new), e'. rewrite <-app_assoc, length_app. split; [done|]. split_and!; [done|lia|lia| |done|intros; rewrite Nat2Z.inj_add, Hfull by done; lia].
    intros Herr more. rewrite <-app_assoc, <-Hpl by done. unfold ossl_plain. rewrite Hssl. by apply Hgood.
Qed.

Lemma tls_read_plain x inp n : ossl_ok x → 0 < n < 2147483648 → Z.of_nat (length (default [] inp)) < 2147483648 →
  ossl_waiting x + Z.of_nat (length (default [] inp)) < 18446744073709551616 →
  ∃ rc out x', tls_read x inp n = Ret (rc, out, x') ∧ Z.of_nat (length out) ≤ n ∧ ossl_ok x' ∧
    ossl_waiting x' ≤ ossl_waiting x + Z.of_nat (length (default [] inp)) ∧ 0 ≤ ossl_waiting x' ∧
    (rc = TLS_OK ∨ rc = TLS_HAS_WRITE ∨ rc = TLS_MORE_AVAILABLE → ∀ more, ossl_plain x (default [] inp ++ more) = out ++ ossl_plain x' more) ∧
    (rc = TLS_OK ∨ rc = TLS_HAS_WRITE → ossl_plain x' [] = []) ∧ (rc = TLS_MORE_AVAILABLE → out ≠ []) ∧ rc ≠ TLS_READ_AGAIN.
Proof.
  intros Hok Hn Hl Hw. unfold tls_read. destruct (give_in_ok inp x Hok Hl) as (Hok1 & Hssl & Hin).
  assert (ossl_waiting (clear_error (give_in inp x)) = ossl_waiting x + Z.of_nat (length (default [] inp))) as Hwi
    by (unfold ossl_waiting; cbn; rewrite Hin, length_app; lia).
  destruct (ossl_read_loop_ok (Z.to_nat n) n [] (clear_error (give_in inp x)) ltac:(lia) ltac:(lia) Hok1 ltac:(lia))
    as (err & new & e & -> & Hok2 & Hlen & Hw2 & Hpl & Hend & Hfull). cbn [mbind outcome_bind app].
  assert (∀ more, ossl_plain (clear_error (give_in inp x)) more = ossl_plain x (default [] inp ++ more)) as Hpi
    by (intros more; rewrite clear_error_plain; unfold ossl_plain; by rewrite Hssl, Hin, <-app_assoc).
  assert (0 ≤ ossl_waiting e) by (unfold ossl_waiting; lia). rewrite Hwi in Hw2.
  destruct (Z.eqb_spec err SSL_ERROR_WANT_READ) as [Hwr|Hwr].
  { eexists _, new, e. split; [done|]. split_and!; try done; [|intros _; by apply Hend|by case_if..]. intros _ more. rewrite <-Hpi. by apply Hpl; right. }
  destruct (negb (SSL_get_shutdown (o_ssl e) =? 0)); [eexists _, new, e; split; [done|]; split_and!; try done; rc_cases|].
  destruct (Z.eqb_spec err SSL_ERROR_NONE) as [Hne|Hne]; cbn [negb].
  2: { destruct (record_error_keeps e) as [Hri Hro]. eexists _, new, (record_error e). split; [done|]. unfold ossl_ok, ossl_waiting in *. rewrite Hri, Hro.
       split_and!; try done; try apply Hok2; rc_cases. }
  assert (∀ more, ossl_plain x (default [] inp ++ more) = new ++ ossl_plain e more) as Hall by (intros more; rewrite <-Hpi; by apply Hpl; left).
  destruct (_ || _) eqn:Hpend.
  + eexists _, new, e. split; [done|]. split_and!; try done; [by intros [?|?]|]. intros _ ->. cbn in Hfull. specialize (Hfull Hne). lia.
  + apply orb_false_iff in Hpend as [Hav Hsp]. apply negb_false_iff, Z.eqb_eq in Hsp. rewrite fifo_available_spec, u64_small in Hav; [|unfold ossl_waiting in *; lia|apply Hok2].
    apply Z.ltb_ge in Hav. assert (fifo_content (o_in e) = []) as Hnil by (destruct (fifo_content (o_in e)); [done|]; cbn [length] in Hav; lia).
    eexists _, new, e. split; [done|]. split_and!; try done; [|by case_if..]. intros _. unfold ossl_plain. rewrite Hnil. by apply pending_plaintext.
Qed.
Lemma ossl_plain_online x a b : ∃ c, ossl_plain x (a ++ b) = ossl_plain x a ++ c.
Proof. unfold ossl_plain. rewrite app_assoc. apply plaintext_online. Qed.
#[export] Instance ossl_read_laws : @TlsReadLaws (OpenSslEngine (B := B)) :=
  Build_TlsReadLaws OpenSslEngine ossl_plain ossl_waiting ossl_ok ossl_plain_online tls_read_plain.

(** C18: what is read through the OpenSSL engine does not depend on how the ciphertext arrives
    or on the buffers it is read with.  Every read returns, with at most what the buffer
    holds; and as long as the connection stays open, the data read is the plaintext of all
    the bytes that arrived, once and in order, with nothing left behind. *)
Theorem openssl_reads_stream e pieces pieces' n n' m : ossl_ok e → 0 < n < 2147483648 → 0 < n' < 2147483648 →
  Forall (λ p, Z.of_nat (length p) < 2147483648) pieces → Forall (λ p, Z.of_nat (length p) < 2147483648) pieces' →
  concat pieces = concat pieces' → Z.of_nat (length (fifo_content (o_in e) ++ concat pieces)) < 18446744073709551616 →
  ossl_plain e [] = [] → (length (ossl_plain e (concat pieces)) < m)%nat →
  ∃ rc outs e1 rc' outs' e1', read_stream m n e pieces = Ret (rc, outs, e1) ∧ read_stream m n' e pieces' = Ret (rc', outs', e1') ∧
    Forall (λ o, Z.of_nat (length o) ≤ n) outs ∧ Forall (λ o, Z.of_nat (length o) ≤ n') outs' ∧
    (is_open rc = true → concat outs = ossl_plain e (concat pieces) ∧ ossl_plain e1 [] = []) ∧
    (is_open rc = true → is_open rc' = true → concat outs = concat outs').
Proof.
  intros Hok Hn Hn' HF HF' Hc Hl He Hm. rewrite length_app in Hl.
  destruct (@read_stream_plain OpenSslEngine ossl_read_laws n m e pieces Hok Hn HF) as (rc & outs & e1 & -> & Ho & _ & Hp); cbn; unfold ossl_waiting; try done; try lia.
  destruct (@read_stream_plain OpenSslEngine ossl_read_laws n' m e pieces' Hok Hn' HF') as (rc' & outs' & e1' & -> & Ho' & _ & Hp'); cbn; unfold ossl_waiting; rewrite <-?Hc; try done; try lia.
  eexists _, _, _, _, _, _. split; [done|]. split; [done|]. split_and!; [done|done|done|]. intros H1 H2.
  destruct (Hp H1) as [-> _], (Hp' H2) as [-> _]. cbn. by rewrite Hc.
Qed.
End Laws.

(** ** A library that satisfies the laws

    A record is its data with every byte inverted, at most 256 bytes of it. *)
Module ToyOpenSsl.
Definition invert (l : list Z) : list Z := (λ b, Z.lxor b 255) <$> l.
Definition record (n : Z) : Z := Z.max 1 (Z.min n 256).
(** The connection is its state and the error of its last call. *)
Definition conn : Type := Z * Z.
Definition recv_record (s : conn) (n : Z) : ssl_run conn :=
  SRecv (record n) (λ rc b, if rc <? 0 then SDone 0 [] (s.1, 2)
                            else match take (Z.to_nat (record n)) b with
                                 | [] => SDone 0 [] (s.1, 6)
                                 | r => SDone 1 (invert r) (s.1, 0)
                                 end).
#[local] Instance lib : OpenSsl := {|
  SSL := conn; SSL_CTX := unit; SSL_new _ _ _ := (0, 0); SSL_get_state := fst; TLS_ST_OK := 1; TLS_ST_BEFORE := 0;
  SSL_do_handshake s := SSend [22] (λ _, SDone 1 [] (1, 0));
  SSL_get_error s rc := if s.2 =? 0 then 6 else s.2; SSL_ERROR_NONE := 0; SSL_ERROR_WANT_READ := 2; SSL_ERROR_WANT_WRITE := 3;
  ERR_clear_error s := s; ERR_get_error s := (s.2, s); SSL_get0_alpn_selected _ := [];
  SSL_write_ex s d := let r := take (Z.to_nat 256) d in SSend (invert r) (λ _, SDone 1 [] (s, Z.of_nat (length r)));
  SSL_read_ex := recv_record; SSL_get_shutdown s := 0; SSL_pending s := 0;
  SSL_shutdown s := SSend [0] (λ _, SDone 1 [] s); SSL_clear s := (1, (0, 0));
|}.
#[local] Instance lib_laws : OpenSslLaws.
Proof.
  refine {| plaintext := (λ _, invert) : SSL → list Z → list Z |}; cbn [SSL_do_handshake SSL_write_ex SSL_read_ex SSL_shutdown lib io_ok all_done].
  - intros s. split; [cbn; lia|done].
  - intros s d. unfold invert. rewrite length_fmap, length_take. split; [lia|done].
  - intros s n. unfold recv_record, record. cbn [io_ok]. split; [lia|]. intros rc b. case_if; [done|]. by destruct (take _ b).
  - intros s. split; [cbn; lia|done].
  - intros s d Hd _. right. cbn [snd]. rewrite length_take. destruct d; [done|]. cbn [length]. lia.
  - intros s n Hn rc b. unfold record. case_if; cbn [all_done]; [by left|]. destruct (take _ b) as [|y l] eqn:Ht; cbn [all_done]; [by left|right].
    assert (length (y :: l) ≤ Z.to_nat n)%nat by (rewrite <-Ht, length_take; lia). unfold invert. rewrite length_fmap. cbn [length] in *. lia.
  - intros s a b. exists (invert b). apply fmap_app.
  - done.
  - intros s n c o rc out s' c' o' Hn Hl. unfold recv_record. cbn [run_ssl]. unfold ssl_recv.
    cbn [fifo_available fifo_read list_fifo]. destruct c as [|b c].
    + intros [= <- <- <- <- <-]. split; [done|]. intros _ _. done.
    + rewrite u64_small by lia. destruct (Z.eqb_spec (Z.of_nat (length (b :: c))) 0); [cbn [length] in *; lia|]. cbn [mbind outcome_bind].
      destruct (Z.ltb_spec (Z.of_nat (length (take (Z.to_nat (record n)) (b :: c)))) 0); [lia|].
      rewrite firstn_firstn, Nat.min_id. destruct (Z.to_nat (record n)) as [|k] eqn:Hk; [unfold record in Hk; lia|]. cbn [firstn skipn].
      intros [= <- <- <- <- <-]. split; [|done]. intros _ more.
      rewrite <-(take_drop k c) at 1. unfold invert. cbn. by rewrite !fmap_app, app_assoc.
  - intros s _. done.
  - done.
  - intros s. cbn. by destruct (Z.eqb_spec s.2 0).
Defined.

(** An open connection: two bytes wait in the queue of a first record. *)
Definition eng : openssl_engine tlsuv_BIO := mkossl (1, 0) None fifo_new fifo_new 0.
Lemma eng_ok : ossl_ok eng.
Proof. split; apply fifo_new_ok. Qed.

(** Three bytes in three pieces with a large buffer, and at once with a buffer of two. *)
Lemma openssl_reads_stream_witness : ∃ rc outs e rc' outs' e',
  @read_stream OpenSslEngine 4 100 eng [[254]; [253; 252]] = Ret (rc, outs, e) ∧ @read_stream OpenSslEngine 4 2 eng [[254; 253; 252]] = Ret (rc', outs', e') ∧
  outs = [[1]; [2; 3]] ∧ outs' = [[1; 2]; [3]] ∧ concat outs = concat outs'.
Proof.
  destruct (openssl_reads_stream eng [[254]; [253; 252]] [[254; 253; 252]] 100 2 4 eng_ok ltac:(done) ltac:(done)
    ltac:(by repeat constructor) ltac:(by repeat constructor) eq_refl ltac:(done) eq_refl ltac:(vm_compute; lia)) as (rc & outs & e & rc' & outs' & e' & H1 & H2 & _ & _ & _ & Heq).
  exists rc, outs, e, rc', outs', e'. split; [exact H1|]. split; [exact H2|].
  assert (rc = TLS_OK ∧ outs = [[1]; [2; 3]]) as [-> ->] by (vm_compute in H1; by injection H1).
  assert (rc' = TLS_OK ∧ outs' = [[1; 2]; [3]]) as [-> ->] by (vm_compute in H2; by injection H2).
  split; [done|]. split; [done|]. by apply Heq.
Defined.
End ToyOpenSsl.
