(* ===== verification/OpenSslCtx.v ===== *)
(** * The OpenSSL context (src/openssl/engine.c: certificates, keys and protocols)

    The trusted certificates and their check, the own key and certificate, the application
    protocols.  Certificates and their stores are the library's: the class [X509Lib] has the
    calls the code makes, [X509Laws] what their documentation says. *)
From S2P Require Import Prelude CLib.
From stdpp Require Import base list gmap numbers strings.
From Stdlib Require Import ZArith Lia.
Open Scope Z_scope.

Class X509Lib := {
  X509 : Type;
  X509_STORE : Type;
  X509_STORE_new : X509_STORE;
  X509_STORE_add_cert : X509_STORE → X509 → X509_STORE;
  (* the certificates of X509_STORE_get0_objects *)
  X509_STORE_objects : X509_STORE → list X509;
  (* X509_STORE_CTX_init and X509_verify_cert: store, certificate, untrusted ones *)
  X509_verify_cert : X509_STORE → X509 → list X509 → Z;
  (* X509_self_signed, or the comparison of the names and X509_verify *)
  is_self_signed : X509 → bool;
}.
Class X509Laws `{X509Lib} := {
  new_store_empty : X509_STORE_objects X509_STORE_new = [];
  add_cert_objects s c : c ∉ X509_STORE_objects s → X509_STORE_objects (X509_STORE_add_cert s c) ≡ₚ c :: X509_STORE_objects s;
}.

(** ** The chains of a bundle *)

Section Chains.
Context `{X509Lib}.

(** [for (n = 0; n < root_count; n++)]: the first store that verifies the certificate gets it. *)
Fixpoint find_store (stores : list X509_STORE) (c : X509) : option (list X509_STORE) :=
  match stores with
  | [] => None
  | s :: stores =>
    if X509_verify_cert s c [] =? 1 then Some (X509_STORE_add_cert s c :: stores)
    else (λ l, s :: l) <$> find_store stores c
  end.
(** [for (i = 0; i < sk_X509_num(inter);)]: a certificate that found its store is deleted. *)
Fixpoint sort_inter (stores : list X509_STORE) (inter : list X509) : list X509_STORE * list X509 :=
  match inter with
  | [] => (stores, [])
  | c :: inter =>
    match find_store stores c with
    | Some stores => sort_inter stores inter
    | None => let '(stores, rest) := sort_inter stores inter in (stores, c :: rest)
    end
  end.
Fixpoint sort_tries (tries : nat) (stores : list X509_STORE) (inter : list X509) : list X509_STORE * list X509 :=
  match tries, inter with
  | S tries, _ :: _ => let '(stores, inter) := sort_inter stores inter in sort_tries tries stores inter
  | _, _ => (stores, inter)
  end.
(** The roots are popped from the end; the result is the stores and the certificates that
    found none. *)
Definition process_chains (bundle : list X509) : list X509_STORE * list X509 :=
  let roots := filter (λ c, is_self_signed c = true) bundle in
  let inter := filter (λ c, is_self_signed c = false) bundle in
  let stores := X509_STORE_add_cert X509_STORE_new <$> reverse roots in
  sort_tries 3 stores inter.

(** [X509_STORE_CTX]: what the callback reads, and the error it is called for. *)
Record verify_ctx := mkvctx { v_error : Z; current_cert : X509; untrusted : list X509 }.

Fixpoint check_chains (chains : list X509_STORE) (s : verify_ctx) : Z :=
  match chains with
  | [] => 0
  | ch :: chains => if negb (X509_verify_cert ch (current_cert s) (untrusted s) =? 0) then 1 else check_chains chains s
  end.
Definition verify_peer_cb (ca_chains : list X509_STORE) (pre_verify : Z) (s : verify_ctx) : Z :=
  if pre_verify =? 1 then 1 else check_chains ca_chains s.

(** [user] is the result of the user's function, if one is set. *)
Definition cert_verify_cb (user : option (list X509 → Z)) (crt : X509) : Z :=
  let store := X509_STORE_add_cert X509_STORE_new crt in
  match user with
  | Some f => if negb (f (X509_STORE_objects store) =? 0) then 0 else 1
  | None => 1
  end.
End Chains.

(** ** Every certificate of the bundle finds its place *)

Section ChainProofs.
Context `{X509Laws}.
Definition certs_of (l : list X509_STORE) : list X509 := concat (X509_STORE_objects <$> l).

(** [c] is vouched for by [r]: it is [r], or a store of such certificates verifies it. *)
Inductive anchored (r : X509) : X509 → Prop :=
  | anch_root : anchored r r
  | anch_step s c : (∀ x, x ∈ X509_STORE_objects s → anchored r x) → X509_verify_cert s c [] = 1 → anchored r c.
(** A store with its root. *)
Definition rooted (r : X509) (s : X509_STORE) : Prop :=
  r ∈ X509_STORE_objects s ∧ ∀ c, c ∈ X509_STORE_objects s → anchored r c.

Lemma find_store_spec stores c : match find_store stores c with
  | Some stores' => ∃ l1 s l2, stores = l1 ++ s :: l2 ∧ stores' = l1 ++ X509_STORE_add_cert s c :: l2 ∧ X509_verify_cert s c [] = 1
  | None => Forall (λ s, X509_verify_cert s c [] ≠ 1) stores
  end.
Proof.
  induction stores as [|s stores IH]; cbn [find_store]; [constructor|]. destruct (Z.eqb_spec (X509_verify_cert s c []) 1) as [Hv|Hv].
  - by exists [], s, stores.
  - destruct (find_store stores c) as [stores'|]; cbn [fmap option_fmap option_map]; [|by constructor].
    destruct IH as (l1 & s' & l2 & -> & -> & Hv'). by exists (s :: l1), s', l2.
Qed.

(** What a step of the sorting keeps: the certificates, and a root in each store. *)
Record sorted_from (bundle roots : list X509) (stores : list X509_STORE) (inter : list X509) : Prop := {
  sf_perm : certs_of stores ++ inter ≡ₚ bundle;
  sf_roots : Forall2 rooted roots stores;
}.

Lemma certs_of_app l1 l2 : certs_of (l1 ++ l2) = certs_of l1 ++ certs_of l2.
Proof. unfold certs_of. by rewrite fmap_app, concat_app. Qed.
Lemma certs_of_cons s l : certs_of (s :: l) = X509_STORE_objects s ++ certs_of l.
Proof. done. Qed.

Lemma add_keeps bundle roots l1 s l2 c inter : NoDup bundle → X509_verify_cert s c [] = 1 →
  sorted_from bundle roots (l1 ++ s :: l2) (c :: inter) →
  sorted_from bundle roots (l1 ++ X509_STORE_add_cert s c :: l2) inter ∧
  (∀ x, x ∈ certs_of (l1 ++ s :: l2) → x ∈ certs_of (l1 ++ X509_STORE_add_cert s c :: l2)).
Proof.
  intros Hnd Hv [Hp Hr]. rewrite certs_of_app, certs_of_cons in *.
  assert (c ∉ X509_STORE_objects s) as Hc.
  { intros Hin. rewrite <-Hp in Hnd. apply NoDup_app in Hnd as (_ & Hno & _). apply (Hno c); [|by left].
    rewrite !elem_of_app. auto. }
  pose proof (add_cert_objects s c Hc) as Ha. split.
  - split.
    + rewrite <-Hp, certs_of_app, certs_of_cons, Ha. solve_Permutation.
    + apply Forall2_app_inv_r in Hr as (r1 & r2 & Hr1 & Hr2 & ->). inversion Hr2 as [|r ? r2' ? Hs Hr2']; subst.
      apply Forall2_app; [done|]. constructor; [|done]. destruct Hs as [Hin Han]. split; [rewrite Ha; by right|].
      intros x. rewrite Ha, elem_of_cons. intros [->|Hx]; [|by apply Han]. by apply (anch_step r s).
  - intros x. rewrite certs_of_app, certs_of_cons, Ha. rewrite !elem_of_app, elem_of_cons. tauto.
Qed.

(** A pass over the intermediates: nothing is lost, and what stays was verified by none of the
    stores there were at its start. *)
Lemma sort_inter_keeps bundle roots stores inter : NoDup bundle → ∀ kept, sorted_from bundle roots stores (inter ++ kept) →
  let '(stores', rest) := sort_inter stores inter in
  sorted_from bundle roots stores' (rest ++ kept) ∧ (∀ x, x ∈ certs_of stores → x ∈ certs_of stores') ∧
  (∀ c, c ∈ rest → c ∈ inter ∧ ∃ stores0, (∀ x, x ∈ certs_of stores → x ∈ certs_of stores0) ∧ Forall (λ s, X509_verify_cert s c [] ≠ 1) stores0).
Proof.
  intros Hnd. revert stores. induction inter as [|c inter IH]; intros stores kept Hs; cbn [sort_inter].
  - split_and!; [done|done|]. by intros c ?%elem_of_nil.
  - pose proof (find_store_spec stores c) as Hf. destruct (find_store stores c) as [stores1|].
    + destruct Hf as (l1 & s & l2 & -> & -> & Hv). destruct (add_keeps _ _ _ _ _ _ _ Hnd Hv Hs) as [Hs1 Hm1].
      specialize (IH _ _ Hs1). destruct (sort_inter _ inter) as [stores' rest]. destruct IH as (Hs' & Hm' & Hrest).
      split_and!; [done|by eauto|]. intros x Hx. destruct (Hrest x Hx) as (Hin & st0 & Hm0 & Hno). split; [by right|]. exists st0. split; [by eauto|done].
    + assert (sorted_from bundle roots stores (inter ++ c :: kept)) as Hs1.
      { destruct Hs as [Hp Hr]. split; [|done]. rewrite <-Hp. solve_Permutation. }
      specialize (IH _ _ Hs1). destruct (sort_inter _ inter) as [stores' rest]. destruct IH as (Hs' & Hm' & Hrest).
      split_and!; [|done|].
      * destruct Hs' as [Hp Hr]. split; [|done]. rewrite <-Hp. solve_Permutation.
      * intros x [->|Hx]%elem_of_cons; [split; [by left|]; by exists stores|]. destruct (Hrest x Hx) as (Hin & ?). split; [by right|done].
Qed.

(** The certificates that issued others: an issuer in a store makes it verify. *)
Context (issued : X509 → X509 → Prop)
  (issued_verifies : ∀ s i c, i ∈ X509_STORE_objects s → issued i c → X509_verify_cert s c [] = 1).

(** [depth n c]: a chain of [n] certificates of the bundle leads from [c] to a root. *)
Inductive depth (bundle : list X509) : nat → X509 → Prop :=
  | depth_root c : c ∈ bundle → is_self_signed c = true → depth bundle 0 c
  | depth_step n i c : depth bundle n i → c ∈ bundle → issued i c → depth bundle (S n) c.
Lemma depth_in bundle n c : depth bundle n c → c ∈ bundle.
Proof. by destruct 1. Qed.

Lemma elem_certs_of x l : x ∈ certs_of l ↔ ∃ s, s ∈ l ∧ x ∈ X509_STORE_objects s.
Proof.
  unfold certs_of. rewrite list_elem_of_In, in_concat. setoid_rewrite <-list_elem_of_In. split.
  - intros (o & Ho & Hx). apply list_elem_of_fmap in Ho as (s & -> & Hs). eauto.
  - intros (s & Hs & Hx). exists (X509_STORE_objects s). split; [by apply list_elem_of_fmap_2|done].
Qed.

Lemma sort_tries_keeps bundle roots tries : NoDup bundle → ∀ k stores inter, sorted_from bundle roots stores inter →
  (∀ n c, (n ≤ k)%nat → depth bundle n c → c ∈ certs_of stores) →
  let '(stores', rest) := sort_tries tries stores inter in
  sorted_from bundle roots stores' rest ∧ (∀ n c, (n ≤ k + tries)%nat → depth bundle n c → c ∈ certs_of stores').
Proof.
  intros Hnd. induction tries as [|tries IH]; intros k stores inter Hs Hk; cbn [sort_tries].
  - split; [done|]. intros n c Hn. apply Hk. lia.
  - destruct inter as [|c0 inter0] eqn:Hi.
    { split; [done|]. intros n c _ Hd%depth_in. destruct Hs as [Hp _]. rewrite app_nil_r in Hp. by rewrite Hp. }
    rewrite <-Hi in *. clear Hi c0 inter0. pose proof (sort_inter_keeps bundle roots stores inter Hnd []) as Hpass. rewrite app_nil_r in Hpass. specialize (Hpass Hs).
    destruct (sort_inter stores inter) as [stores1 rest]. rewrite app_nil_r in Hpass. destruct Hpass as (Hs1 & Hm & Hrest).
    replace (k + S tries)%nat with (S k + tries)%nat by lia. apply IH; [done|]. intros n c Hn Hd.
    assert (c ∈ certs_of stores1 ++ rest) as [Hc|Hc]%elem_of_app by (rewrite (sf_perm _ _ _ _ Hs1); by eapply depth_in); [done|].
    destruct (Hrest c Hc) as (Hin & st0 & Hm0 & Hno). inversion Hd as [? Hb Hself|m i ? Hi Hb Hiss]; subst.
    { apply Hm, (Hk 0%nat); [lia|done]. }
    exfalso. pose proof (Hk m i ltac:(lia) Hi) as (s & Hs0 & His)%Hm0%elem_certs_of. rewrite Forall_forall in Hno.
    by apply (Hno s Hs0), (issued_verifies s i).
Qed.

Lemma roots_and_inter (l : list X509) : filter (λ c, is_self_signed c = true) l ++ filter (λ c, is_self_signed c = false) l ≡ₚ l.
Proof.
  induction l as [|c l IHl]; [done|]. rewrite !filter_cons. repeat case_decide; try congruence.
  - cbn. by rewrite IHl.
  - rewrite <-Permutation_middle. by rewrite IHl.
  - by destruct (is_self_signed c).
Qed.

Lemma check_chains_spec chains s : check_chains chains s = 1 ↔
  ∃ ch, ch ∈ chains ∧ X509_verify_cert ch (current_cert s) (untrusted s) ≠ 0.
Proof.
  induction chains as [|ch chains IH]; cbn [check_chains]; [split; [done|]; by intros (? & ?%elem_of_nil & _)|].
  destruct (Z.eqb_spec (X509_verify_cert ch (current_cert s) (untrusted s)) 0) as [Hv|Hv]; cbn [negb].
  - rewrite IH. split; intros (c & Hc & Hn); [exists c; split; [by right|done]|]. apply elem_of_cons in Hc as [->|]; [done|eauto].
  - split; [|done]. intros _. exists ch. split; [by left|done].
Qed.
Lemma Forall2_in_r {A B} (P : A → B → Prop) l k y : Forall2 P l k → y ∈ k → ∃ x, x ∈ l ∧ P x y.
Proof.
  induction 1 as [|x y' l k Hxy _ IH]; [by intros ?%elem_of_nil|]. intros [->|Hy]%elem_of_cons; [exists x; split; [by left|done]|].
  destruct (IH Hy) as (x' & ? & ?). exists x'. split; [by right|done].
Qed.

End ChainProofs.

(** Certificates as numbers: 4 and the other digits are roots, 43 is issued by 4, 432 by 43. *)
Module ToyCerts.
#[local] Instance lib : X509Lib := {|
  X509 := Z; X509_STORE := list Z; X509_STORE_new := []; X509_STORE_add_cert s c := s ++ [c]; X509_STORE_objects s := s;
  X509_verify_cert s c _ := if bool_decide (c / 10 ∈ s) then 1 else 0;
  is_self_signed c := c <? 10
|}.
#[local] Instance lib_laws : X509Laws.
Proof. split; [done|]. intros s c _. cbn. by rewrite Permutation_app_comm. Qed.
Definition issued (i c : Z) : Prop := c / 10 = i.
Lemma issued_verifies s i c : i ∈ X509_STORE_objects s → issued i c → X509_verify_cert s c [] = 1.
Proof. intros Hi <-. cbn. by rewrite bool_decide_true. Qed.


(** Three is the bound: a fourth certificate listed before its issuers stays un-rooted. *)
Lemma four_is_too_deep : (process_chains [43210; 4321; 432; 43; 4]).2 = [43210] ∧ (process_chains [43; 432; 4321; 43210; 4]).2 = [].
Proof. done. Qed.

(** The callback is told why the library rejected the certificate, and does not look: a
    certificate for another host ([X509_V_ERR_HOSTNAME_MISMATCH]) is accepted if it is good
    for any host. *)
Lemma host_mismatch_accepted :
  let '(chains, _) := process_chains [4; 43] in
  verify_peer_cb chains 0 (mkvctx 62 432 []) = 1 ∧ verify_peer_cb chains 0 (mkvctx 20 777 []) = 0.
Proof. done. Qed.

(** Without a function of the user every certificate is accepted. *)
Lemma no_user_check_accepts_all : cert_verify_cb None (777 : X509) = 1.
Proof. done. Qed.
End ToyCerts.

(** A failing check of the library ([-1]) counts as a good certificate. *)
Lemma verify_error_accepted `{X509Lib} ch s : X509_verify_cert ch (current_cert s) (untrusted s) = -1 → verify_peer_cb [ch] 0 s = 1.
Proof. intros Hv. cbn. by rewrite Hv. Qed.

(** ** Loading certificates *)

Section Load.
Context `{X509Lib}.
(** [stat]: whether there is such a file, and a regular one; the certificates
    [X509_STORE_load_locations] finds in it; [PEM_read_bio_X509]: the next certificate of the
    text and the rest of it. *)
Context (stat : list Z → option bool) (load_locations : list Z → list X509) (PEM_read_bio_X509 : list Z → option (X509 * list Z)).

Definition add_all (store : X509_STORE) (certs : list X509) : X509_STORE := foldl X509_STORE_add_cert store certs.
(** [while ((c = PEM_read_bio_X509(crt_bio)) != NULL)] *)
Fixpoint load_pem (fuel : nat) (bio : list Z) (certs : X509_STORE) : outcome X509_STORE :=
  match fuel with
  | O => Fault OutOfFuel
  | S fuel =>
    match PEM_read_bio_X509 bio with
    | Some (c, bio) => load_pem fuel bio (X509_STORE_add_cert certs c)
    | None => Ret certs
    end
  end.
(** The length of the text is given as an [int]. *)
Definition mem_bio (buf : list Z) : list Z := take (Z.to_nat (i32 (Z.of_nat (length buf)))) buf.
Definition load_certs (buf : list Z) : outcome X509_STORE :=
  match stat buf with
  | Some true => Ret (add_all X509_STORE_new (load_locations buf))
  | Some false => Ret X509_STORE_new
  | None => load_pem (S (length buf)) (mem_bio buf) X509_STORE_new
  end.
(** The trusted certificates: the chains of the bundle, if one was given. *)
Definition load_ca (ca : option (list Z)) : outcome (list X509_STORE) :=
  match ca with
  | Some buf => store ← load_certs buf; Ret (process_chains (X509_STORE_objects store)).1
  | None => Ret []
  end.

Context (pem_read_shorter : ∀ b c rest, PEM_read_bio_X509 b = Some (c, rest) → (length rest < length b)%nat).

Lemma load_pem_ends fuel bio certs : (length bio < fuel)%nat → ∃ store, load_pem fuel bio certs = Ret store.
Proof.
  revert bio certs. induction fuel as [|fuel IH]; intros bio certs Hf; [lia|]. cbn [load_pem].
  destruct (PEM_read_bio_X509 bio) as [[c rest]|] eqn:Hr; [|by eexists]. apply pem_read_shorter in Hr. apply IH. lia.
Qed.
Lemma load_certs_ends buf : ∃ store, load_certs buf = Ret store.
Proof.
  unfold load_certs. destruct (stat buf) as [[]|]; [by eexists..|]. apply load_pem_ends. unfold mem_bio. rewrite length_take. lia.
Qed.
End Load.

(** ** The own key and certificate *)

(** A private key is an address; the context owns the one it was given. *)
Record openssl_ctx `{X509Lib} := mkctx {
  own_key : option Z;
  own_cert : option X509;
  chain_certs : list X509;            (* SSL_CTX_set0_chain_cert_store *)
  alpn_protocols : option (list Z);
  ca_chains : list X509_STORE;
  live_keys : gset Z;
  ctx_freed : bool;
}.
#[export] Instance openssl_ctx_upd `{X509Lib} : Updatable openssl_ctx := fun c =>
  mkctx _ (own_key c) (own_cert c) (chain_certs c) (alpn_protocols c) (ca_chains c) (live_keys c) (ctx_freed c).

Section OwnKey.
Context `{X509Lib}.
(** [SSL_CTX_use_PrivateKey], [SSL_CTX_check_private_key] and the key's [get_certificate]. *)
Context (stat : list Z → option bool) (load_locations : list Z → list X509) (PEM_read_bio_X509 : list Z → option (X509 * list Z)).
Context (use_PrivateKey : Z → Z) (check_private_key : Z → option X509 → Z) (get_certificate : Z → option (list X509)).

Definition key_live (k : Z) : M openssl_ctx unit :=
  c ← get; if bool_decide (k ∈ live_keys c) then mret tt else fail_with UseAfterFree.
(** [own_key->free(own_key)] *)
Definition free_key (k : Z) : M openssl_ctx unit :=
  key_live k;; modify (λ c, c <| live_keys := live_keys c ∖ {[k]} |>).
Definition free_own_key : M openssl_ctx unit :=
  c ← get; match own_key c with Some k => free_key k | None => mret tt end.

(** The first certificate is the own one, the others its chain. *)
Definition tls_set_cert_internal (store : list X509) : M openssl_ctx (option X509) :=
  when (1 <? Z.of_nat (length store)) (modify (λ c, c <| chain_certs := drop 1 store |>));;
  mret (head store).

(** [if (c->own_cert) SSL_OP_CHECK(SSL_CTX_check_private_key(ssl))] *)
Definition check_own (k : Z) : M openssl_ctx Z :=
  c ← get; if check_private_key k (own_cert c) =? 1 then mret 0 else mret (-1).

(** The test for NULL reads the key when it is NULL. *)
Definition tls_set_own_key (key : option Z) : M openssl_ctx Z :=
  match key with
  | None => fail_with NullDeref
  | Some k =>
    free_own_key;;
    modify (λ c, c <| own_key := Some k |>);;
    key_live k;;
    if negb (use_PrivateKey k =? 1) then mret (-1)
    else
      match get_certificate k with
      | Some store => crt ← tls_set_cert_internal store; modify (λ c, c <| own_cert := crt |>)
      | None => mret tt
      end;;
      c ← get;
      match own_cert c with Some _ => check_own k | None => mret 0 end
  end.

Definition tls_set_own_cert (cert_buf : list Z) : M openssl_ctx Z :=
  store ← liftO (load_certs stat load_locations PEM_read_bio_X509 cert_buf);
  crt ← tls_set_cert_internal (X509_STORE_objects store);
  modify (λ c, c <| own_cert := crt |>);;
  c ← get;
  match own_key c with Some k => key_live k;; check_own k | None => mret 0 end.

Definition tls_free_ctx : M openssl_ctx unit :=
  modify (λ c, c <| alpn_protocols := None |>);;
  free_own_key;;
  modify (λ c, c <| own_key := None |> <| ca_chains := [] |> <| ctx_freed := true |>).

(** What a program does with the context. *)
Inductive ctx_op := OpKey (k : Z) | OpCert (cert_buf : list Z).
Definition run_op (o : ctx_op) : M openssl_ctx Z :=
  match o with OpKey k => tls_set_own_key (Some k) | OpCert buf => tls_set_own_cert buf end.
Fixpoint run_ops (l : list ctx_op) : M openssl_ctx unit :=
  match l with [] => mret tt | o :: l => run_op o;; run_ops l end.
Definition keys_of (l : list ctx_op) : list Z := omap (λ o, match o with OpKey k => Some k | OpCert _ => None end) l.

(** The context owns a live key or none, and the keys of [given] but this one are freed. *)
Definition owns (live0 : gset Z) (given : list Z) (c : openssl_ctx) : Prop :=
  match own_key c with
  | Some k => ∃ before, given = before ++ [k] ∧ live_keys c = live0 ∖ list_to_set before
  | None => given = [] ∧ live_keys c = live0
  end.

Lemma wp_key_live k (Q : unit → openssl_ctx → Prop) c : k ∈ live_keys c → Q tt c → wp (key_live k) Q c.
Proof. intros Hk HQ. unfold key_live. wp_simpl. by rewrite bool_decide_true. Qed.
Lemma wp_check_own k (Q : Z → openssl_ctx → Prop) c : (∀ r, Q r c) → wp (check_own k) Q c.
Proof. intros HQ. unfold check_own. wp_simpl. case_if; apply HQ. Qed.
Lemma wp_set_cert_internal store (Q : option X509 → openssl_ctx → Prop) c :
  (∀ crt chain, Q crt (c <| chain_certs := chain |>)) → wp (tls_set_cert_internal store) Q c.
Proof.
  intros HQ. unfold tls_set_cert_internal. wp_simpl. unfold when. case_if; wp_simpl; [apply HQ|].
  pose proof (HQ (head store) (chain_certs c)) as Hq. by destruct c.
Qed.

Lemma elem_snoc (k : Z) l : k ∈ l ++ [k].
Proof. apply elem_of_app. right. by left. Qed.
Lemma elem_app_l (k : Z) l l' : k ∈ l → k ∈ l ++ l'.
Proof. intros ?. apply elem_of_app. by left. Qed.
Hint Resolve elem_snoc elem_app_l : tlsuv.
Lemma wp_free_own_key live0 given (Q : unit → openssl_ctx → Prop) c : NoDup given → owns live0 given c → (∀ k, k ∈ given → k ∈ live0) →
  Q tt (c <| live_keys := live0 ∖ list_to_set given |>) → wp free_own_key Q c.
Proof.
  unfold owns, free_own_key. intros Hnd Ho Hin HQ. wp_simpl. destruct (own_key c) as [k|].
  - destruct Ho as (before & -> & Hl). unfold free_key. wp_simpl. apply NoDup_app in Hnd as (_ & Hno & _).
    apply wp_key_live; [rewrite Hl; apply elem_of_difference; split; [apply Hin; auto with tlsuv|]|].
    { rewrite elem_of_list_to_set. intros Hb. apply (Hno k Hb). by left. }
    wp_simpl. rewrite Hl, difference_difference_l_L. rewrite list_to_set_app_L, list_to_set_cons, list_to_set_nil, union_empty_r_L in HQ. done.
  - destruct Ho as [-> Hl]. wp_simpl. cbn in HQ. rewrite difference_empty_L in HQ. rewrite <-Hl in HQ. by destruct c.
Qed.

Context (pem_read_shorter : ∀ b c rest, PEM_read_bio_X509 b = Some (c, rest) → (length rest < length b)%nat).
Lemma set_own_key_owns live0 given k c : NoDup (given ++ [k]) → (∀ x, x ∈ given ++ [k] → x ∈ live0) → owns live0 given c →
  wp (tls_set_own_key (Some k)) (λ _ c', owns live0 (given ++ [k]) c' ∧ ctx_freed c' = ctx_freed c) c.
Proof.
  intros Hnd Hin Ho. unfold tls_set_own_key. wp_simpl. pose proof Hnd as (Hnd1 & Hno & _)%NoDup_app.
  eapply wp_free_own_key; [done|done|intros x Hx; apply Hin; auto with tlsuv|]. wp_simpl.
  apply wp_key_live. { cbn. apply elem_of_difference. split; [apply Hin; auto with tlsuv|]. rewrite elem_of_list_to_set. intros Hk. apply (Hno k Hk). by left. }
  assert (∀ c', own_key c' = Some k → live_keys c' = live0 ∖ list_to_set given → owns live0 (given ++ [k]) c') as Howns
    by (intros c' Hk Hl; unfold owns; rewrite Hk; eauto).
  case_if; [wp_simpl; split; [by apply Howns|done]|]. wp_simpl. destruct (get_certificate k) as [store|]; wp_simpl.
  - apply wp_set_cert_internal. intros crt chain. wp_simpl. destruct crt; wp_simpl; [apply wp_check_own; intros r|]; (split; [by apply Howns|done]).
  - destruct (own_cert _); [apply wp_check_own; intros r|]; (split; [by apply Howns|done]).
Qed.
Lemma set_own_cert_owns live0 given buf c : NoDup given → (∀ x, x ∈ given → x ∈ live0) → owns live0 given c →
  wp (tls_set_own_cert buf) (λ _ c', owns live0 given c' ∧ ctx_freed c' = ctx_freed c) c.
Proof.
  intros Hnd Hin Ho. unfold tls_set_own_cert. destruct (load_certs_ends stat load_locations PEM_read_bio_X509 pem_read_shorter buf) as [store Hst]. rewrite Hst. wp_simpl.
  eapply wp_liftO; [done|]. wp_simpl. apply wp_set_cert_internal. intros crt chain. wp_simpl.
  assert (owns live0 given (c <| chain_certs := chain |> <| own_cert := crt |>)) as Ho' by done.
  destruct (own_key _) as [k|] eqn:Hk; [|by wp_simpl]. wp_simpl. apply wp_key_live; [|apply wp_check_own; by intros r].
  unfold owns in Ho'. rewrite Hk in Ho'. destruct Ho' as (before & -> & Hl). rewrite Hl.
  apply NoDup_app in Hnd as (_ & Hno & _). apply elem_of_difference. split; [apply Hin; auto with tlsuv|].
  rewrite elem_of_list_to_set. intros Hb. apply (Hno k Hb). by left.
Qed.
Lemma run_ops_own live0 ops : ∀ given c, NoDup (given ++ keys_of ops) → (∀ x, x ∈ given ++ keys_of ops → x ∈ live0) → owns live0 given c →
  wp (run_ops ops) (λ _ c', owns live0 (given ++ keys_of ops) c' ∧ ctx_freed c' = ctx_freed c) c.
Proof.
  induction ops as [|o ops IH]; intros given c Hnd Hin Ho; cbn [run_ops].
  - wp_simpl. cbn. by rewrite app_nil_r.
  - wp_simpl. destruct o as [k|buf]; cbn [run_op] in *.
    + replace (given ++ keys_of (OpKey k :: ops)) with ((given ++ [k]) ++ keys_of ops) in * by (by rewrite <-app_assoc). eapply wp_mono.
      { apply (set_own_key_owns live0 given k c); [by apply NoDup_app in Hnd as [? _]| |done]. intros x Hx. apply Hin. auto with tlsuv. }
      intros _ c1 [Ho1 Hf1]. eapply wp_mono; [by apply IH|]. cbn. intros _ c2 [? ->]. by rewrite Hf1.
    + change (keys_of (OpCert buf :: ops)) with (keys_of ops) in *. eapply wp_mono. { apply (set_own_cert_owns live0 given buf c); [by apply NoDup_app in Hnd as [? _]| |done]. intros x Hx. apply Hin. auto with tlsuv. }
      intros _ c1 [Ho1 Hf1]. eapply wp_mono; [by apply IH|]. cbn. intros _ c2 [? ->]. by rewrite Hf1.
Qed.

End OwnKey.

Module ToyKeys.
#[local] Existing Instance ToyCerts.lib.
(** Keys 1, 2 and 3; key 2 has a certificate, which does not match it. *)
Definition ctx : openssl_ctx := mkctx _ None None [] None [] {[1; 2; 3]} false.
Definition get_certificate (k : Z) : option (list X509) := if k =? 2 then Some [43; 4] else None.
Definition check (k : Z) (c : option X509) : Z := if k =? 2 then 0 else 1.
(** A text has a certificate for each byte; no file exists. *)
Definition read (b : list Z) : option (X509 * list Z) := match b with c :: b => Some (c, b) | [] => None end.
Lemma read_shorter b c rest : read b = Some (c, rest) → (length rest < length b)%nat.
Proof. destruct b; [done|]. intros [= <- <-]. cbn. lia. Qed.
Definition ops : list ctx_op := [OpKey 1; OpCert [5]; OpKey 2].


(** Setting the key a second time frees it and then uses it. *)
Lemma same_key_twice : run_ops (λ _, None) (λ _, []) read (λ _, 1) check get_certificate [OpKey 1; OpKey 1] ctx = Fault UseAfterFree.
Proof. reflexivity. Qed.
(** The test for a missing key dereferences it. *)
Lemma no_key_crashes : tls_set_own_key (λ _, 1) check get_certificate None ctx = Fault NullDeref.
Proof. reflexivity. Qed.
End ToyKeys.

(** ** Application protocols *)

Definition alpn_size (protos : list (list Z)) : Z := foldl (λ n p, u64 (n + Z.of_nat (length p) + 1)) 0 protos.
(** [*p++ = plen; strncpy(p, protos[i], plen); p += plen] for each *)
Fixpoint alpn_store (buf : list Z) (pos : Z) (protos : list (list Z)) : outcome (list Z) :=
  match protos with
  | [] => buf_write buf pos [0]
  | p :: protos =>
    buf ← buf_write buf pos [u8 (Z.of_nat (length p))];
    buf ← buf_write buf (pos + 1) p;
    alpn_store buf (pos + 1 + Z.of_nat (length p)) protos
  end.
(** The protocols are C strings; the buffer is what [malloc] gave. *)
Definition tls_set_alpn_protocols (protos : list (list Z)) : outcome (list Z) :=
  alpn_store (replicate (Z.to_nat (alpn_size protos + 1)) 0) 0 protos.

(** The list of protocol names of RFC 7301: each with its length in front. *)
Fixpoint alpn_decode (fuel : nat) (wire : list Z) : option (list (list Z)) :=
  match fuel, wire with
  | _, [] => Some []
  | S fuel, n :: wire =>
    if Z.of_nat (length wire) <? n then None
    else (λ l, take (Z.to_nat n) wire :: l) <$> alpn_decode fuel (drop (Z.to_nat n) wire)
  | O, _ => None
  end.
Definition alpn_wire (protos : list (list Z)) : list Z := concat ((λ p, Z.of_nat (length p) :: p) <$> protos).
Definition alpn_name (p : list Z) : Prop := cstr_ok p ∧ (1 ≤ length p ≤ 255)%nat.

Lemma alpn_wire_cons p protos : alpn_wire (p :: protos) = Z.of_nat (length p) :: p ++ alpn_wire protos.
Proof. done. Qed.
Lemma alpn_size_wire protos n : 0 ≤ n → n + Z.of_nat (length (alpn_wire protos)) < 18446744073709551616 →
  foldl (λ n p, u64 (n + Z.of_nat (length p) + 1)) n protos = n + Z.of_nat (length (alpn_wire protos)).
Proof.
  revert n. induction protos as [|p protos IH]; intros n Hn Hl; [cbn; lia|]. rewrite alpn_wire_cons in *. cbn [foldl length] in *.
  rewrite length_app in *. rewrite u64_small, IH by lia. lia.
Qed.
Lemma alpn_store_wire protos buf s : Forall alpn_name protos → buf_has buf s → (length s + length (alpn_wire protos) + 1 ≤ length buf)%nat →
  ∃ buf', alpn_store buf (Z.of_nat (length s)) protos = Ret buf' ∧ length buf' = length buf ∧ buf_has buf' (s ++ alpn_wire protos ++ [0]).
Proof.
  intros HF. revert buf s. induction HF as [|p protos [Hp Hlen] HF IH]; intros buf s Hs Hl; cbn [alpn_store].
  - destruct (buf_write_app buf s [0] Hs) as (buf' & -> & ? & ?); [cbn in *; lia|]. by exists buf'.
  - rewrite alpn_wire_cons in *. cbn [length] in Hl. rewrite length_app in Hl. rewrite u8_small by lia.
    destruct (buf_write_app buf s [Z.of_nat (length p)] Hs) as (b1 & -> & Hl1 & Hs1); [cbn; lia|]. cbn [mbind outcome_bind].
    replace (Z.of_nat (length s) + 1) with (Z.of_nat (length (s ++ [Z.of_nat (length p)]))) by (rewrite length_app; cbn; lia).
    destruct (buf_write_app b1 _ p Hs1) as (b2 & -> & Hl2 & Hs2); [rewrite length_app; cbn; lia|]. cbn [mbind outcome_bind].
    replace (Z.of_nat (length (s ++ [Z.of_nat (length p)])) + Z.of_nat (length p)) with (Z.of_nat (length ((s ++ [Z.of_nat (length p)]) ++ p)))
      by (rewrite (length_app _ p); lia).
    destruct (IH b2 _ Hs2) as (b3 & -> & Hl3 & Hs3); [rewrite !length_app; cbn; lia|].
    exists b3. split; [done|]. split; [lia|]. revert Hs3. cbn [app]. rewrite <-!app_assoc. by cbn [app].
Qed.
Lemma alpn_wire_cstr protos : Forall alpn_name protos → cstr_ok (alpn_wire protos).
Proof.
  induction 1 as [|p protos [Hp Hl] HF IH]; [constructor|]. rewrite alpn_wire_cons. constructor; [lia|]. by apply Forall_app.
Qed.
Lemma alpn_decode_wire protos fuel : Forall alpn_name protos → (length protos ≤ fuel)%nat → alpn_decode fuel (alpn_wire protos) = Some protos.
Proof.
  intros HF. revert fuel. induction HF as [|p protos [Hp Hl] HF IH]; intros fuel Hf; [by destruct fuel|]. rewrite alpn_wire_cons.
  destruct fuel as [|fuel]; [cbn in Hf; lia|]. cbn [alpn_decode]. rewrite length_app.
  destruct (Z.ltb_spec (Z.of_nat (length p + length (alpn_wire protos))) (Z.of_nat (length p))); [lia|].
  rewrite Nat2Z.id, take_app_length, drop_app_length, IH by (cbn in Hf; lia). done.
Qed.
(** C25: the application protocols a program asks for are those the library is given.  The
    buffer is filled exactly, without an access outside it, and the bytes up to its first
    NUL, which a new engine passes on, are the names in the wire format of ALPN. *)
Theorem alpn_roundtrip protos : Forall alpn_name protos → Z.of_nat (length (alpn_wire protos)) < 18446744073709551615 →
  ∃ buf, tls_set_alpn_protocols protos = Ret buf ∧ Z.of_nat (length buf) = alpn_size protos + 1 ∧
    strndup buf (length buf) = alpn_wire protos ∧ alpn_decode (length protos) (strndup buf (length buf)) = Some protos.
Proof.
  intros HF Hl. unfold tls_set_alpn_protocols, alpn_size. rewrite alpn_size_wire by lia.
  set (m := replicate _ 0). assert (length m = length (alpn_wire protos) + 1)%nat as Hm by (unfold m; rewrite length_replicate; lia).
  destruct (alpn_store_wire protos m [] HF) as (buf & Hrun & Hlen & [Hh _]); [split; [done|cbn; lia]|cbn; lia|].
  exists buf. split; [exact Hrun|]. split; [lia|]. cbn [app] in Hh. rewrite length_app, take_ge in Hh by (cbn; lia).
  assert (strndup buf (length buf) = alpn_wire protos) as Hs.
  { rewrite Hh. apply strndup_nul; [by apply alpn_wire_cstr|]. rewrite length_app. cbn. lia. }
  split; [done|]. rewrite Hs. by apply alpn_decode_wire.
Qed.

Lemma alpn_roundtrip_witness : ∃ buf, tls_set_alpn_protocols [bs "h2"; bs "http/1.1"] = Ret buf ∧
  strndup buf (length buf) = 2 :: bs "h2" ++ 8 :: bs "http/1.1" ∧ alpn_decode 2 (strndup buf (length buf)) = Some [bs "h2"; bs "http/1.1"].
Proof.
  destruct (alpn_roundtrip [bs "h2"; bs "http/1.1"]) as (buf & H1 & _ & H2 & H3).
  - repeat constructor; cbn; lia.
  - cbn. lia.
  - exists buf. split; [exact H1|]. split; [exact H2|exact H3].
Defined.

(** An empty name ends the list. *)
Lemma empty_alpn_name_truncates : ∃ buf, tls_set_alpn_protocols [bs "h2"; []; bs "http/1.1"] = Ret buf ∧
  strndup buf (length buf) = 2 :: bs "h2".
Proof. by eexists. Qed.
