(* ===== verification/P11Errors.v ===== *)
(** * The names of PKCS#11 codes (src/pkcs11/pkcs11t.h, [p11_strerror] of src/p11.c and
    src/mbedtls/mbed_p11.c)

    Each of the two functions expands a list of names, [P11_ERRORS], into the cases of a switch over
    the values the header defines for them. *)
From S2P Require Import Prelude.
From stdpp Require Import base list numbers strings.
From Stdlib Require Import ZArith Lia.
Open Scope Z_scope.
Local Open Scope string_scope.
Local Open Scope list_scope.

(** The header's values. *)
Definition ckr_values : list (string * Z) :=
  [
   ("CKR_OK", 0x00000000); ("CKR_CANCEL", 0x00000001); ("CKR_HOST_MEMORY", 0x00000002);
   ("CKR_SLOT_ID_INVALID", 0x00000003); ("CKR_GENERAL_ERROR", 0x00000005); ("CKR_FUNCTION_FAILED", 0x00000006);
   ("CKR_ARGUMENTS_BAD", 0x00000007); ("CKR_NO_EVENT", 0x00000008); ("CKR_NEED_TO_CREATE_THREADS", 0x00000009);
   ("CKR_CANT_LOCK", 0x0000000A); ("CKR_ATTRIBUTE_READ_ONLY", 0x00000010); ("CKR_ATTRIBUTE_SENSITIVE", 0x00000011);
   ("CKR_ATTRIBUTE_TYPE_INVALID", 0x00000012); ("CKR_ATTRIBUTE_VALUE_INVALID", 0x00000013);
   ("CKR_ACTION_PROHIBITED", 0x0000001B); ("CKR_DATA_INVALID", 0x00000020); ("CKR_DATA_LEN_RANGE", 0x00000021);
   ("CKR_DEVICE_ERROR", 0x00000030); ("CKR_DEVICE_MEMORY", 0x00000031); ("CKR_DEVICE_REMOVED", 0x00000032);
   ("CKR_ENCRYPTED_DATA_INVALID", 0x00000040); ("CKR_ENCRYPTED_DATA_LEN_RANGE", 0x00000041);
   ("CKR_FUNCTION_CANCELED", 0x00000050); ("CKR_FUNCTION_NOT_PARALLEL", 0x00000051);
   ("CKR_FUNCTION_NOT_SUPPORTED", 0x00000054); ("CKR_KEY_HANDLE_INVALID", 0x00000060);
   ("CKR_KEY_SIZE_RANGE", 0x00000062); ("CKR_KEY_TYPE_INCONSISTENT", 0x00000063); ("CKR_KEY_NOT_NEEDED", 0x00000064);
   ("CKR_KEY_CHANGED", 0x00000065); ("CKR_KEY_NEEDED", 0x00000066); ("CKR_KEY_INDIGESTIBLE", 0x00000067);
   ("CKR_KEY_FUNCTION_NOT_PERMITTED", 0x00000068); ("CKR_KEY_NOT_WRAPPABLE", 0x00000069);
   ("CKR_KEY_UNEXTRACTABLE", 0x0000006A); ("CKR_MECHANISM_INVALID", 0x00000070);
   ("CKR_MECHANISM_PARAM_INVALID", 0x00000071); ("CKR_OBJECT_HANDLE_INVALID", 0x00000082);
   ("CKR_OPERATION_ACTIVE", 0x00000090); ("CKR_OPERATION_NOT_INITIALIZED", 0x00000091);
   ("CKR_PIN_INCORRECT", 0x000000A0); ("CKR_PIN_INVALID", 0x000000A1); ("CKR_PIN_LEN_RANGE", 0x000000A2);
   ("CKR_PIN_EXPIRED", 0x000000A3); ("CKR_PIN_LOCKED", 0x000000A4); ("CKR_SESSION_CLOSED", 0x000000B0);
   ("CKR_SESSION_COUNT", 0x000000B1); ("CKR_SESSION_HANDLE_INVALID", 0x000000B3);
   ("CKR_SESSION_PARALLEL_NOT_SUPPORTED", 0x000000B4); ("CKR_SESSION_READ_ONLY", 0x000000B5);
   ("CKR_SESSION_EXISTS", 0x000000B6); ("CKR_SESSION_READ_ONLY_EXISTS", 0x000000B7);
   ("CKR_SESSION_READ_WRITE_SO_EXISTS", 0x000000B8); ("CKR_SIGNATURE_INVALID", 0x000000C0);
   ("CKR_SIGNATURE_LEN_RANGE", 0x000000C1); ("CKR_TEMPLATE_INCOMPLETE", 0x000000D0);
   ("CKR_TEMPLATE_INCONSISTENT", 0x000000D1); ("CKR_TOKEN_NOT_PRESENT", 0x000000E0);
   ("CKR_TOKEN_NOT_RECOGNIZED", 0x000000E1); ("CKR_TOKEN_WRITE_PROTECTED", 0x000000E2);
   ("CKR_UNWRAPPING_KEY_HANDLE_INVALID", 0x000000F0); ("CKR_UNWRAPPING_KEY_SIZE_RANGE", 0x000000F1);
   ("CKR_UNWRAPPING_KEY_TYPE_INCONSISTENT", 0x000000F2); ("CKR_USER_ALREADY_LOGGED_IN", 0x00000100);
   ("CKR_USER_NOT_LOGGED_IN", 0x00000101); ("CKR_USER_PIN_NOT_INITIALIZED", 0x00000102);
   ("CKR_USER_TYPE_INVALID", 0x00000103); ("CKR_USER_ANOTHER_ALREADY_LOGGED_IN", 0x00000104);
   ("CKR_USER_TOO_MANY_TYPES", 0x00000105); ("CKR_WRAPPED_KEY_INVALID", 0x00000110);
   ("CKR_WRAPPED_KEY_LEN_RANGE", 0x00000112); ("CKR_WRAPPING_KEY_HANDLE_INVALID", 0x00000113);
   ("CKR_WRAPPING_KEY_SIZE_RANGE", 0x00000114); ("CKR_WRAPPING_KEY_TYPE_INCONSISTENT", 0x00000115);
   ("CKR_RANDOM_SEED_NOT_SUPPORTED", 0x00000120); ("CKR_RANDOM_NO_RNG", 0x00000121);
   ("CKR_DOMAIN_PARAMS_INVALID", 0x00000130); ("CKR_CURVE_NOT_SUPPORTED", 0x00000140);
   ("CKR_BUFFER_TOO_SMALL", 0x00000150); ("CKR_SAVED_STATE_INVALID", 0x00000160);
   ("CKR_INFORMATION_SENSITIVE", 0x00000170); ("CKR_STATE_UNSAVEABLE", 0x00000180);
   ("CKR_CRYPTOKI_NOT_INITIALIZED", 0x00000190); ("CKR_CRYPTOKI_ALREADY_INITIALIZED", 0x00000191);
   ("CKR_MUTEX_BAD", 0x000001A0); ("CKR_MUTEX_NOT_LOCKED", 0x000001A1); ("CKR_NEW_PIN_MODE", 0x000001B0);
   ("CKR_NEXT_OTP", 0x000001B1); ("CKR_EXCEEDED_MAX_ITERATIONS", 0x000001B5);
   ("CKR_FIPS_SELF_TEST_FAILED", 0x000001B6); ("CKR_LIBRARY_LOAD_FAILED", 0x000001B7);
   ("CKR_PIN_TOO_WEAK", 0x000001B8); ("CKR_PUBLIC_KEY_INVALID", 0x000001B9); ("CKR_FUNCTION_REJECTED", 0x00000200);
   ("CKR_VENDOR_DEFINED", 0x80000000)
  ].

(** [P11_ERRORS] of p11.c, and of mbedtls/p11_errors.h. *)
Definition P11_ERRORS : list string :=
  [
   "CKR_OK"; "CKR_CANCEL"; "CKR_HOST_MEMORY"; "CKR_SLOT_ID_INVALID"; "CKR_GENERAL_ERROR"; "CKR_FUNCTION_FAILED";
   "CKR_ARGUMENTS_BAD"; "CKR_NO_EVENT"; "CKR_NEED_TO_CREATE_THREADS"; "CKR_CANT_LOCK"; "CKR_ATTRIBUTE_READ_ONLY";
   "CKR_ATTRIBUTE_SENSITIVE"; "CKR_ATTRIBUTE_TYPE_INVALID"; "CKR_ATTRIBUTE_VALUE_INVALID"; "CKR_ACTION_PROHIBITED";
   "CKR_DATA_INVALID"; "CKR_DATA_LEN_RANGE"; "CKR_DEVICE_ERROR"; "CKR_DEVICE_MEMORY"; "CKR_DEVICE_REMOVED";
   "CKR_ENCRYPTED_DATA_INVALID"; "CKR_ENCRYPTED_DATA_LEN_RANGE"; "CKR_FUNCTION_CANCELED";
   "CKR_FUNCTION_NOT_PARALLEL"; "CKR_FUNCTION_NOT_SUPPORTED"; "CKR_KEY_HANDLE_INVALID"; "CKR_KEY_SIZE_RANGE";
   "CKR_KEY_TYPE_INCONSISTENT"; "CKR_KEY_NOT_NEEDED"; "CKR_KEY_CHANGED"; "CKR_KEY_NEEDED"; "CKR_KEY_INDIGESTIBLE";
   "CKR_KEY_FUNCTION_NOT_PERMITTED"; "CKR_KEY_NOT_WRAPPABLE"; "CKR_KEY_UNEXTRACTABLE"; "CKR_MECHANISM_INVALID";
   "CKR_MECHANISM_PARAM_INVALID"; "CKR_OBJECT_HANDLE_INVALID"; "CKR_OPERATION_ACTIVE";
   "CKR_OPERATION_NOT_INITIALIZED"; "CKR_PIN_INCORRECT"; "CKR_PIN_INVALID"; "CKR_PIN_LEN_RANGE"; "CKR_PIN_EXPIRED";
   "CKR_PIN_LOCKED"; "CKR_SESSION_CLOSED"; "CKR_SESSION_COUNT"; "CKR_SESSION_HANDLE_INVALID";
   "CKR_SESSION_PARALLEL_NOT_SUPPORTED"; "CKR_SESSION_READ_ONLY"; "CKR_SESSION_EXISTS";
   "CKR_SESSION_READ_ONLY_EXISTS"; "CKR_SESSION_READ_WRITE_SO_EXISTS"; "CKR_SIGNATURE_INVALID";
   "CKR_SIGNATURE_LEN_RANGE"; "CKR_TEMPLATE_INCOMPLETE"; "CKR_TEMPLATE_INCONSISTENT"; "CKR_TOKEN_NOT_PRESENT";
   "CKR_TOKEN_NOT_RECOGNIZED"; "CKR_TOKEN_WRITE_PROTECTED"; "CKR_UNWRAPPING_KEY_HANDLE_INVALID";
   "CKR_UNWRAPPING_KEY_SIZE_RANGE"; "CKR_UNWRAPPING_KEY_TYPE_INCONSISTENT"; "CKR_USER_ALREADY_LOGGED_IN";
   "CKR_USER_NOT_LOGGED_IN"; "CKR_USER_PIN_NOT_INITIALIZED"; "CKR_USER_TYPE_INVALID";
   "CKR_USER_ANOTHER_ALREADY_LOGGED_IN"; "CKR_USER_TOO_MANY_TYPES"; "CKR_WRAPPED_KEY_INVALID";
   "CKR_WRAPPED_KEY_LEN_RANGE"; "CKR_WRAPPING_KEY_HANDLE_INVALID"; "CKR_WRAPPING_KEY_SIZE_RANGE";
   "CKR_WRAPPING_KEY_TYPE_INCONSISTENT"; "CKR_RANDOM_SEED_NOT_SUPPORTED"; "CKR_RANDOM_NO_RNG";
   "CKR_DOMAIN_PARAMS_INVALID"; "CKR_CURVE_NOT_SUPPORTED"; "CKR_BUFFER_TOO_SMALL"; "CKR_SAVED_STATE_INVALID";
   "CKR_INFORMATION_SENSITIVE"; "CKR_STATE_UNSAVEABLE"; "CKR_CRYPTOKI_NOT_INITIALIZED";
   "CKR_CRYPTOKI_ALREADY_INITIALIZED"; "CKR_MUTEX_BAD"; "CKR_MUTEX_NOT_LOCKED"; "CKR_NEW_PIN_MODE"; "CKR_NEXT_OTP";
   "CKR_EXCEEDED_MAX_ITERATIONS"; "CKR_FIPS_SELF_TEST_FAILED"; "CKR_LIBRARY_LOAD_FAILED"; "CKR_PIN_TOO_WEAK";
   "CKR_PUBLIC_KEY_INVALID"; "CKR_FUNCTION_REJECTED"; "CKR_VENDOR_DEFINED"
  ].
Definition MBED_P11_ERRORS : list string :=
  [
   "CKR_OK"; "CKR_CANCEL"; "CKR_HOST_MEMORY"; "CKR_SLOT_ID_INVALID"; "CKR_GENERAL_ERROR"; "CKR_FUNCTION_FAILED";
   "CKR_ARGUMENTS_BAD"; "CKR_NO_EVENT"; "CKR_NEED_TO_CREATE_THREADS"; "CKR_CANT_LOCK"; "CKR_ATTRIBUTE_READ_ONLY";
   "CKR_ATTRIBUTE_SENSITIVE"; "CKR_ATTRIBUTE_TYPE_INVALID"; "CKR_ATTRIBUTE_VALUE_INVALID"; "CKR_ACTION_PROHIBITED";
   "CKR_DATA_INVALID"; "CKR_DATA_LEN_RANGE"; "CKR_DEVICE_ERROR"; "CKR_DEVICE_MEMORY"; "CKR_DEVICE_REMOVED";
   "CKR_ENCRYPTED_DATA_INVALID"; "CKR_ENCRYPTED_DATA_LEN_RANGE"; "CKR_FUNCTION_CANCELED";
   "CKR_FUNCTION_NOT_PARALLEL"; "CKR_FUNCTION_NOT_SUPPORTED"; "CKR_KEY_HANDLE_INVALID"; "CKR_KEY_SIZE_RANGE";
   "CKR_KEY_TYPE_INCONSISTENT"; "CKR_KEY_NOT_NEEDED"; "CKR_KEY_CHANGED"; "CKR_KEY_NEEDED"; "CKR_KEY_INDIGESTIBLE";
   "CKR_KEY_FUNCTION_NOT_PERMITTED"; "CKR_KEY_NOT_WRAPPABLE"; "CKR_KEY_UNEXTRACTABLE"; "CKR_MECHANISM_INVALID";
   "CKR_MECHANISM_PARAM_INVALID"; "CKR_OBJECT_HANDLE_INVALID"; "CKR_OPERATION_ACTIVE";
   "CKR_OPERATION_NOT_INITIALIZED"; "CKR_PIN_INCORRECT"; "CKR_PIN_INVALID"; "CKR_PIN_LEN_RANGE"; "CKR_PIN_EXPIRED";
   "CKR_PIN_LOCKED"; "CKR_SESSION_CLOSED"; "CKR_SESSION_COUNT"; "CKR_SESSION_HANDLE_INVALID";
   "CKR_SESSION_PARALLEL_NOT_SUPPORTED"; "CKR_SESSION_READ_ONLY"; "CKR_SESSION_EXISTS";
   "CKR_SESSION_READ_ONLY_EXISTS"; "CKR_SESSION_READ_WRITE_SO_EXISTS"; "CKR_SIGNATURE_INVALID";
   "CKR_SIGNATURE_LEN_RANGE"; "CKR_TEMPLATE_INCOMPLETE"; "CKR_TEMPLATE_INCONSISTENT"; "CKR_TOKEN_NOT_PRESENT";
   "CKR_TOKEN_NOT_RECOGNIZED"; "CKR_TOKEN_WRITE_PROTECTED"; "CKR_UNWRAPPING_KEY_HANDLE_INVALID";
   "CKR_UNWRAPPING_KEY_SIZE_RANGE"; "CKR_UNWRAPPING_KEY_TYPE_INCONSISTENT"; "CKR_USER_ALREADY_LOGGED_IN";
   "CKR_USER_NOT_LOGGED_IN"; "CKR_USER_PIN_NOT_INITIALIZED"; "CKR_USER_TYPE_INVALID";
   "CKR_USER_ANOTHER_ALREADY_LOGGED_IN"; "CKR_USER_TOO_MANY_TYPES"; "CKR_WRAPPED_KEY_INVALID";
   "CKR_WRAPPED_KEY_LEN_RANGE"; "CKR_WRAPPING_KEY_HANDLE_INVALID"; "CKR_WRAPPING_KEY_SIZE_RANGE";
   "CKR_WRAPPING_KEY_TYPE_INCONSISTENT"; "CKR_RANDOM_SEED_NOT_SUPPORTED"; "CKR_RANDOM_NO_RNG";
   "CKR_DOMAIN_PARAMS_INVALID"; "CKR_CURVE_NOT_SUPPORTED"; "CKR_BUFFER_TOO_SMALL"; "CKR_SAVED_STATE_INVALID";
   "CKR_INFORMATION_SENSITIVE"; "CKR_STATE_UNSAVEABLE"; "CKR_CRYPTOKI_NOT_INITIALIZED";
   "CKR_CRYPTOKI_ALREADY_INITIALIZED"; "CKR_MUTEX_BAD"; "CKR_MUTEX_NOT_LOCKED"; "CKR_NEW_PIN_MODE"; "CKR_NEXT_OTP";
   "CKR_EXCEEDED_MAX_ITERATIONS"; "CKR_FIPS_SELF_TEST_FAILED"; "CKR_LIBRARY_LOAD_FAILED"; "CKR_PIN_TOO_WEAK";
   "CKR_PUBLIC_KEY_INVALID"; "CKR_FUNCTION_REJECTED"; "CKR_VENDOR_DEFINED"
  ].

(** The value a name stands for. *)
Definition ckr_value (name : string) : option Z := (λ x, x.2.2) <$> list_find (λ x, x.1 = name) ckr_values.

(** The switch: the case of the name with this value. *)
Definition switch_names (errors : list string) (rv : Z) : string :=
  match list_find (λ e, ckr_value e = Some rv) errors with Some (_, e) => e | None => "Unexpected Error" end.
Definition p11_strerror (rv : Z) : string := switch_names P11_ERRORS rv.
Definition mbed_p11_strerror (rv : Z) : string := switch_names MBED_P11_ERRORS rv.

Definition code_name (rv : Z) : option string := (λ x, x.2.1) <$> list_find (λ x, x.2 = rv) ckr_values.

(** The names of the switch are those of the header. *)
Lemma named_codes : Forall (λ x, ckr_value x.1 = Some x.2 ∧ p11_strerror x.2 = x.1 ∧ code_name x.2 = Some x.1) ckr_values.
Proof. eapply bool_decide_eq_true_1. vm_compute. reflexivity. Qed.
Lemma errors_named : P11_ERRORS = ckr_values.*1 ∧ MBED_P11_ERRORS = P11_ERRORS.
Proof. split; vm_compute; reflexivity. Qed.

(** Both functions give every value the header names that name, and every other value the same
    text: no name is missing from their lists, no two share a value. *)
Theorem strerror_complete rv :
  p11_strerror rv = default "Unexpected Error" (code_name rv) ∧ mbed_p11_strerror rv = p11_strerror rv.
Proof.
  split; [|unfold mbed_p11_strerror, p11_strerror; by rewrite (proj2 errors_named)].
  destruct (decide (rv ∈ ckr_values.*2)) as [Hin|Hout].
  - apply list_elem_of_fmap in Hin as ([name v] & -> & Hin). pose proof named_codes as Hall.
    rewrite Forall_forall in Hall. by destruct (Hall _ Hin) as (_ & -> & ->).
  - unfold p11_strerror, switch_names, code_name. rewrite (proj1 errors_named).
    assert (H1 : list_find (λ e, ckr_value e = Some rv) ckr_values.*1 = None).
    { apply list_find_None, Forall_forall. intros e ([name v] & -> & Hin)%list_elem_of_fmap. pose proof named_codes as Hall.
      rewrite Forall_forall in Hall. destruct (Hall _ Hin) as (Hv & _). rewrite Hv. intros Heq. apply Hout, list_elem_of_fmap. exists (name, v). by injection Heq as ->. }
    assert (H2 : list_find (λ x : string * Z, x.2 = rv) ckr_values = None).
    { apply list_find_None, Forall_forall. intros x Hin <-. by apply Hout, list_elem_of_fmap_2. }
    by rewrite H1, H2.
Qed.

(** The callers keep codes as [int]: one that does not fit loses its name. *)
Lemma vendor_code_unnamed : p11_strerror 0x80000000 = "CKR_VENDOR_DEFINED" ∧ p11_strerror (u64 (i32 0x80000000)) = "Unexpected Error".
Proof. split; vm_compute; reflexivity. Qed.
