(* ===== verification/P11.v ===== *)
(** * Access to PKCS#11 tokens (src/p11.c, src/p11.h)

    The token is the class [Cryptoki]: a state and the calls of the function list.  A template
    is the list of its attributes; an attribute is its type and the bytes of its value.  The
    laws of a working token ([TokenLaws]) are those of the PKCS#11 specification, over the
    objects it holds and the search that is under way. *)
From S2P Require Import Prelude CLib.
From stdpp Require Import base list gmap numbers strings.
From Stdlib Require Import ZArith Lia.
Open Scope Z_scope.

(** ** Constants (src/pkcs11/pkcs11t.h) *)
Definition CKR_OK : Z := 0.
Definition CKR_FUNCTION_FAILED : Z := 6.
Definition CKR_KEY_NEEDED : Z := 102.
Definition CKR_USER_ALREADY_LOGGED_IN : Z := 256.
Definition CKR_CRYPTOKI_ALREADY_INITIALIZED : Z := 401.
Definition CKR_LIBRARY_LOAD_FAILED : Z := 439.
Definition CKO_CERTIFICATE : Z := 1.
Definition CKO_PUBLIC_KEY : Z := 2.
Definition CKO_PRIVATE_KEY : Z := 3.
Definition CKA_CLASS : Z := 0.
Definition CKA_TOKEN : Z := 1.
Definition CKA_PRIVATE : Z := 2.
Definition CKA_LABEL : Z := 3.
Definition CKA_VALUE : Z := 17.
Definition CKA_CERTIFICATE_TYPE : Z := 128.
Definition CKA_KEY_TYPE : Z := 256.
Definition CKA_SUBJECT : Z := 257.
Definition CKA_ID : Z := 258.
Definition CKA_SENSITIVE : Z := 259.
Definition CKA_ENCRYPT : Z := 260.
Definition CKA_DECRYPT : Z := 261.
Definition CKA_WRAP : Z := 262.
Definition CKA_UNWRAP : Z := 263.
Definition CKA_SIGN : Z := 264.
Definition CKA_VERIFY : Z := 266.
Definition CKA_MODULUS_BITS : Z := 289.
Definition CKA_MODULUS : Z := 288.
Definition CKA_PUBLIC_EXPONENT : Z := 290.
Definition CKA_EC_PARAMS : Z := 384.
Definition CKA_EC_POINT : Z := 385.
Definition CKK_RSA : Z := 0.
Definition CKK_EC : Z := 3.
Definition CKC_X_509 : Z := 0.
Definition CKM_RSA_PKCS_KEY_PAIR_GEN : Z := 0.
Definition CKM_RSA_PKCS : Z := 1.
Definition CKM_EC_KEY_PAIR_GEN : Z := 4160.
Definition CKM_ECDSA : Z := 4161.
Definition CKF_GENERATE_KEY_PAIR : Z := 65536.

Definition template : Type := list (Z * list Z).

(** The functions of the module; a null pointer for the value of an attribute is [None]. *)
Class Cryptoki := {
  token : Type;
  C_Initialize : token → Z * token;
  C_GetSlotList : token → Z * list Z * token;
  C_OpenSession : token → Z → Z * Z * token;
  C_Login : token → Z → list Z → Z * token;
  C_GetMechanismInfo : token → Z → Z → Z * (Z * Z);       (* flags and ulMaxKeySize *)
  C_GenerateRandom : token → Z → Z → list Z * token;
  C_GenerateKeyPair : token → Z → Z → template → template → Z * Z * Z * token;
  C_CreateObject : token → Z → template → Z * Z * token;
  C_FindObjectsInit : token → Z → template → Z * token;
  C_FindObjects : token → Z → Z → Z * list Z * token;
  C_FindObjectsFinal : token → Z → Z * token;
  C_GetAttributeValue : token → Z → Z → Z → option Z → Z * Z * list Z;
  C_SignInit : token → Z → Z → Z → Z * token;
  C_Sign : token → Z → list Z → Z → Z * list Z * token;
}.

(** A [CK_ULONG] and a [CK_BBOOL] as the bytes of an attribute. *)
Definition ulong (n : Z) : list Z := (λ i, u8 (Z.shiftr n (8 * Z.of_nat i))) <$> seq 0 8.
Definition of_ulong (b : list Z) : Z := foldr (λ x acc, x + 256 * acc) 0 (take 8 b).
Definition bbool (b : bool) : list Z := [if b then 1 else 0].

(** ** Numbers in text *)

Definition hex_val (c : Z) : option Z :=
  if isdigit c then Some (c - 48)
  else if (97 <=? c) && (c <=? 102) then Some (c - 87)
  else if (65 <=? c) && (c <=? 70) then Some (c - 55)
  else None.
Definition is_hex (c : Z) : bool := match hex_val c with Some _ => true | None => false end.
Definition hex_num (l : list Z) : Z := foldl (λ n c, 16 * n + default 0 (hex_val c)) 0 l.
(** [strtoul] and [scanf] skip blanks and take a sign. *)
Definition scan_sign (s : list Z) : bool * list Z :=
  match (span isspace s).2 with
  | 45 :: s => (true, s)
  | 43 :: s => (false, s)
  | s => (false, s)
  end.
Definition has_0x (s : list Z) : bool := match s with 48 :: c :: _ => (c =? 120) || (c =? 88) | _ => false end.
(** [strtoul(s, NULL, 16)] *)
Definition strtoul16 (s : list Z) : Z :=
  let '(neg, s) := scan_sign s in
  let s := if has_0x s && match s !! 2%nat with Some c => is_hex c | None => false end then drop 2 s else s in
  let v := Z.min (hex_num (span is_hex s).1) 18446744073709551615 in
  u64 (if neg then - v else v).
(** [sscanf(s, "%2hhx", &v)]: a sign counts for the width; [0x] alone is no number. *)
Definition sscanf_2hhx (s : list Z) : option Z :=
  let blank := (span isspace s).2 in
  let '(neg, digits) := scan_sign s in
  let width := (2 - (length blank - length digits))%nat in
  if has_0x (take width digits) then None
  else match (span is_hex (take width digits)).1 with
       | [] => None
       | l => Some (u8 (if neg then - hex_num l else hex_num l))
       end.

Abbreviation E A := (M token (Z + A)%type).
Section P11.
Context `{Cryptoki}.

Record p11_context := mkp11 { session : Z; slot_id : Z }.
Record p11_key_ctx := mkkey { key_type : Z; priv_handle : Z; pub_handle : Z }.

(** [P11(op)] ends the function with the code of a call that failed. *)
Definition P11 {A} (op : token → Z * A * token) : E A := fun t =>
  let '(rv, a, t) := op t in Ret (if i32 rv =? CKR_OK then inr a else inl (i32 rv), t).
Definition tt_of (op : token → Z * token) : token → Z * unit * token := fun t => let '(rv, t) := op t in (rv, tt, t).
Definition bindE {A B} (m : E A) (k : A → E B) : E B :=
  r ← m; match r with inl rc => mret (inl rc) | inr a => k a end.
Definition retE {A} (a : A) : E A := mret (inr a).
Definition failE {A} (rc : Z) : E A := mret (inl rc).
(** A call whose code the function looks at. *)
Definition call {A} (op : token → A * token) : M token A := fun t => Ret (op t).
End P11.
Notation "x ←! m ; k" := (bindE m (λ x, k)) (at level 20, m at level 100, k at level 200, only parsing).

Section Functions.
Context `{Cryptoki}.
(** [dlopen], [dlsym] of [C_GetFunctionList], and the call of it *)
Context (dlopen dlsym : list Z → bool) (C_GetFunctionList : token → Z * token).

Definition first_slot (slots : list Z) : outcome Z := match slots with s :: _ => Ret s | [] => Fault OutOfBounds end.

Definition p11_init (lib : list Z) (slot : option (list Z)) (pin : list Z) : E p11_context :=
  if negb (dlopen lib) then failE CKR_FUNCTION_FAILED
  else if negb (dlsym lib) then failE CKR_LIBRARY_LOAD_FAILED
  else
    _ ←! P11 (tt_of C_GetFunctionList);
    err ← call C_Initialize;
    if negb ((err =? CKR_OK) || (err =? CKR_CRYPTOKI_ALREADY_INITIALIZED)) then failE (i32 err)
    else
      slot_id ←!
        match slot with
        | Some ((_ :: _) as s) => retE (strtoul16 s)
        | _ => _ ←! P11 C_GetSlotList; slots ←! P11 C_GetSlotList; s ← liftO (first_slot slots); retE s
        end;
      session ←! P11 (λ t, C_OpenSession t slot_id);
      err ← call (λ t, C_Login t session pin);
      if negb ((err =? CKR_OK) || (err =? CKR_USER_ALREADY_LOGGED_IN)) then failE (i32 err)
      else retE (mkp11 session slot_id).

(** The value and its length, read in two calls into a buffer of the size of the first. *)
Definition p11_get_obj_attr (p11 : p11_context) (h ty : Z) : M token (Z * option (list Z)) :=
  t ← get;
  let '(rv, len, _) := C_GetAttributeValue t (session p11) h ty None in
  if negb (rv =? CKR_OK) then mret (i32 rv, None)
  else
    let '(rv, _, bytes) := C_GetAttributeValue t (session p11) h ty (Some len) in
    if negb (rv =? CKR_OK) then mret (i32 rv, None)
    else if len + 1 <? Z.of_nat (length bytes) then fail_with OutOfBounds
    else mret (0, Some (take (Z.to_nat len) (bytes ++ replicate (Z.to_nat len) 0))).
Definition p11_get_key_attr (p11 : p11_context) (key : p11_key_ctx) (ty : Z) : M token (Z * option (list Z)) :=
  p11_get_obj_attr p11 (pub_handle key) ty.

(** [C_FindObjectsInit], [C_FindObjects] for one object, [C_FindObjectsFinal] *)
Definition find_one (p11 : p11_context) (query : template) : E (option Z) :=
  _ ←! P11 (tt_of (λ t, C_FindObjectsInit t (session p11) query));
  hs ←! P11 (λ t, C_FindObjects t (session p11) 1);
  _ ←! P11 (tt_of (λ t, C_FindObjectsFinal t (session p11)));
  retE (head hs).

(** [char id[32]]; [junk] is what it held before. *)
Fixpoint scan_id (n : nat) (idx : nat) (id s : list Z) : outcome (list Z) :=
  match n with
  | O => Ret id
  | S n =>
    match sscanf_2hhx s with
    | Some v => if (idx <? length id)%nat then scan_id n (S idx) (<[idx := v]> id) (drop 2 s) else Fault OutOfBounds
    | None => scan_id n (S idx) id (drop 2 s)
    end
  end.
Definition parse_id (junk idstr : list Z) : outcome (list Z) :=
  let idlen := ((length idstr + 1) / 2)%nat in
  id ← scan_id idlen 0 junk idstr;
  if (idlen <=? length id)%nat then Ret (take idlen id) else Fault OutOfBounds.

Definition p11_load_key (junk : list Z) (p11 : p11_context) (idstr label : option (list Z)) : E p11_key_ctx :=
  query ←!
    match idstr, label with
    | Some ((_ :: _) as i), _ => id ← liftO (parse_id junk i); retE [(CKA_ID, id)]
    | _, Some ((_ :: _) as l) => retE [(CKA_LABEL, l)]
    | _, _ => failE CKR_KEY_NEEDED
    end;
  priv ←! find_one p11 ((CKA_CLASS, ulong CKO_PRIVATE_KEY) :: query);
  match priv with
  | None => failE CKR_KEY_NEEDED
  | Some privh =>
    pub ←! find_one p11 ((CKA_CLASS, ulong CKO_PUBLIC_KEY) :: query);
    match pub with
    | None => failE CKR_KEY_NEEDED
    | Some pubh =>
      kt ←! P11 (λ t, let '(rv, _, bytes) := C_GetAttributeValue t (session p11) privh CKA_KEY_TYPE (Some 8) in (rv, bytes, t));
      retE (mkkey (of_ulong kt) privh pubh)
    end
  end.

(** [set_attr_ptr]: an attribute without a value is left out. *)
Definition attr_opt (ty : Z) (v : option (list Z)) : template := match v with Some v => [(ty, v)] | None => [] end.

Definition cert_template (id label : option (list Z)) (subj cert : list Z) : template :=
  [(CKA_CLASS, ulong CKO_CERTIFICATE); (CKA_PRIVATE, bbool false); (CKA_TOKEN, bbool true); (CKA_CERTIFICATE_TYPE, ulong CKC_X_509)]
  ++ attr_opt CKA_ID id ++ attr_opt CKA_LABEL label ++ [(CKA_SUBJECT, subj); (CKA_VALUE, cert)].
Definition p11_store_key_cert (p11 : p11_context) (key : p11_key_ctx) (cert subj : list Z) : M token Z :=
  '(_, id) ← p11_get_obj_attr p11 (priv_handle key) CKA_ID;
  '(_, label) ← p11_get_obj_attr p11 (priv_handle key) CKA_LABEL;
  rc ← call (λ t, let '(rv, _, t) := C_CreateObject t (session p11) (cert_template id label subj cert) in (rv, t));
  mret (if rc =? CKR_OK then 0 else -1).

(** Without an identifier the search is for an empty one. *)
Definition p11_get_key_cert (p11 : p11_context) (key : p11_key_ctx) : M token (Z * option (list Z)) :=
  '(_, id) ← p11_get_obj_attr p11 (priv_handle key) CKA_ID;
  r ← find_one p11 [(CKA_CLASS, ulong CKO_CERTIFICATE); (CKA_ID, default [] id)];
  match r with
  | inl rc => mret (rc, None)
  | inr None => mret (-1, None)
  | inr (Some h) => p11_get_obj_attr p11 h CKA_VALUE
  end.

(** The object identifiers of the curves. *)
Definition get_ec_params (keysize : Z) : option (list Z) :=
  if 521 <=? keysize then Some [6; 5; 43; 129; 4; 0; 35]
  else if 384 <=? keysize then Some [6; 5; 43; 129; 4; 0; 34]
  else if 256 <=? keysize then Some [6; 8; 42; 134; 72; 206; 61; 3; 1; 7]
  else if 244 <=? keysize then Some [6; 5; 43; 129; 4; 0; 33]
  else if 192 <=? keysize then Some [6; 8; 42; 134; 72; 206; 61; 3; 1; 1]
  else None.

(** Both rounds ask the token about the first mechanism. *)
Fixpoint find_mechanism (t : token) (p11 : p11_context) (first : Z) (types : list Z) : option (Z * Z * Z) :=
  match types with
  | [] => None
  | ty :: types =>
    let '(rv, (flags, maxsize)) := C_GetMechanismInfo t (slot_id p11) first in
    if (rv =? CKR_OK) && negb (Z.land flags CKF_GENERATE_KEY_PAIR =? 0)
    then Some (ty, if ty =? CKM_RSA_PKCS_KEY_PAIR_GEN then CKK_RSA else CKK_EC, maxsize)
    else find_mechanism t p11 first types
  end.
Definition priv_template (id : list Z) (kt : Z) (label : option (list Z)) : template :=
  [(CKA_ID, id); (CKA_CLASS, ulong CKO_PRIVATE_KEY); (CKA_KEY_TYPE, ulong kt); (CKA_PRIVATE, bbool true); (CKA_TOKEN, bbool true);
   (CKA_SENSITIVE, bbool true); (CKA_DECRYPT, bbool true); (CKA_SIGN, bbool true); (CKA_UNWRAP, bbool true)] ++ attr_opt CKA_LABEL label.
Definition pub_template (id : list Z) (kt keysize : Z) (label : option (list Z)) : template :=
  [(CKA_ID, id); (CKA_CLASS, ulong CKO_PUBLIC_KEY); (CKA_KEY_TYPE, ulong kt); (CKA_TOKEN, bbool true);
   (CKA_ENCRYPT, bbool true); (CKA_VERIFY, bbool true); (CKA_WRAP, bbool true)] ++ attr_opt CKA_LABEL label ++
  (if kt =? CKK_EC then attr_opt CKA_EC_PARAMS (get_ec_params (i32 keysize)) else []) ++
  (if kt =? CKK_RSA then [(CKA_MODULUS_BITS, ulong keysize); (CKA_PUBLIC_EXPONENT, [1; 0; 1])] else []).
Definition p11_gen_key (p11 : p11_context) (label : option (list Z)) : E p11_key_ctx :=
  t ← get;
  match find_mechanism t p11 CKM_EC_KEY_PAIR_GEN [CKM_EC_KEY_PAIR_GEN; CKM_RSA_PKCS_KEY_PAIR_GEN] with
  | None => failE (-1)
  | Some (mech, kt, keysize) =>
    id ← call (λ t, C_GenerateRandom t (session p11) 8);
    '(rv, pubh, privh) ← call (λ t, C_GenerateKeyPair t (session p11) mech (pub_template id kt keysize label) (priv_template id kt label));
    if rv =? CKR_OK then retE (mkkey kt privh pubh) else failE (-1)
  end.

(** [room] is the size of the buffer for the signature. *)
Definition p11_key_sign (p11 : p11_context) (key : p11_key_ctx) (digest : list Z) (room padding : Z) : M token (Z * list Z) :=
  let mech := if key_type key =? CKK_EC then CKM_ECDSA else if key_type key =? CKK_RSA then padding else 0 in
  rc ← call (λ t, C_SignInit t (session p11) mech (priv_handle key));
  if negb (rc =? CKR_OK) then mret (-1, [])
  else
    '(rc, sig) ← call (λ t, C_Sign t (session p11) digest room);
    if negb (rc =? CKR_OK) then mret (-1, []) else mret (0, sig).
End Functions.

(** ** Working tokens *)

(** The search of the session: none, started with a query, or with objects taken from it. *)
Inductive phase := Idle | Started (query : template) | Fetched.

Definition matches (query : template) (o : gmap Z (list Z)) : Prop := Forall (λ a, o !! a.1 = Some a.2) query.

Class TokenLaws `{Cryptoki} := {
  objects : token → gmap Z (gmap Z (list Z));
  searching : token → phase;
  find_init_ok t s q : searching t = Idle → ∃ t', C_FindObjectsInit t s q = (CKR_OK, t') ∧ searching t' = Started q ∧ objects t' = objects t;
  find_ok t s q : searching t = Started q → ∃ hs t', C_FindObjects t s 1 = (CKR_OK, hs, t') ∧ searching t' = Fetched ∧ objects t' = objects t ∧
    (∀ h, h ∈ hs → ∃ o, objects t !! h = Some o ∧ matches q o) ∧ (hs = [] → ∀ h o, objects t !! h = Some o → ¬ matches q o);
  find_final_ok t s : searching t ≠ Idle → ∃ t', C_FindObjectsFinal t s = (CKR_OK, t') ∧ searching t' = Idle ∧ objects t' = objects t;
  attr_ok t s h ty o v : objects t !! h = Some o → o !! ty = Some v →
    C_GetAttributeValue t s h ty None = (CKR_OK, Z.of_nat (length v), []) ∧
    ∀ n, Z.of_nat (length v) ≤ n → C_GetAttributeValue t s h ty (Some n) = (CKR_OK, Z.of_nat (length v), v);
  attr_missing t s h ty o b : objects t !! h = Some o → o !! ty = None → (C_GetAttributeValue t s h ty b).1.1 ≠ CKR_OK;
  create_ok t s q h t' : C_CreateObject t s q = (CKR_OK, h, t') →
    objects t !! h = None ∧ objects t' = <[h := list_to_map q]> (objects t) ∧ searching t' = searching t;
}.

Section Proofs.
Context `{TokenLaws}.

Lemma get_obj_attr_value p11 h ty o v t : objects t !! h = Some o → o !! ty = Some v →
  p11_get_obj_attr p11 h ty t = Ret (0, Some v, t).
Proof.
  intros Ho Hv. destruct (attr_ok t (session p11) h ty o v Ho Hv) as [H1 H2].
  unfold p11_get_obj_attr, mbind, M_bind, get. rewrite H1. cbn [Z.eqb CKR_OK negb]. rewrite H2 by lia. cbn [Z.eqb CKR_OK negb].
  destruct (Z.ltb_spec (Z.of_nat (length v) + 1) (Z.of_nat (length v))); [lia|]. by rewrite Nat2Z.id, take_app_length.
Qed.
(** Reading an attribute of an object never faults. *)
Lemma get_obj_attr_total p11 h ty o t : objects t !! h = Some o → ∃ rc, p11_get_obj_attr p11 h ty t = Ret (rc, o !! ty, t).
Proof.
  intros Ho. destruct (o !! ty) as [v|] eqn:Hv; [exists 0; by eapply get_obj_attr_value|].
  pose proof (attr_missing t (session p11) h ty o None Ho Hv) as Hm. unfold p11_get_obj_attr, mbind, M_bind, get.
  destruct (C_GetAttributeValue t (session p11) h ty None) as [[rv len] b]. cbn in Hm. destruct (Z.eqb_spec rv CKR_OK); [done|]. by eexists.
Qed.

Lemma bindE_ok {A B} (op : token → Z * A * token) (k : A → E B) t a t' : op t = (CKR_OK, a, t') → bindE (P11 op) k t = k a t'.
Proof. intros Ho. unfold bindE, P11, mbind, M_bind. by rewrite Ho. Qed.

Lemma bindE_run {A B} (m : E A) (k : A → E B) t a t' : m t = Ret (inr a, t') → bindE m k t = k a t'.
Proof. intros Hm. unfold bindE, mbind, M_bind. by rewrite Hm. Qed.

(** A search finds an object that matches, if there is one. *)
Lemma find_one_ok p11 q t : searching t = Idle → ∃ r t', find_one p11 q t = Ret (inr r, t') ∧ searching t' = Idle ∧ objects t' = objects t ∧
  match r with
  | Some h => ∃ o, objects t !! h = Some o ∧ matches q o
  | None => ∀ h o, objects t !! h = Some o → ¬ matches q o
  end.
Proof.
  intros Hi. destruct (find_init_ok t (session p11) q Hi) as (t1 & H1 & Hs1 & Ho1).
  destruct (find_ok t1 (session p11) q Hs1) as (hs & t2 & H2 & Hs2 & Ho2 & Hin & Hno).
  destruct (find_final_ok t2 (session p11)) as (t3 & H3 & Hs3 & Ho3); [by rewrite Hs2|].
  unfold find_one. erewrite bindE_ok by (unfold tt_of; by rewrite H1). erewrite bindE_ok by done. erewrite bindE_ok by (unfold tt_of; by rewrite H3).
  exists (head hs), t3. rewrite Ho1 in *. split; [done|]. split; [done|]. split; [congruence|].
  destruct hs as [|h hs]; [exact (Hno eq_refl)|]. apply Hin. by left.
Qed.

Lemma cert_template_lookup id label subj cert : let o : gmap Z (list Z) := list_to_map (cert_template (Some id) label subj cert) in
  o !! CKA_CLASS = Some (ulong CKO_CERTIFICATE) ∧ o !! CKA_ID = Some id ∧ o !! CKA_VALUE = Some cert.
Proof. by destruct label. Qed.


(** ** Identifiers in text *)

(** Two digits for each byte. *)
Definition print_id (id : list Z) : list Z := concat ((λ b, [digit_char (b / 16); digit_char (b mod 16)]) <$> id).

Ltac nibble d := let Hc := fresh in
  assert (d = 0 ∨ d = 1 ∨ d = 2 ∨ d = 3 ∨ d = 4 ∨ d = 5 ∨ d = 6 ∨ d = 7 ∨ d = 8 ∨ d = 9 ∨ d = 10 ∨ d = 11 ∨ d = 12 ∨ d = 13 ∨ d = 14 ∨ d = 15) as Hc by lia;
  repeat destruct Hc as [->|Hc]; [..|subst].
Lemma hex_val_digit d : 0 ≤ d < 16 → hex_val (digit_char d) = Some d ∧ isspace (digit_char d) = false.
Proof. intros Hd. by nibble d. Qed.
Lemma sscanf_digits a b rest : 0 ≤ a < 16 → 0 ≤ b < 16 → sscanf_2hhx (digit_char a :: digit_char b :: rest) = Some (16 * a + b).
Proof.
  intros Ha Hb. destruct (hex_val_digit a Ha) as [Va Sa], (hex_val_digit b Hb) as [Vb Sb].
  assert (is_hex (digit_char a) = true ∧ is_hex (digit_char b) = true) as [Ia Ib] by (unfold is_hex; by rewrite Va, Vb).
  assert (digit_char a ≠ 45 ∧ digit_char a ≠ 43 ∧ digit_char b ≠ 120 ∧ digit_char b ≠ 88) as (Na & Na' & Nb & Nb').
  { split_and!; intros He; [rewrite He in Va|rewrite He in Va|rewrite He in Vb|rewrite He in Vb]; discriminate. }
  unfold sscanf_2hhx. set (s := digit_char a :: digit_char b :: rest).
  assert ((span isspace s).2 = s) as Hsp by (cbn; by rewrite Sa). assert (scan_sign s = (false, s)) as Hss.
  { unfold scan_sign. rewrite Hsp. unfold s. clear -Ha. by nibble a. }
  rewrite Hsp, Hss, Nat.sub_diag. change (take (2 - 0) s) with [digit_char a; digit_char b].
  assert (has_0x [digit_char a; digit_char b] = false) as ->.
  { unfold has_0x. rewrite (proj2 (Z.eqb_neq _ _) Nb), (proj2 (Z.eqb_neq _ _) Nb'). by repeat case_match. }
  cbn [span]. rewrite Ia, Ib. cbn [fst]. unfold hex_num. cbn [foldl]. rewrite Va, Vb. cbn [default from_option]. unfold Datatypes.id. f_equal. rewrite u8_small; lia.
Qed.

Lemma scan_id_digits bytes : ∀ pre junk, bytes_ok bytes → (length bytes ≤ length junk)%nat →
  scan_id (length bytes) (length pre) (pre ++ junk) (print_id bytes) = Ret (pre ++ bytes ++ drop (length bytes) junk).
Proof.
  induction bytes as [|b bytes IH]; intros pre junk Hb Hl; cbn [scan_id length print_id fmap list_fmap concat app]; [done|].
  split_Forall. unfold is_byte in *. pose proof (Z.div_mod b 16 ltac:(lia)). pose proof (Z.mod_pos_bound b 16 ltac:(lia)).
  rewrite sscanf_digits by lia. replace (16 * (b / 16) + b mod 16) with b by lia. cbn [drop].
  destruct junk as [|j junk]; [cbn in Hl; lia|]. destruct (Nat.ltb_spec (length pre) (length (pre ++ j :: junk))) as [_|Hlt]; [|rewrite length_app in Hlt; cbn in Hlt; lia].
  rewrite insert_app_r_alt by lia. rewrite Nat.sub_diag. cbn [insert list_insert]. rewrite (app_assoc pre [b] junk : pre ++ b :: junk = (pre ++ [b]) ++ junk).
  replace (S (length pre)) with (length (pre ++ [b])) by (rewrite length_app; cbn; lia).
  fold (print_id bytes). rewrite IH; [by rewrite <-app_assoc|done|cbn in Hl; lia].
Qed.
Lemma print_id_length id : length (print_id id) = (2 * length id)%nat.
Proof. induction id as [|b id IH]; [done|]. cbn [print_id fmap list_fmap concat]. fold (print_id id). rewrite length_app, IH. cbn. lia. Qed.
Lemma parse_id_digits id junk : bytes_ok id → (length id ≤ length junk)%nat → parse_id junk (print_id id) = Ret id.
Proof.
  intros Hb Hl. unfold parse_id. rewrite print_id_length.
  replace ((2 * length id + 1) / 2)%nat with (length id) by (rewrite (Nat.mul_comm 2), Nat.div_add_l by lia; cbn; lia).
  pose proof (scan_id_digits id [] junk Hb Hl) as Hs. cbn [length app] in Hs. rewrite Hs. cbn [mbind outcome_bind].
  destruct (Nat.leb_spec (length id) (length (id ++ drop (length id) junk))); [|rewrite length_app in *; lia]. by rewrite take_app_length.
Qed.

Lemma ulong_value k n : 0 ≤ n → foldr (λ x acc, x + 256 * acc) 0 ((λ i, u8 (Z.shiftr n (8 * Z.of_nat i))) <$> seq 0 k) = n mod 256 ^ Z.of_nat k.
Proof.
  revert n. induction k as [|k IH]; intros n Hn; [by rewrite Z.mod_1_r|]. rewrite <-cons_seq, <-fmap_S_seq. cbn [fmap list_fmap foldr].
  rewrite <-list_fmap_compose. rewrite (list_fmap_ext _ (λ i, u8 (Z.shiftr (n / 256) (8 * Z.of_nat i)))).
  - rewrite IH by (apply Z.div_pos; lia). cbn [Z.of_nat Z.mul]. rewrite Z.shiftr_0_r. unfold u8.
    replace (Z.of_nat (S k)) with (1 + Z.of_nat k) by lia. rewrite Z.pow_add_r by lia. change (256 ^ 1) with 256. rewrite Z.rem_mul_r by (try apply Z.pow_nonzero; lia). done.
  - intros j x _. cbn. f_equal. change 256 with (2 ^ 8). rewrite <-Z.shiftr_div_pow2, Z.shiftr_shiftr by lia. f_equal. lia.
Qed.
Lemma of_ulong_ulong n : 0 ≤ n < 18446744073709551616 → of_ulong (ulong n) = n.
Proof. intros Hn. unfold of_ulong. rewrite take_ge by done. unfold ulong. rewrite ulong_value by lia. by apply Z.mod_small. Qed.

Definition key_query (cls : Z) (id : list Z) : template := [(CKA_CLASS, ulong cls); (CKA_ID, id)].
(** Every private key of the token has a type. *)
Definition keys_typed (t : token) : Prop := ∀ h o, objects t !! h = Some o → o !! CKA_CLASS = Some (ulong CKO_PRIVATE_KEY) →
  ∃ kt, 0 ≤ kt < 18446744073709551616 ∧ o !! CKA_KEY_TYPE = Some (ulong kt).

(** C27: loading a key by its identifier, given in hexadecimal: the key found is a pair of a
    private and a public key of the token with exactly this identifier, and the type of
    the private one; when the token lacks either, the code says so.  The token is left
    as it was, without a search under way. *)
Theorem p11_load_key_finds junk p11 id label t : length junk = 32%nat → bytes_ok id → (1 ≤ length id ≤ 32)%nat → searching t = Idle → keys_typed t →
  ∃ r t', p11_load_key junk p11 (Some (print_id id)) label t = Ret (r, t') ∧ searching t' = Idle ∧ objects t' = objects t ∧
    match r with
    | inr key => ∃ o o', objects t !! priv_handle key = Some o ∧ matches (key_query CKO_PRIVATE_KEY id) o ∧
        objects t !! pub_handle key = Some o' ∧ matches (key_query CKO_PUBLIC_KEY id) o' ∧ o !! CKA_KEY_TYPE = Some (ulong (key_type key))
    | inl rc => rc = CKR_KEY_NEEDED ∧ ∃ cls, (cls = CKO_PRIVATE_KEY ∨ cls = CKO_PUBLIC_KEY) ∧
        ∀ h o, objects t !! h = Some o → ¬ matches (key_query cls id) o
    end.
Proof.
  intros Hj Hb Hl Hi Hty. unfold p11_load_key.
  assert (∃ c l, print_id id = c :: l) as (c & l & Hp) by (destruct id as [|b id]; [cbn in Hl; lia|]; by eexists _, _).
  rewrite Hp. cbn iota beta. rewrite <-Hp. rewrite parse_id_digits by (done || lia).
  erewrite bindE_run by done.
  destruct (find_one_ok p11 (key_query CKO_PRIVATE_KEY id) t Hi) as (r1 & t1 & Hf1 & Hi1 & Ho1 & Hr1).
  erewrite bindE_run by exact Hf1. cbn iota beta.
  destruct r1 as [h1|].
  2: { eexists _, t1. split; [done|]. split_and!; [done|done|done|]. exists CKO_PRIVATE_KEY. eauto. }
  destruct (find_one_ok p11 (key_query CKO_PUBLIC_KEY id) t1 Hi1) as (r2 & t2 & Hf2 & Hi2 & Ho2 & Hr2).
  erewrite bindE_run by exact Hf2. cbn iota beta. rewrite Ho1 in *.
  destruct r2 as [h2|].
  2: { eexists _, t2. split; [done|]. split_and!; [done|done|done|]. exists CKO_PUBLIC_KEY. eauto. }
  destruct Hr1 as (o & Hh1 & Hm1), Hr2 as (o' & Hh2 & Hm2).
  destruct (Hty h1 o Hh1) as (kt & Hkt & Hk); [by apply Forall_cons_1 in Hm1 as [? _]|].
  destruct (attr_ok t2 (session p11) h1 CKA_KEY_TYPE o _ ltac:(by rewrite Ho2) Hk) as [_ Ha].
  erewrite bindE_ok by (rewrite Ha by (cbn; lia); done). eexists _, t2. split; [done|]. split_and!; [done|done|].
  exists o, o'. cbn [priv_handle pub_handle key_type]. split_and!; try done. by rewrite of_ulong_ulong.
Qed.
End Proofs.

(** ** A token in memory *)
Module ToyToken.
Record tok := mktok { objs : gmap Z (gmap Z (list Z)); ph : phase; found : list Z }.
#[local] Instance matches_dec q o : Decision (matches q o).
Proof. unfold matches. apply _. Defined.
Definition hits (o : gmap Z (gmap Z (list Z))) (q : template) : list Z := (filter (λ ho, matches q ho.2) (map_to_list o)).*1.
Definition fresh_handle (t : tok) : Z := fresh (dom (objs t)).
(** It generates RSA keys only, and has no slot. *)
#[local] Instance lib : Cryptoki := {|
  token := tok;
  C_Initialize t := (CKR_OK, t); C_GetSlotList t := (CKR_OK, [], t); C_OpenSession t _ := (CKR_OK, 1, t); C_Login t _ _ := (CKR_OK, t);
  C_GetMechanismInfo t _ m := if m =? CKM_RSA_PKCS_KEY_PAIR_GEN then (CKR_OK, (CKF_GENERATE_KEY_PAIR, 2048)) else (112, (0, 0));
  C_GenerateRandom t _ n := (replicate (Z.to_nat n) 7, t);
  C_GenerateKeyPair t _ _ _ _ := (112, 0, 0, t);
  C_CreateObject t _ q := match ph t with
    | Idle => let h := fresh_handle t in (CKR_OK, h, mktok (<[h := list_to_map q]> (objs t)) Idle (found t))
    | _ => (144, 0, t)
    end;
  C_FindObjectsInit t _ q := match ph t with Idle => (CKR_OK, mktok (objs t) (Started q) (hits (objs t) q)) | _ => (144, t) end;
  C_FindObjects t s n := match ph t with Idle => (145, [], t) | _ => (CKR_OK, take (Z.to_nat n) (found t), mktok (objs t) Fetched (drop (Z.to_nat n) (found t))) end;
  C_FindObjectsFinal t _ := match ph t with Idle => (145, t) | _ => (CKR_OK, mktok (objs t) Idle []) end;
  C_GetAttributeValue t _ h ty b :=
    match objs t !! h ≫= lookup ty with
    | None => (18, 0, [])
    | Some v => match b with
                | None => (CKR_OK, Z.of_nat (length v), [])
                | Some n => if Z.of_nat (length v) <=? n then (CKR_OK, Z.of_nat (length v), v) else (336, 0, [])
                end
    end;
  C_SignInit t _ _ _ := (CKR_OK, t); C_Sign t _ d n := (CKR_OK, take (Z.to_nat n) d, t)
|}.
Definition toy_phase (t : tok) : phase :=
  match ph t with
  | Started q => if decide (found t = hits (objs t) q) then Started q else Fetched
  | p => p
  end.
#[local] Instance laws : TokenLaws.
Proof.
  refine {| objects := objs : token → _; searching := toy_phase : token → phase |}; cbn.
  - intros t s q. unfold toy_phase. destruct t as [o [|q'|] f]; cbn; [|by case_decide|done]. intros _. eexists. split; [done|]. cbn. by rewrite decide_True.
  - intros t s q. unfold toy_phase. destruct t as [o [|q'|] f]; cbn; try done. case_decide as Hf; [|done]. intros [= ->].
    eexists _, _. split; [done|]. cbn. split; [done|]. split; [done|]. subst f.
    assert (∀ h, h ∈ hits o q ↔ ∃ x, o !! h = Some x ∧ matches q x) as Hin.
    { intros h. unfold hits. rewrite list_elem_of_fmap. split.
      - intros ([h' x] & -> & [Hm Hx%elem_of_map_to_list]%list_elem_of_filter). by exists x.
      - intros (x & Hx%elem_of_map_to_list & Hm). exists (h, x). split; [done|]. by apply list_elem_of_filter. }
    destruct (hits o q) as [|h0 l]; cbn.
    + split; [by intros h ?%elem_of_nil|]. intros _ h x Hx Hm. by apply (not_elem_of_nil h), Hin; exists x.
    + split; [|done]. intros h ->%list_elem_of_singleton. apply Hin. by left.
  - intros t s. unfold toy_phase. destruct t as [o [|q|] f]; cbn; [done|..]; intros _; by eexists.
  - intros t s h ty o v Ho Hv. rewrite Ho. cbn. rewrite Hv. split; [done|]. intros n Hn. by destruct (Z.leb_spec (Z.of_nat (length v)) n); [|lia].
  - intros t s h ty o b Ho Hv. rewrite Ho. cbn. by rewrite Hv.
  - intros t s q h t'. unfold toy_phase. destruct t as [o [|q'|] f]; try done. intros [= <- <-]. split; [|done].
    apply not_elem_of_dom. exact (is_fresh (dom o)).
Defined.

Definition with_id (cls : Z) (id : list Z) : gmap Z (list Z) :=
  {[ CKA_CLASS := ulong cls; CKA_ID := id; CKA_KEY_TYPE := ulong CKK_EC ]}.
(** The private key 5 and the public key 6 have the same identifier. *)
Definition t0 : tok := mktok {[ 5 := with_id CKO_PRIVATE_KEY [171; 1]; 6 := with_id CKO_PUBLIC_KEY [171; 1] ]} Idle [].
Definition p11 : p11_context := mkp11 1 0.
Definition key : p11_key_ctx := mkkey CKK_EC 5 6.

Lemma t0_objects h (o : gmap Z (list Z)) : objs t0 !! h = Some o → o = with_id CKO_PRIVATE_KEY [171; 1] ∨ o = with_id CKO_PUBLIC_KEY [171; 1].
Proof. unfold t0. cbn [objs]. intros [[_ <-]|[_ [_ <-]%lookup_singleton_Some]]%lookup_insert_Some; [by left|by right]. Qed.
Lemma t0_typed : keys_typed t0.
Proof. intros h o [-> | ->]%t0_objects _; exists CKK_EC; (split; [done|reflexivity]). Qed.


Lemma p11_load_key_finds_witness : ∃ r t', p11_load_key (replicate 32 0) p11 (Some (bs "ab01")) None t0 = Ret (r, t') ∧ r = inr key.
Proof.
  destruct (@p11_load_key_finds lib laws (replicate 32 0) p11 [171; 1] None t0 eq_refl ltac:(by repeat constructor) ltac:(cbn; lia) eq_refl t0_typed) as (r & t' & Hr & _).
  exists r, t'. split; [exact Hr|]. vm_compute in Hr. by injection Hr as <- <-.
Defined.

(** An identifier of more than 64 digits is written outside its buffer. *)
Lemma long_id_overflows : p11_load_key (replicate 32 0) p11 (Some (print_id (replicate 33 1))) None t0 = Fault OutOfBounds.
Proof. reflexivity. Qed.
(** A token that generates RSA keys only is not recognised. *)
Lemma rsa_only_token_refused : (let '(r, _) := (match p11_gen_key p11 None t0 with Ret x => x | Fault _ => (inl 0, t0) end) in r) = inl (-1).
Proof. reflexivity. Qed.
(** Without a slot the list of slots is read outside its bounds. *)
Lemma no_slot_read : p11_init (λ _, true) (λ _, true) (λ t, (CKR_OK, t)) [] None [] t0 = Fault OutOfBounds.
Proof. reflexivity. Qed.
End ToyToken.
