(* ===== verification/Signatures.v ===== *)
(** * Signatures (src/openssl/keys.c, src/mbedtls/engine.c, src/mbedtls/keys.c,
    src/mbedtls/p11_ecdsa.c)

    An ECDSA signature is a pair of numbers.  It travels in two forms: as ASN.1, and raw, the
    two numbers in the same number of bytes one after the other, which is what a PKCS#11
    token makes.  Both engines verify either form; keys of tokens convert the raw form. *)
From S2P Require Import Prelude P11.
From stdpp Require Import base list gmap numbers.
From Stdlib Require Import ZArith Lia.
Open Scope Z_scope.

(** [enum hash_algo]; [None] is a value that is none of them. *)
Inductive hash_algo := hash_SHA256 | hash_SHA384 | hash_SHA512.

(** [BN_bin2bn], [mbedtls_mpi_read_binary] *)
Definition bin2bn (b : list Z) : Z := foldl (λ n x, 256 * n + x) 0 b.
(** [n] in [w] bytes *)
Fixpoint to_bin (w : nat) (n : Z) : list Z :=
  match w with O => [] | S w => to_bin w (n / 256) ++ [n mod 256] end.
Definition raw_sig (w : nat) (rs : Z * Z) : list Z := to_bin w rs.1 ++ to_bin w rs.2.

Lemma to_bin_length w n : length (to_bin w n) = w.
Proof. revert n. induction w as [|w IH]; intros n; [done|]. cbn [to_bin]. rewrite length_app, IH. cbn. lia. Qed.
Lemma bin2bn_to_bin w n : 0 ≤ n < 256 ^ Z.of_nat w → bin2bn (to_bin w n) = n.
Proof.
  revert n. induction w as [|w IH]; intros n Hn; cbn [to_bin].
  - change (256 ^ Z.of_nat 0) with 1 in Hn. cbn. lia.
  - unfold bin2bn in *. rewrite foldl_app, IH.
    + cbn [foldl]. pose proof (Z.div_mod n 256 ltac:(lia)). lia.
    + replace (Z.of_nat (S w)) with (Z.of_nat w + 1) in Hn by lia. rewrite Z.pow_add_r in Hn by lia. change (256 ^ 1) with 256 in Hn.
      split; [apply Z.div_pos; lia|apply Z.div_lt_upper_bound; lia].
Qed.

(** The two halves of a signature of [siglen] bytes in [sig]. *)
Definition halves (sig : list Z) : Z * Z :=
  let n := (length sig / 2)%nat in (bin2bn (take n sig), bin2bn (take n (drop n sig))).
Definition sig_range (w : nat) (rs : Z * Z) : Prop := 0 ≤ rs.1 < 256 ^ Z.of_nat w ∧ 0 ≤ rs.2 < 256 ^ Z.of_nat w.
Lemma halves_raw w rs : sig_range w rs → halves (raw_sig w rs) = rs.
Proof.
  intros [Hr Hs]. destruct rs as [r s]. unfold halves, raw_sig. cbn [fst snd] in *. rewrite length_app, !to_bin_length.
  replace ((w + w) / 2)%nat with w by (replace (w + w)%nat with (w * 2)%nat by lia; by rewrite Nat.div_mul).
  rewrite (take_app_length' (to_bin w r)), (drop_app_length' (to_bin w r)) by (by rewrite to_bin_length).
  rewrite take_ge by (by rewrite to_bin_length). by rewrite !bin2bn_to_bin.
Qed.

(** ** OpenSSL (src/openssl/keys.c) *)

Class OpenSslCrypto := {
  EVP_PKEY : Type;
  is_ec : EVP_PKEY → bool;                          (* EVP_PKEY_id(pk) == EVP_PKEY_EC *)
  EVP_digest : option hash_algo → list Z → list Z;
  d2i_ECDSA_SIG : list Z → option (Z * Z);
  ECDSA_do_verify : list Z → Z * Z → EVP_PKEY → Z;
  EVP_DigestVerifyInit : option hash_algo → EVP_PKEY → bool;
  EVP_DigestVerify : option hash_algo → EVP_PKEY → list Z → list Z → Z;   (* signature, data *)
}.

Section OpenSslSig.
Context `{OpenSslCrypto}.

Definition verify_ecdsa_sig (ec : EVP_PKEY) (hash : option hash_algo) (data sig : list Z) : Z :=
  let digest := EVP_digest hash data in
  if ECDSA_do_verify digest (halves sig) ec =? 1 then 0 else -1.

Definition verify_signature (pk : EVP_PKEY) (md : option hash_algo) (data sig : list Z) : Z :=
  if is_ec pk && match d2i_ECDSA_SIG sig with None => true | Some _ => false end
  then verify_ecdsa_sig pk md data sig
  else if negb (EVP_DigestVerifyInit md pk) then -1
  else if negb (EVP_DigestVerify md pk sig data =? 1) then -1
  else 0.

(** [sig] starts as what the 512 bytes of the buffer held; a failing token leaves it. *)
Definition privkey_p11_sign_sig `{Cryptoki} (junk : list Z) (p11 : p11_context) (key : p11_key_ctx) (digest : list Z) : M token (Z * Z) :=
  '(rc, sig) ← p11_key_sign p11 key digest 512 0;
  mret (halves (if rc =? 0 then sig else junk)).

(** What the library says of both ways to verify with an EC key. *)
Context (ec_verify_der : ∀ md pk sig data, is_ec pk = true → EVP_DigestVerify md pk sig data = 1 ↔
  ∃ rs, d2i_ECDSA_SIG sig = Some rs ∧ ECDSA_do_verify (EVP_digest md data) rs pk = 1).

Lemma verify_der md pk data der rs : is_ec pk = true → EVP_DigestVerifyInit md pk = true → d2i_ECDSA_SIG der = Some rs →
  verify_signature pk md data der = if ECDSA_do_verify (EVP_digest md data) rs pk =? 1 then 0 else -1.
Proof.
  intros Hec Hin Hd. unfold verify_signature. rewrite Hec, Hd, Hin. cbn [andb negb]. pose proof (ec_verify_der md pk der data Hec) as Hv. rewrite Hd in Hv.
  destruct (Z.eqb_spec (EVP_DigestVerify md pk der data) 1) as [He|He], (Z.eqb_spec (ECDSA_do_verify (EVP_digest md data) rs pk) 1) as [Hd1|Hd1]; cbn [negb]; try done.
  - apply Hv in He as (rs' & [= <-] & ?). done.
  - exfalso. apply He, Hv. eauto.
Qed.
Lemma verify_raw md pk data w rs : is_ec pk = true → sig_range w rs → d2i_ECDSA_SIG (raw_sig w rs) = None →
  verify_signature pk md data (raw_sig w rs) = if ECDSA_do_verify (EVP_digest md data) rs pk =? 1 then 0 else -1.
Proof. intros Hec Hr Hn. unfold verify_signature, verify_ecdsa_sig. by rewrite Hec, Hn, halves_raw. Qed.
End OpenSslSig.

(** ** mbedTLS (src/mbedtls/engine.c) *)

Class MbedCrypto := {
  pk_context : Type;
  is_eckey : pk_context → bool;                     (* mbedtls_pk_get_type(pk) == MBEDTLS_PK_ECKEY *)
  mbedtls_md : hash_algo → list Z → Z * list Z;
  mbedtls_pk_verify : pk_context → hash_algo → list Z → list Z → Z;   (* hash, signature *)
  (* the bytes written before the pointer, of which there are so many; or an error *)
  asn1_write_mpi : Z → Z → Z + list Z;
  asn1_write_len : Z → Z → Z + list Z;
  asn1_write_tag : Z → Z → Z + list Z;
  MBEDTLS_ECDSA_MAX_LEN : Z;
  MBED_SEQUENCE : Z;                                (* MBEDTLS_ASN1_CONSTRUCTED | MBEDTLS_ASN1_SEQUENCE *)
}.

Section MbedSig.
Context `{MbedCrypto}.

#[local] Instance sum_bind : MBind (sum Z) := fun A B k m => match m with inl e => inl e | inr a => k a end.
(** Written from the end of the buffer; [inl] is an error of a write. *)
Definition write_sig (rs : Z * Z) : Z + list Z :=
  let room := MBEDTLS_ECDSA_MAX_LEN in
  s ← asn1_write_mpi room rs.2;
  r ← asn1_write_mpi (room - Z.of_nat (length s)) rs.1;
  let len := Z.of_nat (length (r ++ s)) in
  l ← asn1_write_len (room - len) len;
  t ← asn1_write_tag (room - len - Z.of_nat (length l)) MBED_SEQUENCE;
  inr (t ++ l ++ r ++ s).
(** The buffer and the length returned: the code of an error, as a [size_t]. *)
Definition mbedtls_sig_to_asn1 (junk sig : list Z) : list Z * Z :=
  match write_sig (halves sig) with
  | inl ret => (junk, u64 ret)
  | inr der => (der ++ drop (length der) junk, Z.of_nat (length der))
  end.

(** The library reads as many bytes as it is told. *)
Definition pk_verify_buf (pk : pk_context) (md : hash_algo) (hash buf : list Z) (len : Z) : outcome Z :=
  if len <=? Z.of_nat (length buf) then Ret (mbedtls_pk_verify pk md hash (take (Z.to_nat len) buf)) else Fault OutOfBounds.
Definition mbedtls_verify_signature (junk : list Z) (pk : pk_context) (md : option hash_algo) (data sig : list Z) : outcome Z :=
  match md with
  | None => Ret (-1)
  | Some md =>
    let '(err, hash) := mbedtls_md md data in
    if negb (err =? 0) then Ret (-1)
    else
      let rc := mbedtls_pk_verify pk md hash sig in
      rc ← (if negb (rc =? 0) && is_eckey pk then
              let '(asn1sig, asn1len) := mbedtls_sig_to_asn1 junk sig in pk_verify_buf pk md hash asn1sig asn1len
            else Ret rc);
      Ret (if negb (rc =? 0) then -1 else 0)
  end.

(** A key of a token: its raw signature as ASN.1; an error of the conversion is not looked at. *)
Definition p11_ecdsa_sign `{Cryptoki} (hw_failed raw_size mech : Z) (p11 : p11_context) (key : p11_key_ctx) (hash : list Z)
  : M token (Z * option (list Z)) :=
  rc ← call (λ t, C_SignInit t (session p11) mech (priv_handle key));
  if negb (rc =? CKR_OK) then mret (hw_failed, None)
  else
    '(rc, rawsig) ← call (λ t, C_Sign t (session p11) hash raw_size);
    if negb (rc =? CKR_OK) then mret (hw_failed, None)
    else mret (0, match write_sig (halves rawsig) with inr der => Some der | inl _ => None end).

Lemma mbed_verify_pair junk pk md data sig : mbedtls_md md data = (0, (mbedtls_md md data).2) → is_eckey pk = true → ∀ der,
  write_sig (halves sig) = inr der → (length der ≤ length junk)%nat →
  mbedtls_verify_signature junk pk (Some md) data sig =
    Ret (if (mbedtls_pk_verify pk md (mbedtls_md md data).2 sig =? 0) || (mbedtls_pk_verify pk md (mbedtls_md md data).2 der =? 0) then 0 else -1).
Proof.
  intros Hmd Hec der Hw Hl. unfold mbedtls_verify_signature. rewrite Hmd. cbn [Z.eqb negb snd]. rewrite Hec.
  destruct (mbedtls_pk_verify pk md (mbedtls_md md data).2 sig =? 0) eqn:Hrc; cbn [negb andb orb mbind outcome_bind]; [by rewrite Hrc|].
  unfold mbedtls_sig_to_asn1. rewrite Hw. unfold pk_verify_buf. destruct (Z.leb_spec (Z.of_nat (length der)) (Z.of_nat (length (der ++ drop (length der) junk)))).
  - rewrite Nat2Z.id, take_app_length. cbn [mbind outcome_bind]. by destruct (mbedtls_pk_verify pk md (mbedtls_md md data).2 der =? 0).
  - rewrite length_app in *. lia.
Qed.
End MbedSig.

(** ** Both forms *)

Section Forms.
Context `{OpenSslCrypto} `{MbedCrypto} `{Cryptoki}.
Context (ec_verify_der : ∀ md pk sig data, is_ec pk = true → EVP_DigestVerify md pk sig data = 1 ↔
  ∃ rs, d2i_ECDSA_SIG sig = Some rs ∧ ECDSA_do_verify (EVP_digest md data) rs pk = 1).

End Forms.

(** Numbers of one byte; a signature of [d] by the key [k] is the length of [d] and [k]. *)
Module ToySig.
Definition good (d : list Z) (rs : Z * Z) (k : Z) : bool := bool_decide (rs = (Z.of_nat (length d), k)).
Definition decode (b : list Z) : option (Z * Z) := match b with [48; 2; r; s] => Some (r, s) | _ => None end.
#[local] Instance ossl : OpenSslCrypto := {|
  EVP_PKEY := Z; is_ec _ := true; EVP_digest _ d := d; d2i_ECDSA_SIG := decode;
  ECDSA_do_verify d rs k := if good d rs k then 1 else 0; EVP_DigestVerifyInit _ _ := true;
  EVP_DigestVerify _ k sig d := match decode sig with Some rs => if good d rs k then 1 else 0 | None => -1 end
|}.
#[local] Instance mbed : MbedCrypto := {|
  pk_context := Z; is_eckey _ := true; mbedtls_md _ d := (0, d);
  mbedtls_pk_verify k _ d sig := match decode sig with Some rs => if good d rs k then 0 else -1 | None => -2 end;
  asn1_write_mpi room n := if (room <? 1) || (255 <? n) then inl (-108) else inr [n];
  asn1_write_len room n := if room <? 1 then inl (-108) else inr [n];
  asn1_write_tag room n := if room <? 1 then inl (-108) else inr [n];
  MBEDTLS_ECDSA_MAX_LEN := 4; MBED_SEQUENCE := 48
|}.
#[local] Existing Instance ToyToken.lib.
Lemma ec_verify_der md (pk : EVP_PKEY) sig data : is_ec pk = true → EVP_DigestVerify md pk sig data = 1 ↔
  ∃ rs, d2i_ECDSA_SIG sig = Some rs ∧ ECDSA_do_verify (EVP_digest md data) rs pk = 1.
Proof.
  intros _. cbn. destruct (decode sig) as [rs|]; [|by split; [|intros (? & ? & _)]]. split; [by eauto|]. by intros (rs' & [= <-] & ?).
Qed.


(** A raw signature with numbers that are too large for the buffer: the error of the conversion
    is taken for a length, and the library is told to read that far. *)
Lemma long_signature_reads_outside :
  mbedtls_verify_signature [0; 0; 0; 0] (5 : pk_context) (Some hash_SHA256) [1; 1; 1] [1; 2; 3; 4] = Fault OutOfBounds.
Proof. reflexivity. Qed.
End ToySig.

(** When the token fails to sign, the pair is made of whatever the buffer held. *)
Lemma failed_sign_returns_junk `{OpenSslCrypto} `{Cryptoki} junk p11 key digest t t1 rv : key_type key = CKK_EC → rv ≠ CKR_OK →
  C_SignInit t (session p11) CKM_ECDSA (priv_handle key) = (rv, t1) →
  privkey_p11_sign_sig junk p11 key digest t = Ret (halves junk, t1).
Proof.
  intros Hk Hrv Hi. unfold privkey_p11_sign_sig, p11_key_sign, call, mbind, M_bind. rewrite Hk. change (CKK_EC =? CKK_EC) with true. cbn iota. rewrite Hi.
  rewrite (proj2 (Z.eqb_neq _ _) Hrv). done.
Qed.
