(* ===== verification/MbedKeys.v ===== *)
(** * Keys of the mbedTLS engine (src/mbedtls/keys.c)

    Private and public keys are structures with a table of functions and an [mbedtls_pk_context] of
    the library.  They are objects of a heap here, so that what is freed on each error path, and
    what is left, can be told. *)
From S2P Require Import Prelude CLib P11 Signatures.
From stdpp Require Import base list gmap sets numbers strings.
From Stdlib Require Import ZArith Lia.
Open Scope Z_scope.

(** The library's keys: an error code, or the text that is written with a NUL after it. *)
Class MbedPk `{MbedCrypto} := {
  pk_init : pk_context;
  ctr_drbg_seed : list Z → Z;                                  (* the personal string *)
  pk_parse_key : pk_context → list Z → Z * pk_context;
  pk_parse_keyfile : pk_context → list Z → Z * pk_context;
  pk_parse_public_key : pk_context → list Z → Z * pk_context;
  pk_write_key_pem : pk_context → Z → Z + list Z;              (* into a buffer of a size *)
  pk_write_pubkey_pem : pk_context → Z → Z + list Z;
  pk_sign : Z → pk_context → hash_algo → list Z → Z → Z * list Z;   (* randomness, hash, room *)
  pk_setup : pk_context → Z * pk_context;                      (* for MBEDTLS_PK_ECKEY *)
  ecp_gen_key : pk_context → Z * pk_context;                   (* on SECP256R1 *)
}.

Section Keys.
Context `{MbedPk}.

Inductive kobj := KPriv (pkey : pk_context) | KPub (pkey : pk_context) | KText (s : list Z).
Record kst := mkkst { k_heap : gmap Z kobj; k_next : Z }.
#[export] Instance kst_upd : Updatable kst := fun c => mkkst (k_heap c) (k_next c).
Abbreviation MK := (M kst).

Definition k_alloc (o : kobj) : MK Z := fun c =>
  Ret (k_next c, c <| k_heap := <[k_next c := o]> (k_heap c) |> <| k_next := k_next c + 1 |>).
Definition k_free (p : Z) : MK unit :=
  c ← get;
  match k_heap c !! p with
  | Some _ => modify (λ c, c <| k_heap := delete p (k_heap c) |>)
  | None => fail_with DoubleFree
  end.
Definition k_set (p : Z) (o : kobj) : MK unit := modify (λ c, c <| k_heap := <[p := o]> (k_heap c) |>).
Definition priv_of (p : Z) : MK pk_context :=
  c ← get; match k_heap c !! p with Some (KPriv k) => mret k | Some _ => fail_with BadCast | None => fail_with UseAfterFree end.
Definition pub_of (p : Z) : MK pk_context :=
  c ← get; match k_heap c !! p with Some (KPub k) => mret k | Some _ => fail_with BadCast | None => fail_with UseAfterFree end.

(** ** Public keys *)

Definition pubkey_free (p : Z) : MK unit := _ ← pub_of p; k_free p.

(** The code, the text and its length: the text has to fit in 1024 bytes. *)
Definition pubkey_pem (p : Z) : MK (Z * option (Z * Z)) :=
  k ← pub_of p;
  buf ← k_alloc (KText []);
  match pk_write_pubkey_pem k 1024 with
  | inl rc => _ ← k_free buf; mret (-1, None)
  | inr s => _ ← k_set buf (KText s); mret (0, Some (buf, Z.of_nat (length s)))
  end.

(** [None] is a hash the switch does not name. *)
Definition verify_signature (pk : pk_context) (md : option hash_algo) (data sig : list Z) : Z :=
  match md with
  | None => -1
  | Some md =>
    let '(err, hash) := mbedtls_md md data in
    if negb (err =? 0) then -1 else if negb (mbedtls_pk_verify pk md hash sig =? 0) then -1 else 0
  end.
Definition pubkey_verify (p : Z) (md : option hash_algo) (data sig : list Z) : MK Z :=
  k ← pub_of p; mret (verify_signature k md data sig).

(** ** Private keys *)

Definition privkey_free (p : Z) : MK unit := _ ← priv_of p; k_free p.

(** [room] is [*siglen] on entry; the generator is seeded, whatever that returns. *)
Definition privkey_sign (rng : Z) (p : Z) (md : option hash_algo) (data : list Z) (room : Z) : MK (Z * option (list Z)) :=
  k ← priv_of p;
  match md with
  | None => mret (-1, None)
  | Some md =>
    let '(err, hash) := mbedtls_md md data in
    if negb (err =? 0) then mret (-1, None)
    else
      let '(err, sig) := pk_sign rng k md hash room in
      if negb (err =? 0) then mret (-1, None) else mret (0, Some sig)
  end.

(** By way of its text, in a buffer of 4096 bytes that is not initialised; no code is looked at. *)
Definition privkey_pubkey (p : Z) : MK Z :=
  k ← priv_of p;
  pub ← k_alloc (KPub pk_init);
  match pk_write_pubkey_pem k 4096 with
  | inl _ => fail_with Uninitialised
  | inr s => _ ← k_set pub (KPub (pk_parse_public_key pk_init (s ++ [0])).2); mret pub
  end.

(** The length counts the NUL here. *)
Definition privkey_to_pem (p : Z) : MK (Z * option (Z * Z)) :=
  k ← priv_of p;
  match pk_write_key_pem k 4096 with
  | inl ret => mret (ret, None)
  | inr s => t ← k_alloc (KText s); mret (0, Some (t, Z.of_nat (length s) + 1))
  end.

(** The last byte of [keydata] decides whether one more, [after], is taken as its NUL. *)
Definition key_bytes (keydata : list Z) (after : option Z) : outcome (list Z) :=
  match last keydata with
  | None => Fault OutOfBounds
  | Some 0 => Ret keydata
  | Some _ => match after with Some b => Ret (keydata ++ [b]) | None => Fault OutOfBounds end
  end.
(** The code and [*key]. *)
Definition load_key (keydata : list Z) (after : option Z) : MK (Z * option Z) :=
  priv ← k_alloc (KPriv pk_init);
  let rc := ctr_drbg_seed [] in
  if negb (rc =? 0) then _ ← k_free priv; mret (rc, None)
  else
    buf ← liftO (key_bytes keydata after);
    let '(rc, k) := pk_parse_key pk_init buf in
    _ ← k_set priv (KPriv k);
    if rc <? 0 then
      let '(rc, k) := pk_parse_keyfile k buf in
      _ ← k_set priv (KPriv k);
      if rc <? 0 then _ ← k_free priv; mret (rc, None) else mret (rc, Some priv)
    else mret (rc, Some priv).

(** [key] is what [*key] held; it is left when an error is returned. *)
Definition gen_key (key : option Z) : MK (Z * option Z) :=
  priv ← k_alloc (KPriv pk_init);
  let pers := bs "gen_key" in
  ret ← (let ret := ctr_drbg_seed pers in
         if negb (ret =? 0) then mret ret
         else
           let '(ret, k) := pk_setup pk_init in
           _ ← k_set priv (KPriv k);
           if negb (ret =? 0) then mret ret
           else let '(ret, k) := ecp_gen_key k in _ ← k_set priv (KPriv k); mret ret);
  if negb (ret =? 0) then _ ← k_free priv; mret (ret, key) else mret (ret, Some priv).

(** Not implemented. *)
Definition load_key_p11 (key : option Z) : MK (Z * option Z) := mret (-1, key).

(** ** What is allocated and what is left *)

Implicit Types (c : kst).
Definition k_wf c : Prop := ∀ p, is_Some (k_heap c !! p) → p < k_next c.
Definition with_obj c (o : kobj) : kst := c <| k_heap := <[k_next c := o]> (k_heap c) |> <| k_next := k_next c + 1 |>.

Lemma k_wf_fresh c : k_wf c → k_heap c !! k_next c = None.
Proof. intros Hw. apply eq_None_not_Some. intros Hs. apply Hw in Hs. lia. Qed.
Lemma k_wf_with c o : k_wf c → k_wf (with_obj c o).
Proof. intros Hw p. cbn. rewrite lookup_insert_is_Some. intros [<-|[_ Hp]]; [|apply Hw in Hp]; lia. Qed.
Lemma with_obj_get c o : k_heap (with_obj c o) !! k_next c = Some o.
Proof. apply lookup_insert_eq. Qed.
Lemma with_obj_old c o p x : k_wf c → k_heap c !! p = Some x → k_heap (with_obj c o) !! p = Some x.
Proof. intros Hw Hp. assert (p < k_next c) by (apply Hw; eauto). cbn. by rewrite lookup_insert_ne by lia. Qed.

Lemma wp_k_alloc o (Q : Z → kst → Prop) c : Q (k_next c) (with_obj c o) → wp (k_alloc o) Q c.
Proof. done. Qed.
Lemma wp_k_set_new o o' (Q : unit → kst → Prop) c : Q tt (with_obj c o') → wp (k_set (k_next c) o') Q (with_obj c o).
Proof. intros HQ. unfold k_set, with_obj in *. wp_simpl. cbn. rewrite insert_insert_eq. by destruct c. Qed.
Lemma wp_k_free p o (Q : unit → kst → Prop) c :
  k_heap c !! p = Some o → Q tt (c <| k_heap := delete p (k_heap c) |>) → wp (k_free p) Q c.
Proof. intros Hp HQ. unfold k_free. wp_simpl. by rewrite Hp. Qed.
Lemma wp_priv_of p k (Q : pk_context → kst → Prop) c : k_heap c !! p = Some (KPriv k) → Q k c → wp (priv_of p) Q c.
Proof. intros Hp HQ. unfold priv_of. wp_simpl. by rewrite Hp. Qed.
Lemma wp_pub_of p k (Q : pk_context → kst → Prop) c : k_heap c !! p = Some (KPub k) → Q k c → wp (pub_of p) Q c.
Proof. intros Hp HQ. unfold pub_of. wp_simpl. by rewrite Hp. Qed.
(** A new object that is freed again leaves no trace but its address. *)
Lemma wp_k_free_new o (Q : unit → kst → Prop) c :
  k_wf c → (∀ c', k_heap c' = k_heap c → Q tt c') → wp (k_free (k_next c)) Q (with_obj c o).
Proof.
  intros Hw HQ. eapply wp_k_free; [apply with_obj_get|]. apply HQ. cbn. by rewrite delete_insert_id by by apply k_wf_fresh.
Qed.

(** The outcome of making a key: it is the one new object, or nothing is. *)
Definition made c (r : Z * option Z) (old : option Z) (c' : kst) : Prop :=
  (∃ k, r.2 = Some (k_next c) ∧ 0 ≤ r.1 ∧ c' = with_obj c (KPriv k)) ∨ (r.2 = old ∧ r.1 ≠ 0 ∧ k_heap c' = k_heap c).

Lemma load_key_made keydata after c : k_wf c → keydata ≠ [] → is_Some after →
  wp (load_key keydata after) (λ r, made c r None) c.
Proof.
  intros Hw Hne [b ->]. unfold load_key. wp_simpl. apply wp_k_alloc. wp_simpl.
  destruct (Z.eqb_spec (ctr_drbg_seed []) 0) as [_|Hs]; cbn [negb]; wp_simpl.
  2: { apply wp_k_free_new; [done|]. intros c' Hc'. wp_simpl. by right. }
  assert (∃ buf, key_bytes keydata (Some b) = Ret buf) as [buf Hbuf].
  { unfold key_bytes. destruct (last keydata) as [[]|] eqn:Hl; eauto. by apply last_None in Hl. }
  eapply wp_liftO; [done|]. destruct (pk_parse_key pk_init buf) as [rc k]. wp_simpl. apply wp_k_set_new. wp_simpl.
  destruct (Z.ltb_spec rc 0); wp_simpl.
  - destruct (pk_parse_keyfile k buf) as [rc' k']. wp_simpl. apply wp_k_set_new. wp_simpl.
    destruct (Z.ltb_spec rc' 0); wp_simpl; [|left; by exists k'].
    apply wp_k_free_new; [done|]. intros c' Hc'. wp_simpl. right. split_and!; cbn; [done|lia|done].
  - left. by exists k.
Qed.
Lemma gen_key_made key c : k_wf c → wp (gen_key key) (λ r, made c r key) c.
Proof.
  intros Hw. unfold gen_key. wp_simpl. apply wp_k_alloc. wp_simpl.
  eapply (wp_mono _ (λ ret c', ∃ k, c' = with_obj c (KPriv k))).
  - destruct (negb _); wp_simpl; [by eexists|]. destruct (pk_setup pk_init) as [ret k]. wp_simpl. apply wp_k_set_new. wp_simpl.
    destruct (negb _); wp_simpl; [by eexists|]. destruct (ecp_gen_key k) as [ret' k']. wp_simpl. apply wp_k_set_new.
    wp_simpl. by eexists.
  - intros ret c' [k ->]. destruct (Z.eqb_spec ret 0) as [->|Hr]; cbn [negb]; wp_simpl; [left; by exists k|].
    apply wp_k_free_new; [done|]. intros c' Hc'. wp_simpl. by right.
Qed.
End Keys.

(** ** What the library promises of keys

    A key is read back from its text, the public key from the text of either, and the public key
    accepts what the private one signed. *)
Class MbedPkLaws `{MbedPk} := {
  pub_part : pk_context → pk_context;
  key_text_parse k n s : pk_write_key_pem k n = inr s → pk_parse_key pk_init (s ++ [0]) = (0, k);
  pub_text_parse k n s : pk_write_pubkey_pem k n = inr s → pk_parse_public_key pk_init (s ++ [0]) = (0, pub_part k);
  pub_text_same k n : pk_write_pubkey_pem (pub_part k) n = pk_write_pubkey_pem k n;
  sign_verify rng k md hash room sig : pk_sign rng k md hash room = (0, sig) → mbedtls_pk_verify (pub_part k) md hash sig = 0;
}.

Section Laws.
Context `{MbedPkLaws}.
Implicit Types (c : kst).

Lemma to_pem_ok p k s c : k_heap c !! p = Some (KPriv k) → pk_write_key_pem k 4096 = inr s →
  privkey_to_pem p c = Ret (0, Some (k_next c, Z.of_nat (length s) + 1), with_obj c (KText s)).
Proof. intros Hp Hs. unfold privkey_to_pem, priv_of, mbind, M_bind, get. rewrite Hp. cbn. by rewrite Hs. Qed.
Lemma load_text_ok k n s c : ctr_drbg_seed [] = 0 → pk_write_key_pem k n = inr s →
  load_key (s ++ [0]) None c = Ret (0, Some (k_next c), with_obj c (KPriv k)).
Proof.
  intros Hseed Hs. assert (Hr : wp (load_key (s ++ [0]) None) (λ r c', r = (0, Some (k_next c)) ∧ c' = with_obj c (KPriv k)) c).
  { unfold load_key. wp_simpl. apply wp_k_alloc. wp_simpl. rewrite Hseed. cbn [Z.eqb negb].
    wp_simpl. eapply wp_liftO; [by unfold key_bytes; rewrite last_snoc|]. erewrite key_text_parse by done.
    wp_simpl. apply wp_k_set_new. cbn [Z.ltb Z.compare]. by wp_simpl. }
  apply wp_run in Hr as (? & ? & -> & -> & ->). done.
Qed.
Lemma pubkey_ok p k s c : k_heap c !! p = Some (KPriv k) → pk_write_pubkey_pem k 4096 = inr s →
  privkey_pubkey p c = Ret (k_next c, with_obj c (KPub (pub_part k))).
Proof.
  intros Hp Hs. assert (Hr : wp (privkey_pubkey p) (λ r c', r = k_next c ∧ c' = with_obj c (KPub (pub_part k))) c).
  { unfold privkey_pubkey. wp_simpl. eapply wp_priv_of; [done|]. wp_simpl. apply wp_k_alloc. wp_simpl. rewrite Hs.
    erewrite pub_text_parse by done. wp_simpl. apply wp_k_set_new. by wp_simpl. }
  apply wp_run in Hr as (? & ? & -> & -> & ->). done.
Qed.
Lemma sign_verify_ok rng p q k md data room sig c c' :
  k_heap c !! p = Some (KPriv k) → k_heap c !! q = Some (KPub (pub_part k)) →
  privkey_sign rng p md data room c = Ret (0, Some sig, c') → pubkey_verify q md data sig c = Ret (0, c).
Proof.
  intros Hp Hq. unfold privkey_sign, pubkey_verify, priv_of, pub_of, mbind, M_bind, get. rewrite Hp, Hq.
  cbn. destruct md as [md|]; [|done]. cbn. destruct (mbedtls_md md data) as [err hash]. destruct (err =? 0); [|done].
  cbn. destruct (pk_sign rng k md hash room) as [e2 sg] eqn:Es. destruct (Z.eqb_spec e2 0) as [->|]; [|done].
  intros [= -> ->]. by rewrite (sign_verify _ _ _ _ _ _ Es).
Qed.

(** C22: A private key of the mbedTLS engine survives being written and read: its text, with the length
    the code gives it, loads as the same key; the public key made from the loaded one accepts every
    signature the original makes, for every hash the interface names; and freeing the three objects
    leaves the memory as it was. *)
Theorem mbed_key_roundtrip p k s spub c :
  k_wf c → k_heap c !! p = Some (KPriv k) → ctr_drbg_seed [] = 0 →
  pk_write_key_pem k 4096 = inr s → pk_write_pubkey_pem k 4096 = inr spub →
  ∃ t q u c1 c2 c3 c4,
    privkey_to_pem p c = Ret (0, Some (t, Z.of_nat (length (s ++ [0]))), c1) ∧ k_heap c1 !! t = Some (KText s) ∧
    load_key (s ++ [0]) None c1 = Ret (0, Some q, c2) ∧ k_heap c2 !! q = Some (KPriv k) ∧
    privkey_pubkey q c2 = Ret (u, c3) ∧
    (∀ rng md data room sig c', privkey_sign rng p md data room c3 = Ret (0, Some sig, c') →
       pubkey_verify u md data sig c3 = Ret (0, c3)) ∧
    (_ ← privkey_free q; _ ← pubkey_free u; k_free t) c3 = Ret (tt, c4) ∧ k_heap c4 = k_heap c.
Proof.
  intros Hw Hp Hseed Hs Hsp. set (c1 := with_obj c (KText s)). set (c2 := with_obj c1 (KPriv k)).
  set (c3 := with_obj c2 (KPub (pub_part k))).
  assert (Hw1 : k_wf c1) by by apply k_wf_with. assert (Hw2 : k_wf c2) by by apply k_wf_with.
  assert (Hq : k_heap c2 !! k_next c1 = Some (KPriv k)) by apply with_obj_get.
  assert (Hp3 : k_heap c3 !! p = Some (KPriv k)) by (repeat apply with_obj_old; done).
  assert (Hfree : wp (_ ← privkey_free (k_next c1); _ ← pubkey_free (k_next c2); k_free (k_next c))
                     (λ _ c4, k_heap c4 = k_heap c) c3).
  { pose proof (k_wf_fresh c Hw) as Hf. unfold privkey_free, pubkey_free. wp_simpl.
    eapply wp_priv_of; [cbn; by rewrite lookup_insert_ne, lookup_insert_eq by lia|].
    wp_simpl. eapply wp_k_free; [cbn; by rewrite lookup_insert_ne, lookup_insert_eq by lia|].
    wp_simpl. eapply wp_pub_of; [cbn; by rewrite lookup_delete_ne, lookup_insert_eq by lia|].
    wp_simpl. eapply wp_k_free; [cbn; by rewrite lookup_delete_ne, lookup_insert_eq by lia|].
    wp_simpl. eapply wp_k_free; [cbn; by rewrite !lookup_delete_ne, !lookup_insert_ne, lookup_insert_eq by lia|]. cbn.
    apply map_eq. intros a. rewrite !lookup_delete, !lookup_insert. repeat case_decide; subst; try done; try lia.
    all: symmetry; apply eq_None_not_Some; intros Ha; apply Hw in Ha; lia. }
  apply wp_run in Hfree as ([] & c4 & Hfree & Hc4). exists (k_next c), (k_next c1), (k_next c2), c1, c2, c3, c4.
  split_and!; try done.
  - rewrite (to_pem_ok _ _ _ _ Hp Hs), length_app, Nat2Z.inj_add. done.
  - apply with_obj_get.
  - by eapply load_text_ok.
  - by eapply pubkey_ok.
  - intros rng md data room sig c' Hsig. eapply sign_verify_ok; [exact Hp3|apply with_obj_get|exact Hsig].
Qed.
End Laws.

(** ** A concrete library

    A key is a number, its text the number's decimal digits between dashes, a signature the key's
    number before the hash; a negative key cannot be written. *)
Module ToyPk.
#[export] Instance toy_crypto : MbedCrypto := {|
  pk_context := Z; is_eckey _ := false; mbedtls_md _ d := (0, d);
  mbedtls_pk_verify k _ h s := if decide (s = k :: h) then 0 else -1;
  asn1_write_mpi _ _ := inl (-1); asn1_write_len _ _ := inl (-1); asn1_write_tag _ _ := inl (-1);
  MBEDTLS_ECDSA_MAX_LEN := 0; MBED_SEQUENCE := 48
|}.
#[export] Instance toy_pk : MbedPk := {|
  pk_init := -1; ctr_drbg_seed _ := 0;
  pk_parse_key k b := match b with 45 :: n :: _ => (0, n) | _ => (-15616, k) end;
  pk_parse_keyfile k _ := (-15872, k);
  pk_parse_public_key k b := match b with 43 :: n :: _ => (0, n) | _ => (-15616, k) end;
  pk_write_key_pem k n := if k <? 0 then inl (-15616) else inr [45; k];
  pk_write_pubkey_pem k n := if (k <? 0) || (n <? k) then inl (-108) else inr [43; k];
  pk_sign _ k _ h _ := (0, k :: h);
  pk_setup _ := (0, 0); ecp_gen_key _ := (0, 7);
|}.
#[export] Instance toy_pk_laws : @MbedPkLaws toy_crypto toy_pk.
Proof.
  unshelve refine {| pub_part := λ k, k |}.
  - cbn. intros k n s. destruct (k <? 0); [done|]. by intros [= <-].
  - cbn. intros k n s. destruct (_ || _); [done|]. by intros [= <-].
  - done.
  - cbn. intros _ k _ h _ sig [= <-]. by rewrite decide_True.
Defined.

Definition c0 : kst := mkkst {[ 1 := KPriv 9 ]} 2.
Lemma mbed_key_roundtrip_witness : ∃ t q u c1 c2 c3,
  privkey_to_pem 1 c0 = Ret (0, Some (t, 3), c1) ∧ load_key [45; 9; 0] None c1 = Ret (0, Some q, c2) ∧
  privkey_pubkey q c2 = Ret (u, c3) ∧ pubkey_verify u (Some hash_SHA256) [1; 2] [9; 1; 2] c3 = Ret (0, c3).
Proof.
  assert (Hwf : k_wf c0).
  { intros p. cbn. rewrite lookup_singleton_is_Some. intros <-. lia. }
  destruct (mbed_key_roundtrip 1 (9 : @pk_context toy_crypto) [45; 9] [43; 9] c0 Hwf) as (t & q & u & c1 & c2 & c3 & c4 & H1 & _ & H2 & _ & H3 & H4 & _);
    [reflexivity|reflexivity|reflexivity|reflexivity|].
  exists t, q, u, c1, c2, c3. split_and!; try done.
  vm_compute in H1. injection H1 as <- <-. vm_compute in H2. injection H2 as <- <-. vm_compute in H3. injection H3 as <- <-.
  eapply (H4 0 (Some hash_SHA256) [1; 2] 64). vm_compute. reflexivity.
Defined.

(** A public key whose text does not fit in 1024 bytes cannot be written, and a private key whose
    public part cannot be written at all has its public key read from an uninitialised buffer. *)
Lemma long_public_key : ∃ c, pubkey_pem 1 (mkkst {[ 1 := KPub 2000 ]} 2) = Ret (-1, None, c).
Proof. eexists. vm_compute. reflexivity. Qed.
Lemma unwritable_public_key : privkey_pubkey 1 (mkkst {[ 1 := KPriv 5000 ]} 2) = Fault Uninitialised.
Proof. vm_compute. reflexivity. Qed.
(** An empty key is looked at before its start, one without a NUL is read past its end. *)
Lemma load_key_reads_outside : load_key [] None c0 = Fault OutOfBounds ∧ load_key [45; 9] None c0 = Fault OutOfBounds.
Proof. split; vm_compute; reflexivity. Qed.
End ToyPk.
