(* ===== verification/MbedP11.v ===== *)
(** * Token keys of the mbedTLS engine (src/mbedtls/mbed_p11.c, p11_ecdsa.c, p11_rsa.c)

    One static context holds the PKCS#11 module; [mp11_load_key] fills it in when it is empty and
    then looks a key up.  A key of a token is a structure [mp11_key_ctx] that is put where the
    library keeps its own keys.  The macro [P11], the search and the identifier are those of
    [P11.v]: the code has its own copies of them. *)
From S2P Require Import Prelude CLib P11 Signatures MbedCerts.
From stdpp Require Import base list gmap sets numbers strings.
From Stdlib Require Import ZArith Lia.
Open Scope Z_scope.

Definition CKM_ECDSA_SHA1 : Z := 4162.
Definition CKM_ECDSA_SHA224 : Z := 4163.
Definition CKM_ECDSA_SHA256 : Z := 4164.
Definition CKM_ECDSA_SHA384 : Z := 4165.
Definition CKM_ECDSA_SHA512 : Z := 4166.
Definition CKK_ECDSA : Z := 3.
Definition CKR_KEY_HANDLE_INVALID : Z := 96.

(** The hashes of [mbedtls_md_type_t]. *)
Inductive md_type := MD_NONE | MD_MD5 | MD_SHA1 | MD_SHA224 | MD_SHA256 | MD_SHA384 | MD_SHA512 | MD_RIPEMD160.
#[export] Instance md_type_eq_dec : EqDecision md_type.
Proof. solve_decision. Defined.

(** Curves, numbers and constants of the library. *)
Class MbedEc `{Asn1} := {
  oid_get_ec_grp : list Z → option Z;
  ecp_group_bits : Z → Z;                     (* pbits of the group loaded; 0 when there is none *)
  ecp_point_read : Z → list Z → list Z;       (* the point, in the group *)
  md_get_size : md_type → option Z;           (* None: no md_info *)
  ecdsa_read_signature : Z * list Z → list Z → list Z → Z;
  rsa_pkcs1_verify : Z * Z → md_type → list Z → list Z → Z;
  tag_OCTET_STRING : Z;
  MBEDTLS_ECP_MAX_PT_LEN : Z;
  MBEDTLS_ERR_PK_KEY_INVALID_FORMAT : Z;
  MBEDTLS_ERR_RSA_BAD_INPUT_DATA : Z;
  HW_ACCEL_FAILED : Z;
}.

(** ** A reference for the message an RSA key signs (RFC 8017: DigestInfo)

    Elements shorter than 128 bytes; identifiers from their numbers. *)
Definition der (tag : Z) (body : list Z) : list Z := tag :: Z.of_nat (length body) :: body.
Fixpoint base128 (fuel : nat) (n : Z) (tail : list Z) : list Z :=
  match fuel with
  | O => tail
  | S fuel =>
    let tail := (n mod 128 + match tail with [] => 0 | _ => 128 end) :: tail in
    if n / 128 =? 0 then tail else base128 fuel (n / 128) tail
  end.
Definition der_oid (arcs : list Z) : list Z :=
  match arcs with a :: b :: rest => (40 * a + b) :: concat ((λ n, base128 5 n []) <$> rest) | _ => [] end.
Definition md_oid (md : md_type) : list Z :=
  match md with
  | MD_NONE => []
  | MD_MD5 => [1; 2; 840; 113549; 2; 5]
  | MD_SHA1 => [1; 3; 14; 3; 2; 26]
  | MD_SHA224 => [2; 16; 840; 1; 101; 3; 4; 2; 4]
  | MD_SHA256 => [2; 16; 840; 1; 101; 3; 4; 2; 1]
  | MD_SHA384 => [2; 16; 840; 1; 101; 3; 4; 2; 2]
  | MD_SHA512 => [2; 16; 840; 1; 101; 3; 4; 2; 3]
  | MD_RIPEMD160 => [1; 0; 10118; 3; 0; 49]
  end.
Definition digest_size (md : md_type) : Z :=
  match md with MD_NONE => 0 | MD_MD5 => 16 | MD_SHA1 | MD_RIPEMD160 => 20 | MD_SHA224 => 28 | MD_SHA256 => 32 | MD_SHA384 => 48 | MD_SHA512 => 64 end.
Definition digest_info (md : md_type) (hash : list Z) : list Z :=
  let params := if decide (md = MD_RIPEMD160) then [] else der 5 [] in
  der 0x30 (der 0x30 (der 6 (der_oid (md_oid md)) ++ params) ++ der 4 hash).

Section Mp11.
Context `{Cryptoki} `{MbedEc}.
Context (dlopen dlsym : list Z → bool) (C_GetFunctionList : token → Z * token).

Record mp11_context := mkmp11 { lib : bool; funcs : bool; p_session : Z; p_slot_id : Z }.
(** [pub] points to the public key the structure has. *)
Record mp11_key_ctx := mkmkey { mk_priv : Z; mk_pub : Z; sign_mechanism : Z; key_ctx : bool; pub : option Z }.
Inductive pk_type := PK_RSA | PK_ECDSA | PK_OTHER.
#[export] Instance pk_type_eq_dec : EqDecision pk_type.
Proof. solve_decision. Defined.

(** A token key; the curve and point of an ECDSA key; modulus and exponent; other memory. *)
Inductive pobj := PKey (k : mp11_key_ctx) | PEc (grp : Z) (Q : list Z) | PRsa (N E : Z) | PBuf (b : list Z).

(** The static context, the token, the heap, and the [mbedtls_pk_context] that is filled in. *)
Record ms := mkms {
  CTX : mp11_context; tok : token; p_heap : gmap Z pobj; p_next : Z;
  pk_info : option pk_type; pk_ctx : option Z;
}.
#[export] Instance ms_upd : Updatable ms := fun s => mkms (CTX s) (tok s) (p_heap s) (p_next s) (pk_info s) (pk_ctx s).
#[export] Instance mp11_context_upd : Updatable mp11_context := fun c => mkmp11 (lib c) (funcs c) (p_session c) (p_slot_id c).
#[export] Instance mp11_key_ctx_upd : Updatable mp11_key_ctx := fun k =>
  mkmkey (mk_priv k) (mk_pub k) (sign_mechanism k) (key_ctx k) (pub k).
Abbreviation MP A := (M ms (Z + A)%type).

Definition p_alloc (o : pobj) : M ms Z := fun s =>
  Ret (p_next s, s <| p_heap := <[p_next s := o]> (p_heap s) |> <| p_next := p_next s + 1 |>).
Definition p_free (p : Z) : M ms unit :=
  s ← get; match p_heap s !! p with Some _ => modify (λ s, s <| p_heap := delete p (p_heap s) |>) | None => fail_with DoubleFree end.
Definition key_at (p : Z) : M ms mp11_key_ctx :=
  s ← get; match p_heap s !! p with Some (PKey k) => mret k | Some _ => fail_with BadCast | None => fail_with UseAfterFree end.
Definition key_put (p : Z) (f : mp11_key_ctx → mp11_key_ctx) : M ms unit :=
  k ← key_at p; modify (λ s, s <| p_heap := <[p := PKey (f k)]> (p_heap s) |>).
Definition ctx_put (f : mp11_context → mp11_context) : M ms unit := modify (λ s, s <| CTX := f (CTX s) |>).

(** A function of the module is called through [funcs]. *)
Definition on_tok {A} (m : M token A) : M ms A := fun s =>
  match m (tok s) with Ret (a, t) => Ret (a, s <| tok := t |>) | Fault f => Fault f end.
Definition fcall {A} (m : M token A) : M ms A :=
  s ← get; if funcs (CTX s) then on_tok m else fail_with NullDeref.
Definition bindP {A B} (m : MP A) (k : A → MP B) : MP B :=
  r ← m; match r with inl rc => mret (inl rc) | inr a => k a end.
Notation "x ←? m ; k" := (bindP m (λ x, k)) (at level 20, m at level 100, k at level 200, only parsing).
Notation "'return!' rc" := (mret (inl rc)) (at level 20).
Definition okP {A} (a : A) : MP A := mret (inr a).

(** ** ECDSA keys *)

(** Several attributes in one call: the call fails when one of them does. *)
Fixpoint get_attrs (t : token) (sess h : Z) (l : list (Z * option Z)) : Z * list (Z * list Z) :=
  match l with
  | [] => (CKR_OK, [])
  | (ty, room) :: l =>
    let '(rv, len, b) := C_GetAttributeValue t sess h ty room in
    let '(rv', r) := get_attrs t sess h l in
    ((if rv =? CKR_OK then rv' else rv), (len, b) :: r)
  end.
Definition read_attrs (h : Z) (l : list (Z * option Z)) : M ms (Z * list (Z * list Z)) :=
  s ← get; fcall (gets (λ t, get_attrs t (p_session (CTX s)) h l)).
Definition mech_known (mech : Z) : M ms bool :=
  s ← get; fcall (gets (λ t, (C_GetMechanismInfo t (p_slot_id (CTX s)) mech).1 =? CKR_OK)).

(** The content of the element the bytes start with; its length is not set when the tag is another. *)
Definition tagged (b : list Z) (tag : Z) : outcome (list Z) :=
  match asn1_get_tag b tag with inr (h, n) => Ret (take n (drop h b)) | inl _ => Fault Uninitialised end.

Definition ecdsa_mechanism (pbits : Z) : Z :=
  if pbits =? 512 then CKM_ECDSA_SHA512
  else if pbits =? 384 then CKM_ECDSA_SHA384
  else if pbits =? 256 then CKM_ECDSA_SHA256
  else if pbits =? 224 then CKM_ECDSA_SHA224
  else CKM_ECDSA_SHA1.

(** What both kinds of keys start with. *)
Definition p11_attach (ty : pk_type) (p : Z) : M ms unit :=
  _ ← modify (λ s, s <| pk_info := Some ty |> <| pk_ctx := Some p |>);
  key_put p (λ k, k <| key_ctx := true |>).

Definition p11_load_ecdsa (p : Z) : MP unit :=
  _ ← p11_attach PK_ECDSA p;
  k ← key_at p;
  '(rc, vals) ← read_attrs (mk_pub k) [(CKA_EC_PARAMS, Some 32); (CKA_EC_POINT, Some MBEDTLS_ECP_MAX_PT_LEN)];
  if negb (rc =? CKR_OK) then return! MBEDTLS_ERR_PK_KEY_INVALID_FORMAT
  else
    match vals with
    | [(_, ec_param); (_, ec_point)] =>
      oid ← liftO (tagged ec_param tag_OID);
      let grp_id := default 0 (oid_get_ec_grp oid) in
      ecdsa ← p_alloc (PEc grp_id []);
      point ← liftO (tagged ec_point tag_OCTET_STRING);
      _ ← modify (λ s, s <| p_heap := <[ecdsa := PEc grp_id (ecp_point_read grp_id point)]> (p_heap s) |>);
      _ ← key_put p (λ k, k <| pub := Some ecdsa |>);
      let mech := ecdsa_mechanism (ecp_group_bits grp_id) in
      known ← mech_known mech;
      if (known : bool) then _ ← key_put p (λ k, k <| sign_mechanism := mech |>); okP tt
      else
        known ← mech_known CKM_ECDSA;
        if (known : bool) then _ ← key_put p (λ k, k <| sign_mechanism := CKM_ECDSA |>); okP tt
        else return! MBEDTLS_ERR_PK_KEY_INVALID_FORMAT
    | _ => fail_with OutOfBounds
    end.

(** The public key behind a token key. *)
Definition pub_at (p : Z) : M ms (Z * pobj) :=
  k ← key_at p;
  q ← from_opt NullDeref (pub k);
  s ← get;
  o ← from_opt UseAfterFree (p_heap s !! q);
  mret (q, o).

Definition p11_ecdsa_can_do (type : pk_type) : bool := bool_decide (type = PK_ECDSA).
Definition p11_ecdsa_verify (p : Z) (hash sig : list Z) : M ms Z :=
  '(_, o) ← pub_at p; match o with PEc g Q => mret (ecdsa_read_signature (g, Q) hash sig) | _ => fail_with BadCast end.
Definition p11_ecdsa_bitlen (p : Z) : M ms Z :=
  '(_, o) ← pub_at p; match o with PEc g _ => mret (ecp_group_bits g) | _ => fail_with BadCast end.
Definition p11_ecdsa_free (p : Z) : M ms unit :=
  '(q, o) ← pub_at p;
  match o with PEc _ _ => _ ← p_free q; p_free p | _ => fail_with BadCast end.

(** ** RSA keys *)

Definition p11_load_rsa (p : Z) : MP unit :=
  _ ← p11_attach PK_RSA p;
  k ← key_at p;
  '(rc, lens) ← read_attrs (mk_pub k) [(CKA_PUBLIC_EXPONENT, None); (CKA_MODULUS, None)];
  if negb (rc =? CKR_OK) then return! MBEDTLS_ERR_PK_KEY_INVALID_FORMAT
  else
    match lens with
    | [(elen, _); (nlen, _)] =>
      ebuf ← p_alloc (PBuf []);
      nbuf ← p_alloc (PBuf []);
      '(rc, vals) ← read_attrs (mk_pub k) [(CKA_PUBLIC_EXPONENT, Some elen); (CKA_MODULUS, Some nlen)];
      if negb (rc =? CKR_OK) then return! MBEDTLS_ERR_PK_KEY_INVALID_FORMAT
      else
        match vals with
        | [(_, e); (_, n)] =>
          rsa ← p_alloc (PRsa (bin2bn n) (bin2bn e));
          known ← mech_known CKM_RSA_PKCS;
          known ← (if (known : bool) then mret true else mech_known CKM_RSA_PKCS);
          if (known : bool) then
            _ ← key_put p (λ k, k <| sign_mechanism := CKM_RSA_PKCS |> <| pub := Some rsa |>); okP tt
          else return! MBEDTLS_ERR_PK_KEY_INVALID_FORMAT
        | _ => fail_with OutOfBounds
        end
    | _ => fail_with OutOfBounds
    end.

Definition p11_rsa_can_do (type : pk_type) : bool := bool_decide (type = PK_ECDSA).
Definition p11_rsa_verify (p : Z) (md : md_type) (hash sig : list Z) : M ms Z :=
  '(_, o) ← pub_at p; match o with PRsa n e => mret (rsa_pkcs1_verify (n, e) md hash sig) | _ => fail_with BadCast end.
(** [mbedtls_mpi_size]: the bytes of a number *)
Definition mpi_size (n : Z) : Z := if n =? 0 then 0 else Z.log2 n / 8 + 1.
Definition p11_rsa_bitlen (p : Z) : M ms Z :=
  '(_, o) ← pub_at p; match o with PRsa n _ => mret (8 * mpi_size n) | _ => fail_with BadCast end.
Definition p11_rsa_free (p : Z) : M ms unit :=
  '(q, o) ← pub_at p;
  match o with PRsa _ _ => _ ← p_free q; p_free p | _ => fail_with BadCast end.

(** The start of a DigestInfo for each hash: [HASH_HEADERS]. *)
Definition get_md_prefix (md : md_type) : option (list Z) :=
  match md with
  | MD_MD5 => Some [0x30; 0x20; 0x30; 0x0c; 0x06; 0x08; 0x2a; 0x86; 0x48; 0x86; 0xf7; 0x0d; 0x02; 0x05; 0x05; 0x00; 0x04; 0x10]
  | MD_SHA1 => Some [0x30; 0x21; 0x30; 0x09; 0x06; 0x05; 0x2b; 0x0e; 0x03; 0x02; 0x1a; 0x05; 0x00; 0x04; 0x14]
  | MD_SHA224 => Some [0x30; 0x2d; 0x30; 0x0d; 0x06; 0x09; 0x60; 0x86; 0x48; 0x01; 0x65; 0x03; 0x04; 0x02; 0x04; 0x05; 0x00; 0x04; 0x1c]
  | MD_SHA256 => Some [0x30; 0x31; 0x30; 0x0d; 0x06; 0x09; 0x60; 0x86; 0x48; 0x01; 0x65; 0x03; 0x04; 0x02; 0x01; 0x05; 0x00; 0x04; 0x20]
  | MD_SHA384 => Some [0x30; 0x41; 0x30; 0x0d; 0x06; 0x09; 0x60; 0x86; 0x48; 0x01; 0x65; 0x03; 0x04; 0x02; 0x02; 0x05; 0x00; 0x04; 0x30]
  | MD_SHA512 => Some [0x30; 0x51; 0x30; 0x0d; 0x06; 0x09; 0x60; 0x86; 0x48; 0x01; 0x65; 0x03; 0x04; 0x02; 0x03; 0x05; 0x00; 0x04; 0x40]
  | MD_RIPEMD160 => Some [0x30; 0x20; 0x30; 0x08; 0x06; 0x06; 0x28; 0xcf; 0x06; 0x03; 0x00; 0x31; 0x04; 0x14]
  | MD_NONE => None
  end.

(** [hash] is the memory at the pointer, [room] that of the signature; the length of the hash is
    the algorithm's, whatever the caller says, and [msg] is not freed. *)
Definition p11_rsa_sign (p : Z) (md : md_type) (hash : list Z) (room : Z) : M ms (Z * option (list Z)) :=
  k ← key_at p;
  match md_get_size md with
  | None => mret (MBEDTLS_ERR_RSA_BAD_INPUT_DATA, None)
  | Some hash_len =>
    match get_md_prefix md with
    | None => mret (HW_ACCEL_FAILED, None)
    | Some oid =>
      if Z.of_nat (length hash) <? hash_len then fail_with OutOfBounds
      else
        let msg := oid ++ take (Z.to_nat hash_len) hash in
        _ ← p_alloc (PBuf msg);
        s ← get;
        rc ← fcall (call (λ t, C_SignInit t (p_session (CTX s)) (sign_mechanism k) (mk_priv k)));
        if negb (rc =? CKR_OK) then mret (HW_ACCEL_FAILED, None)
        else
          '(rc, rawsig) ← fcall (call (λ t, C_Sign t (p_session (CTX s)) msg 4096));
          if negb (rc =? CKR_OK) then mret (HW_ACCEL_FAILED, None)
          else if room <? Z.of_nat (length rawsig) then fail_with OutOfBounds
          else mret (0, Some rawsig)
    end
  end.

(** ** Looking a key up *)

Definition fP11 {A} (op : token → Z * A * token) : MP A := fcall (P11 op).

(** [C_FindObjectsInit], [C_FindObjects] for one object, [C_FindObjectsFinal] *)
Definition mp11_find (query : template) : MP (option Z) :=
  s ← get;
  let sess := p_session (CTX s) in
  _ ←? fP11 (tt_of (λ t, C_FindObjectsInit t sess query));
  hs ←? fP11 (λ t, C_FindObjects t sess 1);
  _ ←? fP11 (tt_of (λ t, C_FindObjectsFinal t sess));
  okP (head hs).

(** The switch on the type of the key; [P11] passes the code of the loader on. *)
Definition mp11_load_typed (key_type p : Z) : MP unit :=
  if key_type =? CKK_ECDSA then p11_load_ecdsa p
  else if key_type =? CKK_RSA then p11_load_rsa p
  else return! CKR_KEY_HANDLE_INVALID.

(** [junk] is what [char id[32]] held. *)
Definition mp11_get_key (junk : list Z) (idstr : option (list Z)) : MP unit :=
  p ← p_alloc (PKey (mkmkey 0 0 0 false None));
  match idstr with
  | None => return! CKR_KEY_NEEDED
  | Some idstr =>
    query ← match idstr with [] => mret [] | _ => id ← liftO (parse_id junk idstr); mret [(CKA_ID, id)] end;
    priv ←? mp11_find ((CKA_CLASS, ulong CKO_PRIVATE_KEY) :: query);
    match priv with
    | None => return! CKR_KEY_NEEDED
    | Some privh =>
      _ ← key_put p (λ k, k <| mk_priv := privh |>);
      pubo ←? mp11_find ((CKA_CLASS, ulong CKO_PUBLIC_KEY) :: query);
      match pubo with
      | None => return! CKR_KEY_NEEDED
      | Some pubh =>
        _ ← key_put p (λ k, k <| mk_pub := pubh |>);
        s ← get;
        kt ←? fP11 (λ t, let '(rv, _, bytes) := C_GetAttributeValue t (p_session (CTX s)) privh CKA_KEY_TYPE (Some 8) in (rv, bytes, t));
        mp11_load_typed (of_ulong kt) p
      end
    end
  end.

Definition mp11_init (lib_ : list Z) (slot : option (list Z)) (pin : list Z) : MP unit :=
  _ ← ctx_put (λ _, mkmp11 (dlopen lib_) false 0 0);
  if negb (dlopen lib_) then return! CKR_FUNCTION_FAILED
  else if negb (dlsym lib_) then return! CKR_LIBRARY_LOAD_FAILED
  else
    _ ←? on_tok (P11 (tt_of C_GetFunctionList));
    _ ← ctx_put (λ c, c <| funcs := true |>);
    _ ←? fP11 (tt_of C_Initialize);
    slot_id ←? match slot with
               | Some ((_ :: _) as s) => okP (strtoul16 s)
               | _ => _ ←? fP11 C_GetSlotList; slots ←? fP11 C_GetSlotList; s ← liftO (first_slot slots); okP s
               end;
    _ ← ctx_put (λ c, c <| p_slot_id := slot_id |>);
    session ←? fP11 (λ t, C_OpenSession t slot_id);
    _ ← ctx_put (λ c, c <| p_session := session |>);
    _ ←? fP11 (tt_of (λ t, C_Login t session pin));
    okP tt.

Definition mp11_load_key (junk : list Z) (path pin : list Z) (slot key_id : option (list Z)) : MP unit :=
  s ← get;
  if lib (CTX s) then mp11_get_key junk key_id
  else _ ←? mp11_init path slot pin; mp11_get_key junk key_id.

(** ** The key found is the one [p11_load_key] finds *)

Implicit Types (s : ms).
Lemma fcall_ok {A} (m : M token A) s : funcs (CTX s) = true → fcall m s = on_tok m s.
Proof. intros Hf. unfold fcall, mbind, M_bind, get. by rewrite Hf. Qed.
(** Running the steps of a function over the token, one after the other. *)
Lemma bindP_tok {A B} (m : E A) (k : A → MP B) s :
  bindP (on_tok m) k s = match m (tok s) with
    | Ret (inr a, t) => k a (s <| tok := t |>) | Ret (inl rc, t) => Ret (inl rc, s <| tok := t |>) | Fault f => Fault f end.
Proof. unfold bindP, mbind, M_bind, on_tok. by destruct (m (tok s)) as [[[rc|a] t]|f]. Qed.
Lemma bindE_tok {A B} (m : E A) (k : A → E B) t :
  bindE m k t = match m t with Ret (inr a, t) => k a t | Ret (inl rc, t) => Ret (inl rc, t) | Fault f => Fault f end.
Proof. unfold bindE, mbind, M_bind. by destruct (m t) as [[[rc|a] t']|f]. Qed.
Lemma bindP_call {A B} (op : token → Z * A * token) (k : A → MP B) s : funcs (CTX s) = true →
  bindP (fP11 op) k s = match P11 op (tok s) with
    | Ret (inr a, t) => k a (s <| tok := t |>) | Ret (inl rc, t) => Ret (inl rc, s <| tok := t |>) | Fault f => Fault f end.
Proof.
  intros Hf. rewrite <- bindP_tok. unfold bindP, fP11, mbind, M_bind. by rewrite fcall_ok.
Qed.

Lemma bind_ret {S A B} (m : M S A) (k : A → M S B) (s : S) a (s' : S) : m s = Ret (a, s') → (m ≫= k) s = k a s'.
Proof. unfold mbind, M_bind. by intros ->. Qed.

Lemma mp11_find_eq q s : funcs (CTX s) = true →
  mp11_find q s = on_tok (find_one (mkp11 (p_session (CTX s)) (p_slot_id (CTX s))) q) s.
Proof.
  intros Hf. unfold mp11_find. unfold mbind at 1, M_bind, get. rewrite bindP_call by done.
  unfold on_tok, find_one. rewrite bindE_tok. destruct (P11 _ (tok s)) as [[[rc|[]] t]|f]; try done.
  rewrite bindP_call, bindE_tok by done. cbn [tok]. change (tok (s <| tok := t |>)) with t.
  destruct (P11 _ t) as [[[rc|hs] t2]|f]; try done.
  rewrite bindP_call, bindE_tok by done. change (tok (s <| tok := t |> <| tok := t2 |>)) with t2.
  by destruct (P11 _ t2) as [[[rc|[]] t3]|f].
Qed.
Lemma bindP_find {B} q (k : option Z → MP B) s : funcs (CTX s) = true →
  bindP (mp11_find q) k s = match find_one (mkp11 (p_session (CTX s)) (p_slot_id (CTX s))) q (tok s) with
    | Ret (inr a, t) => k a (s <| tok := t |>) | Ret (inl rc, t) => Ret (inl rc, s <| tok := t |>) | Fault f => Fault f end.
Proof. intros Hf. rewrite <- bindP_tok. unfold bindP, mbind, M_bind. by rewrite mp11_find_eq. Qed.

(** The state with the new key structure, and what the token became. *)
Definition with_key s (k : mp11_key_ctx) (t : token) : ms :=
  s <| tok := t |> <| p_heap := <[p_next s := PKey k]> (p_heap s) |> <| p_next := p_next s + 1 |>.
Lemma key_put_new s k t f (Q : unit → MP unit) :
  (key_put (p_next s) f ≫= Q) (with_key s k t) = Q tt (with_key s (f k) t).
Proof.
  unfold key_put, key_at, with_key, mbind, M_bind, get, modify. cbn. rewrite lookup_insert_eq. cbn.
  f_equal. unfold update_with. cbn. by rewrite insert_insert_eq.
Qed.

(** The lookup of each, call by call. *)
Definition key_type_of (sess privh : Z) : E (list Z) :=
  P11 (λ t, let '(rv, _, bytes) := C_GetAttributeValue t sess privh CKA_KEY_TYPE (Some 8) in (rv, bytes, t)).
Lemma p11_load_key_eq junk p11 idstr t : idstr ≠ [] →
  p11_load_key junk p11 (Some idstr) None t =
  match parse_id junk idstr with
  | Fault f => Fault f
  | Ret id =>
    match find_one p11 ((CKA_CLASS, ulong CKO_PRIVATE_KEY) :: [(CKA_ID, id)]) t with
    | Fault f => Fault f
    | Ret (inl rc, t) => Ret (inl rc, t)
    | Ret (inr None, t) => Ret (inl CKR_KEY_NEEDED, t)
    | Ret (inr (Some privh), t) =>
      match find_one p11 ((CKA_CLASS, ulong CKO_PUBLIC_KEY) :: [(CKA_ID, id)]) t with
      | Fault f => Fault f
      | Ret (inl rc, t) => Ret (inl rc, t)
      | Ret (inr None, t) => Ret (inl CKR_KEY_NEEDED, t)
      | Ret (inr (Some pubh), t) =>
        match key_type_of (session p11) privh t with
        | Fault f => Fault f
        | Ret (inl rc, t) => Ret (inl rc, t)
        | Ret (inr kt, t) => Ret (inr (mkkey (of_ulong kt) privh pubh), t)
        end
      end
    end
  end.
Proof.
  intros Hid. destruct idstr as [|ch idstr]; [done|]. unfold p11_load_key. rewrite bindE_tok. cbn iota.
  unfold mbind, M_bind, liftO. destruct (parse_id junk (ch :: idstr)) as [id|f]; [|done].
  unfold retE, failE, mret, M_ret. cbn iota beta. rewrite bindE_tok.
  destruct (find_one _ _ t) as [[[rc|[privh|]] t1]|f]; try done. rewrite bindE_tok.
  destruct (find_one _ _ t1) as [[[rc|[pubh|]] t2]|f]; try done. by rewrite bindE_tok.
Qed.
Lemma mp11_get_key_eq junk idstr s : funcs (CTX s) = true → idstr ≠ [] →
  let p11 := mkp11 (p_session (CTX s)) (p_slot_id (CTX s)) in
  mp11_get_key junk (Some idstr) s =
  match parse_id junk idstr with
  | Fault f => Fault f
  | Ret id =>
    match find_one p11 ((CKA_CLASS, ulong CKO_PRIVATE_KEY) :: [(CKA_ID, id)]) (tok s) with
    | Fault f => Fault f
    | Ret (inl rc, t) => Ret (inl rc, with_key s (mkmkey 0 0 0 false None) t)
    | Ret (inr None, t) => Ret (inl CKR_KEY_NEEDED, with_key s (mkmkey 0 0 0 false None) t)
    | Ret (inr (Some privh), t) =>
      match find_one p11 ((CKA_CLASS, ulong CKO_PUBLIC_KEY) :: [(CKA_ID, id)]) t with
      | Fault f => Fault f
      | Ret (inl rc, t) => Ret (inl rc, with_key s (mkmkey privh 0 0 false None) t)
      | Ret (inr None, t) => Ret (inl CKR_KEY_NEEDED, with_key s (mkmkey privh 0 0 false None) t)
      | Ret (inr (Some pubh), t) =>
        match key_type_of (session p11) privh t with
        | Fault f => Fault f
        | Ret (inl rc, t) => Ret (inl rc, with_key s (mkmkey privh pubh 0 false None) t)
        | Ret (inr kt, t) => mp11_load_typed (of_ulong kt) (p_next s) (with_key s (mkmkey privh pubh 0 false None) t)
        end
      end
    end
  end.
Proof.
  intros Hf Hid p11. destruct idstr as [|ch idstr]; [done|]. unfold mp11_get_key.
  set (k0 := mkmkey 0 0 0 false None).
  rewrite (bind_ret (p_alloc (PKey k0)) _ _ (p_next s) (with_key s k0 (tok s))) by by destruct s.
  cbn iota beta. destruct (parse_id junk (ch :: idstr)) as [id|f]; [|done].
  erewrite bind_ret by (unfold mbind, M_bind, liftO; reflexivity). rewrite bindP_find by done.
  change (mkp11 _ _) with p11. change (tok (with_key s k0 (tok s))) with (tok s).
  destruct (find_one p11 _ (tok s)) as [[[rc|[privh|]] t1]|f]; try done.
  change (with_key s k0 (tok s) <| tok := t1 |>) with (with_key s k0 t1). rewrite key_put_new, bindP_find by done.
  change (mkp11 _ _) with p11. change (tok (with_key s _ t1)) with t1.
  destruct (find_one p11 _ t1) as [[[rc|[pubh|]] t2]|f]; try done.
  change (with_key s ?k t1 <| tok := t2 |>) with (with_key s k t2). rewrite key_put_new.
  erewrite bind_ret by done. rewrite bindP_call by done.
  match goal with |- context [P11 ?op ?t] => change (P11 op t) with (key_type_of (session p11) privh t2) end.
  by destruct (key_type_of _ _ t2) as [[[rc|kt] t3]|f].
Qed.


(** ** Signing with an RSA key *)

Lemma prefix_digest_info md pre hash : get_md_prefix md = Some pre → Z.of_nat (length hash) = digest_size md →
  pre ++ hash = digest_info md hash.
Proof.
  intros Hpre Hlen. destruct md; cbn in Hpre; simplify_eq; cbn [digest_size] in Hlen.
  all: unfold digest_info; rewrite ?decide_True, ?decide_False by done; unfold der at 1.
  all: match goal with |- context [der 0x30 ?b] => let b' := eval vm_compute in (der 0x30 b) in change (der 0x30 b) with b' end.
  all: unfold der; rewrite length_app; cbn [length app]; rewrite Hlen;
    do 2 f_equal; try reflexivity; rewrite !Nat2Z.inj_add, !Nat2Z.inj_succ, Hlen; reflexivity.
Qed.

End Mp11.

(** ** A concrete module *)
Module ToyMp11.
(** The token of [ToyToken] with one slot, every mechanism, and the PIN "1". *)
#[local] Instance mod_ : Cryptoki := {|
  token := ToyToken.tok;
  C_Initialize := @C_Initialize ToyToken.lib; C_GetSlotList t := (CKR_OK, [0], t);
  C_OpenSession t _ := (CKR_OK, 1, t); C_Login t _ pin := (if decide (pin = bs "1") then CKR_OK else 160, t);
  C_GetMechanismInfo _ _ _ := (CKR_OK, (0, 0)); C_GenerateRandom := @C_GenerateRandom ToyToken.lib;
  C_GenerateKeyPair := @C_GenerateKeyPair ToyToken.lib; C_CreateObject := @C_CreateObject ToyToken.lib;
  C_FindObjectsInit := @C_FindObjectsInit ToyToken.lib; C_FindObjects := @C_FindObjects ToyToken.lib;
  C_FindObjectsFinal := @C_FindObjectsFinal ToyToken.lib; C_GetAttributeValue := @C_GetAttributeValue ToyToken.lib;
  C_SignInit t _ _ _ := (CKR_OK, t); C_Sign t _ d n := (CKR_OK, take (Z.to_nat n) d, t)
|}.
#[local] Existing Instance ToyAsn1.lib.
#[local] Instance ec : MbedEc := {|
  oid_get_ec_grp b := head b; ecp_group_bits g := if g =? 3 then 256 else if g =? 5 then 521 else 0;
  ecp_point_read _ b := b; md_get_size md := if decide (md = MD_NONE) then None else Some (digest_size md);
  ecdsa_read_signature _ _ _ := 0; rsa_pkcs1_verify _ _ _ _ := 0; tag_OCTET_STRING := 4;
  MBEDTLS_ECP_MAX_PT_LEN := 133; MBEDTLS_ERR_PK_KEY_INVALID_FORMAT := -15616; MBEDTLS_ERR_RSA_BAD_INPUT_DATA := -16512;
  HW_ACCEL_FAILED := -112;
|}.
Definition both (kt : Z) (attrs : gmap Z (list Z)) : ToyToken.tok :=
  ToyToken.mktok {[ 5 := {[ CKA_CLASS := ulong CKO_PRIVATE_KEY; CKA_ID := [171; 1]; CKA_KEY_TYPE := ulong kt ]};
                    6 := {[ CKA_CLASS := ulong CKO_PUBLIC_KEY; CKA_ID := [171; 1] ]} ∪ attrs ]} Idle [].
Definition ec_attrs (g : Z) : gmap Z (list Z) := {[ CKA_EC_PARAMS := [6; 1; g]; CKA_EC_POINT := [4; 2; 11; 12] ]}.
Definition rsa_attrs : gmap Z (list Z) := {[ CKA_PUBLIC_EXPONENT := [1; 0; 1]; CKA_MODULUS := [187] ]}.
Definition start (t : ToyToken.tok) : @ms mod_ := mkms (mkmp11 false false 0 0) t ∅ 1 None None.
Definition opened (t : ToyToken.tok) : @ms mod_ := mkms (mkmp11 true true 1 0) t ∅ 1 None None.
Definition load (dlsym : list Z → bool) (pin id : string) (s : ms) : outcome ((Z + unit) * ms) :=
  mp11_load_key (λ _, true) dlsym (λ t, (CKR_OK, t)) (replicate 32 0) [] (bs pin) None (Some (bs id)) s.


Definition rsa_state : @ms mod_ := mkms (mkmp11 true true 1 0) (both CKK_RSA rsa_attrs) {[ 1 := PKey (mkmkey 5 6 CKM_RSA_PKCS true None) ]} 2 None None.

(** The objects left when a key was loaded and freed by its own function. *)
Definition load_free (free : Z → M ms unit) (r : outcome ((Z + unit) * ms)) : option (list Z) :=
  match r with
  | Ret (inr _, s) =>
    match pk_ctx s with
    | Some p => match free p s with Ret (_, s') => Some (map_to_list (p_heap s')).*1 | _ => None end
    | None => None
    end
  | _ => None
  end.
(** An ECDSA key leaves nothing; an RSA key the two buffers its numbers were read into. *)
Lemma ecdsa_key_released : load_free p11_ecdsa_free (load (λ _, true) "1" "ab01" (start (both CKK_EC (ec_attrs 3)))) = Some [].
Proof. vm_compute. reflexivity. Qed.
Lemma rsa_buffers_left : length <$> load_free p11_rsa_free (load (λ _, true) "1" "ab01" (start (both CKK_RSA rsa_attrs))) = Some 2%nat.
Proof. vm_compute. reflexivity. Qed.
(** A module without [C_GetFunctionList]: the first call fails, the second goes through a null table. *)
Lemma second_load_without_functions :
  match load (λ _, false) "1" "ab01" (start (both CKK_EC (ec_attrs 3))) with
  | Ret (inl rc, s) => rc = CKR_LIBRARY_LOAD_FAILED ∧ load (λ _, true) "1" "ab01" s = Fault NullDeref
  | _ => False
  end.
Proof. vm_compute. split; reflexivity. Qed.
(** After a wrong PIN the next call succeeds with any PIN: it does not log in again. *)
Lemma second_load_without_login :
  match load (λ _, true) "0" "ab01" (start (both CKK_EC (ec_attrs 3))) with
  | Ret (inl rc, s) => rc = 160 ∧ (∃ s', load (λ _, true) "0" "ab01" s = Ret (inr tt, s'))
  | _ => False
  end.
Proof. vm_compute. split; [reflexivity|]. eexists. reflexivity. Qed.
(** A curve of 521 bits has no case of its own: its signatures are made over SHA-1. *)
Lemma p521_uses_sha1 : ecdsa_mechanism (ecp_group_bits 5) = CKM_ECDSA_SHA1.
Proof. reflexivity. Qed.
(** A token key is given the library's own type, whose functions take its structure for a curve's;
    the RSA functions would say they can do ECDSA and not RSA. *)
Lemma rsa_can_do_ecdsa : p11_rsa_can_do PK_RSA = false ∧ p11_rsa_can_do PK_ECDSA = true.
Proof. split; reflexivity. Qed.
End ToyMp11.
