(* ===== verification/OpenSslKeys.v ===== *)
(** * Keys of the OpenSSL engine (src/openssl/keys.c, keys.h)

    The state is the heap of what the code allocates, the PKCS#11 token, and the library, whose
    objects are known by the calls on them ([OsslKeys]).  OpenSSL counts references: the code
    relies on [EVP_PKEY_set1_EC_KEY] taking one, and on the destruction of an EC or RSA object
    calling [p11_ec_ex_free] with the token key attached to it ([OsslKeyLaws]).  ASN.1 strings,
    BIOs and contexts that live within one call are values. *)
From S2P Require Import Prelude CLib P11 Signatures OpenSslCtx.
From stdpp Require Import base list gmap numbers strings.
From Stdlib Require Import ZArith Lia.
Open Scope Z_scope.
Set Warnings "-clear-no-such-hyp".

(** ** Constants (src/pkcs11/pkcs11t.h) *)
Definition CKM_RSA_X_509 : Z := 3.
Definition CKM_RSA_X9_31 : Z := 11.
(** [RSA_PKCS1_PADDING], [RSA_NO_PADDING], [RSA_X931_PADDING] of the library *)
Definition RSA_PKCS1_PADDING : Z := 1.
Definition RSA_NO_PADDING : Z := 3.
Definition RSA_X931_PADDING : Z := 5.

(** The type of an [EVP_PKEY]. *)
Inductive pkey_id := EVP_PKEY_EC | EVP_PKEY_RSA | EVP_PKEY_OTHER.

(** Objects are handles.  A call that destroys an EC or RSA object gives the extra data (index
    and pointer) it hands to the free function of the index. *)
Class OsslKeys := {
  olib : Type;
  EC_KEY_get_ex_new_index : olib → Z * olib;
  RSA_get_ex_new_index : olib → Z * olib;
  EC_KEY_new : olib → Z * olib;
  EC_KEY_free : olib → Z → option (Z * Z) * olib;
  d2i_ECParameters : olib → Z → list Z → bool * olib;
  o2i_ECPublicKey : olib → Z → list Z → bool * olib;
  d2i_ASN1_OCTET_STRING : list Z → option (list Z);
  EC_KEY_set_method : olib → Z → olib;
  EC_KEY_set_ex_data : olib → Z → Z → Z → olib;
  EC_KEY_get_ex_data : olib → Z → Z → option Z;
  RSA_new : olib → Z * olib;
  RSA_free : olib → Z → option (Z * Z) * olib;
  BN_bin2bn : olib → list Z → Z * olib;
  BN_free : olib → Z → olib;
  RSA_set0_key : olib → Z → Z → Z → olib;
  RSA_set_method : olib → Z → olib;
  RSA_set_ex_data : olib → Z → Z → Z → olib;
  RSA_get_ex_data : olib → Z → Z → option Z;
  RSA_size : olib → Z → Z;
  EVP_PKEY_new : olib → Z * olib;
  EVP_PKEY_free : olib → Z → option (Z * Z) * olib;
  EVP_PKEY_set1_EC_KEY : olib → Z → Z → bool * olib;
  EVP_PKEY_set1_RSA : olib → Z → Z → bool * olib;
  EVP_PKEY_id : olib → Z → pkey_id;
  EVP_PKEY_get0 : olib → Z → Z;                       (* get0_EC_KEY, get0_RSA *)
  EVP_PKEY_keygen : olib → Z → bool * olib;           (* with a context for the curve P-256 *)
  PEM_read_PrivateKey : olib → list Z → option Z * olib;
  PEM_write_PrivateKey : olib → Z → option (list Z);
  PEM_write_PUBKEY : olib → Z → option (list Z);
  PEM_read_PUBKEY : olib → list Z → option Z * olib;
  EVP_DigestSignInit : olib → Z → option hash_algo → bool;
  EVP_DigestSign : olib → Z → option hash_algo → list Z → Z * list Z;
}.

Section Keys.
Context `{OsslKeys} `{Cryptoki} `{X509Lib}.
Context (dlopen dlsym : list Z → bool) (C_GetFunctionList : token → Z * token).
Context (fopen : list Z → option (list Z)).                 (* the content of a file *)
Context (d2i_X509 : list Z → option X509) (i2d_X509 i2d_X509_NAME : X509 → list Z).

(** What the code allocates: [p11_context], [p11_key_ctx] with its [ctx], the private and public
    key structures with their [pkey], and buffers. *)
Inductive hobj :=
  | HCtx (c : p11_context)
  | HKey (k : p11_key_ctx) (ctx : option Z)
  | HPriv (pkey : Z)
  | HPub (pkey : option Z)
  | HBuf (b : list Z).

Record ks := mkks {
  ks_tok : token;
  ks_lib : olib;
  ks_heap : gmap Z hobj;
  ks_next : Z;
  ks_once : bool;              (* init_once *)
  p11_ec_idx : Z;
  p11_rsa_idx : Z
}.
#[export] Instance ks_upd : Updatable ks := fun s =>
  mkks (ks_tok s) (ks_lib s) (ks_heap s) (ks_next s) (ks_once s) (p11_ec_idx s) (p11_rsa_idx s).

Definition tok {A} (m : M token A) : M ks A := fun s =>
  match m (ks_tok s) with Ret (a, t) => Ret (a, s <| ks_tok := t |>) | Fault f => Fault f end.
Definition lib {A} (op : olib → A * olib) : M ks A := fun s =>
  let '(a, l) := op (ks_lib s) in Ret (a, s <| ks_lib := l |>).
Definition lib_ (op : olib → olib) : M ks unit := modify (λ s, s <| ks_lib := op (ks_lib s) |>).

Definition calloc (o : hobj) : M ks Z := fun s =>
  Ret (ks_next s, s <| ks_heap := <[ks_next s := o]> (ks_heap s) |> <| ks_next := ks_next s + 1 |>).
Definition free (p : option Z) : M ks unit :=
  match p with
  | None => mret tt
  | Some p => s ← get;
    match ks_heap s !! p with
    | Some _ => modify (λ s, s <| ks_heap := delete p (ks_heap s) |>)
    | None => fail_with DoubleFree
    end
  end.
Definition deref_key (p : Z) : M ks (p11_key_ctx * option Z) :=
  s ← get; match ks_heap s !! p with Some (HKey k c) => mret (k, c) | Some _ => fail_with BadCast | None => fail_with UseAfterFree end.
Definition deref_ctx (p : option Z) : M ks p11_context :=
  match p with
  | None => fail_with NullDeref
  | Some p => s ← get;
    match ks_heap s !! p with Some (HCtx c) => mret c | Some _ => fail_with BadCast | None => fail_with UseAfterFree end
  end.
Definition deref_buf (p : option Z) : M ks (list Z) :=
  match p with
  | None => fail_with NullDeref
  | Some p => s ← get;
    match ks_heap s !! p with Some (HBuf b) => mret b | Some _ => fail_with BadCast | None => fail_with UseAfterFree end
  end.
Definition put (p : Z) (o : hobj) : M ks unit := modify (λ s, s <| ks_heap := <[p := o]> (ks_heap s) |>).

(** ** Extra data of token keys *)

(** [p11_key_free] of src/p11.c *)
Definition p11_key_free (key : Z) : M ks unit :=
  '(_, ctx) ← deref_key key;
  _ ← free ctx;
  free (Some key).

(** Called by the library with the data of an object that is destroyed; it is registered for EC and
    for RSA objects. *)
Definition p11_ec_ex_free (ex : option (Z * Z)) : M ks unit :=
  match ex with
  | None => mret tt
  | Some (idx, ptr) => s ← get; if idx =? p11_ec_idx s then p11_key_free ptr else mret tt
  end.
Definition ec_key_free (ec : Z) : M ks unit := ex ← lib (λ l, EC_KEY_free l ec); p11_ec_ex_free ex.
Definition rsa_free (rsa : Z) : M ks unit := ex ← lib (λ l, RSA_free l rsa); p11_ec_ex_free ex.
Definition evp_pkey_free (pkey : option Z) : M ks unit :=
  match pkey with
  | None => mret tt
  | Some pkey => ex ← lib (λ l, EVP_PKEY_free l pkey); p11_ec_ex_free ex
  end.

(** The methods are the library's with the signing functions of this file. *)
Definition init : M ks unit :=
  ec ← lib EC_KEY_get_ex_new_index;
  rsa ← lib RSA_get_ex_new_index;
  modify (λ s, s <| p11_ec_idx := ec |> <| p11_rsa_idx := rsa |>).
Definition uv_once_init : M ks unit :=
  s ← get; if ks_once s then mret tt else _ ← modify (λ s, s <| ks_once := true |>); init.

Definition set_ec_p11_impl (ec p11_key : Z) : M ks unit :=
  _ ← uv_once_init;
  _ ← lib_ (λ l, EC_KEY_set_method l ec);
  s ← get;
  lib_ (λ l, EC_KEY_set_ex_data l ec (p11_ec_idx s) p11_key).
Definition set_rsa_p11_impl (rsa p11_key : Z) : M ks unit :=
  _ ← uv_once_init;
  _ ← lib_ (λ l, RSA_set_method l rsa);
  s ← get;
  lib_ (λ l, RSA_set_ex_data l rsa (p11_rsa_idx s) p11_key).

(** ** Loading the public part of a token key *)

(** [p11_get_key_attr] into a buffer it allocates; none when it fails. *)
Definition get_key_attr (key ty : Z) : M ks (Z * option Z) :=
  '(k, ctx) ← deref_key key;
  c ← deref_ctx ctx;
  '(rc, v) ← tok (p11_get_key_attr c k ty);
  match v with
  | Some b => p ← calloc (HBuf b); mret (rc, Some p)
  | None => mret (rc, None)
  end.

Definition ec_error (ec : Z) (value : option Z) : M ks Z :=
  _ ← ec_key_free ec;
  _ ← free value;
  mret (-1).

Definition load_pkcs11_ec (pkey p11_key : Z) : M ks Z :=
  ec ← lib EC_KEY_new;
  '(rc, value) ← get_key_attr p11_key CKA_EC_PARAMS;
  if negb (rc =? 0) then ec_error ec value
  else
    a ← deref_buf value;
    ok ← lib (λ l, d2i_ECParameters l ec a);
    if negb ok then ec_error ec value
    else
      _ ← free value;
      '(rc, value) ← get_key_attr p11_key CKA_EC_POINT;
      if negb (rc =? 0) then ec_error ec value
      else
        a ← deref_buf value;
        ok ← lib (λ l, o2i_ECPublicKey l ec (default a (d2i_ASN1_OCTET_STRING a)));
        if negb ok then ec_error ec value
        else
          _ ← free value;
          _ ← set_ec_p11_impl ec p11_key;
          ok ← lib (λ l, EVP_PKEY_set1_EC_KEY l pkey ec);
          if negb ok then ec_error ec None
          else
            _ ← ec_key_free ec;
            mret 0.

(** [BN_free] of a pointer that may be NULL. *)
Definition bn_free (n : option Z) : M ks unit :=
  match n with None => mret tt | Some n => lib_ (λ l, BN_free l n) end.
Definition rsa_error (e n value : option Z) : M ks Z :=
  _ ← bn_free e;
  _ ← bn_free n;
  _ ← free value;
  mret (-1).

Definition load_pkcs11_rsa (pkey p11_key : Z) : M ks Z :=
  rsa ← lib RSA_new;
  '(rc, value) ← get_key_attr p11_key CKA_PUBLIC_EXPONENT;
  if negb (rc =? 0) then rsa_error None None value
  else
    v ← deref_buf value;
    e ← lib (λ l, BN_bin2bn l v);
    _ ← free value;
    '(rc, value) ← get_key_attr p11_key CKA_MODULUS;
    if negb (rc =? 0) then rsa_error (Some e) None value
    else
      v ← deref_buf value;
      n ← lib (λ l, BN_bin2bn l v);
      _ ← free value;
      _ ← lib_ (λ l, RSA_set0_key l rsa n e);
      _ ← set_rsa_p11_impl rsa p11_key;
      _ ← lib (λ l, EVP_PKEY_set1_RSA l pkey rsa);
      _ ← rsa_free rsa;
      mret 0.

(** ** Token keys *)

(** [case CKK_EC: ...; case CKK_RSA: ...], whose results are not looked at; [false] is the
    default case. *)
Definition load_pkcs11_pub (pkey p11_key : Z) : M ks bool :=
  '(k, _) ← deref_key p11_key;
  if key_type k =? CKK_EC then _ ← load_pkcs11_ec pkey p11_key; mret true
  else if key_type k =? CKK_RSA then _ ← load_pkcs11_rsa pkey p11_key; mret true
  else mret false.

(** The common part of [gen_pkcs11_key] and [load_pkcs11_key]: [find] is [p11_gen_key] or
    [p11_load_key], which fill in the key structure when they succeed.  The result is the code and
    [*key]. *)
Definition pkcs11_key (driver : list Z) (slot : option (list Z)) (pin : list Z) (find : p11_context → E p11_key_ctx)
  : M ks (Z * option Z) :=
  p11 ← calloc (HCtx (mkp11 0 0));
  r ← tok (p11_init dlopen dlsym C_GetFunctionList driver slot pin);
  match r with
  | inl rc => _ ← free (Some p11); mret (rc, None)
  | inr c =>
    _ ← put p11 (HCtx c);
    p11_key ← calloc (HKey (mkkey 0 0 0) None);
    r ← tok (find c);
    match r with
    | inl _ => _ ← free (Some p11_key); _ ← free (Some p11); mret (-1, None)
    | inr k =>
      _ ← put p11_key (HKey k (Some p11));
      pkey ← lib EVP_PKEY_new;
      ok ← load_pkcs11_pub pkey p11_key;
      if (ok : bool) then priv ← calloc (HPriv pkey); mret (0, Some priv)
      else
        _ ← free (Some p11_key); _ ← free (Some p11); _ ← evp_pkey_free (Some pkey); mret (-1, None)
    end
  end.
Definition gen_pkcs11_key (driver : list Z) (slot : option (list Z)) (pin : list Z) (label : option (list Z)) : M ks (Z * option Z) :=
  pkcs11_key driver slot pin (λ c, p11_gen_key c label).
Definition load_pkcs11_key (junk : list Z) (driver : list Z) (slot : option (list Z)) (pin : list Z) (id label : option (list Z))
  : M ks (Z * option Z) :=
  pkcs11_key driver slot pin (λ c, p11_load_key junk c id label).

(** ** Other keys *)

(** [BIO_new_fp] of the file the data names, or the data itself. *)
Definition load_key (keydata : list Z) : M ks (Z * option Z) :=
  let kb := match fopen keydata with Some content => content | None => mem_bio keydata end in
  pk ← lib (λ l, PEM_read_PrivateKey l kb);
  match pk with
  | None => mret (-1, None)
  | Some pk => priv ← calloc (HPriv pk); mret (0, Some priv)
  end.

Definition gen_key : M ks (Z * option Z) :=
  pk ← lib EVP_PKEY_new;
  ok ← lib (λ l, EVP_PKEY_keygen l pk);
  if negb ok then _ ← evp_pkey_free (Some pk); mret (-1, None)
  else priv ← calloc (HPriv pk); mret (0, Some priv).

Definition deref_priv (p : Z) : M ks Z :=
  s ← get; match ks_heap s !! p with Some (HPriv k) => mret k | Some _ => fail_with BadCast | None => fail_with UseAfterFree end.
Definition deref_pub (p : Z) : M ks (option Z) :=
  s ← get; match ks_heap s !! p with Some (HPub k) => mret k | Some _ => fail_with BadCast | None => fail_with UseAfterFree end.

Definition privkey_free (priv : Z) : M ks unit :=
  pkey ← deref_priv priv;
  _ ← evp_pkey_free (Some pkey);
  free (Some priv).
Definition pubkey_free (pub : Z) : M ks unit :=
  pkey ← deref_pub pub;
  _ ← evp_pkey_free pkey;
  free (Some pub).

(** The key is written as PEM and read again. *)
Definition privkey_pubkey (priv : Z) : M ks Z :=
  pkey ← deref_priv priv;
  s ← get;
  pk ← lib (λ l, PEM_read_PUBKEY l (default [] (PEM_write_PUBKEY (ks_lib s) pkey)));
  calloc (HPub pk).

(** [calloc(1, len + 1)] filled with the text; its length. *)
Definition pem_out (text : option (list Z)) : M ks (Z * option Z * Z) :=
  match text with
  | None => mret (-1, None, 0)
  | Some t => p ← calloc (HBuf (t ++ [0])); mret (0, Some p, Z.of_nat (length t))
  end.
Definition privkey_to_pem (priv : Z) : M ks (Z * option Z * Z) :=
  pkey ← deref_priv priv; s ← get; pem_out (PEM_write_PrivateKey (ks_lib s) pkey).
(** [pkey] of a public key whose text could not be read is NULL. *)
Definition pubkey_to_pem (pub : Z) : M ks (Z * option Z * Z) :=
  pkey ← deref_pub pub;
  pkey ← from_opt NullDeref pkey;
  s ← get; pem_out (PEM_write_PUBKEY (ks_lib s) pkey).

(** The code and the signature. *)
Definition privkey_sign (priv : Z) (md : option hash_algo) (data : list Z) : M ks (Z * list Z) :=
  pkey ← deref_priv priv;
  s ← get;
  if negb (EVP_DigestSignInit (ks_lib s) pkey md) then mret (-1, [])
  else
    let '(r, sig) := EVP_DigestSign (ks_lib s) pkey md data in
    if negb (r =? 1) then mret (-1, []) else mret (0, sig).

(** What the library calls to sign with an RSA key of a token; [mech0] is what the uninitialised
    variable held, and [enc0] the room for the signature. *)
Definition privkey_p11_rsa_enc (mech0 : Z) (enc0 msg : list Z) (rsa padding : Z) : M ks (Z * list Z) :=
  s ← get;
  key ← from_opt NullDeref (RSA_get_ex_data (ks_lib s) rsa (p11_rsa_idx s));
  let siglen := RSA_size (ks_lib s) rsa in
  let mech := if padding =? RSA_PKCS1_PADDING then CKM_RSA_PKCS
              else if padding =? RSA_NO_PADDING then CKM_RSA_X_509
              else if padding =? RSA_X931_PADDING then CKM_RSA_X9_31 else mech0 in
  '(k, ctx) ← deref_key key;
  c ← deref_ctx ctx;
  '(rc, sig) ← tok (p11_key_sign c k msg siglen mech);
  if rc =? 0 then mret (i32 (Z.of_nat (length sig)), sig) else mret (i32 siglen, enc0).

(** ** Certificates of token keys *)

(** The token key behind a private key. *)
Definition p11_key_of (pkey : Z) : M ks (option Z) :=
  s ← get;
  match EVP_PKEY_id (ks_lib s) pkey with
  | EVP_PKEY_EC => mret (EC_KEY_get_ex_data (ks_lib s) (EVP_PKEY_get0 (ks_lib s) pkey) (p11_ec_idx s))
  | EVP_PKEY_RSA => mret (RSA_get_ex_data (ks_lib s) (EVP_PKEY_get0 (ks_lib s) pkey) (p11_rsa_idx s))
  | EVP_PKEY_OTHER => mret None
  end.

(** The code and the store; a certificate that does not decode is not added. *)
Definition privkey_get_cert (priv : Z) : M ks (Z * option X509_STORE) :=
  pkey ← deref_priv priv;
  key ← p11_key_of pkey;
  match key with
  | None => mret (-1, None)
  | Some key =>
    '(k, ctx) ← deref_key key;
    c ← deref_ctx ctx;
    '(rc, der) ← tok (p11_get_key_cert c k);
    if negb (rc =? 0) then mret (-1, None)
    else
      der ← from_opt NullDeref der;
      mret (0, Some (match d2i_X509 der with
                     | Some x => X509_STORE_add_cert X509_STORE_new x
                     | None => X509_STORE_new
                     end))
  end.

(** The first certificate of the store is stored. *)
Definition privkey_store_cert (priv : Z) (store : X509_STORE) : M ks Z :=
  pkey ← deref_priv priv;
  key ← p11_key_of pkey;
  match key with
  | None => mret (-1)
  | Some key =>
    x ← from_opt NullDeref (head (X509_STORE_objects store));
    '(k, ctx) ← deref_key key;
    c ← deref_ctx ctx;
    tok (p11_store_key_cert c k (i2d_X509 x) (i2d_X509_NAME x))
  end.
End Keys.

(** ** The library's objects *)

(** Reference counts, the key material given to an object, and its extra data. *)
Inductive oobj :=
  | OEC (refs : nat) (params point : option (list Z)) (ex : option (Z * Z))
  | ORSA (refs : nat) (key : option (Z * Z)) (ex : option (Z * Z))
  | OBN (bytes : list Z)
  | OPKEY (key : option Z).

Class OsslKeyLaws `{OsslKeys} := {
  oobjs : olib → gmap Z oobj;
  ec_index_ok l : oobjs (EC_KEY_get_ex_new_index l).2 = oobjs l;
  rsa_index_ok l : oobjs (RSA_get_ex_new_index l).2 = oobjs l;
  ec_new_ok l : let '(i, l') := EC_KEY_new l in oobjs l !! i = None ∧ oobjs l' = <[i := OEC 1 None None None]> (oobjs l);
  ec_params_ok l i r g q ex b : oobjs l !! i = Some (OEC r g q ex) →
    let '(ok, l') := d2i_ECParameters l i b in ∃ g', oobjs l' = <[i := OEC r g' q ex]> (oobjs l) ∧ (ok = true → g' = Some b);
  ec_point_ok l i r g q ex b : oobjs l !! i = Some (OEC r g q ex) →
    let '(ok, l') := o2i_ECPublicKey l i b in ∃ q', oobjs l' = <[i := OEC r g q' ex]> (oobjs l) ∧ (ok = true → q' = Some b);
  ec_method_ok l i : oobjs (EC_KEY_set_method l i) = oobjs l;
  ec_set_ex_ok l i r g q idx p : oobjs l !! i = Some (OEC r g q None) →
    oobjs (EC_KEY_set_ex_data l i idx p) = <[i := OEC r g q (Some (idx, p))]> (oobjs l);
  ec_get_ex_ok l i r g q idx p : oobjs l !! i = Some (OEC r g q (Some (idx, p))) → EC_KEY_get_ex_data l i idx = Some p;
  ec_free_last l i g q ex : oobjs l !! i = Some (OEC 1 g q ex) →
    ∃ l', EC_KEY_free l i = (ex, l') ∧ oobjs l' = delete i (oobjs l);
  ec_free_more l i r g q ex : oobjs l !! i = Some (OEC (S (S r)) g q ex) →
    ∃ l', EC_KEY_free l i = (None, l') ∧ oobjs l' = <[i := OEC (S r) g q ex]> (oobjs l);
  rsa_new_ok l : let '(i, l') := RSA_new l in oobjs l !! i = None ∧ oobjs l' = <[i := ORSA 1 None None]> (oobjs l);
  bn_new_ok l b : let '(i, l') := BN_bin2bn l b in oobjs l !! i = None ∧ oobjs l' = <[i := OBN b]> (oobjs l);
  bn_free_ok l i b : oobjs l !! i = Some (OBN b) → oobjs (BN_free l i) = delete i (oobjs l);
  rsa_set_key_ok l i r ex n e : oobjs l !! i = Some (ORSA r None ex) →
    oobjs (RSA_set0_key l i n e) = <[i := ORSA r (Some (n, e)) ex]> (oobjs l);
  rsa_method_ok l i : oobjs (RSA_set_method l i) = oobjs l;
  rsa_set_ex_ok l i r k idx p : oobjs l !! i = Some (ORSA r k None) →
    oobjs (RSA_set_ex_data l i idx p) = <[i := ORSA r k (Some (idx, p))]> (oobjs l);
  rsa_get_ex_ok l i r k idx p : oobjs l !! i = Some (ORSA r k (Some (idx, p))) → RSA_get_ex_data l i idx = Some p;
  rsa_free_last l i n e ex : oobjs l !! i = Some (ORSA 1 (Some (n, e)) ex) →
    ∃ l', RSA_free l i = (ex, l') ∧ oobjs l' = delete n (delete e (delete i (oobjs l)));
  rsa_free_more l i r k ex : oobjs l !! i = Some (ORSA (S (S r)) k ex) →
    ∃ l', RSA_free l i = (None, l') ∧ oobjs l' = <[i := ORSA (S r) k ex]> (oobjs l);
  pkey_new_ok l : let '(i, l') := EVP_PKEY_new l in oobjs l !! i = None ∧ oobjs l' = <[i := OPKEY None]> (oobjs l);
  pkey_set_ec_ok l i ec r g q ex : oobjs l !! i = Some (OPKEY None) → oobjs l !! ec = Some (OEC r g q ex) →
    let '(ok, l') := EVP_PKEY_set1_EC_KEY l i ec in
    oobjs l' = if (ok : bool) then <[i := OPKEY (Some ec)]> (<[ec := OEC (S r) g q ex]> (oobjs l)) else oobjs l;
  pkey_set_rsa_ok l i rsa r k ex : oobjs l !! i = Some (OPKEY None) → oobjs l !! rsa = Some (ORSA r k ex) →
    let '(ok, l') := EVP_PKEY_set1_RSA l i rsa in
    oobjs l' = if (ok : bool) then <[i := OPKEY (Some rsa)]> (<[rsa := ORSA (S r) k ex]> (oobjs l)) else oobjs l;
  pkey_free_empty l i : oobjs l !! i = Some (OPKEY None) →
    ∃ l', EVP_PKEY_free l i = (None, l') ∧ oobjs l' = delete i (oobjs l);
  pkey_free_ec l i ec g q ex : oobjs l !! i = Some (OPKEY (Some ec)) → oobjs l !! ec = Some (OEC 1 g q ex) →
    ∃ l', EVP_PKEY_free l i = (ex, l') ∧ oobjs l' = delete ec (delete i (oobjs l));
  pkey_free_rsa l i rsa n e ex : oobjs l !! i = Some (OPKEY (Some rsa)) → oobjs l !! rsa = Some (ORSA 1 (Some (n, e)) ex) →
    ∃ l', EVP_PKEY_free l i = (ex, l') ∧ oobjs l' = delete n (delete e (delete rsa (delete i (oobjs l))));
  pkey_id_ok l i : match oobjs l !! i with
    | Some (OPKEY None) => EVP_PKEY_id l i = EVP_PKEY_OTHER
    | Some (OPKEY (Some k)) => EVP_PKEY_get0 l i = k ∧
      match oobjs l !! k with
      | Some (OEC _ _ _ _) => EVP_PKEY_id l i = EVP_PKEY_EC
      | Some (ORSA _ _ _) => EVP_PKEY_id l i = EVP_PKEY_RSA
      | _ => True
      end
    | _ => True
    end;
}.

(** ** Ownership *)

Section Ownership.
Context `{OsslKeyLaws} `{Cryptoki} `{X509Lib}.
Context (dlopen dlsym : list Z → bool) (C_GetFunctionList : token → Z * token).
(** Return values are 32-bit codes, lengths are not negative, and a value is not longer than the room
    given for it. *)
Context (attr_codes : ∀ t s h ty b, 0 ≤ (C_GetAttributeValue t s h ty b).1.1 < 4294967296 ∧ 0 ≤ (C_GetAttributeValue t s h ty b).1.2).
Context (attr_fits : ∀ t s h ty n, 0 ≤ n → Z.of_nat (length (C_GetAttributeValue t s h ty (Some n)).2) ≤ n).
Implicit Types (h : gmap Z hobj) (o : gmap Z oobj) (s : ks).

(** The heap, the objects of the library and the globals of a state. *)
Record st h o (ix : bool * Z * Z) s : Prop := {
  st_heap : ks_heap s = h;
  st_objs : oobjs (ks_lib s) = o;
  st_ix : (ks_once s, p11_ec_idx s, p11_rsa_idx s) = ix;
  st_next p : is_Some (h !! p) → p < ks_next s
}.

Lemma st_calloc h o ix s x : st h o ix s →
  wp (calloc x) (λ p s', h !! p = None ∧ st (<[p := x]> h) o ix s') s.
Proof.
  intros [Hh Ho Hi Hn]. unfold wp, calloc. split.
  - destruct (h !! ks_next s) eqn:E; [|done]. assert (ks_next s < ks_next s) by (apply Hn; eauto). lia.
  - split; cbn; [congruence|done|done|]. intros p. destruct (decide (p = ks_next s)) as [->|]; [intros; lia|].
    rewrite lookup_insert_ne by done. intros Hp%Hn. lia.
Qed.
Lemma st_free h o ix s p x : st h o ix s → h !! p = Some x →
  wp (free (Some p)) (λ _ s', st (delete p h) o ix s') s.
Proof.
  intros [Hh Ho Hi Hn] Hp. unfold free. wp_simpl. rewrite Hh, Hp. wp_simpl. split; cbn; [congruence|done|done|].
  intros q [y [_ Hq]%lookup_delete_Some]. apply Hn. eauto.
Qed.
Lemma st_put h o ix s p x y : st h o ix s → h !! p = Some y →
  wp (put p x) (λ _ s', st (<[p := x]> h) o ix s') s.
Proof.
  intros [Hh Ho Hi Hn] Hp. unfold put. wp_simpl. split; cbn; [congruence|done|done|].
  intros q. destruct (decide (q = p)) as [->|]; [intros; apply Hn; eauto|]. rewrite lookup_insert_ne by done. apply Hn.
Qed.
Lemma st_lib {A} (op : olib → A * olib) h o ix s (Q : A → ks → Prop) : st h o ix s →
  (∀ s', st h (oobjs (op (ks_lib s)).2) ix s' → Q (op (ks_lib s)).1 s') → wp (lib op) Q s.
Proof.
  intros [Hh Ho Hi Hn] HQ. unfold wp, lib. destruct (op (ks_lib s)) as [a l]. apply HQ. by split.
Qed.
Lemma st_lib_ (op : olib → olib) h o ix s : st h o ix s →
  wp (lib_ op) (λ _ s', st h (oobjs (op (ks_lib s))) ix s') s.
Proof. intros [Hh Ho Hi Hn]. unfold lib_. wp_simpl. by split. Qed.
Lemma st_tok {A} (m : M token A) h o ix s a t : st h o ix s → m (ks_tok s) = Ret (a, t) →
  wp (tok m) (λ r s', r = a ∧ st h o ix s') s.
Proof. intros [Hh Ho Hi Hn] E. unfold wp, tok. rewrite E. split; [done|]. by split. Qed.

Lemma st_deref_key h o ix s p k c : st h o ix s → h !! p = Some (HKey k c) →
  wp (deref_key p) (λ r s', r = (k, c) ∧ s' = s) s.
Proof. intros Hs Hp. unfold deref_key. wp_simpl. by rewrite (st_heap _ _ _ _ Hs), Hp. Qed.
Lemma st_deref_ctx h o ix s p c : st h o ix s → h !! p = Some (HCtx c) →
  wp (deref_ctx (Some p)) (λ r s', r = c ∧ s' = s) s.
Proof. intros Hs Hp. unfold deref_ctx. wp_simpl. by rewrite (st_heap _ _ _ _ Hs), Hp. Qed.
Lemma st_deref_buf h o ix s p b : st h o ix s → h !! p = Some (HBuf b) →
  wp (deref_buf (Some p)) (λ r s', r = b ∧ s' = s) s.
Proof. intros Hs Hp. unfold deref_buf. wp_simpl. by rewrite (st_heap _ _ _ _ Hs), Hp. Qed.

Lemma i32_code rv : 0 ≤ rv < 4294967296 → rv ≠ 0 → i32 rv ≠ 0.
Proof.
  intros Hr Hn. unfold i32. destruct (Z.lt_ge_cases rv 2147483648).
  - rewrite Z.mod_small by lia. lia.
  - replace (rv + 2147483648) with (rv - 2147483648 + 1 * 4294967296) by lia.
    rewrite Z.mod_add, Z.mod_small by lia. lia.
Qed.
Lemma attr_total c k ty t :
  ∃ r, p11_get_key_attr c k ty t = Ret (r, t) ∧ ((∃ b, r = (0, Some b)) ∨ (∃ rc, rc ≠ 0 ∧ r = (rc, None))).
Proof.
  unfold p11_get_key_attr, p11_get_obj_attr, mbind, M_bind, get.
  pose proof (attr_codes t (session c) (pub_handle k) ty None) as [R1 R1'].
  destruct (C_GetAttributeValue t (session c) (pub_handle k) ty None) as [[rv len] b] eqn:E1. cbn in R1, R1'.
  destruct (Z.eqb_spec rv CKR_OK) as [->|Hrv]; cbn [negb]; [|eexists; split; [done|right; exists (i32 rv); split; [by apply i32_code|done]]].
  pose proof (attr_codes t (session c) (pub_handle k) ty (Some len)) as [R2 _].
  pose proof (attr_fits t (session c) (pub_handle k) ty len R1') as R3.
  destruct (C_GetAttributeValue t (session c) (pub_handle k) ty (Some len)) as [[rv2 len2] b2] eqn:E2. cbn in R2, R3.
  destruct (Z.eqb_spec rv2 CKR_OK) as [->|Hrv2]; cbn [negb]; [|eexists; split; [done|right; exists (i32 rv2); split; [by apply i32_code|done]]].
  destruct (Z.ltb_spec (len + 1) (Z.of_nat (length b2))); [lia|]. eexists. split; [done|]. left. by eexists.
Qed.

Lemma st_get_key_attr h o ix s key k p c ty : st h o ix s → h !! key = Some (HKey k (Some p)) → h !! p = Some (HCtx c) →
  wp (get_key_attr key ty) (λ r s',
    (∃ v b, r = (0, Some v) ∧ h !! v = None ∧ st (<[v := HBuf b]> h) o ix s') ∨
    (∃ rc, rc ≠ 0 ∧ r = (rc, None) ∧ st h o ix s')) s.
Proof.
  intros Hs Hk Hp. unfold get_key_attr. wp_call (by eapply st_deref_key). intros _ _ [-> ->].
  wp_call (by eapply st_deref_ctx). intros _ _ [-> ->].
  destruct (attr_total c k ty (ks_tok s)) as (r & E & Hr). wp_call (by eapply st_tok). intros _ s1 [-> Hs1].
  destruct Hr as [[b ->]|(rc & Hrc & ->)]; wp_simpl; [|right; eauto].
  wp_call (by eapply st_calloc). intros v s2 [Hv Hs2]. left. eauto 8.
Qed.

(** Destroying an object with the token key attached frees the key and its context. *)
Lemma st_ex_free h o ix s key k p c idx : st h o ix s → h !! key = Some (HKey k (Some p)) → h !! p = Some (HCtx c) →
  wp (p11_ec_ex_free (Some (idx, key))) (λ _ s',
    st (if idx =? ix.1.2 then delete key (delete p h) else h) o ix s') s.
Proof.
  intros Hs Hk Hp. unfold p11_ec_ex_free. wp_simpl. pose proof (st_ix _ _ _ _ Hs) as Hix. destruct ix as [[on ei] ri].
  injection Hix as <- <- <-. cbn. destruct (idx =? p11_ec_idx s); [|by wp_simpl].
  unfold p11_key_free. wp_call (by eapply st_deref_key). intros _ _ [-> ->].
  wp_call (by eapply st_free). intros _ s1 Hs1.
  eapply wp_mono; [eapply st_free; [done|rewrite lookup_delete_ne; [done|congruence]]|]. done.
Qed.

Lemma st_once h o ix s : st h o ix s → wp uv_once_init (λ _ s', ∃ ix', st h o ix' s') s.
Proof.
  intros Hs. unfold uv_once_init. wp_simpl. destruct (ks_once s); [by wp_simpl; eauto|]. wp_simpl. unfold init. wp_simpl.
  assert (st h o (true, p11_ec_idx s, p11_rsa_idx s) (s <| ks_once := true |>)) as S1 by (destruct Hs; by split).
  eapply st_lib; [done|]. intros s1 Hs1. rewrite ec_index_ok in Hs1. wp_simpl.
  rewrite (st_objs _ _ _ _ S1) in Hs1.
  eapply st_lib; [done|]. intros s2 Hs2. rewrite rsa_index_ok, (st_objs _ _ _ _ Hs1) in Hs2. wp_simpl.
  eexists. destruct Hs2 as [? ? _ ?]. by split.
Qed.
Lemma st_ec_free_last h o ix s ec g q ex : st h o ix s → o !! ec = Some (OEC 1 g q ex) →
  ∀ Q : unit → ks → Prop, (∀ s', st h (delete ec o) ix s' → wp (p11_ec_ex_free ex) Q s') → wp (ec_key_free ec) Q s.
Proof.
  intros Hs He Q HQ. unfold ec_key_free. wp_simpl. rewrite <-(st_objs _ _ _ _ Hs) in He.
  destruct (ec_free_last _ _ _ _ _ He) as (l & E & El). eapply st_lib; [done|]. rewrite E. intros s1 Hs1. cbn in *.
  apply HQ. by rewrite El, (st_objs _ _ _ _ Hs) in Hs1.
Qed.
Lemma st_ec_error h o ix s ec g q v b : st h o ix s → o !! ec = Some (OEC 1 g q None) →
  match v with Some v => h !! v = Some (HBuf b) | None => True end →
  wp (ec_error ec v) (λ rc s', rc = -1 ∧ st (match v with Some v => delete v h | None => h end) (delete ec o) ix s') s.
Proof.
  intros Hs He Hv. unfold ec_error. wp_simpl. eapply st_ec_free_last; [done..|]. intros s1 Hs1. cbn. wp_simpl.
  destruct v as [v|]; [wp_call (by eapply st_free); intros; by wp_simpl|by wp_simpl].
Qed.

(** An attribute of the token key is read and given to the EC object; on failure nothing is left. *)
Lemma st_ec_attr h o ix s ec g q key k p c ty (op : olib → list Z → bool * olib) (K : M ks Z) (Q : Z → ks → Prop) :
  st h (<[ec := OEC 1 g q None]> o) ix s → h !! key = Some (HKey k (Some p)) → h !! p = Some (HCtx c) → o !! ec = None →
  (∀ l b, oobjs l !! ec = Some (OEC 1 g q None) → ∃ g' q', oobjs (op l b).2 = <[ec := OEC 1 g' q' None]> (oobjs l)) →
  (∀ s', st h o ix s' → Q (-1) s') →
  (∀ l b s', oobjs l = <[ec := OEC 1 g q None]> o → (op l b).1 = true → st h (oobjs (op l b).2) ix s' → wp K Q s') →
  wp ('(rc, value) ← get_key_attr key ty;
      if negb (rc =? 0) then ec_error ec value
      else
        a ← deref_buf value;
        ok ← lib (λ l, op l a);
        if negb ok then ec_error ec value else _ ← free value; K) Q s.
Proof.
  intros Hs Hk Hp Hec Hop HQ HK.
  assert (∀ x, delete ec (<[ec := x]> o) = o) as Hd by (intros; by rewrite delete_insert_id).
  wp_call (by eapply st_get_key_attr). intros [rc v] s2 [(v' & b & [= -> ->] & Hv & Hs2)|(rc' & Hrc & [= -> ->] & Hs2)]; cycle 1.
  { destruct (Z.eqb_spec rc' 0); [done|]. cbn.
    eapply wp_mono; [eapply (st_ec_error _ _ _ _ _ _ _ None []); [exact Hs2|by rewrite lookup_insert_eq|done]|].
    intros rc s3 [-> Hs3]. apply HQ. by rewrite Hd in Hs3. }
  cbn [Z.eqb negb]. wp_call (eapply st_deref_buf; [exact Hs2|by rewrite lookup_insert_eq]). intros _ _ [-> ->].
  pose proof (st_objs _ _ _ _ Hs2) as Ho2. pose proof (Hop (ks_lib s2) b) as Hpr. wp_simpl.
  eapply st_lib; [exact Hs2|]. intros s3 Hs3. pose proof (HK (ks_lib s2) b) as HK'.
  destruct (op (ks_lib s2) b) as [ok l3]. cbn in *. destruct Hpr as (g' & q' & Hl3); [rewrite Ho2; by rewrite lookup_insert_eq|].
  destruct ok; cbn [negb].
  - wp_call (eapply st_free; [exact Hs3|by rewrite lookup_insert_eq]).
    intros _ s4 Hs4. rewrite delete_insert_id in Hs4 by done. by apply HK'.
  - rewrite Hl3, Ho2, insert_insert_eq in Hs3.
    eapply wp_mono; [eapply (st_ec_error _ _ _ _ _ _ _ (Some v') b); [exact Hs3|by rewrite lookup_insert_eq|by rewrite lookup_insert_eq]|].
    intros rc s4 [-> Hs4]. apply HQ. by rewrite Hd, delete_insert_id in Hs4.
Qed.

(** An EC key of a token is attached to the [EVP_PKEY], or nothing is left of the attempt; when only
    the last step fails, the token key goes with the EC object it was attached to. *)
Lemma st_load_ec h o ix s pkey key k p c :
  st h o ix s → h !! key = Some (HKey k (Some p)) → h !! p = Some (HCtx c) → o !! pkey = Some (OPKEY None) →
  wp (load_pkcs11_ec pkey key) (λ rc s', ∃ ix',
    (rc = 0 ∧ ∃ ec g q, o !! ec = None ∧
       st h (<[pkey := OPKEY (Some ec)]> (<[ec := OEC 1 (Some g) (Some q) (Some (ix'.1.2, key))]> o)) ix' s') ∨
    (rc = -1 ∧ st h o ix' s') ∨
    (rc = -1 ∧ st (delete key (delete p h)) o ix' s')) s.
Proof.
  intros Hs Hk Hp Ho. unfold load_pkcs11_ec. rewrite wp_bind. pose proof (ec_new_ok (ks_lib s)) as Hn.
  eapply st_lib; [done|]. intros s1 Hs1. destruct (EC_KEY_new (ks_lib s)) as [ec l1]. cbn [fst snd] in *.
  destruct Hn as [Hec Hn]. rewrite (st_objs _ _ _ _ Hs) in Hec, Hn. rewrite Hn in Hs1.
  assert (pkey ≠ ec) as Hne by congruence.
  eapply (st_ec_attr _ _ _ _ _ _ _ _ _ _ _ _ (λ l a, d2i_ECParameters l ec a)); [done..| | |].
  { intros l b He. pose proof (ec_params_ok _ _ _ _ _ _ b He) as Hpr. destruct (d2i_ECParameters l ec b). destruct Hpr as (g & ? & _). eauto. }
  { intros s' Hs'. exists ix. right. by left. }
  intros l b s2 Hl Hok Hs2. pose proof (ec_params_ok l ec 1 None None None b) as Hpr.
  destruct (d2i_ECParameters l ec b) as [ok l2]. cbn in Hok. subst ok.
  destruct Hpr as (g & Hl2 & Hg); [by rewrite Hl, lookup_insert_eq|]. cbn [snd] in Hs2.
  rewrite (Hg eq_refl), Hl, insert_insert_eq in Hl2. rewrite Hl2 in Hs2. clear l Hl l2 Hl2 g Hg s1 Hs1 l1 Hn.
  eapply (st_ec_attr _ _ _ _ _ _ _ _ _ _ _ _ (λ l a, o2i_ECPublicKey l ec (default a (d2i_ASN1_OCTET_STRING a)))); [done..| | |].
  { intros l b' He. pose proof (ec_point_ok _ _ _ _ _ _ (default b' (d2i_ASN1_OCTET_STRING b')) He) as Hpr.
    destruct (o2i_ECPublicKey l ec _). destruct Hpr as (g & ? & _). eauto. }
  { intros s' Hs'. exists ix. right. by left. }
  intros l b' s3 Hl Hok Hs3. set (a := default b' (d2i_ASN1_OCTET_STRING b')) in *.
  pose proof (ec_point_ok l ec 1 (Some b) None None a) as Hpr.
  destruct (o2i_ECPublicKey l ec a) as [ok l2]. cbn in Hok. subst ok.
  destruct Hpr as (q & Hl2 & Hq); [by rewrite Hl, lookup_insert_eq|]. cbn [snd] in Hs3.
  rewrite (Hq eq_refl), Hl, insert_insert_eq in Hl2. rewrite Hl2 in Hs3.
  unfold set_ec_p11_impl. wp_call (by eapply st_once). intros _ s4 [ix4 Hs4].
  wp_call (by eapply st_lib_). intros _ s5 Hs5. rewrite ec_method_ok, (st_objs _ _ _ _ Hs4) in Hs5. wp_simpl.
  wp_call (by eapply st_lib_). intros _ s6 Hs6.
  erewrite ec_set_ex_ok in Hs6 by (rewrite (st_objs _ _ _ _ Hs5); by rewrite lookup_insert_eq).
  rewrite (st_objs _ _ _ _ Hs5), insert_insert_eq in Hs6.
  replace (p11_ec_idx s5) with (ix4.1.2) in Hs6 by (by rewrite <-(st_ix _ _ _ _ Hs5)).
  pose proof (pkey_set_ec_ok (ks_lib s6) pkey ec) as Hset. rewrite (st_objs _ _ _ _ Hs6) in Hset.
  rewrite lookup_insert_ne, lookup_insert_eq in Hset by done. specialize (Hset _ _ _ _ Ho eq_refl).
  wp_simpl. eapply st_lib; [exact Hs6|]. intros s7 Hs7. destruct (EVP_PKEY_set1_EC_KEY (ks_lib s6) pkey ec) as [ok l7].
  cbn [fst snd] in *. rewrite Hset in Hs7. destruct ok; cbn [negb].
  - pose proof (ec_free_more (ks_lib s7) ec) as Hf. rewrite (st_objs _ _ _ _ Hs7) in Hf.
    rewrite lookup_insert_ne, lookup_insert_eq in Hf by done. destruct (Hf _ _ _ _ eq_refl) as (l8 & E8 & Ho8).
    unfold ec_key_free. wp_simpl. eapply st_lib; [exact Hs7|]. rewrite E8. intros s8 Hs8. cbn [fst snd p11_ec_ex_free] in *. wp_simpl.
    exists ix4. left. split; [done|]. exists ec, b, a. split; [done|].
    rewrite Ho8, insert_insert_ne, !insert_insert_eq in Hs8 by done. done.
  - unfold ec_error. wp_simpl. eapply st_ec_free_last; [exact Hs7|by rewrite lookup_insert_eq|].
    rewrite delete_insert_id by done. intros s8 Hs8. wp_call (by eapply st_ex_free). intros _ s9 Hs9.
    rewrite Z.eqb_refl in Hs9. wp_simpl. exists ix4. right. by right.
Qed.

Lemma st_bn h o ix s b : st h o ix s →
  wp (lib (λ l, BN_bin2bn l b)) (λ n s', o !! n = None ∧ st h (<[n := OBN b]> o) ix s') s.
Proof.
  intros Hs. eapply st_lib; [done|]. pose proof (bn_new_ok (ks_lib s) b) as Hb. rewrite (st_objs _ _ _ _ Hs) in Hb.
  destruct (BN_bin2bn (ks_lib s) b) as [n l]. destruct Hb as [Hn Hl]. intros s' Hs'. cbn in *. by rewrite Hl in Hs'.
Qed.

(** An RSA key of a token: the RSA object and its numbers are the [EVP_PKEY]'s, or are gone; when
    an attribute cannot be read, the RSA object stays behind. *)
(** The end of [load_pkcs11_rsa]: the key is complete and handed over. *)
Lemma st_rsa_finish h o ix s pkey key k p c rsa n e bn be :
  st h (<[rsa := ORSA 1 None None]> (<[n := OBN bn]> (<[e := OBN be]> o))) ix s →
  h !! key = Some (HKey k (Some p)) → h !! p = Some (HCtx c) → o !! pkey = Some (OPKEY None) →
  o !! rsa = None → o !! n = None → o !! e = None → NoDup [rsa; n; e; pkey] →
  wp (_ ← lib_ (λ l, RSA_set0_key l rsa n e); _ ← set_rsa_p11_impl rsa key;
      _ ← lib (λ l, EVP_PKEY_set1_RSA l pkey rsa); _ ← rsa_free rsa; mret 0) (λ rc s', ∃ ix',
    (rc = 0 ∧ ∃ rsa n e bn be, NoDup [rsa; n; e; pkey] ∧ o !! rsa = None ∧ o !! n = None ∧ o !! e = None ∧
       st h (<[pkey := OPKEY (Some rsa)]> (<[rsa := ORSA 1 (Some (n, e)) (Some (ix'.2, key))]>
              (<[n := OBN bn]> (<[e := OBN be]> o)))) ix' s') ∨
    (rc = 0 ∧ st (if ix'.2 =? ix'.1.2 then delete key (delete p h) else h) o ix' s') ∨
    (rc = -1 ∧ ∃ rsa, o !! rsa = None ∧ st h (<[rsa := ORSA 1 None None]> o) ix' s')) s.
Proof.
  intros Hs Hk Hp Ho Hrsa Hn' He Hdup. set (o2 := <[n := OBN bn]> (<[e := OBN be]> o)) in *.
  assert (rsa ≠ n ∧ rsa ≠ e ∧ n ≠ e) as (? & ? & ?).
  { rewrite !NoDup_cons in Hdup. rewrite !not_elem_of_cons in Hdup. tauto. }
  assert (o2 !! rsa = None) as Hr2 by (unfold o2; by rewrite !lookup_insert_ne).
  assert (o2 !! pkey = Some (OPKEY None)) as Hp2 by (unfold o2; rewrite !lookup_insert_ne by congruence; done).
  wp_call (by eapply st_lib_). intros _ s8 Hs8.
  erewrite rsa_set_key_ok in Hs8 by (rewrite (st_objs _ _ _ _ Hs); by rewrite lookup_insert_eq).
  rewrite (st_objs _ _ _ _ Hs), insert_insert_eq in Hs8.
  unfold set_rsa_p11_impl. wp_call (by eapply st_once). intros _ s9 [ix9 Hs9].
  wp_call (by eapply st_lib_). intros _ s10 Hs10. rewrite rsa_method_ok, (st_objs _ _ _ _ Hs9) in Hs10. wp_simpl.
  wp_call (by eapply st_lib_). intros _ s11 Hs11.
  erewrite rsa_set_ex_ok in Hs11 by (rewrite (st_objs _ _ _ _ Hs10); by rewrite lookup_insert_eq).
  rewrite (st_objs _ _ _ _ Hs10), insert_insert_eq in Hs11.
  replace (p11_rsa_idx s10) with (ix9.2) in Hs11 by (by rewrite <-(st_ix _ _ _ _ Hs10)).
  pose proof (pkey_set_rsa_ok (ks_lib s11) pkey rsa) as Hset. rewrite (st_objs _ _ _ _ Hs11) in Hset.
  rewrite lookup_insert_ne, lookup_insert_eq in Hset by congruence. specialize (Hset _ _ _ Hp2 eq_refl).
  wp_simpl. eapply st_lib; [exact Hs11|]. intros s12 Hs12. destruct (EVP_PKEY_set1_RSA (ks_lib s11) pkey rsa) as [ok l12].
  cbn [fst snd] in *. rewrite Hset in Hs12. unfold rsa_free. wp_simpl. destruct ok.
  - pose proof (rsa_free_more (ks_lib s12) rsa) as Hf. rewrite (st_objs _ _ _ _ Hs12) in Hf.
    rewrite lookup_insert_ne, lookup_insert_eq in Hf by congruence. destruct (Hf _ _ _ eq_refl) as (l8 & E8 & Ho8).
    eapply st_lib; [exact Hs12|]. rewrite E8. intros s13 Hs13. cbn [fst snd p11_ec_ex_free] in *. wp_simpl.
    exists ix9. left. split; [done|]. exists rsa, n, e, bn, be. split_and!; try done.
    rewrite Ho8, insert_insert_ne, !insert_insert_eq in Hs13 by congruence. done.
  - pose proof (rsa_free_last (ks_lib s12) rsa) as Hf. rewrite (st_objs _ _ _ _ Hs12), lookup_insert_eq in Hf.
    destruct (Hf _ _ _ eq_refl) as (l8 & E8 & Ho8).
    eapply st_lib; [exact Hs12|]. rewrite E8. intros s13 Hs13. cbn [fst snd] in *. rewrite Ho8 in Hs13.
    rewrite delete_insert_id in Hs13 by done. unfold o2 in Hs13.
    rewrite (delete_insert_ne _ e n), (delete_insert_id o e), delete_insert_id in Hs13 by congruence.
    wp_call (by eapply st_ex_free). intros _ s14 Hs14. wp_simpl. exists ix9. right. left. done.
Qed.
Lemma st_load_rsa h o ix s pkey key k p c :
  st h o ix s → h !! key = Some (HKey k (Some p)) → h !! p = Some (HCtx c) → o !! pkey = Some (OPKEY None) →
  wp (load_pkcs11_rsa pkey key) (λ rc s', ∃ ix',
    (rc = 0 ∧ ∃ rsa n e bn be, NoDup [rsa; n; e; pkey] ∧ o !! rsa = None ∧ o !! n = None ∧ o !! e = None ∧
       st h (<[pkey := OPKEY (Some rsa)]> (<[rsa := ORSA 1 (Some (n, e)) (Some (ix'.2, key))]>
              (<[n := OBN bn]> (<[e := OBN be]> o)))) ix' s') ∨
    (rc = 0 ∧ st (if ix'.2 =? ix'.1.2 then delete key (delete p h) else h) o ix' s') ∨
    (rc = -1 ∧ ∃ rsa, o !! rsa = None ∧ st h (<[rsa := ORSA 1 None None]> o) ix' s')) s.
Proof.
  intros Hs Hk Hp Ho. unfold load_pkcs11_rsa. rewrite wp_bind. pose proof (rsa_new_ok (ks_lib s)) as Hn.
  eapply st_lib; [done|]. intros s1 Hs1. destruct (RSA_new (ks_lib s)) as [rsa l1]. cbn [fst snd] in *.
  destruct Hn as [Hrsa Hn]. rewrite (st_objs _ _ _ _ Hs) in Hrsa, Hn. rewrite Hn in Hs1.
  wp_call (by eapply st_get_key_attr). intros [rc v] s2 [(v' & be & [= -> ->] & Hv & Hs2)|(rc' & Hrc & [= -> ->] & Hs2)]; cycle 1.
  { destruct (Z.eqb_spec rc' 0); [done|]. cbn. wp_simpl. exists ix. right. right. split; [done|]. eauto. }
  cbn [Z.eqb negb]. wp_call (eapply st_deref_buf; [exact Hs2|by rewrite lookup_insert_eq]). intros _ _ [-> ->].
  wp_call (by eapply st_bn). intros e s3 [He Hs3]. wp_call (eapply st_free; [exact Hs3|by rewrite lookup_insert_eq]).
  intros _ s4 Hs4. rewrite delete_insert_id in Hs4 by done.
  assert (e ≠ rsa) as Her by (intros ->; by rewrite lookup_insert_eq in He).
  rewrite lookup_insert_ne in He by done.
  wp_call (by eapply st_get_key_attr). intros [rc v] s5 [(v2 & bn & [= -> ->] & Hv2 & Hs5)|(rc' & Hrc & [= -> ->] & Hs5)]; cycle 1.
  { destruct (Z.eqb_spec rc' 0); [done|]. cbn [negb]. unfold rsa_error, bn_free. wp_simpl.
    wp_call (by eapply st_lib_). intros _ s6 Hs6.
    erewrite bn_free_ok in Hs6 by (rewrite (st_objs _ _ _ _ Hs5); by rewrite lookup_insert_eq).
    rewrite (st_objs _ _ _ _ Hs5), delete_insert_id in Hs6 by (by rewrite lookup_insert_ne).
    wp_simpl. exists ix. right. right. split; [done|]. eauto. }
  cbn [Z.eqb negb]. wp_call (eapply st_deref_buf; [exact Hs5|by rewrite lookup_insert_eq]). intros _ _ [-> ->].
  wp_call (by eapply st_bn). intros n s6 [Hn' Hs6]. wp_call (eapply st_free; [exact Hs6|by rewrite lookup_insert_eq]).
  intros _ s7 Hs7. rewrite delete_insert_id in Hs7 by done.
  assert (n ≠ e) as Hne by (intros ->; by rewrite lookup_insert_eq in Hn').
  rewrite lookup_insert_ne in Hn' by done.
  assert (n ≠ rsa) as Hnr by (intros ->; by rewrite lookup_insert_eq in Hn').
  rewrite lookup_insert_ne in Hn' by done.
  assert (NoDup [rsa; n; e; pkey]) as Hdup.
  { assert (pkey ≠ rsa ∧ pkey ≠ n ∧ pkey ≠ e) as (?&?&?) by (split_and!; congruence). clear -Hne Hnr Her H3 H4 H5.
    repeat constructor; rewrite ?elem_of_cons, ?elem_of_nil; naive_solver. }
  assert (∀ x y z, <[n := y]> (<[e := z]> (<[rsa := x]> o)) = <[rsa := x]> (<[n := y]> (<[e := z]> o))) as Hperm.
  { intros. rewrite (insert_insert_ne o e), (insert_insert_ne _ n rsa) by done. done. }
  rewrite Hperm in Hs7. by eapply st_rsa_finish.
Qed.

(** What a private key made of a token key is: the structures on the heap, and the EC or RSA object
    behind the [EVP_PKEY]; or an [EVP_PKEY] without a key. *)
Definition two (p key : Z) (c : p11_context) (k : p11_key_ctx) h : gmap Z hobj :=
  <[key := HKey k (Some p)]> (<[p := HCtx c]> h).
Inductive made h o (ix : bool * Z * Z) (pkey p key : Z) (c : p11_context) (k : p11_key_ctx) : gmap Z hobj → gmap Z oobj → Prop :=
  | made_ec ec g q : o !! ec = None → ec ≠ pkey →
    made h o ix pkey p key c k (two p key c k h)
      (<[pkey := OPKEY (Some ec)]> (<[ec := OEC 1 (Some g) (Some q) (Some (ix.1.2, key))]> o))
  | made_rsa rsa n e bn be : NoDup [rsa; n; e; pkey] → o !! rsa = None → o !! n = None → o !! e = None →
    made h o ix pkey p key c k (two p key c k h)
      (<[pkey := OPKEY (Some rsa)]> (<[rsa := ORSA 1 (Some (n, e)) (Some (ix.2, key))]> (<[n := OBN bn]> (<[e := OBN be]> o))))
  | made_bare h' o' : h' = two p key c k h ∨ h' = h → o' = o ∨ (∃ rsa, o !! rsa = None ∧ rsa ≠ pkey ∧ o' = <[rsa := ORSA 1 None None]> o) →
    made h o ix pkey p key c k h' (<[pkey := OPKEY None]> o').

Lemma delete_two p key c k h : h !! p = None → h !! key = None → p ≠ key → delete key (delete p (two p key c k h)) = h.
Proof.
  intros Hp Hk Hne. unfold two. rewrite delete_insert_ne, (delete_insert_id h p), delete_insert_id by congruence. done.
Qed.

Lemma st_load_pub h o ix s pkey p key c k : let h2 := two p key c k h in
  h !! p = None → h !! key = None → p ≠ key → o !! pkey = None → st h2 (<[pkey := OPKEY None]> o) ix s →
  wp (load_pkcs11_pub pkey key) (λ ok s', ∃ ix', if (ok : bool) then ∃ h' o', made h o ix' pkey p key c k h' o' ∧ st h' o' ix' s'
    else s' = s) s.
Proof.
  intros h2 Hp Hkey Hne Hpk Hs. unfold load_pkcs11_pub.
  assert (h2 !! key = Some (HKey k (Some p))) as Hk2 by (unfold h2, two; by rewrite lookup_insert_eq).
  assert (h2 !! p = Some (HCtx c)) as Hp2 by (unfold h2, two; rewrite lookup_insert_ne, lookup_insert_eq by congruence; done).
  assert (delete key (delete p h2) = h) as Hdel by (by apply delete_two).
  assert ((<[pkey := OPKEY None]> o) !! pkey = Some (OPKEY None)) as Hpk2 by (by rewrite lookup_insert_eq).
  assert (∀ i, (<[pkey := OPKEY None]> o) !! i = None → i ≠ pkey ∧ o !! i = None) as Hfr.
  { intros i Hi. assert (i ≠ pkey) by (intros ->; congruence). by rewrite lookup_insert_ne in Hi. }
  wp_call (by eapply st_deref_key). intros _ _ [-> ->]. destruct (key_type k =? CKK_EC); [|destruct (key_type k =? CKK_RSA)].
  - wp_call (by eapply st_load_ec). intros rc s1 (ix1 & Hr). wp_simpl. exists ix1.
    destruct Hr as [(-> & ec & g & q & Hec & Hs1)|[[-> Hs1]|[-> Hs1]]].
    + apply Hfr in Hec as [Hne2 Hec]. rewrite (insert_insert_ne o ec), insert_insert_eq in Hs1 by done. eexists _, _. split; [by apply made_ec|done].
    + eexists _, _. split; [eapply made_bare; [by left|by left]|done].
    + rewrite Hdel in Hs1. exists h, (<[pkey := OPKEY None]> o). split; [apply made_bare; by auto|done].
  - wp_call (by eapply st_load_rsa). intros rc s1 (ix1 & Hr). wp_simpl. exists ix1.
    destruct Hr as [(-> & rsa & n & e & bn & be & Hd & Hr1 & Hr2 & Hr3 & Hs1)|[[-> Hs1]|(-> & rsa & Hr1 & Hs1)]].
    + apply Hfr in Hr1 as [Hn1 Hr1], Hr2 as [Hn2 Hr2], Hr3 as [Hn3 Hr3].
      rewrite (insert_insert_ne o e), (insert_insert_ne _ n), (insert_insert_ne _ rsa), insert_insert_eq in Hs1 by done.
      eexists _, _. split; [by apply made_rsa|done].
    + destruct (ix1.2 =? ix1.1.2); [rewrite Hdel in Hs1; exists h|exists h2]; exists (<[pkey := OPKEY None]> o);
        (split; [apply made_bare; by auto|done]).
    + apply Hfr in Hr1 as [Hn1 Hr1]. rewrite (insert_insert_ne o rsa) in Hs1 by done.
      eexists _, _. split; [eapply made_bare; [by left|right; by exists rsa]|done].
  - wp_simpl. by exists ix.
Qed.

Lemma st_pkcs11 h o ix s driver slot pin (find : p11_context → E p11_key_ctx) :
  st h o ix s →
  (∀ t, ∃ r t', p11_init dlopen dlsym C_GetFunctionList driver slot pin t = Ret (r, t')) →
  (∀ c t, ∃ r t', find c t = Ret (r, t')) →
  wp (pkcs11_key dlopen dlsym C_GetFunctionList driver slot pin find) (λ r s',
    match r.2 with
    | None => st h o ix s'
    | Some priv => r.1 = 0 ∧ ∃ pkey p key c k ix' h' o',
        h !! p = None ∧ h !! key = None ∧ p ≠ key ∧ o !! pkey = None ∧ h' !! priv = None ∧
        (∃ t t', find c t = Ret (inr k, t')) ∧
        made h o ix' pkey p key c k h' o' ∧ st (<[priv := HPriv pkey]> h') o' ix' s'
    end) s.
Proof.
  intros Hs Hinit Hfind. unfold pkcs11_key. wp_call (by eapply st_calloc). intros p s1 [Hp Hs1].
  destruct (Hinit (ks_tok s1)) as (r & t & Hi). wp_call (eapply st_tok; [exact Hs1|exact Hi]). intros _ s2 [-> Hs2]. destruct r as [rc|c].
  { wp_call (eapply st_free; [exact Hs2|by rewrite lookup_insert_eq]). intros _ s3 Hs3. wp_simpl. by rewrite delete_insert_id in Hs3. }
  wp_call (eapply st_put; [exact Hs2|by rewrite lookup_insert_eq]). intros _ s3 Hs3. rewrite insert_insert_eq in Hs3.
  wp_call (by eapply st_calloc). intros key s4 [Hkey Hs4].
  assert (p ≠ key) as Hne by (intros ->; by rewrite lookup_insert_eq in Hkey). rewrite lookup_insert_ne in Hkey by done.
  destruct (Hfind c (ks_tok s4)) as (r & t' & Hf). wp_call (eapply st_tok; [exact Hs4|exact Hf]). intros _ s5 [-> Hs5].
  destruct r as [rc|k].
  { wp_call (eapply st_free; [exact Hs5|by rewrite lookup_insert_eq]). intros _ s6 Hs6.
    rewrite delete_insert_id in Hs6 by (by rewrite lookup_insert_ne).
    wp_call (eapply st_free; [exact Hs6|by rewrite lookup_insert_eq]). intros _ s7 Hs7. wp_simpl. by rewrite delete_insert_id in Hs7. }
  wp_call (eapply st_put; [exact Hs5|by rewrite lookup_insert_eq]). intros _ s6 Hs6. rewrite insert_insert_eq in Hs6.
  pose proof (pkey_new_ok (ks_lib s6)) as Hn. rewrite (st_objs _ _ _ _ Hs6) in Hn.
  wp_simpl. eapply st_lib; [exact Hs6|]. intros s7 Hs7. destruct (EVP_PKEY_new (ks_lib s6)) as [pkey l7]. cbn [fst snd] in *.
  destruct Hn as [Hpk Hn]. rewrite Hn in Hs7.
  wp_call (by apply (st_load_pub h o ix s7 pkey p key c k)). intros ok s8 (ix8 & Hok). destruct ok.
  - destruct Hok as (h' & o' & Hm & Hs8). wp_call (by eapply st_calloc). intros priv s9 [Hpr Hs9]. wp_simpl.
    split; [done|]. exists pkey, p, key, c, k, ix8, h', o'. split_and!; eauto.
  - subst s8. wp_call (eapply st_free; [exact Hs7|by rewrite lookup_insert_eq]). intros _ s8 Hs8.
    rewrite delete_insert_id in Hs8 by (by rewrite lookup_insert_ne).
    wp_call (eapply st_free; [exact Hs8|by rewrite lookup_insert_eq]). intros _ s9 Hs9. rewrite delete_insert_id in Hs9 by done.
    destruct (pkey_free_empty (ks_lib s9) pkey) as (l & El & Ho); [rewrite (st_objs _ _ _ _ Hs9); by rewrite lookup_insert_eq|].
    unfold evp_pkey_free. wp_simpl. eapply st_lib; [exact Hs9|]. rewrite El. intros s10 Hs10. cbn [fst snd p11_ec_ex_free] in *. wp_simpl.
    by rewrite Ho, (st_objs _ _ _ _ Hs9), delete_insert_id in Hs10.
Qed.

Lemma st_ex_free_two h o ix s p key c k idx x priv :
  h !! p = None → h !! key = None → p ≠ key → two p key c k h !! priv = None → st (<[priv := x]> (two p key c k h)) o ix s →
  wp (p11_ec_ex_free (Some (idx, key))) (λ _ s', ∃ h2, st (<[priv := x]> h2) o ix s' ∧ h2 !! priv = None ∧
    h2 = if idx =? ix.1.2 then h else two p key c k h) s.
Proof.
  intros Hp Hkey Hne Hpriv Hs.
  assert (priv ≠ key ∧ priv ≠ p ∧ h !! priv = None) as (N1 & N2 & N3).
  { unfold two in Hpriv. rewrite !lookup_insert_None in Hpriv. naive_solver. }
  eapply wp_mono; [eapply st_ex_free; [exact Hs|..]|].
  - rewrite lookup_insert_ne by done. unfold two. by rewrite lookup_insert_eq.
  - rewrite lookup_insert_ne by done. unfold two. by rewrite lookup_insert_ne, lookup_insert_eq.
  - intros [] s2 Hs2. cbn beta in Hs2. rewrite !delete_insert_ne, delete_two in Hs2 by congruence.
    eexists. split; [|split; [|done]]; destruct (idx =? ix.1.2); done.
Qed.
(** Freeing the [EVP_PKEY] of a private key, and the token key attached to it. *)
Lemma st_pkey_free h o ix s pkey p key c k h' o' x priv :
  made h o ix pkey p key c k h' o' → h !! p = None → h !! key = None → p ≠ key → o !! pkey = None → h' !! priv = None →
  st (<[priv := x]> h') o' ix s →
  wp (evp_pkey_free (Some pkey)) (λ _ s', ∃ h2 o2, st (<[priv := x]> h2) o2 ix s' ∧ h2 !! priv = None ∧
    match o' !! pkey with
    | Some (OPKEY (Some i)) => o2 = o ∧
        h2 = match o' !! i with Some (OEC _ _ _ _) => h | _ => if ix.2 =? ix.1.2 then h else two p key c k h end
    | _ => h2 = h'
    end) s.
Proof.
  intros Hm Hp Hkey Hne Hpk Hpriv Hs. unfold evp_pkey_free. wp_simpl.
  destruct Hm as [ec g q Hec Hecp|rsa n e bn be Hd Hr Hn He|h'' o'' Hh Ho].
  - edestruct (pkey_free_ec (ks_lib s) pkey ec) as (l & El & Ho).
    { rewrite (st_objs _ _ _ _ Hs). by rewrite lookup_insert_eq. }
    { rewrite (st_objs _ _ _ _ Hs). by rewrite lookup_insert_ne, lookup_insert_eq. }
    eapply st_lib; [exact Hs|]. rewrite El. intros s1 Hs1. cbn [fst snd] in *. rewrite Ho, (st_objs _ _ _ _ Hs) in Hs1.
    rewrite delete_insert_id in Hs1 by (by rewrite lookup_insert_ne). rewrite delete_insert_id in Hs1 by done.
    eapply wp_mono; [by apply (st_ex_free_two h o ix s1 p key c k)|]. intros [] s2 (h2 & Hs2 & Hh2 & ->). eexists _, o. split; [exact Hs2|].
    rewrite lookup_insert_eq, lookup_insert_ne, lookup_insert_eq by done. by rewrite Z.eqb_refl in *.
  - assert (pkey ≠ rsa ∧ pkey ≠ n ∧ pkey ≠ e ∧ n ≠ rsa ∧ e ≠ rsa ∧ n ≠ e) as (N1 & N2 & N3 & N4 & N5 & N6).
    { rewrite !NoDup_cons, !elem_of_cons in Hd. clear -Hd. naive_solver. }
    edestruct (pkey_free_rsa (ks_lib s) pkey rsa) as (l & El & Ho).
    { rewrite (st_objs _ _ _ _ Hs). by rewrite lookup_insert_eq. }
    { rewrite (st_objs _ _ _ _ Hs). by rewrite lookup_insert_ne, lookup_insert_eq. }
    eapply st_lib; [exact Hs|]. rewrite El. intros s1 Hs1. cbn [fst snd] in *. rewrite Ho, (st_objs _ _ _ _ Hs) in Hs1.
    rewrite delete_insert_id in Hs1 by (by rewrite !lookup_insert_ne by congruence).
    rewrite delete_insert_id in Hs1 by (by rewrite !lookup_insert_ne by congruence).
    rewrite (delete_insert_ne _ e n), (delete_insert_id o e), delete_insert_id in Hs1 by congruence.
    eapply wp_mono; [by apply (st_ex_free_two h o ix s1 p key c k)|]. intros [] s2 (h2 & Hs2 & Hh2 & ->). eexists _, o. split; [exact Hs2|].
    rewrite lookup_insert_eq, lookup_insert_ne, lookup_insert_eq by done. done.
  - destruct (pkey_free_empty (ks_lib s) pkey) as (l & El & Ho2); [rewrite (st_objs _ _ _ _ Hs); by rewrite lookup_insert_eq|].
    eapply st_lib; [exact Hs|]. rewrite El. intros s1 Hs1. cbn [fst snd p11_ec_ex_free] in *. wp_simpl.
    eexists h'', _. split; [exact Hs1|]. by rewrite lookup_insert_eq.
Qed.

Lemma made_lookup h o ix pkey p key c k h' o' : made h o ix pkey p key c k h' o' →
  match o' !! pkey with
  | Some (OPKEY (Some i)) => h' = two p key c k h ∧
      ((∃ g q, o' !! i = Some (OEC 1 g q (Some (ix.1.2, key)))) ∨ (∃ n, o' !! i = Some (ORSA 1 n (Some (ix.2, key)))))
  | _ => (h' = h ∨ h' = two p key c k h) ∧ o' !! pkey = Some (OPKEY None)
  end.
Proof.
  intros [ec g q Hec Hecp|rsa n e bn be Hd Hr Hn He|h'' o'' Hh Ho]; rewrite lookup_insert_eq; [| |naive_solver].
  - split; [done|]. left. rewrite lookup_insert_ne, lookup_insert_eq by done. eauto.
  - split; [done|]. right. rewrite lookup_insert_ne, lookup_insert_eq; [eauto|].
    rewrite !NoDup_cons, !elem_of_cons in Hd. clear -Hd. naive_solver.
Qed.

(** The token key behind a private key. *)
Lemma st_key_of h o ix s pkey p key c k h' o' h1 : made h o ix pkey p key c k h' o' → st h1 o' ix s →
  p11_key_of pkey s = Ret (match o' !! pkey with Some (OPKEY (Some _)) => Some key | _ => None end, s) ∧
  match o' !! pkey with
  | Some (OPKEY (Some i)) => EVP_PKEY_id (ks_lib s) pkey = match o' !! i with Some (OEC _ _ _ _) => EVP_PKEY_EC | _ => EVP_PKEY_RSA end
  | _ => True
  end.
Proof.
  intros Hm Hs. pose proof (made_lookup _ _ _ _ _ _ _ _ _ _ Hm) as Hl. pose proof (pkey_id_ok (ks_lib s) pkey) as Hid.
  pose proof (st_ix _ _ _ _ Hs) as <-. unfold p11_key_of, mbind, M_bind, get. rewrite (st_objs _ _ _ _ Hs) in Hid. cbn in Hl.
  destruct (o' !! pkey) as [[| | |[i|]]|] eqn:E; try (destruct Hl as [_ Hl]; congruence).
  - destruct Hl as [_ [(g & q & Hi)|(n & Hi)]], Hid as [Hid1 Hid2]; rewrite Hi in *; rewrite Hid1, Hid2; (split; [|done]).
    + erewrite ec_get_ex_ok; [done|]. by rewrite (st_objs _ _ _ _ Hs).
    + erewrite rsa_get_ex_ok; [done|]. by rewrite (st_objs _ _ _ _ Hs).
  - by rewrite Hid.
Qed.

Definition heap_ok s : Prop := ∀ p, is_Some (ks_heap s !! p) → p < ks_next s.
Definition released s s' : Prop := ks_heap s' = ks_heap s ∧ oobjs (ks_lib s') = oobjs (ks_lib s).

End Ownership.

(** ** A library, and a token with an EC key *)

Lemma find_one_total `{Cryptoki} c q t : ∃ r t', find_one c q t = Ret (r, t').
Proof.
  unfold find_one, bindE, P11, tt_of, mbind, M_bind.
  destruct (C_FindObjectsInit t (session c) q) as [rv t1]. destruct (i32 rv =? CKR_OK); [|by eexists _, _].
  destruct (C_FindObjects t1 (session c) 1) as [[rv2 hs] t2]. destruct (i32 rv2 =? CKR_OK); [|by eexists _, _].
  destruct (C_FindObjectsFinal t2 (session c)) as [rv3 t3]. destruct (i32 rv3 =? CKR_OK); by eexists _, _.
Qed.
(** [p11_load_key] returns, for an identifier that fits its buffer. *)
Lemma p11_load_key_total `{Cryptoki} junk c id i label t : id ≠ [] → parse_id junk id = Ret i →
  ∃ r t', p11_load_key junk c (Some id) label t = Ret (r, t').
Proof.
  intros Hid Hp. destruct id as [|x id]; [done|]. unfold p11_load_key, bindE, liftO, mbind, M_bind. rewrite Hp. unfold retE, mret, M_ret. cbv beta iota.
  destruct (find_one_total c ((CKA_CLASS, ulong CKO_PRIVATE_KEY) :: [(CKA_ID, i)]) t) as (r1 & t1 & ->).
  destruct r1 as [rc|[h|]]; [by eexists _, _| |by eexists _, _].
  destruct (find_one_total c ((CKA_CLASS, ulong CKO_PUBLIC_KEY) :: [(CKA_ID, i)]) t1) as (r2 & t2 & ->).
  destruct r2 as [rc|[h2|]]; [by eexists _, _| |by eexists _, _].
  unfold P11. destruct (C_GetAttributeValue t2 (session c) h CKA_KEY_TYPE (Some 8)) as [[rv len] b].
  destruct (i32 rv =? CKR_OK); by eexists _, _.
Qed.

Module ToyOssl.
(** The objects, and the next extra-data index of EC and of RSA.  It takes any parameters and any
    point that is not empty. *)
Record tlib := mktlib { tobjs : gmap Z oobj; ec_idx : Z; rsa_idx : Z }.
Definition upd (l : tlib) (m : gmap Z oobj) : tlib := mktlib m (ec_idx l) (rsa_idx l).
Definition new (o : oobj) (l : tlib) : Z * tlib := let i := fresh (dom (tobjs l)) in (i, upd l (<[i := o]> (tobjs l))).
Definition release (l : tlib) (i : Z) : option (Z * Z) * tlib :=
  match tobjs l !! i with
  | Some (OEC 1 _ _ ex) => (ex, upd l (delete i (tobjs l)))
  | Some (OEC (S r) g q ex) => (None, upd l (<[i := OEC r g q ex]> (tobjs l)))
  | Some (ORSA 1 k ex) => (ex, upd l (match k with Some (n, e) => delete n (delete e (delete i (tobjs l))) | None => delete i (tobjs l) end))
  | Some (ORSA (S r) k ex) => (None, upd l (<[i := ORSA r k ex]> (tobjs l)))
  | _ => (None, l)
  end.
Definition retain (m : gmap Z oobj) (i : Z) : gmap Z oobj :=
  match m !! i with
  | Some (OEC r g q ex) => <[i := OEC (S r) g q ex]> m
  | Some (ORSA r k ex) => <[i := ORSA (S r) k ex]> m
  | _ => m
  end.
Definition some_bytes (b : list Z) : bool := match b with [] => false | _ => true end.
#[local] Instance lib : OsslKeys := {|
  olib := tlib;
  EC_KEY_get_ex_new_index l := (ec_idx l, mktlib (tobjs l) (ec_idx l + 1) (rsa_idx l));
  RSA_get_ex_new_index l := (rsa_idx l, mktlib (tobjs l) (ec_idx l) (rsa_idx l + 1));
  EC_KEY_new := new (OEC 1 None None None);
  EC_KEY_free := release;
  d2i_ECParameters l i b := match tobjs l !! i with
    | Some (OEC r g q ex) => (true, upd l (<[i := OEC r (Some b) q ex]> (tobjs l))) | _ => (false, l) end;
  o2i_ECPublicKey l i b := match tobjs l !! i with
    | Some (OEC r g q ex) => if some_bytes b then (true, upd l (<[i := OEC r g (Some b) ex]> (tobjs l))) else (false, l) | _ => (false, l) end;
  d2i_ASN1_OCTET_STRING b := match b with 4 :: n :: b => if Z.of_nat (length b) =? n then Some b else None | _ => None end;
  EC_KEY_set_method l _ := l;
  EC_KEY_set_ex_data l i idx p := match tobjs l !! i with Some (OEC r g q _) => upd l (<[i := OEC r g q (Some (idx, p))]> (tobjs l)) | _ => l end;
  EC_KEY_get_ex_data l i idx := match tobjs l !! i with Some (OEC _ _ _ (Some (j, p))) => if j =? idx then Some p else None | _ => None end;
  RSA_new := new (ORSA 1 None None);
  RSA_free := release;
  BN_bin2bn l b := new (OBN b) l;
  BN_free l i := upd l (delete i (tobjs l));
  RSA_set0_key l i n e := match tobjs l !! i with Some (ORSA r _ ex) => upd l (<[i := ORSA r (Some (n, e)) ex]> (tobjs l)) | _ => l end;
  RSA_set_method l _ := l;
  RSA_set_ex_data l i idx p := match tobjs l !! i with Some (ORSA r k _) => upd l (<[i := ORSA r k (Some (idx, p))]> (tobjs l)) | _ => l end;
  RSA_get_ex_data l i idx := match tobjs l !! i with Some (ORSA _ _ (Some (j, p))) => if j =? idx then Some p else None | _ => None end;
  RSA_size _ _ := 256;
  EVP_PKEY_new := new (OPKEY None);
  EVP_PKEY_free l i := match tobjs l !! i with
    | Some (OPKEY (Some k)) => release (upd l (delete i (tobjs l))) k
    | _ => (None, upd l (delete i (tobjs l))) end;
  EVP_PKEY_set1_EC_KEY l i ec := (true, upd l (<[i := OPKEY (Some ec)]> (retain (tobjs l) ec)));
  EVP_PKEY_set1_RSA l i rsa := (true, upd l (<[i := OPKEY (Some rsa)]> (retain (tobjs l) rsa)));
  EVP_PKEY_id l i := match tobjs l !! i with
    | Some (OPKEY (Some k)) => match tobjs l !! k with Some (OEC _ _ _ _) => EVP_PKEY_EC | Some (ORSA _ _ _) => EVP_PKEY_RSA | _ => EVP_PKEY_OTHER end
    | _ => EVP_PKEY_OTHER end;
  EVP_PKEY_get0 l i := match tobjs l !! i with Some (OPKEY (Some k)) => k | _ => 0 end;
  EVP_PKEY_keygen l _ := (true, l);
  PEM_read_PrivateKey l b := if some_bytes b then let '(i, l) := new (OPKEY None) l in (Some i, l) else (None, l);
  PEM_write_PrivateKey _ _ := Some [1];
  PEM_write_PUBKEY _ _ := Some [2];
  PEM_read_PUBKEY l b := if some_bytes b then let '(i, l) := new (OPKEY None) l in (Some i, l) else (None, l);
  EVP_DigestSignInit _ _ md := match md with Some _ => true | None => false end;
  EVP_DigestSign _ _ _ data := (1, data)
|}.

Lemma new_ok o l : let '(i, l') := new o l in tobjs l !! i = None ∧ tobjs l' = <[i := o]> (tobjs l).
Proof. cbn. split; [|done]. apply not_elem_of_dom, is_fresh. Qed.
#[local] Instance laws : OsslKeyLaws.
Proof.
  refine {| oobjs := tobjs : olib → _ |}; cbn.
  - done.
  - done.
  - intros l. apply (new_ok _ l).
  - intros l i r g q ex b ->. cbn. eauto.
  - intros l i r g q ex b E. rewrite E. destruct (some_bytes b); cbn; eauto. exists q. split; [by rewrite insert_id|done].
  - done.
  - by intros l i r g q idx p ->.
  - intros l i r g q idx p ->. by rewrite Z.eqb_refl.
  - intros l i g q ex E. unfold release. rewrite E. by eexists.
  - intros l i r g q ex E. unfold release. rewrite E. by eexists.
  - intros l. apply (new_ok _ l).
  - intros l b. apply (new_ok _ l).
  - done.
  - by intros l i r ex n e ->.
  - done.
  - by intros l i r k idx p ->.
  - intros l i r k idx p ->. by rewrite Z.eqb_refl.
  - intros l i n e ex E. unfold release. rewrite E. by eexists.
  - intros l i r k ex E. unfold release. rewrite E. by eexists.
  - intros l. apply (new_ok _ l).
  - intros l i ec r g q ex _ E. unfold retain. by rewrite E.
  - intros l i ec r k ex _ E. unfold retain. by rewrite E.
  - intros l i ->. by eexists.
  - intros l i ec g q ex E1 E2. rewrite E1. unfold release. cbn. rewrite lookup_delete_ne, E2 by congruence. by eexists.
  - intros l i rsa n e ex E1 E2. rewrite E1. unfold release. cbn. rewrite lookup_delete_ne, E2 by congruence. by eexists.
  - intros l i. destruct (tobjs l !! i) as [[| | |[k|]]|]; try done. split; [done|]. by destruct (tobjs l !! k) as [[]|].
Defined.

(** A token whose public key 6 has the attributes [pub] beside its identifier, and a process that has not
    used the library; [ri] is the first RSA index. *)
Definition tok0 (kt : Z) (pub : gmap Z (list Z)) : ToyToken.tok :=
  ToyToken.mktok {[ 5 := <[CKA_KEY_TYPE := ulong kt]> (ToyToken.with_id CKO_PRIVATE_KEY [171; 1]);
                    6 := pub ∪ ToyToken.with_id CKO_PUBLIC_KEY [171; 1] ]} Idle [].
Definition proc (kt : Z) (pub : gmap Z (list Z)) (ri : Z) : @ks lib ToyToken.lib :=
  @mkks lib ToyToken.lib (tok0 kt pub) (mktlib ∅ 1 ri) ∅ 1 false 0 0.
Definition load (s : @ks lib ToyToken.lib) :=
  @load_pkcs11_key lib ToyToken.lib (λ _, true) (λ _, true) (λ t, (CKR_OK, t)) (replicate 32 0) (bs "drv") (Some (bs "1")) (bs "pin")
    (Some (bs "ab01")) None s.
(** The private key returned, the token key attached to it, and what is left when it has been freed. *)
Definition load_free (s : @ks lib ToyToken.lib) : option (Z * option Z * list Z * list Z) :=
  match load s with
  | Ret ((rc, Some priv), s1) =>
    match ks_heap s1 !! priv with
    | Some (HPriv pkey) =>
      match p11_key_of pkey s1, privkey_free priv s1 with
      | Ret (att, _), Ret (_, s2) => Some (rc, att, (map_to_list (ks_heap s2)).*1, (map_to_list (tobjs (ks_lib s2))).*1)
      | _, _ => None
      end
    | _ => None
    end
  | _ => None
  end.
Definition ec_pub : gmap Z (list Z) := {[ CKA_EC_PARAMS := [6; 1; 9]; CKA_EC_POINT := [4; 2; 11; 12] ]}.
Definition rsa_pub : gmap Z (list Z) := {[ CKA_PUBLIC_EXPONENT := [1; 0; 1]; CKA_MODULUS := [187] ]}.

(** An EC key and, with the same index, an RSA key leave nothing. *)
Lemma ec_key_released : load_free (proc CKK_EC ec_pub 1) = Some (0, Some 2, [], []).
Proof. vm_compute. reflexivity. Qed.
Lemma rsa_key_released : load_free (proc CKK_RSA rsa_pub 1) = Some (0, Some 2, [], []).
Proof. vm_compute. reflexivity. Qed.
(** [p11_ec_ex_free] compares the index of an RSA object with that of EC objects: when they differ,
    the token key of an RSA key is never freed. *)
Lemma rsa_index_leak : load_free (proc CKK_RSA rsa_pub 2) = Some (0, Some 2, [2; 1], []).
Proof. vm_compute. reflexivity. Qed.
(** A token key whose point cannot be read is returned as a success, without the token key, which
    is never freed; for RSA the RSA object is lost too. *)
Lemma unreadable_point_accepted : load_free (proc CKK_EC {[ CKA_EC_PARAMS := [6; 1; 9] ]} 1) = Some (0, None, [2; 1], []).
Proof. vm_compute. reflexivity. Qed.
Lemma unreadable_modulus_accepted : (λ '(rc, att, h, o), (rc, att, h, length o)) <$>
  load_free (proc CKK_RSA {[ CKA_PUBLIC_EXPONENT := [1; 0; 1] ]} 1) = Some (0, None, [2; 1], 1%nat).
Proof. vm_compute. reflexivity. Qed.

End ToyOssl.
