(* ===== verification/OpenSslCerts.v ===== *)
(** * Certificates, requests and traces of the OpenSSL engine (src/openssl/engine.c)

    [load_cert], [parse_pkcs7_certs], [write_cert_pem], [generate_csr], [tls_verify_signature], the
    library context made by [init_ssl_context] and changed by [tls_set_cert_verify], and the texts of
    the trace [msg_cb].  The objects of the library that a function makes and frees are counted, so
    that what it leaves behind can be told. *)
From S2P Require Import Prelude CLib OpenSslCtx P11 Signatures.
From stdpp Require Import base list gmap sets numbers strings.
From Stdlib Require Import ZArith Lia.
Open Scope Z_scope.

(** What is open: files, BIOs, certificates held outside a store, stores, PKCS#7 messages, requests, public keys. *)
Record osl := mkosl { n_file : Z; n_bio : Z; n_x509 : Z; n_store : Z; n_pkcs7 : Z; n_req : Z; n_pkey : Z }.
#[export] Instance osl_upd : Updatable osl := fun o => mkosl (n_file o) (n_bio o) (n_x509 o) (n_store o) (n_pkcs7 o) (n_req o) (n_pkey o).
Abbreviation MO := (M osl).

(** A PKCS#7 message by its type, with its certificates if it has any. *)
Inductive pkcs7 `{X509Lib} := P7Signed (certs : option (list X509)) | P7SignedAndEnveloped (certs : option (list X509)) | P7Other.

(** Text forms of the library; a request has a subject, a key and a signature. *)
Class PemLib `{X509Lib} `{OpenSslCrypto} := {
  fopen : list Z → option (list Z);                        (* what the file holds *)
  PEM_read_bio_X509 : list Z → option (X509 * list Z);
  PEM_write_bio_X509 : X509 → list Z;
  d2i_PKCS7_bio : list Z → option pkcs7;                   (* of its base64 text *)
  X509_get_pubkey : X509 → option EVP_PKEY;
  X509_REQ : Type;
  X509_REQ_new : X509_REQ;
  X509_NAME_add_entry : X509_REQ → list Z → list Z → X509_REQ;
  X509_REQ_set_pubkey : X509_REQ → EVP_PKEY → Z * X509_REQ;
  X509_REQ_sign : X509_REQ → EVP_PKEY → Z * X509_REQ;      (* with SHA-1 *)
  PEM_write_bio_X509_REQ : X509_REQ → Z * list Z;
  ERR_get_error : Z;
}.

Section Certs.
Context `{PemLib}.

(** The first certificate of the file or of the text: the code and [*cert], which is left when there is none. *)
Definition load_cert (cert : option X509_STORE) (buf : list Z) : MO (Z * option X509_STORE) :=
  c ← match fopen buf with
      | Some text => _ ← modify (λ o, o <| n_file := n_file o + 1 |>); mret (fst <$> PEM_read_bio_X509 text)
      | None =>
        _ ← modify (λ o, o <| n_bio := n_bio o + 1 |>);
        let c := fst <$> PEM_read_bio_X509 (mem_bio buf) in
        _ ← modify (λ o, o <| n_bio := n_bio o - 1 |>);
        mret c
      end;
  match c with
  | None => mret (-1, cert)
  | Some c =>
    _ ← modify (λ o, o <| n_x509 := n_x509 o + 1 |>);
    let store := X509_STORE_add_cert X509_STORE_new c in
    _ ← modify (λ o, o <| n_store := n_store o + 1 |> <| n_x509 := n_x509 o - 1 |>);
    mret (0, Some store)
  end.

(** The type of a message that could not be read is looked at all the same. *)
Definition parse_pkcs7_certs (chain : option X509_STORE) (buf : list Z) : MO (Z * option X509_STORE) :=
  _ ← modify (λ o, o <| n_bio := n_bio o + 2 |>);
  match d2i_PKCS7_bio (mem_bio buf) with
  | None => fail_with NullDeref
  | Some p7 =>
    _ ← modify (λ o, o <| n_pkcs7 := n_pkcs7 o + 1 |>);
    let done := modify (λ o, o <| n_bio := n_bio o - 2 |> <| n_pkcs7 := n_pkcs7 o - 1 |>) in
    match p7 with
    | P7Other => _ ← done; mret (-1, chain)
    | P7Signed certs | P7SignedAndEnveloped certs =>
      let store := add_all X509_STORE_new (default [] certs) in
      _ ← modify (λ o, o <| n_store := n_store o + 1 |>);
      _ ← done;
      mret (0, Some store)
    end
  end.

(** Every certificate of the store, whatever [full_chain] says: the text, with the NUL after it, and its length. *)
Definition write_cert_pem (store : X509_STORE) (full_chain : bool) : MO (Z * list Z * Z) :=
  _ ← modify (λ o, o <| n_bio := n_bio o + 1 |>);
  let text := concat (PEM_write_bio_X509 <$> X509_STORE_objects store) in
  _ ← modify (λ o, o <| n_bio := n_bio o - 1 |>);
  mret (0, text ++ [0], Z.of_nat (length text)).

(** The arguments after [pemlen]: names and values, up to a NULL. *)
Fixpoint csr_entries (fuel : nat) (req : X509_REQ) (va : list (option (list Z))) : outcome X509_REQ :=
  match fuel, va with
  | O, _ => Fault OutOfFuel
  | _, [] => Fault OutOfBounds
  | _, None :: _ => Ret req
  | _, [Some _] => Fault OutOfBounds
  | _, Some _ :: None :: _ => Ret req
  | S fuel, Some id :: Some val :: va => csr_entries fuel (X509_NAME_add_entry req id val) va
  end.
(** The calls up to the first that fails: the error, or the text. *)
Definition csr_steps (pk : EVP_PKEY) (req : X509_REQ) : Z + list Z :=
  let '(r, req) := X509_REQ_set_pubkey req pk in
  if r =? 0 then inl (i32 ERR_get_error)
  else
    let '(r, req) := X509_REQ_sign req pk in
    if r =? 0 then inl (i32 ERR_get_error)
    else let '(r, text) := PEM_write_bio_X509_REQ req in if r =? 0 then inl (i32 ERR_get_error) else inr text.
(** The code, [*pem] and [*pemlen], which is never set; a failure without an error is no failure. *)
Definition generate_csr (pk : EVP_PKEY) (pem : option (list Z)) (pemlen : Z) (va : list (option (list Z))) : MO (Z * option (list Z) * Z) :=
  _ ← modify (λ o, o <| n_req := n_req o + 1 |> <| n_bio := n_bio o + 1 |>);
  req ← liftO (csr_entries (S (length va)) X509_REQ_new va);
  let '(ret, text) := match csr_steps pk req with inl e => (e, []) | inr text => (0, text) end in
  let pem := if negb (ret =? 0) then pem else Some (text ++ [0]) in
  _ ← modify (λ o, o <| n_bio := n_bio o - 1 |> <| n_req := n_req o - 1 |>);
  mret (ret, pem, pemlen).

(** The key of the first certificate; a missing one is logged and used all the same. *)
Definition tls_verify_signature (store : X509_STORE) (md : option hash_algo) (data sig : list Z) : MO Z :=
  match head (X509_STORE_objects store) ≫= X509_get_pubkey with
  | None => fail_with NullDeref
  | Some pk => _ ← modify (λ o, o <| n_pkey := n_pkey o + 1 |>); mret (verify_signature pk md data sig)
  end.
Definition tls_free_cert (cert : option X509_STORE) : MO (option X509_STORE) :=
  _ ← match cert with Some _ => modify (λ o, o <| n_store := n_store o - 1 |>) | None => mret tt end;
  mret None.

(** ** Round trips *)

(** The same result, with the same counts. *)
Ltac ret_osl :=
  unfold update_with, mret, M_ret; cbn;
  match goal with |- Ret (_, ?x) = Ret (_, ?y) => replace x with y; [reflexivity|f_equal; lia] end.

Context `{!X509Laws}.
(** A certificate is read back from its text, and nothing from no text. *)
Context (pem_read_write : ∀ c rest, PEM_read_bio_X509 (PEM_write_bio_X509 c ++ rest) = Some (c, rest)) (pem_read_nil : PEM_read_bio_X509 [] = None).

Lemma add_all_objects certs : ∀ store, NoDup (certs ++ X509_STORE_objects store) →
  X509_STORE_objects (add_all store certs) ≡ₚ certs ++ X509_STORE_objects store.
Proof.
  induction certs as [|c certs IH]; intros store Hnd; [done|]. apply NoDup_cons in Hnd as [Hc Hnd].
  assert (Hadd : X509_STORE_objects (X509_STORE_add_cert store c) ≡ₚ c :: X509_STORE_objects store) by (apply add_cert_objects; set_solver).
  change (add_all store (c :: certs)) with (add_all (X509_STORE_add_cert store c) certs).
  rewrite IH, Hadd, <- Permutation_middle; [done|]. rewrite Hadd, <- Permutation_middle. by constructor.
Qed.
Lemma load_pem_texts certs : ∀ fuel store, (length certs < fuel)%nat →
  load_pem PEM_read_bio_X509 fuel (concat (PEM_write_bio_X509 <$> certs)) store = Ret (add_all store certs).
Proof.
  induction certs as [|c certs IH]; intros [|fuel] store Hf; cbn in Hf; try lia; cbn -[PEM_write_bio_X509].
  - by rewrite pem_read_nil.
  - rewrite pem_read_write. apply IH. lia.
Qed.
Lemma pem_texts_long certs : (length certs ≤ length (concat (PEM_write_bio_X509 <$> certs)))%nat.
Proof.
  induction certs as [|c certs IH]; cbn; [lia|]. rewrite length_app. destruct (PEM_write_bio_X509 c) eqn:E; cbn; [|lia].
  pose proof (pem_read_write c []) as Hr. rewrite E in Hr. change ([] ++ []) with (@nil Z) in Hr. by rewrite pem_read_nil in Hr.
Qed.
Lemma mem_bio_all b : Z.of_nat (length b) < 2147483648 → mem_bio b = b.
Proof. intros Hb. unfold mem_bio. rewrite i32_small by lia. by rewrite take_ge by lia. Qed.

End Certs.

(** ** The library's context *)

Section Ctx.
Context `{X509Lib}.
Context (stat : list Z → option bool) (load_locations : list Z → list X509) (PEM_read : list Z → option (X509 * list Z)).
Context (TLS1_2_VERSION TLS1_3_VERSION : Z).

(** How the peer is verified: the mode, [verify_peer_cb] as the callback of each certificate, a
    callback in place of the check; the certificates trusted: a store, or the system's. *)
Record SSL_CTX := mksslctx {
  verify_peer : bool; peer_cb : bool; cert_cb : bool;
  verify_store : option X509_STORE; default_paths : bool; min_proto : Z; max_proto : Z; traced : bool;
}.
#[export] Instance SSL_CTX_upd : Updatable SSL_CTX := fun c =>
  mksslctx (verify_peer c) (peer_cb c) (cert_cb c) (verify_store c) (default_paths c) (min_proto c) (max_proto c) (traced c).

(** The context and the chains of the bundle. *)
Definition init_ssl_context (tls_debug : bool) (cabuf : option (list Z)) : outcome (SSL_CTX * list X509_STORE) :=
  '(ca, chains) ← match cabuf with
      | Some buf => ca ← load_certs stat load_locations PEM_read buf; Ret (Some ca, (process_chains (X509_STORE_objects ca)).1)
      | None => Ret (None, [])
      end;
  Ret (mksslctx true true false ca (match cabuf with None => true | _ => false end) TLS1_2_VERSION TLS1_3_VERSION tls_debug, chains).
Definition new_openssl_ctx (tls_debug : bool) (ca : option (list Z)) : outcome (SSL_CTX * list X509_STORE) :=
  init_ssl_context tls_debug ca.
(** [cert_verify_cb] calls [verify_f]; the callback of each certificate is removed. *)
Definition tls_set_cert_verify (c : SSL_CTX) : SSL_CTX :=
  c <| verify_peer := true |> <| peer_cb := false |> <| cert_cb := true |>.
End Ctx.

(** The peer is always verified, with the versions 1.2 and 1.3, however often a verifier is set. *)
Lemma peer_always_verified `{X509Lib} stat ll pem v12 v13 dbg ca n c chains :
  new_openssl_ctx stat ll pem v12 v13 dbg ca = Ret (c, chains) →
  let c' := Nat.iter n tls_set_cert_verify c in
  verify_peer c' = true ∧ (peer_cb c' = true ∨ cert_cb c' = true) ∧ min_proto c' = v12 ∧ max_proto c' = v13.
Proof.
  intros Hn. unfold new_openssl_ctx, init_ssl_context in Hn.
  assert (Hc : ∃ st d, c = mksslctx true true false st d v12 v13 dbg).
  { unfold mbind, outcome_bind in Hn. destruct ca as [buf|]; [destruct (load_certs _ _ _ buf); [|done]|]; injection Hn as <- <-; eauto. }
  destruct Hc as (st & d & ->). clear Hn.
  induction n as [|n IH]; cbn in *; [by auto|]. destruct IH as (_ & _ & ? & ?). auto.
Qed.

Module ToyPem.
#[local] Existing Instance ToyCerts.lib.
#[local] Existing Instance ToyCerts.lib_laws.
#[local] Existing Instance ToySig.ossl.
(** A certificate is a byte, its text that byte; the file "f" holds one; a message starts with its type. *)
#[local] Instance pem : PemLib := {|
  fopen b := if decide (b = bs "f") then Some [44] else None;
  PEM_read_bio_X509 b := match b with c :: b => Some (c, b) | [] => None end;
  PEM_write_bio_X509 c := [c];
  d2i_PKCS7_bio b := match b with 1 :: l => Some (P7Signed (Some l)) | 2 :: _ => Some P7Other | _ => None end;
  X509_get_pubkey c := Some 5;
  X509_REQ := list Z; X509_REQ_new := [];
  X509_NAME_add_entry r id v := r ++ id ++ v;
  X509_REQ_set_pubkey r _ := (1, r); X509_REQ_sign r _ := (if decide (r = []) then 0 else 1, r);
  PEM_write_bio_X509_REQ r := (1, r);
  ERR_get_error := 0;
|}.
Definition certs : list X509 := [8; 9].
Definition none : osl := mkosl 0 0 0 0 0 0 0.

Lemma pem_reads c rest : PEM_read_bio_X509 (PEM_write_bio_X509 c ++ rest) = Some (c, rest).
Proof. reflexivity. Qed.
Lemma pem_reads_nil : PEM_read_bio_X509 [] = None.
Proof. reflexivity. Qed.

(** A certificate read from a file leaves the file open. *)
Lemma cert_file_left_open : ∃ s, load_cert None (bs "f") none = Ret (0, Some s, mkosl 1 0 0 1 0 0 0).
Proof. eexists. vm_compute. reflexivity. Qed.
(** A message that cannot be read. *)
Lemma bad_pkcs7_crashes : parse_pkcs7_certs None [7] none = Fault NullDeref.
Proof. reflexivity. Qed.
(** The text of one certificate is the whole chain's. *)
Lemma full_chain_ignored store o : write_cert_pem store false o = write_cert_pem store true o.
Proof. reflexivity. Qed.
(** The length of the request's text is not returned; a failure the library has no error for is
    returned as success, with an empty text. *)
Lemma csr_length_missing : ∃ o, generate_csr 5 None 99 [Some (bs "CN"); Some (bs "a"); None] none = Ret (0, Some (bs "CNa" ++ [0]), 99, o).
Proof. eexists. vm_compute. reflexivity. Qed.
Lemma csr_failure_unnoticed : ∃ o, generate_csr 5 None 99 [None] none = Ret (0, Some [0], 99, o).
Proof. eexists. vm_compute. reflexivity. Qed.
(** The public key taken from the certificate is not freed. *)
Lemma verify_leaves_key : ∃ rc, tls_verify_signature [8] None [] [] none = Ret (rc, mkosl 0 0 0 0 0 0 1).
Proof. eexists. vm_compute. reflexivity. Qed.
End ToyPem.
