(* ===== verification/OpenSslTrace.v ===== *)
(** * Traces of the OpenSSL engine (src/openssl/engine.c: [lookup], [msg_cb], [info_cb])

    With TLS_DEBUG set the library calls these for every message and state.  What they log is the
    value of the functions here; the library's constants, of which the code has the names, are given
    by [num]. *)
From S2P Require Import Prelude.
From stdpp Require Import base list numbers strings.
From Stdlib Require Import ZArith Lia.
Local Open Scope string_scope.
Local Open Scope list_scope.
Open Scope Z_scope.

Section Trace.
Context (num : string → Z).

(** [STRINT_PAIR], up to the entry without a name. *)
Fixpoint lookup_name (val : Z) (l : list (string * Z)) (def : string) : string :=
  match l with [] => def | (name, retval) :: l => if retval =? val then name else lookup_name val l def end.

Definition handshakes : list (string * Z) :=
  [(", HelloRequest", num "SSL3_MT_HELLO_REQUEST"); (", ClientHello", num "SSL3_MT_CLIENT_HELLO");
   (", ServerHello", num "SSL3_MT_SERVER_HELLO"); (", HelloVerifyRequest", num "DTLS1_MT_HELLO_VERIFY_REQUEST");
   (", NewSessionTicket", num "SSL3_MT_NEWSESSION_TICKET"); (", EndOfEarlyData", num "SSL3_MT_END_OF_EARLY_DATA");
   (", EncryptedExtensions", num "SSL3_MT_ENCRYPTED_EXTENSIONS"); (", Certificate", num "SSL3_MT_CERTIFICATE");
   (", ServerKeyExchange", num "SSL3_MT_SERVER_KEY_EXCHANGE");
   (", CertificateRequest", num "SSL3_MT_CERTIFICATE_REQUEST"); (", ServerHelloDone", num "SSL3_MT_SERVER_DONE");
   (", CertificateVerify", num "SSL3_MT_CERTIFICATE_VERIFY");
   (", ClientKeyExchange", num "SSL3_MT_CLIENT_KEY_EXCHANGE"); (", Finished", num "SSL3_MT_FINISHED");
   (", CertificateUrl", num "SSL3_MT_CERTIFICATE_URL"); (", CertificateStatus", num "SSL3_MT_CERTIFICATE_STATUS");
   (", SupplementalData", num "SSL3_MT_SUPPLEMENTAL_DATA"); (", KeyUpdate", num "SSL3_MT_KEY_UPDATE");
   (", NextProto", num "SSL3_MT_NEXT_PROTO"); (", MessageHash", num "SSL3_MT_MESSAGE_HASH")].
Definition alert_types : list (string * Z) :=
  [(" close_notify", 0); (" end_of_early_data", 1); (" unexpected_message", 10); (" bad_record_mac", 20);
   (" decryption_failed", 21); (" record_overflow", 22); (" decompression_failure", 30); (" handshake_failure", 40);
   (" bad_certificate", 42); (" unsupported_certificate", 43); (" certificate_revoked", 44);
   (" certificate_expired", 45); (" certificate_unknown", 46); (" illegal_parameter", 47); (" unknown_ca", 48);
   (" access_denied", 49); (" decode_error", 50); (" decrypt_error", 51); (" export_restriction", 60);
   (" protocol_version", 70); (" insufficient_security", 71); (" internal_error", 80);
   (" inappropriate_fallback", 86); (" user_canceled", 90); (" no_renegotiation", 100); (" missing_extension", 109);
   (" unsupported_extension", 110); (" certificate_unobtainable", 111); (" unrecognized_name", 112);
   (" bad_certificate_status_response", 113); (" bad_certificate_hash_value", 114); (" unknown_psk_identity", 115);
   (" certificate_required", 116)].
Definition ssl_versions : list (string * Z) :=
  [("SSL 3.0", num "SSL3_VERSION"); ("TLS 1.0", num "TLS1_VERSION"); ("TLS 1.1", num "TLS1_1_VERSION");
   ("TLS 1.2", num "TLS1_2_VERSION"); ("TLS 1.3", num "TLS1_3_VERSION"); ("DTLS 1.0", num "DTLS1_VERSION");
   ("DTLS 1.0 (bad)", num "DTLS1_BAD_VER")].

Record trace := mktrace { t_write : string; t_version : string; t_content : string; t_details1 : string; t_details2 : string }.

(** A byte of the message. *)
Definition byte_at (buf : list Z) (i : nat) : outcome Z := match buf !! i with Some b => Ret b | None => Fault OutOfBounds end.

(** [buf] is the memory at the pointer, of which [len] bytes are the message. *)
Definition msg_cb (write_p : bool) (version content_type : Z) (buf : list Z) (len : Z) : outcome trace :=
  let str_write_p := if write_p then ">>>" else "<<<" in
  let str_version := lookup_name version ssl_versions "???" in
  if bool_decide (version ∈ ssl_versions.*2) then
    if content_type =? 20 then Ret (mktrace str_write_p str_version ", ChangeCipherSpec" "" "")
    else if content_type =? 21 then
      if len =? 2 then
        level ← byte_at buf 0;
        desc ← byte_at buf 1;
        Ret (mktrace str_write_p str_version ", Alert"
               (if level =? 1 then ", warning" else if level =? 2 then ", fatal" else ", ???") (lookup_name desc alert_types " ???"))
      else Ret (mktrace str_write_p str_version ", Alert" ", ???" "")
    else if content_type =? 22 then
      if 0 <? len then b ← byte_at buf 0; Ret (mktrace str_write_p str_version ", Handshake" (lookup_name b handshakes "???") "")
      else Ret (mktrace str_write_p str_version ", Handshake" "???" "")
    else if content_type =? 23 then Ret (mktrace str_write_p str_version ", ApplicationData" "" "")
    else Ret (mktrace str_write_p str_version "" "" "")
  else if (version =? 0) && (content_type =? num "SSL3_RT_HEADER") then Ret (mktrace str_write_p "" "TLS Header" "" "")
  else Ret (mktrace str_write_p str_version "" "" "").

(** What is logged, with the level: a state, an alert with its direction, or a failing exit. *)
Inductive info := ILoop (op : string) | IAlert (dir : string) | IFailed (op : string) | IError (op : string) | INone.
Definition has (where_ : Z) (flag : string) : bool := negb (Z.land where_ (num flag) =? 0).
Definition info_cb (where_ ret : Z) : info :=
  let w := Z.land where_ (Z.lnot (num "SSL_ST_MASK")) in
  let str := if has w "SSL_ST_CONNECT" then "SSL_connect" else if has w "SSL_ST_ACCEPT" then "SSL_accept" else "undefined" in
  if has where_ "SSL_CB_LOOP" then ILoop str
  else if has where_ "SSL_CB_ALERT" then IAlert (if has where_ "SSL_CB_READ" then "read" else "write")
  else if has where_ "SSL_CB_EXIT" then if ret =? 0 then IFailed str else if ret <? 0 then IError str else INone
  else INone.

(** A trace reads nothing outside the message. *)
Lemma msg_cb_safe write_p version content_type buf len : len ≤ Z.of_nat (length buf) →
  ∃ r, msg_cb write_p version content_type buf len = Ret r.
Proof.
  intros Hlen. unfold msg_cb. destruct (bool_decide _); [|case_if; by eexists].
  destruct (content_type =? 20); [by eexists|]. destruct (content_type =? 21).
  { destruct (Z.eqb_spec len 2); [|by eexists]. destruct buf as [|b0 [|b1 buf]]; cbn in Hlen; [lia|lia|]. by eexists. }
  destruct (content_type =? 22); [|case_if; by eexists].
  destruct (Z.ltb_spec 0 len); [|by eexists]. destruct buf as [|b0 buf]; cbn in Hlen; [lia|]. by eexists.
Qed.
(** Every alert of the table is named: no code is listed twice. *)
Lemma alerts_named name code : (name, code) ∈ alert_types → ∀ write_p version level, version ∈ ssl_versions.*2 →
  t_details2 <$> (match msg_cb write_p version 21 [level; code] 2 with Ret t => Some t | Fault _ => None end) = Some name.
Proof.
  intros Hin write_p version level Hv. unfold msg_cb. rewrite bool_decide_true by done. cbn [Z.eqb Pos.eqb byte_at lookup list_lookup mbind outcome_bind fmap option_fmap option_map t_details2].
  assert (Hall : Forall (λ x, lookup_name x.2 alert_types " ???" = x.1) alert_types) by (apply (bool_decide_unpack _); vm_compute; exact I).
  rewrite Forall_forall in Hall. specialize (Hall _ Hin). cbn -[lookup_name alert_types] in *. by rewrite Hall.
Qed.
End Trace.
