(* ===== verification/TlsLink.v ===== *)
(** * The TLS link (src/tls_link.c, include/tlsuv/tls_link.h)

    A link between the source and the client's link that passes what it reads from its
    parent through a TLS engine to its child, and what its child writes through the
    engine to its parent.  Engines are shared objects: a link holds the address of one.
    [link_table] ties the method tables of the program together: a method may call
    through the table again, [fuel] bounds the depth of such calls. *)
From S2P Require Import Prelude UvLink TlsEngine.
From stdpp Require Import base gmap numbers list.
From Stdlib Require Import ZArith Lia.
Open Scope Z_scope.

(** Write callbacks with their argument: a client's own, [tls_write_cb] with its
    [tls_link_write_t] (which holds the callback it passes on, if any), and
    [tls_write_free_cb]. *)
Inductive write_fn :=
  | WUser (cb : Z)
  | WTls (cb : write_fn)     (* wr->cb = cb *)
  | WTlsNoCb                 (* wr->cb = NULL *)
  | WTlsFree.

(** The fields [tls_link_t] adds. *)
Record tls_link_s := mktls { tl_engine : option Z; hs_cb : Z }.

Record tls_state `{TlsEngine} {Y : Type} := mkts {
  engines : gmap Z engine_t;
  tls_links : gmap lid tls_link_s;
  more : Y;
}.
Arguments tls_state {_} Y.
Arguments mkts {_ _}.
#[export] Instance tls_state_upd `{TlsEngine} {Y} : Updatable (tls_state Y) := fun s =>
  mkts (engines s) (tls_links s) (more s).

Definition TLS_BUF_SZ : Z := 32 * 1024.

Section TlsLink.
Context `{TlsEngine} {Y : Type}.
Abbreviation L := (lstate write_fn (tls_state Y)).
Context (vt : kind → uv_link_methods_t write_fn (tls_state Y)).
Context (UV_ERRNO_MAX UV_EFAULT UV_EOF UV_ENOBUFS UV_ECONNABORTED : Z).
Context (app_close : Z → lid → M L unit) (app_alloc : Z → lid → Z → M L (option (list Z)))
  (app_read : Z → lid → Z → option (list Z) → M L unit) (malloc_ok : list levent → bool)
  (app_hs : Z → lid → tls_handshake_state → M L unit) (fuel : nat).

Definition set_rest (f : tls_state Y → tls_state Y) : M L unit := modify (λ s, s <| lrest := f (lrest s) |>).
Definition tls_get (l : lid) : M L tls_link_s := s ← get; from_opt BadCast (tls_links (lrest s) !! l).
(** The engine of a link, and an operation on it. *)
Definition engine_of (l : lid) : M L Z := t ← tls_get l; from_opt NullDeref (tl_engine t).
Definition engine_get (e : Z) : M L engine_t := s ← get; from_opt UseAfterFree (engines (lrest s) !! e).
Definition engine_put (e : Z) (x : engine_t) : M L unit :=
  set_rest (λ r, r <| engines := <[e := x]> (engines r) |>).
Definition on_engine {A} (l : lid) (op : engine_t → outcome (A * engine_t)) : M L A :=
  e ← engine_of l; x ← engine_get e;
  '(a, x) ← liftO (op x); engine_put e x;; mret a.
Definition engine_state (l : lid) : M L tls_handshake_state :=
  e ← engine_of l; x ← engine_get e; mret (e_handshake_state x).

Abbreviation propagate_write := (uv_link_propagate_write vt UV_ERRNO_MAX UV_EFAULT).
Abbreviation propagate_read := (uv_link_propagate_read_cb vt UV_ERRNO_MAX UV_EFAULT app_read).
Abbreviation propagate_alloc := (uv_link_propagate_alloc_cb vt app_alloc malloc_ok).

Definition tls_alloc (l : lid) (suggested : Z) : M L (option (list Z)) :=
  st ← engine_state l;
  match st with
  | TLS_HS_BEFORE | TLS_HS_CONTINUE => mret (Some (replicate (Z.to_nat suggested) 0))
  | TLS_HS_COMPLETE => propagate_alloc l suggested
  | TLS_HS_ERROR => mret None
  end.

(** The write callbacks: [tls_write_cb], which passes the status on to [source->child] if
    there is a callback, and those of clients, [app_write]. *)
Definition tls_write_cb (source : option lid) (next : option (option lid → M L unit)) : M L unit :=
  l ← from_opt NullDeref source; k ← link_get l;
  match next with Some f => f (child k) | None => mret tt end.
Fixpoint run_write_fn (app_write : Z → option lid → Z → M L unit) (w : write_fn) (source : option lid) (st : Z) : M L unit :=
  match w with
  | WUser cb => app_write cb source st
  | WTls cb => tls_write_cb source (Some (λ c, run_write_fn app_write cb c st))
  | WTlsNoCb => tls_write_cb source None
  | WTlsFree => mret tt
  end.
(** [tls->engine->api->reset(...)]: [optional] when the code tests it for NULL. *)
Definition tls_reset (l : lid) (optional : bool) : M L unit :=
  match e_reset with
  | Some f => e ← engine_of l; x ← engine_get e; engine_put e (f x)
  | None => if optional then mret tt else fail_with NullDeref
  end.

Definition tls_read_start (l : lid) : M L Z :=
  st ← engine_state l;
  when (bool_decide (st = TLS_HS_CONTINUE)) (tls_reset l true);;
  uv_link_default_read_start vt UV_ERRNO_MAX UV_EFAULT l;;
  '(st, out) ← on_engine l (λ x, e_handshake x None TLS_BUF_SZ);
  k ← link_get l;
  propagate_write (parent k) l [out] WTlsNoCb.

(** One handshake step on the bytes received. *)
Definition tls_continue (l : lid) (nread : Z) (b : option (list Z)) : M L unit :=
  mem ← from_opt NullDeref b;
  '(st, out) ← on_engine l (λ x, e_handshake x (Some (take (Z.to_nat nread) mem)) TLS_BUF_SZ);
  when (0 <? Z.of_nat (length out))
    (k ← link_get l;
     rc ← propagate_write (parent k) l [out] WTlsNoCb;
     when (negb (rc =? 0)) (k ← link_get l; tls_write_cb (parent k) None));;
  match st with
  | TLS_HS_COMPLETE => t ← tls_get l; app_hs (hs_cb t) l TLS_HS_COMPLETE
  | TLS_HS_ERROR => t ← tls_get l; app_hs (hs_cb t) l st;; propagate_read l UV_ECONNABORTED None
  | _ => mret tt
  end.

(** The engine stores [out] at the front of the buffer. *)
Definition store (mem out : list Z) : outcome (list Z) :=
  if Z.of_nat (length out) <=? Z.of_nat (length mem) then Ret (out ++ drop (length out) mem) else Fault OutOfBounds.

(** [while (rc == TLS_MORE_AVAILABLE || rc == TLS_READ_AGAIN)]: the buffer [b] and the
    bytes to give to the engine, [None] after the first round. *)
Fixpoint tls_read_loop (n : nat) (l : lid) (bufsize : Z) (b : option (list Z)) (input : option (list Z)) : M L unit :=
  match n with
  | O => fail_with OutOfFuel
  | S n =>
    mem ← from_opt NullDeref b;
    '(rc, out) ← on_engine l (λ x, e_read x input (Z.of_nat (length mem)));
    mem ← liftO (store mem out);
    let out_bytes := Z.of_nat (length out) in
    if rc =? TLS_OK then propagate_read l out_bytes (Some mem)
    else if rc =? TLS_EOF then
      b ← (if 0 <? out_bytes then propagate_read l out_bytes (Some mem);; propagate_alloc l bufsize else mret (Some mem));
      propagate_read l UV_EOF b
    else if (rc =? TLS_READ_AGAIN) || (rc =? TLS_MORE_AVAILABLE) then
      propagate_read l out_bytes (Some mem);;
      b ← propagate_alloc l bufsize;
      match b with
      | Some (_ :: _) => tls_read_loop n l bufsize b None
      | _ => propagate_read l UV_ENOBUFS b
      end
    else if rc =? TLS_HAS_WRITE then
      '(_, out) ← on_engine l (λ x, e_write x None TLS_BUF_SZ);
      k ← link_get l;
      propagate_write (parent k) l [out] WTlsFree;; mret tt
    else
      b ← (if 0 <? out_bytes then propagate_read l out_bytes (Some mem);; propagate_alloc l bufsize else mret (Some mem));
      propagate_read l UV_ECONNABORTED b
  end.

Definition tls_read_cb (l : lid) (nread : Z) (b : option (list Z)) : M L unit :=
  st ← engine_state l;
  if nread <? 0 then
    match st with
    | TLS_HS_CONTINUE =>
      tls_reset l false;; t ← tls_get l; app_hs (hs_cb t) l TLS_HS_ERROR;;
      from_opt NullDeref b;; mret tt     (* free(b->base) *)
    | _ => propagate_read l nread b
    end
  else
    match st with
    | TLS_HS_CONTINUE => if nread =? 0 then mret tt else tls_continue l nread b
    | TLS_HS_COMPLETE =>
      mem ← from_opt NullDeref b;
      tls_read_loop fuel l (Z.of_nat (length mem)) b (Some (take (Z.to_nat nread) mem))
    | _ => mret tt
    end.

(** The engine wraps the buffers one after the other; the result is that of the last. *)
Fixpoint wrap_bufs (l : lid) (bufs : list (list Z)) (rc : Z) : M L Z :=
  match bufs with
  | [] => mret rc
  | b :: bufs =>
    '(rc, _) ← on_engine l (λ x, e_write x (Some b) 0);
    if rc <? 0 then mret rc else wrap_bufs l bufs rc
  end.

(** With nothing to send, [tls_write_cb] is called on the caller's own argument, which
    is not a [tls_link_write_t]. *)
Definition tls_write (l source : lid) (bufs : list (list Z)) (cb : write_fn) : M L Z :=
  rc ← wrap_bufs l bufs 0;
  if rc <? 0 then mret rc
  else if rc =? 0 then fail_with BadCast
  else
    '(rc', out) ← on_engine l (λ x, e_write x None rc);
    if rc' <? 0 then mret rc' else
    k ← link_get l;
    propagate_write (parent k) l [out] (WTls cb).

Definition tls_close (l source : lid) (cb : close_cb_t) : M L unit :=
  tls_reset l true;; run_close_cb app_close cb source.

Definition tls_methods : uv_link_methods_t write_fn (tls_state Y) :=
  mkmethods tls_read_start None tls_write None None tls_close None (Some tls_alloc) (Some tls_read_cb).

Definition tlsuv_tls_link_init (l : lid) (engine : option Z) (cb : Z) : M L Z :=
  uv_link_init l KTls;;
  set_rest (λ r, r <| tls_links := <[l := mktls engine cb]> (tls_links r) |>);;
  mret 0.

(** The tables of links that only pass data on, but for what they do with it:
    [mbed_methods] of tlsuv.c and [http_methods] of http.c. *)
Definition client_methods (alloc : lid → Z → M L (option (list Z))) (read : lid → Z → option (list Z) → M L unit)
  : uv_link_methods_t write_fn (tls_state Y) :=
  mkmethods (uv_link_default_read_start vt UV_ERRNO_MAX UV_EFAULT) None
    (uv_link_default_write vt UV_ERRNO_MAX UV_EFAULT) None None (uv_link_default_close app_close) None
    (Some alloc) (Some read).
Definition mbed_methods : uv_link_methods_t write_fn (tls_state Y) :=
  client_methods (uv_link_default_alloc_cb_override vt app_alloc malloc_ok)
    (uv_link_default_read_cb_override vt UV_ERRNO_MAX UV_EFAULT app_read).
End TlsLink.

(** All tables: [client k] is the read callback of client kind [k], if it has its own. *)
Section Table.
Context `{TlsEngine} {Y : Type}.
Abbreviation L := (lstate write_fn (tls_state Y)).
Context (UV_ERRNO_MAX UV_EFAULT UV_EOF UV_ENOBUFS UV_ECONNABORTED UV_ENOMEM : Z) (uv_rc : list levent → Z).
Context (app_close : Z → lid → M L unit) (app_alloc : Z → lid → Z → M L (option (list Z)))
  (app_read : Z → lid → Z → option (list Z) → M L unit) (malloc_ok : list levent → bool)
  (app_hs : Z → lid → tls_handshake_state → M L unit) (read_fuel : nat)
  (client : Z → option (lid → Z → option (list Z) → M L unit)).

Definition no_methods : uv_link_methods_t write_fn (tls_state Y) :=
  mkmethods (λ _, fail_with OutOfFuel) None (λ _ _ _ _, fail_with OutOfFuel) None None (λ _ _ _, fail_with OutOfFuel)
    None (Some (λ _ _, fail_with OutOfFuel)) (Some (λ _ _ _, fail_with OutOfFuel)).

Fixpoint link_table (fuel : nat) (k : kind) : uv_link_methods_t write_fn (tls_state Y) :=
  match fuel with
  | O => no_methods
  | S fuel =>
    let vt := link_table fuel in
    match k with
    | KSource => uv_link_source_methods UV_ENOMEM uv_rc app_close malloc_ok
    | KObserver => uv_link_observer_methods vt UV_ERRNO_MAX UV_EFAULT app_close app_alloc app_read malloc_ok
    | KTls => tls_methods vt UV_ERRNO_MAX UV_EFAULT UV_EOF UV_ENOBUFS UV_ECONNABORTED app_close app_alloc app_read
                malloc_ok app_hs read_fuel
    | KUser c =>
      match client c with
      | Some read => client_methods vt UV_ERRNO_MAX UV_EFAULT app_close
                       (uv_link_default_alloc_cb_override vt app_alloc malloc_ok) read
      | None => mbed_methods vt UV_ERRNO_MAX UV_EFAULT app_close app_alloc app_read malloc_ok
      end
    end
  end.
End Table.
