(* ===== verification/TlsLinkProofs.v ===== *)
(** * The TLS link: properties of TlsLink.v

    The client above the link is one that records what it is given; the engine is any
    engine for the reading side, and one with the laws [TlsEngineLaws] for the writing
    side. *)
From S2P Require Import Prelude UvLink UvLinkProofs TlsEngine TlsLink.
From stdpp Require Import base gmap numbers list.
From Stdlib Require Import ZArith Lia.
Open Scope Z_scope.

Section Guard.
Context {W X : Type} (vt : kind → uv_link_methods_t W X).
Implicit Types s : lstate W X.

(** A link that is not closing. *)
Definition steady (s : lstate W X) (t : lid) (kt : uv_link_s) : Prop :=
  links s !! t = Some kt ∧ close_depth kt = 0 ∧ pending_close_source kt = None.

(** Code that leaves the links alone leaves them alone when guarded, too. *)
Lemma guarded_steady {A} t kt (m : M (lstate W X) A) (Q : A → lstate W X → Prop) s : steady s t kt →
  wp m (λ a s2, links s2 = <[t := kt <| close_depth := 1 |>]> (links s) ∧ Q a (s2 <| links := links s |>))
    (s <| links := <[t := kt <| close_depth := 1 |>]> (links s) |>) →
  wp (guarded vt t m) Q s.
Proof.
  intros (Hk & Hd & Hp) Hm. unfold guarded. wp_simpl. eapply wp_link_modify; [exact Hk|]. cbn beta.
  rewrite Hd. change (i32 (0 + 1)) with 1. wp_simpl. eapply wp_mono; [exact Hm|]. intros a s2 [Hl HQ].
  assert (links s2 !! t = Some (kt <| close_depth := 1 |>)) as H2 by (rewrite Hl; apply lookup_insert_eq).
  wp_simpl. eapply wp_link_modify; [exact H2|]. cbn beta.
  set (kt2 := _ <| close_depth := _ |>). assert (kt2 = kt <| close_depth := 0 |>) as -> by done. wp_simpl.
  eapply wp_link_get; [apply lookup_insert_eq|].
  change (close_depth (kt <| close_depth := 0 |>) =? 0) with true.
  unfold when, uv_link_maybe_close. wp_simpl. eapply wp_link_get; [apply lookup_insert_eq|].
  change (pending_close_source (kt <| close_depth := 0 |>)) with (pending_close_source kt).
  rewrite Hp. wp_simpl.
  rewrite Hl, insert_insert_eq, insert_id; [done|]. rewrite Hk. f_equal. destruct kt; cbn in *; by subst.
Qed.

(** Starting to read from such a link. *)
Lemma read_start_wp UV_ERRNO_MAX UV_EFAULT t kt (Q : Z → lstate W X → Prop) s : steady s t kt →
  wp (m_read_start (vt (methods kt)) t) (λ r s2, links s2 = <[t := kt <| close_depth := 1 |>]> (links s) ∧
      Q (uv_link_error UV_ERRNO_MAX kt r) (s2 <| links := links s |>))
    (s <| links := <[t := kt <| close_depth := 1 |>]> (links s) |>) →
  wp (uv_link_read_start vt UV_ERRNO_MAX UV_EFAULT (Some t)) Q s.
Proof.
  intros Hs Hm. unfold uv_link_read_start, on_link, CLOSE_WRAP. wp_simpl. eapply guarded_steady; [exact Hs|]. wp_simpl.
  eapply wp_link_get; [rewrite links_get; apply lookup_insert_eq|]. change (methods (kt <| close_depth := 1 |>)) with (methods kt).
  eapply wp_mono; [exact Hm|]. intros r s2 [Hl HQ]. split; [done|]. destruct Hs as [Hk _].
  wp_simpl. eapply wp_link_get; [exact Hk|]. by wp_simpl.
Qed.

(** The same for a link that is already guarded. *)
Lemma guarded_nested {A} t kt (m : M (lstate W X) A) (Q : A → lstate W X → Prop) s :
  links s !! t = Some kt → 0 < close_depth kt < 1000 →
  wp m (λ a s2, links s2 = <[t := kt <| close_depth := close_depth kt + 1 |>]> (links s) ∧ Q a (s2 <| links := links s |>))
    (s <| links := <[t := kt <| close_depth := close_depth kt + 1 |>]> (links s) |>) →
  wp (guarded vt t m) Q s.
Proof.
  intros Hk Hd Hm. unfold guarded. wp_simpl. eapply wp_link_modify; [exact Hk|]. cbn beta.
  rewrite i32_small by lia. wp_simpl. eapply wp_mono; [exact Hm|]. intros a s2 [Hl HQ].
  assert (links s2 !! t = Some (kt <| close_depth := close_depth kt + 1 |>)) as H2 by (rewrite Hl; apply lookup_insert_eq).
  wp_simpl. eapply wp_link_modify; [exact H2|]. cbn beta.
  set (kt2 := _ <| close_depth := _ |>). assert (kt2 = kt) as ->.
  { unfold kt2. cbn. rewrite i32_small by lia. replace (close_depth kt + 1 - 1) with (close_depth kt) by lia. by destruct kt. }
  wp_simpl. eapply wp_link_get; [apply lookup_insert_eq|]. destruct (Z.eqb_spec (close_depth kt) 0); [lia|]. cbn [when]. wp_simpl.
  by rewrite Hl, insert_insert_eq, insert_id.
Qed.
End Guard.

Section TlsRead.
Context `{TlsEngine} {Y : Type}.
Abbreviation L := (lstate write_fn (tls_state Y)).
Context (vt : kind → uv_link_methods_t write_fn (tls_state Y)).
Context (UV_ERRNO_MAX UV_EFAULT UV_EOF UV_ENOBUFS UV_ECONNABORTED : Z).
Context (app_close : Z → lid → M L unit) (app_alloc : Z → lid → Z → M L (option (list Z)))
  (app_read : Z → lid → Z → option (list Z) → M L unit) (malloc_ok : list levent → bool)
  (app_hs : Z → lid → tls_handshake_state → M L unit) (fuel : nat).
Implicit Types s : L.

(** The client above the link: it records what it reads, and allocates what is asked. *)
Context (k : Z)
  (Hread : m_read_cb_override (vt (KUser k)) = Some (λ c n b, lemit (LRead k c n b)))
  (Halloc : m_alloc_cb_override (vt (KUser k)) = Some (λ c n, mret (Some (replicate (Z.to_nat n) 0)))).

Definition with_engine (e : Z) (x : engine_t) s : L :=
  s <| lrest := (lrest s) <| engines := <[e := x]> (engines (lrest s)) |> |>.

(** Link [l] is a TLS link with engine [e] in state [x] below the client's link [c]. *)
Record tls_over (s : L) (l c : lid) (e : Z) (t : tls_link_s) (x : engine_t) (kl kc : uv_link_s) : Prop := {
  to_link : links s !! l = Some kl;
  to_child : child kl = Some c;
  to_read : read_cb kl = Some (CbOf (KUser k));
  to_alloc : alloc_cb kl = Some (CbOf (KUser k));
  to_client : steady s c kc;
  to_apart : l ≠ c;
  to_tls : tls_links (lrest s) !! l = Some t;
  to_ptr : tl_engine t = Some e;
  to_engine : engines (lrest s) !! e = Some x;
}.

Lemma tls_over_log s l c e t x kl kc lg : tls_over s l c e t x kl kc → tls_over (s <| llog := lg |>) l c e t x kl kc.
Proof. intros []. by split. Qed.
Lemma tls_over_engine s l c e t x x' kl kc : tls_over s l c e t x kl kc → tls_over (with_engine e x' s) l c e t x' kl kc.
Proof. intros []. split; try done. cbn. apply lookup_insert_eq. Qed.

(** Operations on the engine of a link. *)
Lemma wp_engine_op {A} l t e x (op : engine_t → outcome (A * engine_t)) a x' (Q : A → L → Prop) s :
  tls_links (lrest s) !! l = Some t → tl_engine t = Some e → engines (lrest s) !! e = Some x →
  op x = Ret (a, x') → Q a (with_engine e x' s) → wp (on_engine l op) Q s.
Proof.
  intros Ht He Hx Hop HQ. unfold on_engine, engine_of, tls_get, engine_get, engine_put, set_rest. wp_simpl.
  rewrite Ht. wp_simpl. rewrite He. wp_simpl. rewrite Hx. wp_simpl. apply wp_liftO with (1 := Hop). by wp_simpl.
Qed.
Lemma wp_engine_st l t e x (Q : tls_handshake_state → L → Prop) s :
  tls_links (lrest s) !! l = Some t → tl_engine t = Some e → engines (lrest s) !! e = Some x →
  Q (e_handshake_state x) s → wp (engine_state l) Q s.
Proof.
  intros Ht He Hx HQ. unfold engine_state, engine_of, tls_get, engine_get. wp_simpl.
  rewrite Ht. wp_simpl. rewrite He. wp_simpl. rewrite Hx. by wp_simpl.
Qed.
Lemma wp_on_engine {A} l c e t x kl kc (op : engine_t → outcome (A * engine_t)) a x' (Q : A → L → Prop) s :
  tls_over s l c e t x kl kc → op x = Ret (a, x') → Q a (with_engine e x' s) → wp (on_engine l op) Q s.
Proof. intros []. by apply (wp_engine_op l t e x). Qed.
Lemma wp_engine_state l c e t x kl kc (Q : tls_handshake_state → L → Prop) s :
  tls_over s l c e t x kl kc → Q (e_handshake_state x) s → wp (engine_state l) Q s.
Proof. intros []. by apply (wp_engine_st l t e x). Qed.

(** Data and errors go to the client. *)
Lemma propagate_read_wp l c e t x kl kc n b (Q : unit → L → Prop) s : tls_over s l c e t x kl kc →
  Q tt (s <| llog := llog s ++ [LRead k c (if n <? 0 then uv_link_error UV_ERRNO_MAX kl (i32 n) else n) b] |>) →
  wp (uv_link_propagate_read_cb vt UV_ERRNO_MAX UV_EFAULT app_read l n b) Q s.
Proof.
  intros [] HQ. unfold uv_link_propagate_read_cb. wp_simpl. eapply wp_link_get; [done|]. rewrite to_child0. cbn [default].
  eapply guarded_steady; [done|]. wp_simpl.
  eapply wp_link_get; [rewrite links_get, lookup_insert_ne by done; done|]. rewrite to_read0. wp_simpl.
  cbn [call_read]. rewrite Hread. unfold lemit. wp_simpl. split; [done|]. by destruct s.
Qed.
Lemma propagate_alloc_wp l c e t x kl kc n (Q : option (list Z) → L → Prop) s : tls_over s l c e t x kl kc →
  Q (Some (replicate (Z.to_nat n) 0)) s → wp (uv_link_propagate_alloc_cb vt app_alloc malloc_ok l n) Q s.
Proof.
  intros [] HQ. unfold uv_link_propagate_alloc_cb. wp_simpl. eapply wp_link_get; [done|]. rewrite to_child0. cbn [default].
  eapply guarded_steady; [done|]. wp_simpl.
  eapply wp_link_get; [rewrite links_get, lookup_insert_ne by done; done|]. rewrite to_alloc0. wp_simpl.
  cbn [call_alloc]. rewrite Halloc. wp_simpl. split; [done|]. by destruct s.
Qed.

(** The engine, given [input] and buffers of [sz] bytes, produces the pieces [outs],
    announcing more after each but the last. *)
Inductive engine_reads (sz : Z) : engine_t → option (list Z) → list (list Z) → engine_t → Prop :=
  | er_last x input out x' : e_read x input sz = Ret (TLS_OK, out, x') → Z.of_nat (length out) ≤ sz →
      engine_reads sz x input [out] x'
  | er_more x input rc out x1 outs x' : rc = TLS_MORE_AVAILABLE ∨ rc = TLS_READ_AGAIN →
      e_read x input sz = Ret (rc, out, x1) → Z.of_nat (length out) ≤ sz →
      engine_reads sz x1 None outs x' → engine_reads sz x input (out :: outs) x'.

(** [ev] gives the client [c] the data [out]. *)
Definition gives (c : lid) (ev : levent) (out : list Z) : Prop :=
  ∃ mem, ev = LRead k c (Z.of_nat (length out)) (Some mem) ∧ take (length out) mem = out.

Lemma store_ok mem out : Z.of_nat (length out) ≤ Z.of_nat (length mem) →
  store mem out = Ret (out ++ drop (length out) mem).
Proof. intros. unfold store. by destruct (Z.leb_spec (Z.of_nat (length out)) (Z.of_nat (length mem))); [|lia]. Qed.

Lemma wp_store_out mem out (Q : list Z → L → Prop) s : Z.of_nat (length out) ≤ Z.of_nat (length mem) →
  Q (out ++ drop (length out) mem) s → wp (liftO (store mem out)) Q s.
Proof. intros Hl HQ. unfold liftO, wp. by rewrite store_ok. Qed.

Lemma give_log l c e t x kl kc out mem (Q : unit → L → Prop) s : tls_over s l c e t x kl kc →
  (∀ ev s', gives c ev out → s' = s <| llog := llog s ++ [ev] |> → tls_over s' l c e t x kl kc → Q tt s') →
  wp (uv_link_propagate_read_cb vt UV_ERRNO_MAX UV_EFAULT app_read l (Z.of_nat (length out))
        (Some (out ++ drop (length out) mem))) Q s.
Proof.
  intros Hs HQ. eapply propagate_read_wp; [exact Hs|].
  destruct (Z.ltb_spec (Z.of_nat (length out)) 0); [lia|]. eapply HQ; [|done|by apply tls_over_log].
  eexists. split; [done|]. by rewrite take_app_length.
Qed.

Lemma read_loop_spec sz x input outs x' : engine_reads sz x input outs x' → 0 < sz → ∀ n l c e t kl kc mem s,
  tls_over s l c e t x kl kc → (length outs ≤ n)%nat → Z.of_nat (length mem) = sz →
  wp (tls_read_loop vt UV_ERRNO_MAX UV_EFAULT UV_EOF UV_ENOBUFS UV_ECONNABORTED app_alloc app_read malloc_ok n l sz
        (Some mem) input)
    (λ _ s', ∃ evs, llog s' = llog s ++ evs ∧ Forall2 (gives c) evs outs ∧ tls_over s' l c e t x' kl kc ∧
       links s' = links s) s.
Proof.
  intros Hr Hsz. induction Hr as [x input out x' He Hlen|x input rc out x1 outs x' Hrc He Hlen Hr IH];
    intros n l c e t kl kc mem s Hs Hn Hmem; (destruct n as [|n]; [cbn in Hn; lia|]); cbn [tls_read_loop]; wp_simpl;
    (eapply wp_on_engine; [exact Hs|rewrite Hmem; exact He|]); wp_simpl; (apply wp_store_out; [lia|]); pose proof (λ y, tls_over_engine s l c e t x y kl kc Hs) as Hs1.
  - eapply give_log; [apply Hs1|]. intros ev s' Hev -> Hs'. exists [ev]. split_and!; [done|by constructor|done|done].
  - assert ((rc =? TLS_OK) = false ∧ (rc =? TLS_EOF) = false ∧
      ((rc =? TLS_READ_AGAIN) || (rc =? TLS_MORE_AVAILABLE)) = true) as (-> & -> & ->)
      by (destruct Hrc as [-> | ->]; done).
    wp_simpl. eapply give_log; [apply Hs1|]. intros ev s1 Hev -> Hs2. wp_simpl.
    eapply propagate_alloc_wp; [exact Hs2|]. destruct (Z.to_nat sz) as [|m] eqn:Hm; [lia|]. cbn [replicate].
    eapply wp_mono; [eapply IH; [exact Hs2|cbn in Hn; lia|]|].
    { cbn [length]. rewrite length_replicate. lia. }
    intros [] s' (evs & Hlog & Hevs & Hs' & Hlk). exists (ev :: evs). cbn in Hlog. rewrite Hlog, <-app_assoc.
    split_and!; [done|by constructor|done|]. by rewrite Hlk.
Qed.

Lemma tls_read_wp l c e t x kl kc mem nread outs x' s :
  tls_over s l c e t x kl kc → e_handshake_state x = TLS_HS_COMPLETE →
  0 ≤ nread → (0 < length mem)%nat → (length outs ≤ fuel)%nat →
  engine_reads (Z.of_nat (length mem)) x (Some (take (Z.to_nat nread) mem)) outs x' →
  wp (tls_read_cb vt UV_ERRNO_MAX UV_EFAULT UV_EOF UV_ENOBUFS UV_ECONNABORTED app_alloc app_read malloc_ok
        app_hs fuel l nread (Some mem))
    (λ _ s', ∃ evs, llog s' = llog s ++ evs ∧ Forall2 (gives c) evs outs ∧ tls_over s' l c e t x' kl kc ∧
       links s' = links s) s.
Proof.
  intros Hs Hst Hn Hm Hf Hr. unfold tls_read_cb. wp_simpl. eapply wp_engine_state; [exact Hs|].
  destruct (Z.ltb_spec nread 0); [lia|]. rewrite Hst. wp_simpl. eapply read_loop_spec; eauto. lia.
Qed.

(** Data that arrives over an established TLS connection reaches the client: the
    pieces the engine decrypts from it, all of them, once each and in order, each at
    the front of a buffer with its length; the loop ends when the engine has no more. *)
Theorem tls_read_delivers l c e t x kl kc mem nread outs x' s :
  tls_over s l c e t x kl kc → e_handshake_state x = TLS_HS_COMPLETE →
  0 ≤ nread → (0 < length mem)%nat → (length outs ≤ fuel)%nat →
  engine_reads (Z.of_nat (length mem)) x (Some (take (Z.to_nat nread) mem)) outs x' →
  ∃ s' evs, tls_read_cb vt UV_ERRNO_MAX UV_EFAULT UV_EOF UV_ENOBUFS UV_ECONNABORTED app_alloc app_read malloc_ok
              app_hs fuel l nread (Some mem) s = Ret (tt, s') ∧
    llog s' = llog s ++ evs ∧ Forall2 (gives c) evs outs ∧ engines (lrest s') !! e = Some x' ∧ links s' = links s.
Proof.
  intros Hs Hst Hn Hm Hf Hr.
  pose proof (tls_read_wp l c e t x kl kc mem nread outs x' s Hs Hst Hn Hm Hf Hr) as Hw.
  apply wp_run in Hw as ([] & s' & Hrun & evs & Hl & Hevs & [] & Hlk). exists s', evs. done.
Qed.

(** ** Writing *)

(** The source below the link, with its stream. *)
Record tls_on (s : L) (p : lid) (st : Z) (kl kp : uv_link_s) : Prop := {
  on_parent : parent kl = Some p;
  on_source : steady s p kp;
  on_kind : methods kp = KSource;
  on_stream : ∃ src, sources s !! p = Some src ∧ stream src = Some st;
}.

Context (UV_ENOMEM : Z) (uv_rc : list levent → Z) (Hmalloc : ∀ lg, malloc_ok lg = true)
  (Hwrite : m_write (vt KSource) = uv_link_source_write UV_ENOMEM uv_rc malloc_ok) (Hmax : UV_ERRNO_MAX < 0).

Lemma propagate_write_wp p st kl kp source bytes cb (Q : Z → L → Prop) s : tls_on s p st kl kp →
  uv_rc (llog s ++ [LWrite st bytes]) = 0 →
  Q 0 (s <| llog := llog s ++ [LWrite st bytes] |> <| writes := <[fresh (dom (writes s)) := (source, cb)]> (writes s) |>) →
  wp (uv_link_propagate_write vt UV_ERRNO_MAX UV_EFAULT (parent kl) source [bytes] cb) Q s.
Proof.
  intros [Hp Hs Hk (src & Hsrc & Hst)] Hrc HQ. rewrite Hp. unfold uv_link_propagate_write, on_link, CLOSE_WRAP. wp_simpl.
  eapply guarded_steady; [exact Hs|]. wp_simpl. eapply wp_link_get; [rewrite links_get; apply lookup_insert_eq|].
  change (methods (kp <| close_depth := 1 |>)) with (methods kp). rewrite Hk, Hwrite.
  unfold uv_link_source_write, the_stream, source_get, uv_call, lemit. wp_simpl. rewrite Hmalloc. cbn [negb].
  wp_simpl. change (sources (s <| links := _ |>)) with (sources s). rewrite Hsrc. wp_simpl. rewrite Hst. wp_simpl.
  cbn [concat app]. rewrite app_nil_r. change (llog (s <| links := _ |> <| llog := _ |>)) with (llog s ++ [LWrite st bytes]).
  rewrite Hrc. cbn [Z.eqb when]. wp_simpl. split; [done|].
  destruct Hs as [Hkp _]. eapply wp_link_get; [exact Hkp|]. cbn beta. unfold uv_link_error.
  destruct (Z.leb_spec UV_ERRNO_MAX 0); [|lia]. wp_simpl. by destruct s.
Qed.

(** When the engine has something to send while reading, what it decrypted in the same
    call is not given to the client. *)
Theorem has_write_drops_data l c p e st t x x1 x2 rc kl kp kc mem nread out ct s :
  tls_over s l c e t x kl kc → tls_on s p st kl kp → e_handshake_state x = TLS_HS_COMPLETE → 0 ≤ nread →
  e_read x (Some (take (Z.to_nat nread) mem)) (Z.of_nat (length mem)) = Ret (TLS_HAS_WRITE, out, x1) →
  Z.of_nat (length out) ≤ Z.of_nat (length mem) → e_write x1 None TLS_BUF_SZ = Ret (rc, ct, x2) → (0 < fuel)%nat →
  uv_rc (llog s ++ [LWrite st ct]) = 0 →
  ∃ s', tls_read_cb vt UV_ERRNO_MAX UV_EFAULT UV_EOF UV_ENOBUFS UV_ECONNABORTED app_alloc app_read malloc_ok
          app_hs fuel l nread (Some mem) s = Ret (tt, s') ∧ llog s' = llog s ++ [LWrite st ct].
Proof.
  intros Hs Hon Hst Hn He Hlen He2 Hf Hrc. destruct fuel as [|n]; [lia|].
  pose proof (tls_over_engine s l c e t x x1 kl kc Hs) as Hs1.
  assert (wp (tls_read_cb vt UV_ERRNO_MAX UV_EFAULT UV_EOF UV_ENOBUFS UV_ECONNABORTED app_alloc app_read malloc_ok
    app_hs (S n) l nread (Some mem)) (λ _ s', llog s' = llog s ++ [LWrite st ct]) s) as Hw.
  { unfold tls_read_cb. wp_simpl. eapply wp_engine_state; [exact Hs|]. destruct (Z.ltb_spec nread 0); [lia|].
    rewrite Hst. wp_simpl. cbn [tls_read_loop]. wp_simpl. eapply wp_on_engine; [exact Hs|exact He|]. wp_simpl.
    apply wp_store_out; [lia|]. cbn beta. change (TLS_HAS_WRITE =? TLS_OK) with false.
    change (TLS_HAS_WRITE =? TLS_EOF) with false. change (TLS_HAS_WRITE =? TLS_READ_AGAIN) with false.
    change (TLS_HAS_WRITE =? TLS_MORE_AVAILABLE) with false. change (TLS_HAS_WRITE =? TLS_HAS_WRITE) with true. cbn [orb].
    wp_simpl. eapply wp_on_engine; [exact Hs1|exact He2|]. wp_simpl. eapply wp_link_get; [apply Hs1|]. wp_simpl.
    eapply propagate_write_wp; [destruct Hon; by split|exact Hrc|]. by wp_simpl. }
  apply wp_run in Hw as ([] & s' & Hrun & ?). by exists s'.
Qed.

(** A write of no buffers runs [tls_write_cb] on the caller's argument. *)
Theorem empty_write_bad_cast l source cb s : tls_write vt UV_ERRNO_MAX UV_EFAULT l source [] cb s = Fault BadCast.
Proof. done. Qed.

(** ** The handshake *)

(** The value of the enum. *)
Definition hs_code (st : tls_handshake_state) : Z :=
  match st with TLS_HS_BEFORE => 0 | TLS_HS_CONTINUE => 1 | TLS_HS_COMPLETE => 2 | TLS_HS_ERROR => 3 end.
Context (Hhs : ∀ cb l st, app_hs cb l st = lemit (LHandshake l (hs_code st))).

(** What the client is told about the outcome of a handshake step. *)
Definition hs_report (l c : lid) (kl : uv_link_s) (st : tls_handshake_state) : list levent :=
  match st with
  | TLS_HS_COMPLETE => [LHandshake l 2]
  | TLS_HS_ERROR => [LHandshake l 3; LRead k c (uv_link_error UV_ERRNO_MAX kl (i32 UV_ECONNABORTED)) None]
  | _ => []
  end.

Lemma hs_report_wp l c e t x kl kc st s : tls_over s l c e t x kl kc → UV_ECONNABORTED < 0 →
  wp (match st with
      | TLS_HS_COMPLETE => t ← tls_get l; app_hs (hs_cb t) l TLS_HS_COMPLETE
      | TLS_HS_ERROR => t ← tls_get l; app_hs (hs_cb t) l st;;
          uv_link_propagate_read_cb vt UV_ERRNO_MAX UV_EFAULT app_read l UV_ECONNABORTED None
      | _ => mret tt
      end) (λ _ s', llog s' = llog s ++ hs_report l c kl st ∧ lrest s' = lrest s ∧ links s' = links s) s.
Proof.
  intros Hs Hneg. destruct st; cbn [hs_report]; wp_simpl; [by rewrite app_nil_r..| |]; unfold tls_get; wp_simpl;
    rewrite (to_tls _ _ _ _ _ _ _ _ Hs); wp_simpl; rewrite ?Hhs; unfold lemit; wp_simpl; [done|].
  eapply propagate_read_wp; [by apply tls_over_log|]. destruct (Z.ltb_spec UV_ECONNABORTED 0); [|lia].
  cbn. by rewrite <-app_assoc.
Qed.

(** a handshake step.  The bytes received go to the engine; what the engine answers
    goes to the peer, if anything; the client is told when the handshake is complete,
    and when it failed (then its connection is reported aborted, too), and otherwise
    nothing. *)
Theorem tls_handshake_step l c p e st t x x' kl kp kc mem nread hs out s :
  tls_over s l c e t x kl kc → tls_on s p st kl kp → e_handshake_state x = TLS_HS_CONTINUE →
  0 < nread → UV_ECONNABORTED < 0 →
  e_handshake x (Some (take (Z.to_nat nread) mem)) TLS_BUF_SZ = Ret (hs, out, x') →
  uv_rc (llog s ++ [LWrite st out]) = 0 →
  ∃ s', tls_read_cb vt UV_ERRNO_MAX UV_EFAULT UV_EOF UV_ENOBUFS UV_ECONNABORTED app_alloc app_read malloc_ok
          app_hs fuel l nread (Some mem) s = Ret (tt, s') ∧
    llog s' = llog s ++ match out with [] => [] | _ => [LWrite st out] end ++ hs_report l c kl hs ∧
    engines (lrest s') !! e = Some x' ∧ links s' = links s.
Proof.
  intros Hs Hon Hst Hn Hneg He Hrc.
  pose proof (tls_over_engine s l c e t x x' kl kc Hs) as Hs1.
  assert (wp (tls_read_cb vt UV_ERRNO_MAX UV_EFAULT UV_EOF UV_ENOBUFS UV_ECONNABORTED app_alloc app_read malloc_ok
    app_hs fuel l nread (Some mem)) (λ _ s', llog s' = llog s ++ match out with [] => [] | _ => [LWrite st out] end ++ hs_report l c kl hs ∧
      engines (lrest s') !! e = Some x' ∧ links s' = links s) s) as Hw.
  { unfold tls_read_cb. wp_simpl. eapply wp_engine_state; [exact Hs|]. destruct (Z.ltb_spec nread 0); [lia|]. rewrite Hst.
    destruct (Z.eqb_spec nread 0); [lia|]. unfold tls_continue. wp_simpl.
    eapply wp_on_engine; [exact Hs|exact He|]. wp_simpl. destruct out as [|b out].
    - change (0 <? Z.of_nat (length (@nil Z))) with false. cbn [when]. wp_simpl. eapply wp_mono; [by apply (hs_report_wp l c e t x' kl kc)|].
      intros [] s' (Hl & Hr & Hk). rewrite Hl, Hr, Hk. cbn. rewrite lookup_insert_eq. done.
    - change (0 <? Z.of_nat (length (b :: out))) with true. cbn [when]. wp_simpl. eapply wp_link_get; [apply Hs1|].
      wp_simpl. eapply propagate_write_wp; [destruct Hon; by split|exact Hrc|]. cbn [Z.eqb negb when]. wp_simpl.
      eapply wp_mono; [apply (hs_report_wp l c e t x' kl kc); [destruct Hs1; by split|done]|].
      intros [] s' (Hl & Hr & Hk). rewrite Hl, Hr, Hk. cbn. rewrite lookup_insert_eq, <-app_assoc. done. }
  apply wp_run in Hw as ([] & s' & Hrun & ?). by exists s'.
Qed.

Context `{!TlsEngineLaws}.

(** The engine accepts the buffers one after the other. *)
Inductive engine_wraps : engine_t → list (list Z) → engine_t → Prop :=
  | ew_nil x : engine_wraps x [] x
  | ew_cons x b rc out x1 bufs x' : e_write x (Some b) 0 = Ret (rc, out, x1) → 0 ≤ rc →
      engine_wraps x1 bufs x' → engine_wraps x (b :: bufs) x'.

Lemma wrap_bufs_spec x bufs x' : engine_wraps x bufs x' → engine_ok x → ∀ rc l c e t kl kc s, tls_over s l c e t x kl kc →
  wp (wrap_bufs l bufs rc) (λ rc' s', ∃ lr, s' = s <| lrest := lr |> ∧ tls_over s' l c e t x' kl kc ∧ engine_ok x' ∧
    rc' = match bufs with [] => rc | _ => i32 (Z.of_nat (length (pending x'))) end) s.
Proof.
  induction 1 as [x|x b rc1 out x1 bufs x' He Hrc Hw IH]; intros Hok rc l c e t kl kc s Hs; cbn [wrap_bufs]; wp_simpl.
  - exists (lrest s). split; [by destruct s|]. done.
  - eapply wp_on_engine; [exact Hs|exact He|]. cbn beta iota. destruct (Z.ltb_spec rc1 0); [lia|].
    pose proof (tls_over_engine s l c e t x x1 kl kc Hs) as Hs1. destruct (e_write_wraps _ _ _ _ _ Hok He) as [Hok1 Hlaw].
    eapply wp_mono; [by apply (IH Hok1 rc1)|]. intros rc' s' (lr & -> & Hs' & Hok' & ->). exists lr. split_and!; try done.
    destruct bufs; [|done]. inversion Hw; subst. destruct Hlaw as [?|(_ & -> & _)]; [lia|done].
Qed.

(** A client that notes the end of its writes. *)
Definition note_write (cb : Z) (l : option lid) (st : Z) : M L unit := lemit (LWriteCb l cb st).

(** libuv completes a write of the link. *)
Lemma write_completes req status l c kl cb s : links s !! l = Some kl → child kl = Some c →
  writes s !! req = Some (l, WTls (WUser cb)) →
  wp (uv_link_source_wrap_write_cb (run_write_fn note_write) req status) (λ _ s2,
    llog s2 = llog s ++ [LWriteCb (Some c) cb status] ∧ writes s2 = delete req (writes s)) s.
Proof.
  intros Hl Hc Hw. unfold uv_link_source_wrap_write_cb. wp_simpl. rewrite Hw. wp_simpl. cbn [run_write_fn]. unfold tls_write_cb, note_write. wp_simpl.
  eapply wp_link_get; [exact Hl|]. rewrite Hc. unfold lemit. by wp_simpl.
Qed.

Lemma tls_write_wp l c p e st t x x1 kl kp kc bufs cb s :
  tls_over s l c e t x kl kc → tls_on s p st kl kp → bufs ≠ [] → engine_ok x → engine_wraps x bufs x1 →
  pending x1 ≠ [] → Z.of_nat (length (pending x1)) < 2147483648 →
  uv_rc (llog s ++ [LWrite st (pending x1)]) = 0 →
  ∃ x2, pending x2 = [] ∧ wp (tls_write vt UV_ERRNO_MAX UV_EFAULT l c bufs (WUser cb)) (λ rc s', rc = 0 ∧
    llog s' = llog s ++ [LWrite st (pending x1)] ∧ engines (lrest s') !! e = Some x2 ∧
    links s' = links s ∧ writes s' = <[fresh (dom (writes s)) := (l, WTls (WUser cb))]> (writes s)) s.
Proof.
  intros Hs Hon Hne Hok Hw Hp Hlen Hrc. set (n := length (pending x1)) in *.
  assert (0 < Z.of_nat n) by (unfold n; destruct (pending x1); [done|cbn [length]; lia]).
  assert (engine_ok x1) as Hok1 by (clear -Hw Hok; induction Hw; [done|]; by eapply IHHw, e_write_wraps).
  destruct (e_write_drains x1 (Z.of_nat n) Hok1 ltac:(lia) ltac:(lia)) as (rc & out & x2 & He2 & _ & Hout & Hpend & Hrc2).
  rewrite Nat2Z.id in Hout, Hpend. unfold n in Hout, Hpend. rewrite firstn_all in Hout. rewrite drop_all in Hpend.
  rewrite Hpend in Hrc2. cbn in Hrc2. subst out rc. exists x2. split; [done|].
  unfold tls_write. wp_simpl. eapply wp_mono; [by apply (wrap_bufs_spec _ _ _ Hw Hok 0)|].
  intros rc s1 (lr & -> & Hs1 & _ & ->). destruct bufs as [|b bufs]; [done|]. fold n. rewrite i32_small by lia.
  destruct (Z.ltb_spec (Z.of_nat n) 0); [lia|]. destruct (Z.eqb_spec (Z.of_nat n) 0); [lia|]. wp_simpl.
  eapply wp_on_engine; [exact Hs1|exact He2|]. cbn beta iota. change (i32 (Z.of_nat 0) <? 0) with false. wp_simpl.
  eapply wp_link_get; [apply Hs1|]. eapply propagate_write_wp; [|exact Hrc|].
  - destruct Hon. by split.
  - split; [done|]. split; [done|]. split; [cbn; apply lookup_insert_eq|]. done.
Qed.

(** C10: what a client writes over an established connection goes to the source as one
    write of all the ciphertext the engine has, in order, and nothing stays behind;
    when the write completes the client's callback is called, once, with its status. *)
Theorem tls_write_sends l c p e st t x x1 kl kp kc bufs cb s :
  tls_over s l c e t x kl kc → tls_on s p st kl kp → bufs ≠ [] → engine_ok x → engine_wraps x bufs x1 →
  pending x1 ≠ [] → Z.of_nat (length (pending x1)) < 2147483648 →
  uv_rc (llog s ++ [LWrite st (pending x1)]) = 0 →
  ∃ s' req x2, tls_write vt UV_ERRNO_MAX UV_EFAULT l c bufs (WUser cb) s = Ret (0, s') ∧
    llog s' = llog s ++ [LWrite st (pending x1)] ∧ engines (lrest s') !! e = Some x2 ∧ pending x2 = [] ∧
    writes s !! req = None ∧
    ∀ status, ∃ s2, uv_link_source_wrap_write_cb (run_write_fn note_write) req status s' = Ret (tt, s2) ∧
      llog s2 = llog s' ++ [LWriteCb (Some c) cb status] ∧ writes s2 = writes s.
Proof.
  intros Hs Hon Hne Hok Hw Hp Hlen Hrc. set (req := fresh (dom (writes s))).
  assert (writes s !! req = None) as Hreq by (apply not_elem_of_dom, is_fresh).
  destruct (tls_write_wp l c p e st t x x1 kl kp kc bufs cb s) as (x2 & Hx2 & Hrun); [done..|].
  apply wp_run in Hrun as (rc & s' & Hrun & -> & Hlog & Hen & Hlk & Hwr).
  exists s', req, x2. split_and!; try done. intros status.
  pose proof (write_completes req status l c kl cb s') as Hc. rewrite Hlk, Hwr, lookup_insert_eq in Hc.
  apply wp_run in Hc as ([] & s2 & Hrun2 & Hlog2 & Hwr2); [|apply Hs|apply Hs|done].
  exists s2. split_and!; [done|done|]. rewrite Hwr2. by apply delete_insert_id.
Qed.
End TlsRead.

(** ** Witnesses: an engine that adds no protection *)

(** Links with any engine: a client that records what it reads, the TLS link, a source. *)
Module ToyLink.
Section WithEngine.
Context {E : TlsEngine}.
Definition st : Type := lstate write_fn (tls_state unit).
Definition app_hs (cb : Z) (l : lid) (h : tls_handshake_state) : M st unit := lemit (LHandshake l (hs_code h)).
Definition app_alloc (cb : Z) (l : lid) (n : Z) : M st (option (list Z)) := mret None.
Definition app_read (cb : Z) (l : lid) (n : Z) (b : option (list Z)) : M st unit := mret tt.
Definition app_close (cb : Z) (l : lid) : M st unit := lemit (LClosed cb l).
Definition client : uv_link_methods_t write_fn (tls_state unit) :=
  mkmethods (λ _, mret 0) None (λ _ _ _ _, mret 0) None None (λ _ _ _, mret tt) None
    (Some (λ c n, mret (Some (replicate (Z.to_nat n) 0)))) (Some (λ c n b, lemit (LRead 5 c n b))).
Definition vt (k : kind) : uv_link_methods_t write_fn (tls_state unit) :=
  match k with
  | KUser _ => client
  | k => link_table (-4096) (-14) (-4095) (-105) (-103) (-12) (λ _, 0) app_close app_alloc app_read (λ _, true)
           app_hs 10 (λ _, None) 3 k
  end.
(** Stream 9 under source 1, TLS link 2 with engine 4, client 3. *)
Definition build : M st Z :=
  uv_link_source_init 1 9;; tlsuv_tls_link_init 2 (Some 4) 0;; uv_link_init 3 (KUser 5);;
  uv_link_chain vt (-22) 1 2;; uv_link_chain vt (-22) 2 3.
Definition empty (x : engine_t) : st := mkl ∅ ∅ ∅ {[ 9 := mkstream None false ]} ∅ ∅ [] (mkts {[ 4 := x ]} ∅ tt).
Definition built (x : engine_t) : st := match build (empty x) with Ret (_, s) => s | Fault _ => empty x end.
Definition link_of (s : st) (l : lid) : uv_link_s := default (mklink None None None None KTls None None 0 0 0 None None) (links s !! l).

Lemma built_over x : tls_over 5 (built x) 2 3 4 (mktls (Some 4) 0) x (link_of (built x) 2) (link_of (built x) 3).
Proof. split; try reflexivity; [split_and!; reflexivity|discriminate]. Qed.
Lemma built_on x : tls_on (built x) 1 9 (link_of (built x) 2) (link_of (built x) 1).
Proof. split; try reflexivity; [split_and!; reflexivity|eexists; split; reflexivity]. Qed.
End WithEngine.
End ToyLink.

Module ToyTls.
(** Handshake state, bytes received, bytes to send. *)
Record eng := mkeng { hs : tls_handshake_state; inbox : list Z; outbox : list Z }.
#[export] Instance engine : TlsEngine := {|
  engine_t := eng;
  e_handshake_state := hs;
  e_handshake := λ x d max,
    match d with
    | None => Ret (TLS_HS_CONTINUE, [22; 1], mkeng TLS_HS_CONTINUE (inbox x) (outbox x))
    | Some _ => Ret (TLS_HS_COMPLETE, [22; 2], mkeng TLS_HS_COMPLETE (inbox x) (outbox x))
    end;
  e_write := λ x d max,
    match d with
    | Some d => Ret (i32 (Z.of_nat (length (outbox x ++ d))), [], mkeng (hs x) (inbox x) (outbox x ++ d))
    | None => let rest := drop (Z.to_nat max) (outbox x) in
              Ret (i32 (Z.of_nat (length rest)), take (Z.to_nat max) (outbox x), mkeng (hs x) (inbox x) rest)
    end;
  e_read := λ x d max,
    let all := inbox x ++ default [] d in
    let rest := drop (Z.to_nat max) all in
    Ret (match rest with [] => TLS_OK | _ => TLS_MORE_AVAILABLE end, take (Z.to_nat max) all, mkeng (hs x) rest (outbox x));
  e_reset := Some (λ x, mkeng TLS_HS_BEFORE [] []);
|}.
#[export] Instance laws : TlsEngineLaws.
Proof.
  refine {| pending := outbox : @engine_t engine → list Z; engine_ok := λ _, True |}.
  - intros x d rc out x' _ [= <- <- <-]. split; [exact I|]. right. split; [reflexivity|]. split; [reflexivity|]. exists d. reflexivity.
  - intros x n _ Hn _. eexists _, _, _. split; [reflexivity|]. split_and!; done.
Defined.
End ToyTls.
Import ToyLink ToyTls.

Lemma tls_read_delivers_witness : ∃ s' evs,
  tls_read_cb vt (-4096) (-14) (-4095) (-105) (-103) app_alloc app_read (λ _, true) app_hs 10 2 5 (Some [1; 2; 3; 4; 5])
    (@built engine (mkeng TLS_HS_COMPLETE [9; 9] [])) = Ret (tt, s') ∧
  llog s' = evs ∧ Forall2 (gives 5 3) evs [[9; 9; 1; 2; 3]; [4; 5]] ∧
  engines (lrest s') !! 4 = Some (mkeng TLS_HS_COMPLETE [] []) ∧ links s' = links (@built engine (mkeng TLS_HS_COMPLETE [9; 9] [])).
Proof.
  eapply (tls_read_delivers (@vt engine) (-4096) (-14) (-4095) (-105) (-103) app_alloc app_read (λ _, true) app_hs 10 5 eq_refl eq_refl
    2 3 4 _ _ _ _ [1; 2; 3; 4; 5] 5 _ _ _ (@built_over engine (mkeng TLS_HS_COMPLETE [9; 9] []))); [reflexivity|lia|cbn; lia|cbn; lia|].
  eapply er_more; [left; reflexivity|reflexivity|cbn; lia|]. apply er_last; [reflexivity|cbn; lia].
Defined.

Lemma tls_write_sends_witness : ∃ s' req x2,
  tls_write vt (-4096) (-14) 2 3 [[1; 2]; [3]] (WUser 8) (@built engine (mkeng TLS_HS_COMPLETE [] [])) = Ret (0, s') ∧
  llog s' = [LWrite 9 [1; 2; 3]] ∧ engines (lrest s') !! 4 = Some x2 ∧ pending x2 = [] ∧
  writes (@built engine (mkeng TLS_HS_COMPLETE [] [])) !! req = None ∧
  ∀ status, ∃ s2, uv_link_source_wrap_write_cb (run_write_fn note_write) req status s' = Ret (tt, s2) ∧
    llog s2 = llog s' ++ [LWriteCb (Some 3) 8 status] ∧ writes s2 = writes (@built engine (mkeng TLS_HS_COMPLETE [] [])).
Proof.
  assert (engine_wraps (mkeng TLS_HS_COMPLETE [] []) [[1; 2]; [3]] (mkeng TLS_HS_COMPLETE [] [1; 2; 3])) as Hw
    by (eapply ew_cons; [reflexivity|vm_compute; discriminate|]; eapply ew_cons; [reflexivity|vm_compute; discriminate|]; apply ew_nil).
  destruct (tls_write_sends (@vt engine) (-4096) (-14) (λ _, true) 5 (-12) (λ _, 0) (λ _, eq_refl) eq_refl ltac:(lia)
    2 3 1 4 9 _ _ (mkeng TLS_HS_COMPLETE [] [1; 2; 3] : @engine_t engine) _ _ _ [[1; 2]; [3]] 8 (@built engine (mkeng TLS_HS_COMPLETE [] []))
    (built_over _) (built_on _)) as (s' & req & x2 & H1 & H2 & H3); [discriminate|exact I|exact Hw|discriminate|cbn; lia|reflexivity|].
  exists s', req, x2. split; [exact H1|]. split; [exact H2|]. exact H3.
Defined.

Lemma tls_handshake_step_witness : ∃ s',
  tls_read_cb vt (-4096) (-14) (-4095) (-105) (-103) app_alloc app_read (λ _, true) app_hs 10 2 2 (Some [7; 7])
    (@built engine (mkeng TLS_HS_CONTINUE [] [])) = Ret (tt, s') ∧
  llog s' = [LWrite 9 [22; 2]; LHandshake 2 2] ∧ engines (lrest s') !! 4 = Some (mkeng TLS_HS_COMPLETE [] []) ∧
  links s' = links (@built engine (mkeng TLS_HS_CONTINUE [] [])).
Proof.
  eapply (tls_handshake_step (@vt engine) (-4096) (-14) (-4095) (-105) (-103) app_alloc app_read (λ _, true) app_hs 10 5 eq_refl
    (-12) (λ _, 0) (λ _, eq_refl) eq_refl ltac:(lia) (λ _ _ _, eq_refl)
    2 3 1 4 9 _ _ (mkeng TLS_HS_COMPLETE [] [] : @engine_t engine) _ _ _ [7; 7] 2 TLS_HS_COMPLETE [22; 2] (@built engine (mkeng TLS_HS_CONTINUE [] []))
    (built_over _) (built_on _)); [reflexivity|lia|lia|reflexivity|reflexivity].
Defined.
