(* ===== verification/TlsEndToEnd.v ===== *)
(** * Data over a TLS connection, from client to client (src/tls_link.c over two engines)

    Two TLS links with engines of their own, at the two ends of a connection.  What one client
    writes is sent by its link; the network brings it to the other link in pieces of any size; and
    the other client reads what was written.  The theorems of the two directions of the link and
    the laws of the engines are put together here, for any engines; the engines may differ. *)
From S2P Require Import Prelude Bio TlsEngine UvLink SslIo MbedEngine OpenSslEngine TlsLink TlsLinkProofs.
From stdpp Require Import base list gmap numbers.
From Stdlib Require Import ZArith Lia.
Open Scope Z_scope.

(** The other end of a connection: [expects y bytes] holds while the handshake is complete and the
    peer, which neither ends the connection nor breaks the protocol, is going to send [bytes]. *)
Class TlsPeer `{TlsReadLaws} := {
  expects : engine_t → list Z → Prop;
  expects_state : ∀ y bytes, expects y bytes → e_handshake_state y = TLS_HS_COMPLETE;
  expects_read : ∀ y inp more n rc out y', reader_ok y → 0 < n → Z.of_nat (length (default [] inp)) < 2147483648 →
    expects y (default [] inp ++ more) → e_read y inp n = Ret (rc, out, y') → (rc = TLS_OK ∨ rc = TLS_MORE_AVAILABLE) ∧ expects y' more;
}.

(** ** The two engines

    What the engines rely on of their libraries for it. *)

Class OpenSslPeer `{OpenSslLaws} := {
  ossl_expects : SSL → list Z → Prop;
  ossl_expects_open s bytes : ossl_expects s bytes → SSL_get_state s = TLS_ST_OK ∧ SSL_get_shutdown s = 0;
  ossl_expects_clear s bytes : ossl_expects s bytes → ossl_expects (ERR_clear_error s) bytes;
  (* such a read has nothing to answer, and stops only where bytes are missing *)
  ossl_expects_read s n c o more rc out s' c' o' : 0 < n → ossl_expects s (c ++ more) →
    run_ssl BIO_EMPTY (SSL_read_ex s n) c o = Ret (rc, out, s', c', o') →
    ossl_expects s' (c' ++ more) ∧ o' = o ∧ (rc = 0 → SSL_get_error s' 0 = SSL_ERROR_WANT_READ);
}.
Class MbedTlsPeer `{MbedTlsLaws} := {
  mbed_expects : ssl_t → list Z → Prop;
  mbed_expects_open s bytes : mbed_expects s bytes → ssl_state s = MBEDTLS_SSL_HANDSHAKE_OVER;
  close_notify_neg : MBEDTLS_ERR_SSL_PEER_CLOSE_NOTIFY < 0;
  mbed_expects_read s n c o more rc out s' c' o' : 0 < n → mbed_expects s (c ++ more) →
    run_ssl MBEDTLS_ERR_SSL_WANT_READ (mbedtls_ssl_read s n) c o = Ret (rc, out, s', c', o') →
    mbed_expects s' (c' ++ more) ∧ o' = o ∧ (rc ≤ 0 → rc = MBEDTLS_ERR_SSL_WANT_READ);
}.

Section Peers.
Context {B : Type} `{!ByteFifo B}.

Section OpenSsl.
Context `{OpenSslPeer}.
Implicit Types e : openssl_engine B.

Definition ossl_engine_expects e (bytes : list Z) : Prop :=
  ossl_expects (o_ssl e) (fifo_content (o_in e) ++ bytes) ∧ ossl_pending e = [].

Lemma ossl_loop_expects more fuel room acc e err out e' : 0 ≤ room → ossl_ok e → ossl_engine_expects e more →
  ossl_read_loop fuel room acc e = Ret (err, out, e') →
  ossl_ok e' ∧ ossl_engine_expects e' more ∧ (err = SSL_ERROR_NONE ∨ err = SSL_ERROR_WANT_READ).
Proof.
  revert room acc e. induction fuel as [|fuel IH]; intros room acc e Hr Hok [Hex Hp]; cbn [ossl_read_loop];
    destruct (Z.eqb_spec room 0); try done; try (intros [= <- <- <-]; split_and!; try done; by left).
  destruct (call_openssl_ok (SSL_read_ex (o_ssl e) room) id e (ossl_read_io _ _) Hok) as (rc & o & s' & e1 & -> & Hok1 & Hssl & Hrun & _ & _ & HP).
  assert (0 < room) as Hr0 by lia. destruct (ossl_expects_read _ _ _ _ more _ _ _ _ _ Hr0 Hex Hrun) as (Hex1 & Hp1 & Hz).
  specialize (HP _ (ossl_read_rc (o_ssl e) room ltac:(lia))). cbn beta in HP. cbn [mbind outcome_bind id] in *.
  assert (ossl_engine_expects e1 more) as He1 by (split; [by rewrite Hssl|by rewrite Hp1]).
  destruct (Z.eqb_spec rc 0) as [->|]; [intros [= <- <- <-]; split_and!; try done; right; rewrite Hssl; by apply Hz|].
  apply IH; [lia|done|done].
Qed.
Lemma ossl_engine_expects_read e inp more n rc out e' : ossl_ok e → 0 < n → Z.of_nat (length (default [] inp)) < 2147483648 →
  ossl_engine_expects e (default [] inp ++ more) → OpenSslEngine.tls_read e inp n = Ret (rc, out, e') →
  (rc = TLS_OK ∨ rc = TLS_MORE_AVAILABLE) ∧ ossl_engine_expects e' more.
Proof.
  intros Hok Hn Hl [Hex Hp]. unfold OpenSslEngine.tls_read. destruct (give_in_ok inp e Hok Hl) as (Hok1 & Hssl & Hin).
  assert (ossl_engine_expects (clear_error (give_in inp e)) more) as He1.
  { split; [|by destruct inp as [[|]|]]. cbn. apply ossl_expects_clear. by rewrite Hssl, Hin, <-app_assoc. }
  destruct (ossl_read_loop _ _ _ _) as [[[err o] e1]|] eqn:Hrun; [|done]. cbn [mbind outcome_bind].
  destruct (ossl_loop_expects more _ _ _ (clear_error (give_in inp e)) _ _ _ (Z.lt_le_incl _ _ Hn) Hok1 He1 Hrun) as ([Hi Ho] & He & Herr).
  assert ((0 <? fifo_available (o_out e1)) = false) as ->.
  { rewrite fifo_available_spec by done. destruct He as [_ Hnil]. unfold ossl_pending in Hnil. by rewrite Hnil. }
  destruct (ossl_expects_open _ _ (proj1 He)) as [_ ->]. cbn [Z.eqb negb].
  destruct (Z.eqb_spec err SSL_ERROR_WANT_READ); [intros [= <- <- <-]; auto|]. destruct (Z.eqb_spec err SSL_ERROR_NONE); [|by destruct Herr].
  cbn [negb]. destruct (_ || _); intros [= <- <- <-]; auto.
Qed.
#[export] Instance openssl_peer : @TlsPeer OpenSslEngine ossl_read_laws.
Proof.
  refine {| expects := ossl_engine_expects : @engine_t OpenSslEngine → list Z → Prop |}.
  - intros e bytes [He _]. cbn. unfold tls_hs_state. destruct (ossl_expects_open _ _ He) as [-> _]. by rewrite Z.eqb_refl.
  - exact ossl_engine_expects_read.
Defined.
End OpenSsl.

Section MbedTls.
Context `{MbedTlsPeer}.
Implicit Types e : mbedtls_engine B.

Definition mbed_engine_expects e (bytes : list Z) : Prop :=
  mbed_expects (ssl e) (fifo_content (e_in e) ++ bytes) ∧ mbed_pending e = [].

Lemma mbed_loop_expects more fuel room acc e rc out e' : 0 < room → mbed_ok e → mbed_engine_expects e more →
  mbed_read_loop fuel room acc e = Ret (rc, out, e') →
  mbed_ok e' ∧ mbed_engine_expects e' more ∧ (rc ≤ 0 → rc = MBEDTLS_ERR_SSL_WANT_READ).
Proof.
  revert room acc e. induction fuel as [|fuel IH]; intros room acc e Hr Hok [Hex Hp]; cbn [mbed_read_loop]; [done|].
  destruct (call_ssl_content (mbedtls_ssl_read (ssl e) room) e (read_io _ _) Hok) as (rc1 & o & e1 & -> & Hok1 & Hrun).
  destruct (mbed_expects_read _ _ _ _ more _ _ _ _ _ Hr Hex Hrun) as (Hex1 & Hp1 & Hz). cbn [mbind outcome_bind].
  assert (mbed_engine_expects e1 more) as He1 by (split; [done|by rewrite Hp1]).
  destruct (Z.ltb_spec 0 rc1); [destruct (Z.ltb_spec 0 (room - rc1)); [by apply IH|]|]; intros [= <- <- <-]; split_and!; try done; lia.
Qed.
Lemma mbed_engine_expects_read e inp more n rc out e' : mbed_ok e → 0 < n → Z.of_nat (length (default [] inp)) < 2147483648 →
  mbed_engine_expects e (default [] inp ++ more) → mbedtls_read e inp n = Ret (rc, out, e') →
  (rc = TLS_OK ∨ rc = TLS_MORE_AVAILABLE) ∧ mbed_engine_expects e' more.
Proof.
  intros Hok Hn Hl [Hex Hp]. unfold mbedtls_read. destruct (mbed_put_ok inp e Hok ltac:(lia)) as (Hok1 & Hssl & Hin).
  assert (mbed_engine_expects (put_in inp e) more) as He1.
  { split; [by rewrite Hssl, Hin, <-app_assoc|by destruct inp as [[|]|]]. }
  destruct (mbed_read_loop _ _ _ _) as [[[rc1 o] e1]|] eqn:Hrun; [|done]. cbn [mbind outcome_bind].
  destruct (mbed_loop_expects more _ _ _ _ _ _ _ Hn Hok1 He1 Hrun) as ([Hi Ho] & He & Hrc).
  assert ((0 <? fifo_available (e_out e1)) = false) as ->.
  { rewrite fifo_available_spec by done. destruct He as [_ Hnil]. unfold mbed_pending in Hnil. by rewrite Hnil. }
  destruct (Z.eqb_spec rc1 MBEDTLS_ERR_SSL_WANT_READ); [intros [= <- <- <-]; auto|].
  destruct (Z.eqb_spec rc1 MBEDTLS_ERR_SSL_PEER_CLOSE_NOTIFY) as [Hcl|]; [|destruct (Z.ltb_spec rc1 0); [lia|]; destruct (_ || _); intros [= <- <- <-]; auto].
  pose proof close_notify_neg. lia.
Qed.
#[export] Instance mbedtls_peer : @TlsPeer MbedTlsEngine mbed_read_laws.
Proof.
  refine {| expects := mbed_engine_expects : @engine_t MbedTlsEngine → list Z → Prop |}.
  - intros e bytes [He _]. cbn. unfold mbedtls_hs_state. rewrite (mbed_expects_open _ _ He). by rewrite Z.eqb_refl.
  - exact mbed_engine_expects_read.
Defined.
End MbedTls.
End Peers.

(** ** Reading *)

Section Reader.
Context `{TlsPeer} {Y : Type}.
Abbreviation L := (lstate write_fn (tls_state Y)).
Context (vt : kind → uv_link_methods_t write_fn (tls_state Y)).
Context (UV_ERRNO_MAX UV_EFAULT UV_EOF UV_ENOBUFS UV_ECONNABORTED : Z).
Context (app_alloc : Z → lid → Z → M L (option (list Z)))
  (app_read : Z → lid → Z → option (list Z) → M L unit) (malloc_ok : list levent → bool)
  (app_hs : Z → lid → tls_handshake_state → M L unit) (fuel : nat).
Implicit Types s : L.

(** The network: [nread] bytes at the front of a buffer, again and again. *)
Fixpoint link_reads (l : lid) (reads : list (Z * list Z)) : M L unit :=
  match reads with
  | [] => mret tt
  | (nread, mem) :: reads =>
    tls_read_cb vt UV_ERRNO_MAX UV_EFAULT UV_EOF UV_ENOBUFS UV_ECONNABORTED app_alloc app_read malloc_ok app_hs fuel
      l nread (Some mem);;
    link_reads l reads
  end.
Definition read_ok (r : Z * list Z) : Prop := 0 ≤ r.1 ≤ Z.of_nat (length r.2) ∧ 0 < Z.of_nat (length r.2) < 2147483648.
Definition read_bytes (r : Z * list Z) : list Z := take (Z.to_nat r.1) r.2.
Definition arrived (reads : list (Z * list Z)) : list Z := concat (map read_bytes reads).

(** What the engine makes of one piece. *)
Record engine_took (y : engine_t) (inp : list Z) (more : list Z) (outs : list (list Z)) (y' : engine_t) : Prop := {
  et_plain : plain y (inp ++ more) = concat outs ++ plain y' more;
  et_rest : plain y' [] = [];
  et_ok : reader_ok y';
  et_expects : expects y' more;
  et_waiting : 0 ≤ waiting y' ≤ waiting y + Z.of_nat (length inp);
}.
Lemma engine_takes n m : ∀ y inp more, reader_ok y → expects y (default [] inp ++ more) → 0 < n < 2147483648 →
  Z.of_nat (length (default [] inp)) < 2147483648 → waiting y + Z.of_nat (length (default [] inp)) < 18446744073709551616 →
  (length (plain y (default [] inp)) < m)%nat →
  ∃ outs y', engine_reads n y inp outs y' ∧ (length outs ≤ m)%nat ∧ engine_took y (default [] inp) more outs y'.
Proof.
  induction m as [|m IH]; intros y inp more Hok Hex Hn Hl Hw Hm; [lia|].
  destruct (e_read_plain y inp n Hok Hn Hl Hw) as (rc & out & y1 & Hr & Hlen & Hok1 & Hw1 & Hw0 & Hp & Hend & Hmore & _).
  destruct (expects_read y inp more n rc out y1 Hok ltac:(lia) Hl Hex Hr) as [[-> | ->] Hex1].
  - exists [out], y1. split; [by apply er_last|]. split; [cbn; lia|].
    split; [cbn; rewrite app_nil_r; apply Hp; auto|auto|done|done|lia].
  - specialize (Hp ltac:(auto)). specialize (Hmore eq_refl). pose proof (Hp []) as Hp0. rewrite app_nil_r in Hp0.
    destruct (IH y1 None more) as (outs & y' & Hrs & Hlo & [P1 P2 P3 P4 P5]); cbn [default length] in *; try done; try lia.
    { rewrite Hp0, length_app in Hm. destruct out; [done|]. cbn [length] in Hm. lia. }
    exists (out :: outs), y'. split; [eapply er_more; [by left|exact Hr|lia|exact Hrs]|]. split; [cbn; lia|].
    split; [|done..|lia]. cbn [concat app] in *. by rewrite Hp, P1, app_assoc.
Qed.

Context (k : Z)
  (Hread : m_read_cb_override (vt (KUser k)) = Some (λ c n b, lemit (LRead k c n b)))
  (Halloc : m_alloc_cb_override (vt (KUser k)) = Some (λ c n, mret (Some (replicate (Z.to_nat n) 0)))).

Lemma link_reads_wp reads : Forall read_ok reads → ∀ l c e t y kl kc s, tls_over k s l c e t y kl kc →
  reader_ok y → expects y (arrived reads) → plain y [] = [] → 0 ≤ waiting y →
  waiting y + Z.of_nat (length (arrived reads)) < 18446744073709551616 → (length (plain y (arrived reads)) < fuel)%nat →
  wp (link_reads l reads) (λ _ s', ∃ evs outs, llog s' = llog s ++ evs ∧ Forall2 (gives k c) evs outs ∧
    concat outs = plain y (arrived reads) ∧ links s' = links s) s.
Proof.
  induction 1 as [|[nread mem] reads [Hr1 Hr2] Hreads IH]; intros l c e t y kl kc s Hs Hok Hex He Hw0 Hw Hf; cbn [link_reads].
  - wp_simpl. exists [], []. rewrite app_nil_r. by split_and!.
  - change (arrived ((nread, mem) :: reads)) with (take (Z.to_nat nread) mem ++ arrived reads) in *. cbn [fst snd] in *.
    set (b := take (Z.to_nat nread) mem) in *. assert (Z.of_nat (length b) < 2147483648) by (unfold b; rewrite length_take; lia).
    rewrite length_app in Hw. assert (length (plain y b) < fuel)%nat as Hfb.
    { destruct (plain_online y b (arrived reads)) as [d Hd]. rewrite Hd, length_app in Hf. lia. }
    destruct (engine_takes (Z.of_nat (length mem)) fuel y (Some b) (arrived reads)) as (outs & y' & Hrs & Hlo & [P1 P2 P3 P4 P5]);
      cbn [default from_option id] in *; try done; try lia.
    wp_call (eapply (tls_read_wp vt _ _ _ _ _ app_alloc app_read malloc_ok app_hs fuel k Hread Halloc l c e t y kl kc mem nread outs y');
      [exact Hs|by eapply expects_state|lia|lia|done|exact Hrs]).
    intros [] s1 (evs & Hlog & Hevs & Hs1 & Hlk). rewrite P1, length_app in Hf.
    eapply wp_mono; [eapply IH; [exact Hs1|done|done|done|lia|lia|lia]|].
    intros [] s' (evs' & outs' & Hlog' & Hevs' & Hcat & Hlk'). exists (evs ++ evs'), (outs ++ outs').
    rewrite Hlog', Hlog, app_assoc, concat_app, Hcat, P1, Hlk', Hlk. split_and!; try done. by apply Forall2_app.
Qed.
End Reader.

(** ** Two links *)

Section EndToEnd.
Context {EA : TlsEngine} {LA : @TlsEngineLaws EA} {YA : Type}.
Context {EB : TlsEngine} {RB : @TlsReadLaws EB} {PB : @TlsPeer EB RB} {YB : Type}.
Context (vtA : kind → uv_link_methods_t write_fn (@tls_state EA YA)) (vtB : kind → uv_link_methods_t write_fn (@tls_state EB YB)).
Context (UV_ERRNO_MAX UV_EFAULT UV_EOF UV_ENOBUFS UV_ECONNABORTED UV_ENOMEM : Z) (uv_rc : list levent → Z) (malloc_ok : list levent → bool).
Context (app_alloc : Z → lid → Z → M (lstate write_fn (@tls_state EB YB)) (option (list Z)))
  (app_read : Z → lid → Z → option (list Z) → M (lstate write_fn (@tls_state EB YB)) unit)
  (app_hs : Z → lid → tls_handshake_state → M (lstate write_fn (@tls_state EB YB)) unit) (fuel : nat).
Context (kA kB : Z)
  (Hmalloc : ∀ lg, malloc_ok lg = true) (Hmax : UV_ERRNO_MAX < 0)
  (Hwrite : m_write (vtA KSource) = uv_link_source_write UV_ENOMEM uv_rc malloc_ok)
  (Hread : m_read_cb_override (vtB (KUser kB)) = Some (λ c n b, lemit (LRead kB c n b)))
  (Halloc : m_alloc_cb_override (vtB (KUser kB)) = Some (λ c n, mret (Some (replicate (Z.to_nat n) 0)))).

(** C9: data over a connection, from client to client.  One client writes buffers over its TLS
    link; the ciphertext its link sends, in one write, reaches the link of the peer in reads of any
    sizes, with any buffers; if the peer's engine decrypts it to what was written, then the peer's client is given
    what was written, all of it and nothing else, in order. *)
Theorem tls_data_end_to_end lA cA p eA st tA x x1 klA kpA kcA bufs cb sA lB cB eB tB y klB kcB sB :
  tls_over kA sA lA cA eA tA x klA kcA → tls_on sA p st klA kpA → bufs ≠ [] → engine_ok x → engine_wraps x bufs x1 →
  pending x1 ≠ [] → Z.of_nat (length (pending x1)) < 2147483648 → uv_rc (llog sA ++ [LWrite st (pending x1)]) = 0 →
  tls_over kB sB lB cB eB tB y klB kcB → reader_ok y → expects y (pending x1) → plain y [] = [] → 0 ≤ waiting y < 2 ^ 63 →
  plain y (pending x1) = concat bufs → (length (concat bufs) < fuel)%nat →
  ∃ sent sA', tls_write vtA UV_ERRNO_MAX UV_EFAULT lA cA bufs (WUser cb) sA = Ret (0, sA') ∧ llog sA' = llog sA ++ [LWrite st sent] ∧
    ∀ reads, Forall read_ok reads → arrived reads = sent →
    ∃ sB' evs outs,
      link_reads vtB UV_ERRNO_MAX UV_EFAULT UV_EOF UV_ENOBUFS UV_ECONNABORTED app_alloc app_read malloc_ok app_hs fuel
        lB reads sB = Ret (tt, sB') ∧
      llog sB' = llog sB ++ evs ∧ Forall2 (gives kB cB) evs outs ∧ concat outs = concat bufs.
Proof.
  intros HA Hon Hne Hok Hw Hp Hlen Hrc HB Hr Hex He [Hw0 Hw1] Hpl Hf.
  destruct (tls_write_wp vtA UV_ERRNO_MAX UV_EFAULT malloc_ok kA UV_ENOMEM uv_rc Hmalloc Hwrite Hmax
    lA cA p eA st tA x x1 klA kpA kcA bufs cb sA) as (x2 & _ & Hrun); [done..|].
  apply wp_run in Hrun as (rc & sA' & Hrun & -> & HlogA & _).
  exists (pending x1), sA'. split; [done|]. split; [done|]. intros reads Hreads Ha.
  pose proof (link_reads_wp vtB UV_ERRNO_MAX UV_EFAULT UV_EOF UV_ENOBUFS UV_ECONNABORTED app_alloc app_read malloc_ok app_hs fuel
    kB Hread Halloc reads Hreads lB cB eB tB y klB kcB sB HB Hr) as Hb.
  rewrite Ha, Hpl in Hb. apply wp_run in Hb as ([] & sB' & HrunB & evs & outs & HlogB & Hevs & Hcat & _); [|done..|lia|done].
  by exists sB', evs, outs.
Qed.
End EndToEnd.

(** ** From mbedTLS to OpenSSL

    The two libraries of [ToyMbed] and [ToyOpenSsl], whose records are inverted bytes. *)

Module ToyEnds.
#[export] Existing Instance ToyMbed.lib.
#[export] Existing Instance ToyMbed.lib_laws.
#[export] Existing Instance ToyOpenSsl.lib.
#[export] Existing Instance ToyOpenSsl.lib_laws.

#[export] Instance peer : OpenSslPeer.
Proof.
  refine {| ossl_expects := λ (s : SSL) (_ : list Z), s.1 = 1 |}; [done|done|].
  intros s n c o more rc out s' c' o' Hn Hs. cbn [SSL_read_ex ToyOpenSsl.lib]. unfold ToyOpenSsl.recv_record. cbn [run_ssl].
  unfold ssl_recv. cbn [fifo_available fifo_read list_fifo]. destruct (_ =? 0) eqn:Hz; cbn [mbind outcome_bind]; [by intros [= <- <- <- <- <-]|].
  destruct (Z.ltb_spec (Z.of_nat (length (take (Z.to_nat (ToyOpenSsl.record n)) c))) 0); [lia|].
  rewrite firstn_firstn, Nat.min_id. destruct (Z.to_nat (ToyOpenSsl.record n)) as [|k] eqn:Hk; [unfold ToyOpenSsl.record in Hk; lia|].
  destruct c as [|b c]; [done|]. cbn [firstn]. by intros [= <- <- <- <- <-].
Defined.

Abbreviation MbedBio := (MbedTlsEngine (B := tlsuv_BIO)).
Abbreviation OpenSslBio := (OpenSslEngine (B := tlsuv_BIO)).
Definition sender : mbedtls_engine tlsuv_BIO := mkmbed 16 None fifo_new fifo_new 0 0 (replicate 16 0) None.
(** The sender after two writes. *)
Definition sealed (bufs : list (list Z)) : mbedtls_engine tlsuv_BIO :=
  foldl (λ e b, match mbedtls_write e (Some b) 0 with Ret (_, _, e') => e' | Fault _ => e end) sender bufs.
Definition receiving := @ToyLink.built OpenSslBio ToyOpenSsl.eng.
Definition log_of {A} (m : outcome (A * @ToyLink.st MbedBio)) : option (list levent) := match m with Ret (_, s) => Some (llog s) | Fault _ => None end.
Lemma write_log : log_of (TlsLink.tls_write (@ToyLink.vt MbedBio) (-4096) (-14) 2 3 [[1; 2]; [3]] (WUser 8) (@ToyLink.built MbedBio sender)) =
  Some [LWrite 9 [254; 253; 252]].
Proof. vm_compute. reflexivity. Qed.
End ToyEnds.
Import ToyEnds ToyLink.

(** Three bytes in two buffers, which arrive in a piece of one byte, an empty one and one of two
    bytes, the last in a buffer of two. *)
Lemma tls_data_end_to_end_witness : ∃ sA' sB' evs outs,
  TlsLink.tls_write (@vt MbedBio) (-4096) (-14) 2 3 [[1; 2]; [3]] (WUser 8) (@built MbedBio sender) = Ret (0, sA') ∧
  llog sA' = [LWrite 9 [254; 253; 252]] ∧
  link_reads (@vt OpenSslBio) (-4096) (-14) (-4095) (-105) (-103) app_alloc app_read (λ _, true) app_hs 10
    2 [(1, [254; 0; 0]); (0, [9]); (2, [253; 252])] receiving = Ret (tt, sB') ∧
  llog sB' = evs ∧ Forall2 (gives 5 3) evs outs ∧ concat outs = [1; 2; 3].
Proof.
  assert (@engine_wraps MbedBio sender [[1; 2]; [3]] (sealed [[1; 2]; [3]])) as Hw
    by (eapply ew_cons; [reflexivity|vm_compute; discriminate|]; eapply ew_cons; [reflexivity|vm_compute; discriminate|]; apply ew_nil).
  destruct (tls_data_end_to_end (@vt MbedBio) (@vt OpenSslBio) (-4096) (-14) (-4095) (-105) (-103) (-12) (λ _, 0) (λ _, true)
    app_alloc app_read app_hs 10 5 5 (λ _, eq_refl) ltac:(lia) eq_refl eq_refl eq_refl
    2 3 1 4 9 _ _ (sealed [[1; 2]; [3]]) _ _ _ [[1; 2]; [3]] 8 (@built MbedBio sender) 2 3 4
    (mktls (Some 4) 0) ToyOpenSsl.eng (link_of receiving 2) (link_of receiving 3) receiving
    (built_over _) (built_on _)) as (sent & sA' & H1 & H2 & Hr);
    [done|split; apply fifo_new_ok|exact Hw|done|done|done|apply built_over|apply ToyOpenSsl.eng_ok|done|done|done|done|cbn; lia|].
  assert (sent = [254; 253; 252]) as -> by (pose proof write_log as Hl; rewrite H1 in Hl; cbn in Hl; rewrite H2 in Hl; by injection Hl).
  destruct (Hr [(1, [254; 0; 0]); (0, [9]); (2, [253; 252])]) as (sB' & evs & outs & H3 & H4 & H5 & H6);
    [by repeat constructor|done|]. exists sA', sB', evs, outs.
  split; [exact H1|]. split; [exact H2|]. split; [exact H3|]. split; [exact H4|]. split; [exact H5|exact H6].
Defined.
