(* ===== verification/TcpSrc.v ===== *)
(** * The TCP source (src/tcp_src.c, include/tlsuv/tcp_src.h, include/tlsuv/src_t.h)

    A source resolves a host, connects and gives the client a source link on the
    connected stream.  The objects involved live longer than the source needs them: the
    resolve and connect requests until libuv calls back, the stream handle until it is
    closed.  All are in the heap of [tcp_world] (handles are [streams] of UvLink.v), so
    that a use after free, a second free, a second [uv_close] or a free of a handle libuv
    still uses is a fault, as is a use of the source after it was freed.  One source is
    modelled, as a part of the state of its client ([HasTcp]); the results of libuv's
    functions are arguments. *)
From S2P Require Import Prelude UvLink.
From stdpp Require Import base gmap numbers list.
From Stdlib Require Import ZArith Lia.
Open Scope Z_scope.

(** [tcp_src_t].  [link] is the source link's address, NULL once freed. *)
Record tcp_src_s := mktcp {
  ts_link : option lid;
  connect_cb : option Z;
  resolve_req : option Z;
  conn_req : option Z;
  conn : option Z;
  keepalive : Z;
  nodelay : bool;
}.
#[export] Instance tcp_src_upd : Updatable tcp_src_s := fun t =>
  mktcp (ts_link t) (connect_cb t) (resolve_req t) (conn_req t) (conn t) (keepalive t) (nodelay t).

(** Calls of the source's client. *)
Inductive tevent := TConnectCb (cb st : Z).

(** The source, and whether its memory is allocated.  Requests in flight: whether their
    [data] is set, and the handle of a connect request; handles that will be freed when
    closed, and handles libuv is done with; the calls of the client. *)
Record tcp_world := mkworld {
  tcp : tcp_src_s;
  src_live : bool;
  rreqs : gmap Z bool;
  creqs : gmap Z (bool * Z);
  free_on_close : gset Z;
  closed : gset Z;
  tlog : list tevent;
}.
#[export] Instance tcp_world_upd : Updatable tcp_world := fun w =>
  mkworld (tcp w) (src_live w) (rreqs w) (creqs w) (free_on_close w) (closed w) (tlog w).

(** The close callback [link_close_cb] of tcp_src.c. *)
Definition TCP_LINK_CLOSE : Z := 1.

(** States that contain a source. *)
Class HasTcp (X : Type) := mkHasTcp { tcp_of : X → tcp_world; tcp_alter : (tcp_world → tcp_world) → X → X }.
#[export] Instance tcp_self : HasTcp tcp_world := mkHasTcp _ (λ w, w) (λ f, f).

Section TcpSrc.
Context {W X : Type} `{HasTcp X}.
Abbreviation L := (lstate W X).
(** The client's callbacks: [connect_cb], and the close callback of the link. *)
Context (UV_ECANCELED : Z) (the_link : lid) (app_connect : Z → Z → M L unit) (app_close : Z → lid → M L unit).

Definition world : M L tcp_world := gets (λ s, tcp_of (lrest s)).
Definition set_world (f : tcp_world → tcp_world) : M L unit := modify (λ s, s <| lrest := tcp_alter f (lrest s) |>).
(** Reading and writing the fields of the source. *)
Definition src : M L tcp_src_s := w ← world; if src_live w then mret (tcp w) else fail_with UseAfterFree.
Definition set_tcp (f : tcp_src_s → tcp_src_s) : M L unit := src;; set_world (λ w, w <| tcp := f (tcp w) |>).
Definition temit (e : tevent) : M L unit := set_world (λ w, w <| tlog := tlog w ++ [e] |>).

(** [free(h)] of a handle *)
Definition free_handle (h : Z) : M L unit :=
  s ← get;
  if bool_decide (streams s !! h = None) then fail_with DoubleFree else
  if bool_decide (h ∉ closed (tcp_of (lrest s))) then fail_with UseAfterFree else
  modify (λ s, s <| streams := delete h (streams s) |>);;
  set_world (λ w, w <| closed := closed w ∖ {[h]} |>).

(** [uv_close(h, free_handle)] *)
Definition uv_close_free (h : Z) : M L unit :=
  k ← stream_get h;
  if st_closing k then fail_with AssertFailed else
  stream_put h (k <| st_closing := true |>);;
  set_world (λ w, w <| free_on_close := free_on_close w ∪ {[h]} |>);;
  lemit (LUvClose h).

(** [link_close_cb], and the close callbacks of the client *)
Definition link_close_cb : M L unit :=
  t ← src;
  match conn t with
  | Some h => free_handle h;; set_tcp (λ t, t <| conn := None |>)
  | None => mret tt
  end.
Definition tcp_app_close (cb : Z) (l : lid) : M L unit :=
  if cb =? TCP_LINK_CLOSE then link_close_cb else app_close cb l.

Definition tcp_src_init : M L Z :=
  modify (λ s, s <| links := delete the_link (links s) |> <| sources := delete the_link (sources s) |>);;   (* calloc *)
  set_tcp (λ t, mktcp (Some the_link) None (resolve_req t) (conn_req t) None 0 false);; mret 0.

Definition tcp_src_free : M L unit :=
  t ← src;
  match ts_link t with
  | Some l => modify (λ s, s <| links := delete l (links s) |> <| sources := delete l (sources s) |>)
  | None => mret tt
  end;;
  set_tcp (λ t, t <| ts_link := None |>).

(** [rc] is libuv's result for an open connection. *)
Definition tcp_src_nodelay (val : bool) (rc : Z) : M L Z :=
  set_tcp (λ t, t <| nodelay := val |>);;
  t ← src;
  match conn t with Some h => stream_get h;; mret rc | None => mret 0 end.
Definition tcp_src_keepalive (on : bool) (val rc : Z) : M L Z :=
  set_tcp (λ t, t <| keepalive := if on then val else 0 |>);;
  t ← src;
  match conn t with Some h => stream_get h;; mret rc | None => mret 0 end.

(** [sl->connect_cb(sl, status, sl->connect_ctx)] *)
Definition call_connect_cb (st : Z) : M L unit :=
  t ← src; cb ← from_opt NullDeref (connect_cb t); temit (TConnectCb cb st);; app_connect cb st.

(** A successful connection: the source link is set up on the handle. *)
Definition tcp_connected (h : Z) : M L unit :=
  set_tcp (λ t, t <| conn := Some h |>);;
  stream_get h;;            (* uv_tcp_nodelay, uv_tcp_keepalive *)
  t ← src;
  l ← from_opt NullDeref (ts_link t);
  uv_link_source_init l h;; mret tt.

Definition tcp_connect_cb (r st : Z) : M L unit :=
  w ← world;
  '(data, h) ← from_opt UseAfterFree (creqs w !! r);
  if negb data then
    k ← stream_get h;
    when (negb (st_closing k)) (uv_close_free h);;
    set_world (λ w, w <| creqs := delete r (creqs w) |>)
  else
    set_tcp (λ t, t <| conn_req := None |>);;
    if st =? UV_ECANCELED then
      uv_close_free h;;
      set_world (λ w, w <| creqs := delete r (creqs w) |>)
    else
      (if st =? 0 then tcp_connected h
       else set_tcp (λ t, t <| conn := None |>);; uv_close_free h);;
      call_connect_cb st;;
      set_world (λ w, w <| creqs := delete r (creqs w) |>).

(** [calloc] of a handle and of a request *)
Definition new_handle : M L Z :=
  s ← get;
  let h := fresh (dom (streams s)) in
  stream_put h (mkstream None false);; mret h.
Definition new_creq (h : Z) : M L Z :=
  w ← world;
  let r := fresh (dom (creqs w)) in
  set_world (λ w, w <| creqs := <[r := (true, h)]> (creqs w) |>);; mret r.

(** [resolve_cb]: [init_rc] and [connect_rc] are the results of [uv_tcp_init_ex] and
    [uv_tcp_connect]. *)
Definition resolve_connect (st init_rc connect_rc : Z) : M L unit :=
  '(st, h) ← (if st =? 0 then h ← new_handle; mret (init_rc, Some h) else mret (st, None));
  st ← match h with
       | Some h =>
         if st =? 0 then r ← new_creq h; set_tcp (λ t, t <| conn_req := Some r |>);; mret connect_rc else mret st
       | None => mret st
       end;
  when (negb (st =? 0))
    (call_connect_cb st;;
     t ← src;
     match conn_req t with
     | Some r =>
       set_world (λ w, w <| creqs := delete r (creqs w) |>);;
       set_tcp (λ t, t <| conn_req := None |>);;
       match h with Some h => uv_close_free h | None => mret tt end
     | None => mret tt
     end).
Definition resolve_cb (q st init_rc connect_rc : Z) : M L unit :=
  w ← world;
  data ← from_opt UseAfterFree (rreqs w !! q);
  when data (resolve_connect st init_rc connect_rc;; set_tcp (λ t, t <| resolve_req := None |>));;
  set_world (λ w, w <| rreqs := delete q (rreqs w) |>).

(** [tcp->link->methods->close(tcp->link, tcp->link, link_close_cb)] *)
Definition close_link : M L unit :=
  t ← src;
  l ← from_opt NullDeref (ts_link t);
  link_get l;;
  uv_link_source_close tcp_app_close l l (CCall TCP_LINK_CLOSE).

(** The beginning of [tcp_src_connect]: a connection left from before *)
Definition close_old : M L unit :=
  t ← src;
  match conn t with
  | Some h => k ← stream_get h; if st_closing k then set_tcp (λ t, t <| conn := None |>) else close_link
  | None => mret tt
  end.
(** [rc] is the result of [uv_getaddrinfo]. *)
Definition tcp_src_connect (cb rc : Z) : M L Z :=
  set_tcp (λ t, t <| connect_cb := Some cb |>);;
  close_old;;
  w ← world;
  let q := fresh (dom (rreqs w)) in
  set_world (λ w, w <| rreqs := <[q := true]> (rreqs w) |>);;
  set_tcp (λ t, t <| resolve_req := Some q |>);;
  when (negb (rc =? 0))
    (set_world (λ w, w <| rreqs := delete q (rreqs w) |>);; set_tcp (λ t, t <| resolve_req := None |>));;
  mret rc.

(** The three parts of [tcp_src_cancel]. *)
Definition cancel_resolve : M L unit :=
  t ← src; w ← world;
  match resolve_req t with
  | Some q =>
    from_opt UseAfterFree (rreqs w !! q);;
    set_world (λ w, w <| rreqs := <[q := false]> (rreqs w) |>);;
    set_tcp (λ t, t <| resolve_req := None |>)
  | None => mret tt
  end.
Definition cancel_connect : M L unit :=
  t ← src; w ← world;
  match conn_req t with
  | Some r =>
    '(_, h) ← from_opt UseAfterFree (creqs w !! r);
    uv_close_free h;;
    set_world (λ w, w <| creqs := <[r := (false, h)]> (creqs w) |>);;
    set_tcp (λ t, t <| conn_req := None |>)
  | None => mret tt
  end.
Definition cancel_conn : M L unit :=
  t ← src;
  match conn t with
  | Some h => k ← stream_get h; when (negb (st_closing k)) close_link
  | None => mret tt
  end.
Definition tcp_src_cancel : M L unit := cancel_resolve;; cancel_connect;; cancel_conn.

Definition tcp_src_release : M L unit :=
  t ← src;
  match conn t with Some h => free_handle h | None => mret tt end;;
  set_tcp (λ t, t <| conn := None |>).

(** libuv is done with a closing handle and calls its close callback. *)
Definition handle_closed (h : Z) : M L unit :=
  set_world (λ w, w <| closed := closed w ∪ {[h]} |>);;
  w ← world;
  if bool_decide (h ∈ free_on_close w) then
    set_world (λ w, w <| free_on_close := free_on_close w ∖ {[h]} |>);; free_handle h
  else uv_link_source_close_cb tcp_app_close h.
End TcpSrc.
