(* ===== verification/TcpProofs.v ===== *)
(** * The TCP source: properties of TcpSrc.v

    The callers of the source are its client, within the limits of its interface, and
    libuv, which calls back every request once and every closing handle once
    ([enabled]).  Over all their interleavings the source makes no memory error, and
    every connection attempt ends in exactly one callback, unless it was cancelled. *)
From S2P Require Import Prelude UvLink UvLinkProofs TcpSrc.
From stdpp Require Import base gmap numbers list.
From Stdlib Require Import ZArith Lia.
Open Scope Z_scope.

Section TcpProofs.
Abbreviation L := (lstate unit tcp_world).
Context (UV_ECANCELED : Z) (the_link : lid).
Implicit Types (s : L) (w : tcp_world).

(** The link as [uv_link_source_init] leaves it. *)
Definition source_link : uv_link_s :=
  mklink None None (Some CbDef) (Some CbDef) KSource None None (prefix_of 1) 0 0 None None.

(** Who is told that the stream of the link is closed. *)
Definition closing_ok (lk : option uv_link_s) (src : uv_link_source_s) : Prop :=
  close_source src = Some the_link ∧
  (src_close_cb src = Some (CCall TCP_LINK_CLOSE) ∨
   src_close_cb src = Some CJoin ∧ ∃ k cb, lk = Some k ∧ close_waiting k = 1 ∧
     saved_close_cb k = Some (CCall cb) ∧ cb ≠ TCP_LINK_CLOSE).

(** The ownership of requests and handles.  A handle is: the one of a connect request;
    or closing and to be freed when closed; or that of the source link; or closed. *)
Record tinv (lk : option uv_link_s) (src : option uv_link_source_s) (str : gmap Z uv_stream_s) (w : tcp_world) : Prop := {
  ti_link : ts_link (tcp w) = Some the_link ∨
    ts_link (tcp w) = None ∧ resolve_req (tcp w) = None ∧ conn_req (tcp w) = None ∧ conn (tcp w) = None ∧
    (∀ h k, str !! h = Some k → st_data k = None);
  ti_live : src_live w = true;
  ti_rreq : ∀ q, rreqs w !! q = Some true ↔ resolve_req (tcp w) = Some q;
  ti_creq : ∀ r, (∃ h, creqs w !! r = Some (true, h)) ↔ conn_req (tcp w) = Some r;
  ti_creqs : ∀ r d h, creqs w !! r = Some (d, h) →
    str !! h = Some (mkstream None (negb d)) ∧ (h ∉ closed w) ∧ (h ∈ free_on_close w ↔ d = false);
  ti_inj : ∀ r r' d d' h, creqs w !! r = Some (d, h) → creqs w !! r' = Some (d', h) → r = r';
  ti_free : ∀ h, h ∈ free_on_close w → str !! h = Some (mkstream None true) ∧ (h ∉ closed w);
  ti_closed : ∀ h, h ∈ closed w → str !! h = Some (mkstream None true);
  ti_data : ∀ h l c, str !! h = Some (mkstream (Some l) c) → l = the_link ∧
    ∃ sr, src = Some sr ∧ stream sr = Some h ∧
      if c then closing_ok lk sr ∧ is_Some lk
      else lk = Some source_link ∧ resolve_req (tcp w) = None ∧ conn_req (tcp w) = None ∧ conn (tcp w) = Some h;
  ti_conn : ∀ h, conn (tcp w) = Some h →
    ∃ c, str !! h = Some (mkstream (Some the_link) c) ∨ str !! h = Some (mkstream None c) ∧ h ∈ closed w;
  ti_one : resolve_req (tcp w) = None ∨ conn_req (tcp w) = None;
  ti_cb : is_Some (resolve_req (tcp w)) ∨ is_Some (conn_req (tcp w)) → is_Some (connect_cb (tcp w));
}.
Definition inv s : Prop := tinv (links s !! the_link) (sources s !! the_link) (streams s) (lrest s).

(** ** Entry points *)

(** The client only notes the calls it gets. *)
Definition note_connect (cb st : Z) : M L unit := mret tt.
Definition note_close (cb : Z) (l : lid) : M L unit := lemit (LClosed cb l).
Abbreviation do_app_close := (TcpSrc.tcp_app_close note_close).
Abbreviation do_connect := (TcpSrc.tcp_src_connect note_close).
Abbreviation do_cancel := (TcpSrc.tcp_src_cancel note_close).
Abbreviation do_resolved := (TcpSrc.resolve_cb note_connect).
Abbreviation do_connected := (TcpSrc.tcp_connect_cb UV_ECANCELED note_connect).
Abbreviation do_handle_closed := (TcpSrc.handle_closed note_close).

Inductive entry :=
  | EConnect (cb rc : Z)                 (* the client: connect *)
  | ECancel
  | ERelease
  | EClientClose (cb : Z)                (* the client closes the link *)
  | EFree
  | EResolved (q st init_rc connect_rc : Z)  (* libuv *)
  | EConnected (r st : Z)
  | EClosed (h : Z).

Definition tcp_vt (k : kind) : uv_link_methods_t unit tcp_world :=
  uv_link_source_methods 0 (λ _, 0) do_app_close (λ _, true).

Definition exec (e : entry) : M L unit :=
  match e with
  | EConnect cb rc => do_connect cb rc;; mret tt
  | ECancel => do_cancel
  | ERelease => tcp_src_release
  | EClientClose cb => uv_link_close tcp_vt 0 the_link cb
  | EFree => tcp_src_free
  | EResolved q st i c => do_resolved q st i c
  | EConnected r st => do_connected r st
  | EClosed h => do_handle_closed h
  end.

(** The stream of the link is closing and libuv is not done with it. *)
Definition source_closing s : Prop := ∃ h l, streams s !! h = Some (mkstream (Some l) true).

Definition enabled (e : entry) s : Prop :=
  let w := lrest s in let t := tcp w in
  match e with
  | EConnect _ _ => ts_link t = Some the_link ∧ resolve_req t = None ∧ conn_req t = None
  | ECancel => ts_link t = Some the_link
  (* the connection is closed *)
  | ERelease => ∀ h, conn t = Some h → h ∈ closed w
  | EClientClose cb => (∃ h, conn t = Some h ∧ streams s !! h = Some (mkstream (Some the_link) false)) ∧ cb ≠ TCP_LINK_CLOSE
  (* nothing is going on any more *)
  | EFree => resolve_req t = None ∧ conn_req t = None ∧ conn t = None ∧ (∀ h k, streams s !! h = Some k → st_data k = None)
  | EResolved q _ _ _ => is_Some (rreqs w !! q)
  (* a connect request ends with UV_ECANCELED exactly if its handle was closed; close
     callbacks run at the end of the loop iteration of the uv_close, before it *)
  | EConnected r st => ∃ d h k, creqs w !! r = Some (d, h) ∧ streams s !! h = Some k ∧
      (st = UV_ECANCELED ↔ st_closing k = true) ∧ ¬ source_closing s
  (* after the callback of the connect request on the handle *)
  | EClosed h => (∃ k, streams s !! h = Some k ∧ st_closing k = true) ∧ (h ∉ closed w) ∧ (∀ r d, creqs w !! r ≠ Some (d, h))
  end.

Lemma wp_world (Q : tcp_world → L → Prop) s : wp world Q s ↔ Q (lrest s) s.
Proof. done. Qed.
Lemma wp_set_world f (Q : unit → L → Prop) s : wp (set_world f) Q s ↔ Q tt (s <| lrest := f (lrest s) |>).
Proof. done. Qed.
Lemma wp_src (Q : tcp_src_s → L → Prop) s : src_live (lrest s) = true → wp src Q s ↔ Q (tcp (lrest s)) s.
Proof. intros Hl. unfold src. wp_simpl. unfold world. wp_simpl. cbn [tcp_of tcp_self]. by rewrite Hl. Qed.
Lemma wp_set_tcp f (Q : unit → L → Prop) s : src_live (lrest s) = true →
  wp (set_tcp f) Q s ↔ Q tt (s <| lrest := (lrest s) <| tcp := f (tcp (lrest s)) |> |>).
Proof. intros Hl. unfold set_tcp. wp_simpl. by rewrite wp_src. Qed.
Ltac live := solve [cbn; first [assumption | eapply ti_live; eassumption]].
#[local] Hint Rewrite wp_world wp_set_world : wp.
#[local] Hint Rewrite wp_src wp_set_tcp using live : wp.
Ltac tcp_unfold := unfold temit, lemit, stream_put, source_put; cbn [tcp_of tcp_self].

(** A closed handle is freed. *)
Lemma free_handle_wp h (Q : unit → L → Prop) s : inv s → h ∈ closed (lrest s) →
  Q tt (s <| streams := delete h (streams s) |> <| lrest := (lrest s) <| closed := closed (lrest s) ∖ {[h]} |> |>) →
  wp (free_handle h) Q s.
Proof.
  intros Hi Hc HQ. unfold free_handle. tcp_unfold. wp_simpl.
  rewrite bool_decide_eq_false_2 by (rewrite (ti_closed _ _ _ _ Hi h Hc); done).
  rewrite bool_decide_eq_false_2 by (intros Hn; by apply Hn). by wp_simpl.
Qed.

(** Membership in updated sets. *)
Ltac in_sets := rewrite ?elem_of_difference, ?elem_of_union, ?elem_of_singleton in *; intuition congruence.

(** Freeing a closed handle that is not the connection's keeps the invariant. *)
Lemma inv_freed lk src str w h : tinv lk src str w → h ∈ closed w → conn (tcp w) ≠ Some h →
  tinv lk src (delete h str) (w <| closed := closed w ∖ {[h]} |>).
Proof.
  intros Hi Hc Hn. pose proof (ti_closed _ _ _ _ Hi h Hc) as Hh. destruct Hi. split; cbn; try done.
  - destruct ti_link0 as [?|(?&?&?&?&Hd)]; [by left|right]. split_and!; try done. intros x k [_ Hx]%lookup_delete_Some. by eapply Hd.
  - intros r d x Hr. destruct (ti_creqs0 r d x Hr) as (H1 & H2 & H3). split_and!; [|in_sets|done..].
    rewrite lookup_delete_ne; [done|]. congruence.
  - intros x Hx. destruct (ti_free0 x Hx) as [H1 H2]. split; [|in_sets]. rewrite lookup_delete_ne; [done|]. congruence.
  - intros x [Hx Hxh%not_elem_of_singleton]%elem_of_difference. rewrite lookup_delete_ne by done. by apply ti_closed0.
  - intros x l c [_ Hx]%lookup_delete_Some. by eapply ti_data0.
  - intros x Hx. destruct (ti_conn0 x Hx) as [c Hc2]. exists c. rewrite lookup_delete_ne by congruence. in_sets.
Qed.

(** Forgetting a connection that is not open keeps the invariant. *)
Lemma inv_no_conn lk src str w : tinv lk src str w →
  (∀ h l, conn (tcp w) = Some h → str !! h ≠ Some (mkstream l false)) →
  tinv lk src str (w <| tcp := (tcp w) <| conn := None |> |>).
Proof.
  intros [] Hc. split; cbn; try done; [intuition|].
  intros h l c Hh. destruct (ti_data0 h l c Hh) as (-> & sr & -> & Hs & Hrest). split; [done|]. exists sr. split_and!; try done.
  destruct c; [done|]. destruct Hrest as (_ & _ & _ & Hch). by apply Hc in Hh.
Qed.

Lemma release_wp s : inv s → enabled ERelease s →
  wp tcp_src_release (λ _ s', inv s' ∧ lrest s' = (lrest s) <| tcp := (tcp (lrest s)) <| conn := None |> |> <| closed := closed (lrest s') |>) s.
Proof.
  intros Hi He. pose proof (inv_no_conn _ _ _ _ Hi) as Hi2.
  specialize (Hi2 ltac:(intros h l Hc; rewrite (ti_closed _ _ _ _ Hi h (He h Hc)); congruence)).
  unfold tcp_src_release. tcp_unfold. wp_simpl. destruct (conn (tcp (lrest s))) as [h|] eqn:Hc.
  - apply free_handle_wp; [done|by apply He|]. wp_simpl. split; [|by destruct (lrest s)].
    exact (inv_freed _ _ _ _ h Hi2 (He h Hc) ltac:(done)).
  - wp_simpl. split; [done|]. by destruct (lrest s).
Qed.

Lemma free_wp s : inv s → enabled EFree s → wp tcp_src_free (λ _, inv) s.
Proof.
  intros Hi (H1 & H2 & H3 & H4). unfold tcp_src_free. tcp_unfold. wp_simpl.
  assert (∀ lk src, tinv lk src (streams s) ((lrest s) <| tcp := (tcp (lrest s)) <| ts_link := None |> |>)) as Hgo.
  { intros lk src. destruct Hi. split; cbn; try done; [by right|].
    intros h l c Hh. by apply H4 in Hh. }
  destruct (ts_link (tcp (lrest s))); wp_simpl; apply Hgo.
Qed.

(** A handle that nobody waits for is closed and freed afterwards. *)
Lemma uv_close_free_wp h (Q : unit → L → Prop) s : streams s !! h = Some (mkstream None false) →
  Q tt (s <| streams := <[h := mkstream None true]> (streams s) |>
          <| lrest := (lrest s) <| free_on_close := free_on_close (lrest s) ∪ {[h]} |> |>
          <| llog := llog s ++ [LUvClose h] |>) → wp (uv_close_free h) Q s.
Proof. intros Hh HQ. unfold uv_close_free, stream_get. tcp_unfold. wp_simpl. rewrite Hh. by wp_simpl. Qed.

(** The connect request [r] on handle [h] ends, [h] being closed. *)
Lemma inv_creq_done lk src str w r d h : tinv lk src str w → creqs w !! r = Some (d, h) → d = false →
  tinv lk src str (w <| creqs := delete r (creqs w) |>).
Proof.
  intros Hi Hr ->. destruct Hi. split; cbn; try done.
  - intros x. rewrite <-ti_creq0. split; intros [y Hy]; exists y; [by apply lookup_delete_Some in Hy as [_ ?]|].
    rewrite lookup_delete_ne; [done|]. intros ->. congruence.
  - intros x d y [_ Hx]%lookup_delete_Some. by eapply ti_creqs0.
  - intros x x' d d' y [_ Hx]%lookup_delete_Some [_ Hx']%lookup_delete_Some. by eapply ti_inj0.
Qed.

(** The pending connect request is cancelled: its handle closes. *)
Lemma inv_creq_cancel lk src str w r h : tinv lk src str w → creqs w !! r = Some (true, h) →
  tinv lk src (<[h := mkstream None true]> str)
    (w <| free_on_close := free_on_close w ∪ {[h]} |> <| creqs := <[r := (false, h)]> (creqs w) |>
       <| tcp := (tcp w) <| conn_req := None |> |>).
Proof.
  intros Hi Hr. destruct (ti_creqs _ _ _ _ Hi r true h Hr) as (Hh & Hcl & Hf). cbn in Hh.
  assert (conn_req (tcp w) = Some r) as Hcr by (apply (ti_creq _ _ _ _ Hi); by exists h).
  destruct Hi. split; cbn.
  - destruct ti_link0 as [?|(?&?&?&?&?)]; [by left|congruence].
  - done.
  - done.
  - intros x. split; [|done]. intros [y Hy]. destruct (decide (x = r)) as [->|Hxr]; [by rewrite lookup_insert_eq in Hy|].
    rewrite lookup_insert_ne in Hy by done. assert (conn_req (tcp w) = Some x) by (apply ti_creq0; by exists y). congruence.
  - intros x d y Hx. destruct (decide (x = r)) as [->|Hxr].
    + rewrite lookup_insert_eq in Hx. injection Hx as <- <-. rewrite lookup_insert_eq. in_sets.
    + rewrite lookup_insert_ne in Hx by done. destruct (ti_creqs0 x d y Hx) as (H1 & H2 & H3).
      assert (y ≠ h) by (intros ->; by apply Hxr, (ti_inj0 x r d true h)).
      rewrite lookup_insert_ne by done. in_sets.
  - intros x x' d d' y [[Hxr Hx]|[Hxr Hx]]%lookup_insert_Some [[Hxr' Hx']|[Hxr' Hx']]%lookup_insert_Some; simplify_eq; eauto.
  - intros x Hx. destruct (decide (x = h)) as [->|]; [by rewrite lookup_insert_eq|].
    rewrite lookup_insert_ne by done. apply ti_free0. in_sets.
  - intros x Hx. rewrite lookup_insert_ne by congruence. by apply ti_closed0.
  - intros x l c Hx. destruct (decide (x = h)) as [->|]; [by rewrite lookup_insert_eq in Hx|].
    rewrite lookup_insert_ne in Hx by done. destruct (ti_data0 x l c Hx) as (-> & sr & -> & Hs & Hrest). split; [done|].
    exists sr. split_and!; try done. destruct c; [done|]. destruct Hrest as (_ & _ & ? & _). congruence.
  - intros x Hx. destruct (ti_conn0 x Hx) as [c Hc2]. exists c. rewrite lookup_insert_ne; [done|].
    intros ->. destruct Hc2 as [?|[? ?]]; [congruence|done].
  - by right.
  - intros [?|[? ?]]; [|done]. apply ti_cb0. by left.
Qed.

(** The stream of the link begins to close. *)
Lemma inv_source_closing lk lk' src sr' str w h : tinv lk src str w → str !! h = Some (mkstream (Some the_link) false) →
  stream sr' = Some h → closing_ok lk' sr' → is_Some lk' →
  tinv lk' (Some sr') (<[h := mkstream (Some the_link) true]> str) w.
Proof.
  intros Hi Hh Hs Hok Hlk. destruct Hi.
  destruct (ti_data0 _ _ _ Hh) as (_ & sr & Hsr & Hst & _).
  assert (∀ x k, str !! x = Some k → st_data k = None → <[h := mkstream (Some the_link) true]> str !! x = Some k) as Hkeep.
  { intros x k Hx Hd. rewrite lookup_insert_ne; [done|]. intros ->. rewrite Hh in Hx. by injection Hx as <-. }
  split; try done.
  - destruct ti_link0 as [?|(?&?&?&?&Hd)]; [by left|]. by apply Hd in Hh.
  - intros r d x Hr. destruct (ti_creqs0 r d x Hr) as (H1 & H2). split; [|done]. by apply Hkeep.
  - intros x Hx. destruct (ti_free0 x Hx). split; [|done]. by apply Hkeep.
  - intros x Hx. apply Hkeep; [by apply ti_closed0|done].
  - intros x l c [[<- Hx]|[Hne Hx]]%lookup_insert_Some; [simplify_eq; split; [done|]; by exists sr'|].
    destruct (ti_data0 x l c Hx) as (_ & sr2 & Hsr2 & Hst2 & _). congruence.
  - intros x Hx. destruct (decide (x = h)) as [->|]; [exists true; left; apply lookup_insert_eq|].
    rewrite lookup_insert_ne by done. by apply ti_conn0.
Qed.

Lemma close_link_wp h s : inv s → ts_link (tcp (lrest s)) = Some the_link →
  streams s !! h = Some (mkstream (Some the_link) false) →
  wp (close_link note_close) (λ _ s', inv s' ∧ lrest s' = lrest s ∧
    streams s' = <[h := mkstream (Some the_link) true]> (streams s)) s.
Proof.
  intros Hi Hl Hh. destruct (ti_data _ _ _ _ Hi _ _ _ Hh) as (_ & sr & Hsr & Hst & Hlk & _).
  unfold close_link, uv_link_source_close, source_get, stream_get. tcp_unfold. wp_simpl. rewrite Hl. wp_simpl.
  eapply wp_link_get; [exact Hlk|]. wp_simpl. rewrite Hsr. wp_simpl. rewrite Hst. wp_simpl. rewrite Hh. wp_simpl.
  split; [|done]. unfold inv. cbn. rewrite lookup_insert_eq.
  eapply inv_source_closing; [exact Hi|done..| |by rewrite Hlk]. split; [done|by left].
Qed.

(** What [cancel] does to the pending resolve request. *)
Lemma inv_rreq_cancel lk src str w q : tinv lk src str w → resolve_req (tcp w) = Some q →
  tinv lk src str (w <| rreqs := <[q := false]> (rreqs w) |> <| tcp := (tcp w) <| resolve_req := None |> |>).
Proof.
  intros Hi Hq. destruct Hi. split; cbn; try done.
  - destruct ti_link0 as [?|(?&?&?&?&?)]; [by left|congruence].
  - intros x. split; [|done]. intros [[? ?]|[Hne Hx]]%lookup_insert_Some; [done|].
    apply ti_rreq0 in Hx. congruence.
  - intros x l c Hx. destruct (ti_data0 x l c Hx) as (-> & sr & -> & Hs & Hrest). split; [done|].
    exists sr. split_and!; try done. destruct c; [done|]. by destruct Hrest as (? & _ & ? & ?).
  - by left.
  - intros [[? ?]|?]; [done|]. apply ti_cb0. by right.
Qed.

Lemma cancel_resolve_wp s : inv s → wp cancel_resolve (λ _ s', inv s' ∧ resolve_req (tcp (lrest s')) = None ∧
  ts_link (tcp (lrest s')) = ts_link (tcp (lrest s)) ∧ tlog (lrest s') = tlog (lrest s)) s.
Proof.
  intros Hi. unfold cancel_resolve. tcp_unfold. wp_simpl. destruct (resolve_req (tcp (lrest s))) as [q|] eqn:Hq; [|by wp_simpl].
  pose proof Hq as Hq2. apply (ti_rreq _ _ _ _ Hi) in Hq2. rewrite Hq2. wp_simpl. split; [|done].
  exact (inv_rreq_cancel _ _ _ _ q Hi Hq).
Qed.
Lemma cancel_connect_wp s : inv s → wp cancel_connect (λ _ s', inv s' ∧ conn_req (tcp (lrest s')) = None ∧
  resolve_req (tcp (lrest s')) = resolve_req (tcp (lrest s)) ∧
  ts_link (tcp (lrest s')) = ts_link (tcp (lrest s)) ∧ tlog (lrest s') = tlog (lrest s)) s.
Proof.
  intros Hi. unfold cancel_connect. tcp_unfold. wp_simpl. destruct (conn_req (tcp (lrest s))) as [r|] eqn:Hcr; [|by wp_simpl].
  apply (ti_creq _ _ _ _ Hi) in Hcr as [h Hr]. rewrite Hr. wp_simpl.
  destruct (ti_creqs _ _ _ _ Hi r true h Hr) as (Hh & _). apply uv_close_free_wp; [done|]. wp_simpl. split; [|done].
  exact (inv_creq_cancel _ _ _ _ r h Hi Hr).
Qed.
Lemma cancel_conn_wp s : inv s → ts_link (tcp (lrest s)) = Some the_link →
  wp (cancel_conn note_close) (λ _ s', inv s' ∧ lrest s' = lrest s) s.
Proof.
  intros Hi Hl. unfold cancel_conn. tcp_unfold. wp_simpl. destruct (conn (tcp (lrest s))) as [h|] eqn:Hc; [|by wp_simpl].
  destruct (ti_conn _ _ _ _ Hi h Hc) as [c Hh]. unfold stream_get. wp_simpl.
  destruct Hh as [Hh|[Hh Hcl]]; rewrite Hh; wp_simpl; cbn [st_closing].
  - destruct c; cbn [negb when]; [by wp_simpl|]. eapply wp_mono; [by eapply close_link_wp|]. by intros [] s' (? & ? & _).
  - pose proof (ti_closed _ _ _ _ Hi h Hcl). assert (c = true) as -> by congruence. cbn [negb when]. by wp_simpl.
Qed.

Lemma cancel_wp s : inv s → enabled ECancel s →
  wp do_cancel (λ _ s', inv s' ∧ resolve_req (tcp (lrest s')) = None ∧ conn_req (tcp (lrest s')) = None ∧
    tlog (lrest s') = tlog (lrest s)) s.
Proof.
  intros Hi Hl. cbn in Hl. unfold TcpSrc.tcp_src_cancel. wp_call (by apply cancel_resolve_wp).
  intros [] s1 (Hi1 & Hr1 & Hl1 & Ht1). wp_call (by apply cancel_connect_wp). intros [] s2 (Hi2 & Hc2 & Hr2 & Hl2 & Ht2).
  eapply wp_mono; [apply cancel_conn_wp; [done|congruence]|]. intros [] s3 (Hi3 & ->). split_and!; [done|congruence..].
Qed.

(** No connection is open, or being made: a resolve request may start. *)
Lemma inv_resolving lk src str w q : tinv lk src str w → resolve_req (tcp w) = None → conn_req (tcp w) = None →
  ts_link (tcp w) = Some the_link → (∀ h l, str !! h ≠ Some (mkstream (Some l) false)) → is_Some (connect_cb (tcp w)) →
  tinv lk src str (w <| rreqs := <[q := true]> (rreqs w) |> <| tcp := (tcp w) <| resolve_req := Some q |> |>).
Proof.
  intros [] Hr Hc Hl Hno Hcb. split; cbn; try done.
  - by left.
  - intros x. split; [intros [[-> _]|[Hne Hx]]%lookup_insert_Some; [done|]|intros [= ->]; apply lookup_insert_eq].
    apply ti_rreq0 in Hx. congruence.
  - intros h l c Hh. destruct c; [by apply (ti_data0 h l true)|]. by apply Hno in Hh.
  - by right.
Qed.
Lemma inv_connect_cb lk src str w cb : tinv lk src str w →
  tinv lk src str (w <| tcp := (tcp w) <| connect_cb := Some cb |> |>).
Proof. intros []. split; cbn; try done. Qed.

(** The part of [connect] that gets rid of an old connection. *)
Lemma close_old_wp s : inv s → ts_link (tcp (lrest s)) = Some the_link →
  wp (close_old note_close) (λ _ s', inv s' ∧ (∀ h l, streams s' !! h ≠ Some (mkstream (Some l) false)) ∧
        ∃ c, lrest s' = (lrest s) <| tcp := (tcp (lrest s)) <| conn := c |> |>) s.
Proof.
  intros Hi Hl. unfold close_old. tcp_unfold. unfold stream_get. wp_simpl.
  assert (∀ h l, streams s !! h = Some (mkstream (Some l) false) → conn (tcp (lrest s)) = Some h) as Hopen
    by (intros h l Hh; by destruct (ti_data _ _ _ _ Hi h l false Hh) as (_ & sr & _ & _ & _ & _ & _ & ?)).
  destruct (conn (tcp (lrest s))) as [h|] eqn:Hc.
  - destruct (ti_conn _ _ _ _ Hi h Hc) as [c Hh]. wp_simpl.
    assert (∀ k, streams s !! h = Some k → st_closing k = true → ∀ x l, streams s !! x ≠ Some (mkstream (Some l) false)) as Hclosing.
    { intros k Hk Hck x l Hx. pose proof (Hopen x l Hx). by simplify_eq. }
    destruct Hh as [Hh|[Hh Hcl]].
    + rewrite Hh. wp_simpl. cbn [st_closing]. destruct c.
      * wp_simpl. split_and!; [|by eapply Hclosing|by eexists].
        apply inv_no_conn; [done|]. intros x l Hx Hxx. cbn in Hxx. congruence.
      * eapply wp_mono; [by eapply close_link_wp|]. intros [] s' (Hi' & Hr' & Hs'). split_and!; [done| |].
        -- intros x l. rewrite Hs'. destruct (decide (x = h)) as [->|]; [by rewrite lookup_insert_eq|].
           rewrite lookup_insert_ne by done. intros Hx%Hopen. congruence.
        -- exists (Some h). rewrite Hr'. by destruct (lrest s) as [[]]; cbn in *; subst.
    + pose proof (ti_closed _ _ _ _ Hi h Hcl) as Hh2. rewrite Hh2. wp_simpl. cbn [st_closing]. wp_simpl.
      split_and!; [|by eapply Hclosing|by eexists]. apply inv_no_conn; [done|]. intros x l Hx Hxx. cbn in Hxx. congruence.
  - wp_simpl. split; [done|]. split; [intros h l Hh; by apply Hopen in Hh|]. exists None. by destruct (lrest s) as [[]]; cbn in *; subst.
Qed.

Lemma connect_wp cb rc s : inv s → enabled (EConnect cb rc) s →
  wp (do_connect cb rc) (λ r s', r = rc ∧ inv s' ∧ tlog (lrest s') = tlog (lrest s) ∧ conn_req (tcp (lrest s')) = None ∧
    (is_Some (resolve_req (tcp (lrest s'))) ↔ rc = 0)) s.
Proof.
  intros Hi (Hl & Hr & Hc). unfold TcpSrc.tcp_src_connect. tcp_unfold. wp_simpl.
  set (s1 := s <| lrest := (lrest s) <| tcp := (tcp (lrest s)) <| connect_cb := Some cb |> |> |>). assert (inv s1) as Hi1 by (by apply inv_connect_cb).
  eapply wp_mono; [exact (close_old_wp s1 Hi1 Hl)|].
  intros [] s2 (Hi2 & Hno & c & Hw2). wp_simpl.
  assert (tcp (lrest s2) = (tcp (lrest s)) <| connect_cb := Some cb |> <| conn := c |>) as Ht2 by (by rewrite Hw2).
  set (q := fresh (dom (rreqs (lrest s2)))).
  assert (rreqs (lrest s2) !! q = None) as Hq by apply not_elem_of_dom, is_fresh.
  pose proof (inv_resolving _ _ _ _ q Hi2) as Hi3. rewrite Ht2 in Hi3 at 1 2 3 4. specialize (Hi3 Hr Hc Hl Hno ltac:(by eexists)).
  destruct (Z.eqb_spec rc 0) as [->|Hrc]; cbn [negb when]; wp_simpl.
  - split_and!; [done|exact Hi3|cbn; by rewrite Hw2|cbn; by rewrite Ht2|by split].
  - assert (∀ w, resolve_req (tcp w) = None → rreqs w !! q = None →
      w <| tcp := (tcp w) <| resolve_req := None |> |> <| rreqs := delete q (<[q := true]> (rreqs w)) |> = w) as Hsame.
    { intros [[] ? ? ? ? ?] Hx Hy. cbn in *. subst. by rewrite delete_insert_id. }
    split_and!; [done| |cbn; by rewrite Hw2|cbn; by rewrite Ht2|split; [by intros []|done]].
    pose proof Hi2 as Hi4. unfold inv in Hi4. rewrite <-(Hsame (lrest s2)) in Hi4; [exact Hi4|by rewrite Ht2|done].
Qed.

(** ** libuv's callbacks *)

Lemma inv_resolved lk src str w q : tinv lk src str w → resolve_req (tcp w) = Some q →
  tinv lk src str (w <| tcp := (tcp w) <| resolve_req := None |> |> <| rreqs := delete q (rreqs w) |>).
Proof.
  intros [] Hq. split; cbn; try done.
  - destruct ti_link0 as [?|(?&?&?&?&?)]; [by left|congruence].
  - intros x. split; [|done]. intros [Hne Hx]%lookup_delete_Some. apply ti_rreq0 in Hx. congruence.
  - intros x l c Hx. destruct (ti_data0 x l c Hx) as (-> & sr & -> & Hs & Hrest). split; [done|].
    exists sr. split_and!; try done. destruct c; [done|]. by destruct Hrest as (? & _ & ? & ?).
  - by left.
  - intros [[? ?]|?]; [done|]. apply ti_cb0. by right.
Qed.
Lemma inv_rreq_gone lk src str w q : tinv lk src str w → rreqs w !! q = Some false →
  tinv lk src str (w <| rreqs := delete q (rreqs w) |>).
Proof.
  intros [] Hq. split; cbn; try done. intros x. rewrite <-ti_rreq0. destruct (decide (x = q)) as [->|].
  - rewrite lookup_delete_eq, Hq. done.
  - by rewrite lookup_delete_ne.
Qed.
Lemma inv_tlog lk src str w lg : tinv lk src str w → tinv lk src str (w <| tlog := lg |>).
Proof. intros []. by split. Qed.

(** A handle of our own, which nothing refers to. *)
Definition unused (str : gmap Z uv_stream_s) w (h : Z) : Prop :=
  str !! h = Some (mkstream None false) ∧ (h ∉ closed w) ∧ (h ∉ free_on_close w) ∧ (∀ r d, creqs w !! r ≠ Some (d, h)).

Lemma inv_new_handle lk src str w h : tinv lk src str w → str !! h = None →
  tinv lk src (<[h := mkstream None false]> str) w ∧ unused (<[h := mkstream None false]> str) w h.
Proof.
  intros Hi Hh. assert (∀ x k, str !! x = Some k → <[h := mkstream None false]> str !! x = Some k) as Hkeep
    by (intros x k Hx; rewrite lookup_insert_ne; congruence).
  destruct Hi. split.
  - split; try done.
    + destruct ti_link0 as [?|(?&?&?&?&Hd)]; [by left|right]. split_and!; try done.
      intros x k [[<- <-]|[_ Hx]]%lookup_insert_Some; [done|by eapply Hd].
    + intros r d x Hr. destruct (ti_creqs0 r d x Hr) as (H1 & H2). auto.
    + intros x Hx. destruct (ti_free0 x Hx). auto.
    + intros x Hx. auto.
    + intros x l c [[? ?]|[_ Hx]]%lookup_insert_Some; [congruence|by apply ti_data0].
    + intros x Hx. destruct (ti_conn0 x Hx) as [c Hc]. exists c. destruct Hc as [?|[? ?]]; [left|right]; auto.
  - split_and!; [apply lookup_insert_eq|intros Hx%ti_closed0; congruence|intros [Hx _]%ti_free0; congruence|].
    intros r d Hr. destruct (ti_creqs0 r d h Hr). congruence.
Qed.

Lemma inv_new_creq lk src str w r h : tinv lk src str w → unused str w h → creqs w !! r = None →
  resolve_req (tcp w) = None → conn_req (tcp w) = None → ts_link (tcp w) = Some the_link →
  is_Some (connect_cb (tcp w)) → (∀ x l, str !! x ≠ Some (mkstream (Some l) false)) →
  tinv lk src str (w <| creqs := <[r := (true, h)]> (creqs w) |> <| tcp := (tcp w) <| conn_req := Some r |> |>).
Proof.
  intros [] (Hh & Hcl & Hf & Hno) Hr Hrr Hcr Hl Hcb Hopen. split; cbn; try done.
  - by left.
  - intros x. split.
    + intros [y [[-> _]|[_ Hy]]%lookup_insert_Some]; [done|].
      assert (conn_req (tcp w) = Some x) by (apply ti_creq0; by exists y). congruence.
    + intros [= ->]. exists h. apply lookup_insert_eq.
  - intros x d y [[<- [= <- <-]]|[_ Hx]]%lookup_insert_Some; [|by apply (ti_creqs0 x d y)]. done.
  - intros x x' d d' y [[Hxr Hx]|[Hxr Hx]]%lookup_insert_Some [[Hxr' Hx']|[Hxr' Hx']]%lookup_insert_Some; simplify_eq; eauto;
      exfalso; eapply Hno; eauto.
  - intros x l c Hx. destruct c; [by apply (ti_data0 x l true)|]. by apply Hopen in Hx.
  - by left.
Qed.

Lemma inv_close_unused lk src str w h : tinv lk src str w → unused str w h →
  tinv lk src (<[h := mkstream None true]> str) (w <| free_on_close := free_on_close w ∪ {[h]} |>).
Proof.
  intros [] (Hh & Hcl & Hf & Hno). split; cbn; try done.
  - destruct ti_link0 as [?|(?&?&?&?&Hd)]; [by left|right]. split_and!; try done.
    intros x k [[<- <-]|[_ Hx]]%lookup_insert_Some; [done|by eapply Hd].
  - intros r d x Hr. destruct (ti_creqs0 r d x Hr) as (H1 & H2 & H3). assert (x ≠ h) by (intros ->; by eapply Hno).
    rewrite lookup_insert_ne by done. in_sets.
  - intros x Hx. destruct (decide (x = h)) as [->|]; [by rewrite lookup_insert_eq|].
    rewrite lookup_insert_ne by done. apply ti_free0. in_sets.
  - intros x Hx. rewrite lookup_insert_ne by congruence. by apply ti_closed0.
  - intros x l c [[<- [=]]|[_ Hx]]%lookup_insert_Some. by apply ti_data0.
  - intros x Hx. destruct (ti_conn0 x Hx) as [c Hc]. exists c. rewrite lookup_insert_ne; [done|].
    intros <-. destruct Hc as [?|[? ?]]; [congruence|done].
Qed.

(** A connection attempt is under way. *)
Definition attempt w : nat :=
  match resolve_req (tcp w), conn_req (tcp w) with None, None => 0 | _, _ => 1 end.

Lemma call_connect_cb_wp st (Q : unit → L → Prop) s : src_live (lrest s) = true → is_Some (connect_cb (tcp (lrest s))) →
  (∀ cb, Q tt (s <| lrest := (lrest s) <| tlog := tlog (lrest s) ++ [TConnectCb cb st] |> |>)) → wp (call_connect_cb note_connect st) Q s.
Proof. intros Hlv [cb Hcb] HQ. unfold call_connect_cb. tcp_unfold. wp_simpl. rewrite Hcb. wp_simpl. apply HQ. Qed.

Lemma new_handle_wp (Q : Z → L → Prop) s :
  (∀ h, streams s !! h = None → Q h (s <| streams := <[h := mkstream None false]> (streams s) |>)) → wp new_handle Q s.
Proof. intros HQ. unfold new_handle, stream_put. wp_simpl. apply HQ, not_elem_of_dom, is_fresh. Qed.
Lemma new_creq_wp h (Q : Z → L → Prop) s :
  (∀ r, creqs (lrest s) !! r = None → Q r (s <| lrest := (lrest s) <| creqs := <[r := (true, h)]> (creqs (lrest s)) |> |>)) →
  wp (new_creq h) Q s.
Proof. intros HQ. unfold new_creq. tcp_unfold. wp_simpl. apply HQ, not_elem_of_dom, is_fresh. Qed.

(** The attempt counted by [attempt] ends with a callback or goes on. *)
Definition accounted w w' : Prop := (length (tlog w') + attempt w' = length (tlog w) + attempt w)%nat.

(** The source is resolving, for its client. *)
Record resolving q s : Prop := {
  rs_inv : inv s;
  rs_req : resolve_req (tcp (lrest s)) = Some q;
  rs_creq : conn_req (tcp (lrest s)) = None;
  rs_cb : is_Some (connect_cb (tcp (lrest s)));
  rs_open : ∀ x l, streams s !! x ≠ Some (mkstream (Some l) false);
  rs_link : ts_link (tcp (lrest s)) = Some the_link;
}.
Lemma resolving_intro q s : inv s → resolve_req (tcp (lrest s)) = Some q → resolving q s.
Proof.
  intros Hi Hrr. split; try done.
  - destruct (ti_one _ _ _ _ Hi); [congruence|done].
  - apply (ti_cb _ _ _ _ Hi). left. by eexists.
  - intros x l Hx. destruct (ti_data _ _ _ _ Hi x l false Hx) as (_ & _ & _ & _ & _ & Hn & _). congruence.
  - destruct (ti_link _ _ _ _ Hi) as [?|(_ & ? & _)]; [done|congruence].
Qed.

(** [resolve_connect] leaves the request to its caller. *)
Lemma resolve_connect_wp q st i c s : resolving q s →
  wp (resolve_connect note_connect st i c) (λ _ s', let s2 := s' <| lrest := (lrest s') <| tcp := (tcp (lrest s')) <| resolve_req := None |> |>
      <| rreqs := delete q (rreqs (lrest s')) |> |> in inv s2 ∧ accounted (lrest s) (lrest s2)) s.
Proof.
  intros [Hi Hrr Hcr Hcb Hopen Hl]. assert (attempt (lrest s) = 1%nat) as Hat by (unfold attempt; by rewrite Hrr).
  pose proof (inv_resolved _ _ _ _ q Hi Hrr) as Hi1. unfold resolve_connect. tcp_unfold. wp_simpl.
  destruct (Z.eqb_spec st 0) as [->|Hst]; wp_simpl; cycle 1.
  { destruct (Z.eqb_spec st 0); [done|]. cbn [negb when]. wp_simpl. apply call_connect_cb_wp; [live|done|]. intros cb. wp_simpl.
    cbn [lrest update_with tcp conn_req]. rewrite Hcr. wp_simpl. split; [by apply (inv_tlog _ _ _ _ _ Hi1)|].
    unfold accounted, attempt at 1. cbn. rewrite Hcr, Hat, length_app. cbn. lia. }
  apply new_handle_wp. intros h Hh. wp_simpl. destruct (inv_new_handle _ _ _ _ h Hi1 Hh) as [Hi2 Hun].
  destruct (Z.eqb_spec i 0) as [->|Hin]; cycle 1.
  { wp_simpl. destruct (Z.eqb_spec i 0); [done|]. cbn [negb when]. wp_simpl. apply call_connect_cb_wp; [live|done|]. intros cb. wp_simpl.
    cbn [lrest update_with tcp conn_req]. rewrite Hcr. wp_simpl. split; [by apply (inv_tlog _ _ _ _ _ Hi2)|].
    unfold accounted, attempt at 1. cbn. rewrite Hcr, Hat, length_app. cbn. lia. }
  wp_simpl. apply new_creq_wp. intros r Hr. wp_simpl.
  assert (∀ x l, <[h := mkstream None false]> (streams s) !! x ≠ Some (mkstream (Some l) false)) as Hopen2.
  { intros x l [[_ ?]|[_ Hx]]%lookup_insert_Some; [done|by eapply Hopen]. }
  destruct (Z.eqb_spec c 0) as [->|Hc]; cbn [negb when]; wp_simpl.
  - split; [|unfold accounted, attempt at 1; cbn; lia].
    exact (inv_new_creq _ _ _ _ r h Hi2 Hun Hr eq_refl Hcr Hl Hcb Hopen2).
  - apply call_connect_cb_wp; [live|done|]. intros cb. wp_simpl. cbn [lrest update_with tcp conn_req]. wp_simpl.
    apply uv_close_free_wp; [apply lookup_insert_eq|].
    split; [|unfold accounted, attempt at 1; cbn; rewrite Hat, length_app; cbn; lia].
    unfold inv. cbn. rewrite delete_insert_id by done.
    pose proof (inv_tlog _ _ _ _ (tlog (lrest s) ++ [TConnectCb cb c]) (inv_close_unused _ _ _ _ h Hi2 Hun)) as Hi3.
    assert (tcp (lrest s) = (tcp (lrest s)) <| conn_req := None |>) as Ht by (destruct (tcp (lrest s)); cbn in *; by subst).
    rewrite Ht in Hi3. exact Hi3.
Qed.

Lemma resolve_wp q st i c s : inv s → enabled (EResolved q st i c) s →
  wp (do_resolved q st i c) (λ _ s', inv s' ∧ accounted (lrest s) (lrest s')) s.
Proof.
  intros Hi [data Hq]. unfold TcpSrc.resolve_cb. tcp_unfold. wp_simpl. rewrite Hq. wp_simpl. destruct data; cbn [when]; wp_simpl; cycle 1.
  { split; [by apply inv_rreq_gone|done]. }
  apply (ti_rreq _ _ _ _ Hi) in Hq. eapply wp_mono; [by apply (resolve_connect_wp q), resolving_intro|].
  intros [] s' [Hi' Ha]. assert (src_live (lrest s') = true) by exact (ti_live _ _ _ _ Hi'). wp_simpl. done.
Qed.

(** The connect request [r] succeeded: its handle becomes that of the source link. *)
Lemma inv_connected lk src str w r h : tinv lk src str w → creqs w !! r = Some (true, h) →
  (∀ x l c, str !! x ≠ Some (mkstream (Some l) c)) →
  tinv (Some source_link) (Some (mksource (Some h) None None)) (<[h := mkstream (Some the_link) false]> str)
    (w <| tcp := (tcp w) <| conn_req := None |> <| conn := Some h |> |> <| creqs := delete r (creqs w) |>).
Proof.
  intros Hi Hr Hno. destruct (ti_creqs _ _ _ _ Hi r true h Hr) as (Hh & Hcl & Hf). cbn in Hh.
  assert (conn_req (tcp w) = Some r) as Hcr by (apply (ti_creq _ _ _ _ Hi); by exists h). destruct Hi.
  assert (resolve_req (tcp w) = None) as Hrr by (destruct ti_one0; [done|congruence]).
  split; cbn; try done.
  - destruct ti_link0 as [?|(?&?&?&?&?)]; [by left|congruence].
  - intros x. split; [|done]. intros [y [Hne Hy]%lookup_delete_Some].
    assert (conn_req (tcp w) = Some x) by (apply ti_creq0; by exists y). congruence.
  - intros x d y [Hne Hx]%lookup_delete_Some. destruct (ti_creqs0 x d y Hx) as (H1 & H2). split; [|done].
    rewrite lookup_insert_ne; [done|]. intros <-. by apply Hne, (ti_inj0 r x true d h).
  - intros x x' d d' y [_ Hx]%lookup_delete_Some [_ Hx']%lookup_delete_Some. by eapply ti_inj0.
  - intros x Hx. destruct (ti_free0 x Hx). split; [|done]. rewrite lookup_insert_ne by congruence. done.
  - intros x Hx. rewrite lookup_insert_ne by congruence. by apply ti_closed0.
  - intros x l c [[<- [= <- <-]]|[_ Hx]]%lookup_insert_Some; [|by apply Hno in Hx]. split; [done|].
    eexists. split; [done|]. done.
  - intros x [= <-]. exists false. left. apply lookup_insert_eq.
  - by right.
  - rewrite Hrr. intros [[? ?]|[? ?]]; done.
Qed.

(** It failed: the handle is closed. *)
Lemma inv_connect_failed lk src str w r h : tinv lk src str w → creqs w !! r = Some (true, h) →
  tinv lk src (<[h := mkstream None true]> str)
    (w <| tcp := (tcp w) <| conn_req := None |> <| conn := None |> |> <| free_on_close := free_on_close w ∪ {[h]} |>
       <| creqs := delete r (creqs w) |>).
Proof.
  intros Hi Hr. assert (conn_req (tcp w) = Some r) as Hcr by (apply (ti_creq _ _ _ _ Hi); by exists h).
  pose proof (inv_creq_cancel _ _ _ _ r h Hi Hr) as Hi1.
  pose proof (inv_creq_done _ _ _ _ r false h Hi1 ltac:(apply lookup_insert_eq) eq_refl) as Hi2.
  cbn in Hi2. rewrite delete_insert_eq in Hi2. apply (inv_no_conn _ _ _ _ Hi2). cbn. intros x l Hx Hs.
  destruct (ti_conn _ _ _ _ Hi x Hx) as [c Hxs]. destruct (decide (x = h)) as [->|]; [by rewrite lookup_insert_eq in Hs|].
  rewrite lookup_insert_ne in Hs by done. destruct Hxs as [Hxs|[Hxs Hcl]].
  - assert (c = false) as -> by congruence. destruct (ti_data _ _ _ _ Hi _ _ _ Hxs) as (_ & _ & _ & _ & _ & _ & ? & _). congruence.
  - pose proof (ti_closed _ _ _ _ Hi x Hcl). congruence.
Qed.

Lemma connected_wp r st s : inv s → enabled (EConnected r st) s →
  wp (do_connected r st) (λ _ s', inv s' ∧ accounted (lrest s) (lrest s')) s.
Proof.
  intros Hi (d & h & k & Hr & Hk & Hst & Hns). destruct (ti_creqs _ _ _ _ Hi r d h Hr) as (Hh & _).
  assert (k = mkstream None (negb d)) as -> by congruence. cbn in Hst.
  unfold TcpSrc.tcp_connect_cb. tcp_unfold. wp_simpl. rewrite Hr. wp_simpl. destruct d; cbn [negb]; wp_simpl; cycle 1.
  { unfold stream_get. wp_simpl. rewrite Hh. wp_simpl. cbn [st_closing negb when]. wp_simpl.
    split; [exact (inv_creq_done _ _ _ _ r false h Hi Hr eq_refl)|done]. }
  assert (conn_req (tcp (lrest s)) = Some r) as Hcr by (apply (ti_creq _ _ _ _ Hi); by exists h).
  assert (resolve_req (tcp (lrest s)) = None) as Hrr by (destruct (ti_one _ _ _ _ Hi); [done|congruence]).
  assert (attempt (lrest s) = 1%nat) as Hat by (unfold attempt; by rewrite Hrr, Hcr).
  assert (is_Some (connect_cb (tcp (lrest s)))) as Hcb by (apply (ti_cb _ _ _ _ Hi); right; by eexists).
  assert (ts_link (tcp (lrest s)) = Some the_link) as Hl by (destruct (ti_link _ _ _ _ Hi) as [?|(_ & _ & ? & _)]; [done|congruence]).
  destruct (Z.eqb_spec st UV_ECANCELED) as [Heq|_]; [by apply Hst in Heq|].
  destruct (Z.eqb_spec st 0) as [->|Hst0]; wp_simpl.
  - assert (∀ x l c, streams s !! x ≠ Some (mkstream (Some l) c)) as Hno.
    { intros x l c Hx. destruct c; [by apply Hns; exists x, l|].
      destruct (ti_data _ _ _ _ Hi _ _ _ Hx) as (_ & _ & _ & _ & _ & _ & ? & _). congruence. }
    unfold tcp_connected, stream_get. tcp_unfold. wp_simpl. cbn [streams update_with]. rewrite Hh. wp_simpl.
    cbn [lrest update_with tcp ts_link]. rewrite Hl. wp_simpl.
    unfold uv_link_source_init, uv_link_init, stream_get, link_put. tcp_unfold. wp_simpl. change (negb (0 =? 0)) with false. wp_simpl.
    cbn [streams update_with]. rewrite Hh. wp_simpl. apply call_connect_cb_wp; [live|done|]. intros cb. wp_simpl.
    split; [|unfold accounted, attempt at 1; cbn; rewrite Hrr, Hat, length_app; cbn; lia].
    unfold inv. cbn. rewrite !lookup_insert_eq. apply (inv_tlog _ _ _ _ _ (inv_connected _ _ _ _ r h Hi Hr Hno)).
  - apply uv_close_free_wp; [done|]. wp_simpl. apply call_connect_cb_wp; [live|done|]. intros cb. wp_simpl.
    split; [|unfold accounted, attempt at 1; cbn; rewrite Hrr, Hat, length_app; cbn; lia].
    exact (inv_tlog _ _ _ _ _ (inv_connect_failed _ _ _ _ r h Hi Hr)).
Qed.

(** A handle that is freed on close is closed. *)
Lemma inv_free_closed lk src str w h : tinv lk src str w → h ∈ free_on_close w → (∀ r d, creqs w !! r ≠ Some (d, h)) →
  tinv lk src str (w <| closed := closed w ∪ {[h]} |> <| free_on_close := free_on_close w ∖ {[h]} |>).
Proof.
  intros Hi Hf Hno. destruct (ti_free _ _ _ _ Hi h Hf) as [Hh Hcl]. destruct Hi. split; cbn; try done.
  - intros r d x Hr. destruct (ti_creqs0 r d x Hr) as (H1 & H2 & H3). assert (x ≠ h) by (intros ->; by eapply Hno).
    split; [done|]. in_sets.
  - intros x [Hx Hxh%not_elem_of_singleton]%elem_of_difference. destruct (ti_free0 x Hx) as [H1 H2]. split; [done|]. in_sets.
  - intros x [Hx| ->%elem_of_singleton]%elem_of_union; [by apply ti_closed0|done].
  - intros x Hx. destruct (ti_conn0 x Hx) as [c Hc]. exists c. in_sets.
Qed.

(** The stream of the link is closed. *)
Lemma inv_source_closed lk lk' src sr' str w h l : tinv lk src str w → str !! h = Some (mkstream l true) →
  h ∉ free_on_close w → (∀ r d, creqs w !! r ≠ Some (d, h)) → (l = None → sr' = src ∧ lk' = lk) →
  tinv lk' sr' (<[h := mkstream None true]> str) (w <| closed := closed w ∪ {[h]} |>).
Proof.
  intros Hi Hh Hf Hno Hl. destruct Hi.
  assert (∀ x k, x ≠ h → str !! x = Some k → <[h := mkstream None true]> str !! x = Some k) as Hkeep
    by (intros x k Hx Hk; by rewrite lookup_insert_ne).
  split; cbn; try done.
  - destruct ti_link0 as [?|(?&?&?&?&Hd)]; [by left|right]. split_and!; try done.
    intros x k [[<- <-]|[_ Hx]]%lookup_insert_Some; [done|by eapply Hd].
  - intros r d x Hr. destruct (ti_creqs0 r d x Hr) as (H1 & H2 & H3). assert (x ≠ h) by (intros ->; by eapply Hno).
    split; [by apply Hkeep|]. in_sets.
  - intros x Hx. destruct (ti_free0 x Hx) as [H1 H2]. assert (x ≠ h) by (by intros ->). split; [by apply Hkeep|]. in_sets.
  - intros x Hx. destruct (decide (x = h)) as [->|]; [apply lookup_insert_eq|]. apply Hkeep; [done|]. apply ti_closed0. in_sets.
  - intros x y c [[_ ?]|[Hne Hx]]%lookup_insert_Some; [congruence|]. destruct l as [l|].
    + destruct (ti_data0 x y c Hx) as (_ & sr & H1 & H2 & _), (ti_data0 h l true Hh) as (_ & sr2 & H3 & H4 & _). congruence.
    + destruct (Hl eq_refl) as [-> ->]. by apply ti_data0.
  - intros x Hx. destruct (decide (x = h)) as [->|].
    + exists true. right. rewrite lookup_insert_eq. split; [done|]. in_sets.
    + destruct (ti_conn0 x Hx) as [c Hc]. exists c. rewrite lookup_insert_ne by done. in_sets.
Qed.

(** Afterwards the connection is not open, and may be freed. *)
Lemma link_close_cb_wp s : inv s → (∀ h l c, streams s !! h ≠ Some (mkstream (Some l) c)) →
  wp link_close_cb (λ _ s', inv s' ∧ tlog (lrest s') = tlog (lrest s) ∧ attempt (lrest s') = attempt (lrest s)) s.
Proof.
  intros Hi Hno. unfold link_close_cb. tcp_unfold. wp_simpl. destruct (conn (tcp (lrest s))) as [h|] eqn:Hc; [|by wp_simpl].
  assert (h ∈ closed (lrest s)) as Hcl.
  { destruct (ti_conn _ _ _ _ Hi h Hc) as [c [Hh|[_ ?]]]; [by apply Hno in Hh|done]. }
  wp_simpl. apply free_handle_wp; [done|done|]. wp_simpl. split; [|done].
  pose proof (inv_no_conn _ _ _ _ Hi) as Hi2.
  specialize (Hi2 ltac:(intros x l Hx; assert (x = h) as -> by congruence; rewrite (ti_closed _ _ _ _ Hi h Hcl); congruence)).
  exact (inv_freed _ _ _ _ h Hi2 Hcl ltac:(done)).
Qed.

Lemma closed_wp h s : inv s → enabled (EClosed h) s →
  wp (do_handle_closed h) (λ _ s', inv s' ∧ tlog (lrest s') = tlog (lrest s) ∧ attempt (lrest s') = attempt (lrest s)) s.
Proof.
  intros Hi ((k & Hk & Hcl) & Hnc & Hno). unfold TcpSrc.handle_closed. tcp_unfold. wp_simpl. cbn [lrest update_with free_on_close].
  case_bool_decide as Hf; wp_simpl.
  - set (s1 := s <| lrest := (lrest s) <| closed := closed (lrest s) ∪ {[h]} |> <| free_on_close := free_on_close (lrest s) ∖ {[h]} |> |>).
    assert (inv s1) as Hi1 by (by apply inv_free_closed). change (wp (free_handle h) (λ _ s', inv s' ∧ tlog (lrest s') = tlog (lrest s) ∧
      attempt (lrest s') = attempt (lrest s)) s1).
    assert (h ∈ closed (lrest s1)) as Hcl1 by (cbn; in_sets). apply free_handle_wp; [done|done|]. split; [|done].
    apply (inv_freed _ _ _ _ h Hi1 Hcl1). cbn. intros Hc. destruct (ti_free _ _ _ _ Hi h Hf) as [Hh Hh2].
    destruct (ti_conn _ _ _ _ Hi h Hc) as [c [?|[_ ?]]]; [congruence|done].
  - unfold uv_link_source_close_cb, stream_get, source_get. tcp_unfold. wp_simpl. cbn [streams update_with]. rewrite Hk. wp_simpl.
    destruct k as [[l|] c]; cbn in Hcl; subst c; cbn [st_data]; wp_simpl; cycle 1.
    { split; [|done]. exact (inv_source_closed _ _ _ _ _ _ h None Hi Hk Hf Hno ltac:(done)). }
    destruct (ti_data _ _ _ _ Hi h l true Hk) as (-> & sr & Hsr & Hst & (Hto & Hcb) & [lk Hlk]).
    cbn [sources update_with]. rewrite Hsr. wp_simpl.
    pose proof (λ lk' sr', inv_source_closed _ lk' _ sr' _ _ h (Some the_link) Hi Hk Hf Hno ltac:(done)) as Hi2.
    destruct Hcb as [Hcb|(Hcb & kk & cb & Hkk & Hw & Hsv & Hne)]; rewrite Hcb, Hto; wp_simpl; unfold run_close_cb.
    + unfold TcpSrc.tcp_app_close. change (TCP_LINK_CLOSE =? TCP_LINK_CLOSE) with true. cbn iota.
      eapply wp_mono; [apply link_close_cb_wp; [unfold inv; cbn; apply Hi2|]|done].
      intros x l c. cbn. intros [[_ [=]]|[Hne Hx]]%lookup_insert_Some.
      destruct (ti_data _ _ _ _ Hi x l c Hx) as (_ & sr2 & Hsr2 & Hst2 & _). congruence.
    + unfold uv_link_close_join. wp_simpl. eapply wp_link_modify; [exact Hkk|]. wp_simpl.
      eapply wp_link_get; [apply lookup_insert_eq|]. cbn [close_waiting saved_close_cb update_with]. rewrite Hw.
      change (i32 (1 - 1) =? 0) with true. cbn iota. rewrite Hsv. unfold TcpSrc.tcp_app_close.
      destruct (Z.eqb_spec cb TCP_LINK_CLOSE); [done|]. tcp_unfold. wp_simpl. split; [|done]. unfold inv. cbn. apply Hi2.
Qed.

Lemma client_close_wp cb s : inv s → enabled (EClientClose cb) s →
  wp (uv_link_close tcp_vt 0 the_link cb) (λ _ s', inv s' ∧ lrest s' = lrest s) s.
Proof.
  intros Hi ((h & Hc & Hh) & Hcb). destruct (ti_data _ _ _ _ Hi h _ _ Hh) as (_ & sr & Hsr & Hst & Hlk & _).
  unfold uv_link_close, uv_link_propagate_close. wp_simpl. eapply wp_link_get; [exact Hlk|]. cbn [child source_link].
  rewrite bool_decide_eq_false_2 by (by intros []). wp_simpl.
  assert (find_root (size (links s)) the_link 1 s = Ret ((the_link, 1), s)) as Hroot.
  { destruct (size (links s)); cbn; unfold link_get, mbind, M_bind, get; rewrite Hlk; done. }
  unfold wp at 1. rewrite Hroot. wp_simpl. eapply wp_link_modify; [exact Hlk|]. cbn [close_loop]. wp_simpl.
  eapply wp_link_get; [apply lookup_insert_eq|]. cbn [child source_link update_with]. wp_simpl.
  eapply wp_link_get; [apply lookup_insert_eq|]. cbn [close_depth source_link update_with]. change (0 =? 0) with true. cbn iota.
  cbn [tcp_vt m_close uv_link_source_methods]. unfold uv_link_source_close, source_get, stream_get. tcp_unfold. wp_simpl.
  cbn [sources update_with]. rewrite Hsr. wp_simpl. rewrite Hst. wp_simpl. cbn [streams update_with]. rewrite Hh. wp_simpl.
  cbn [st_closing]. wp_simpl. destruct (size (links s)); cbn [close_loop]; wp_simpl; (split; [|done]); unfold inv; cbn;
    rewrite !lookup_insert_eq; (eapply inv_source_closing; [exact Hi|done..| |by eexists]); (split; [done|right]); (split; [done|]);
    eexists _, cb; (split; [reflexivity|]); done.
Qed.

(** ** Runs *)

Definition tcp_zero : L := mkl ∅ ∅ ∅ ∅ ∅ ∅ [] (mkworld (mktcp None None None None None 0 false) true ∅ ∅ ∅ ∅ []).

Definition started (e : entry) : nat := match e with EConnect _ rc => if rc =? 0 then 1 else 0 | _ => 0 end.
Definition cancelled (e : entry) s : nat := match e with ECancel => attempt (lrest s) | _ => 0 end.

(** The states of a source after [n] connection attempts were started and [c] cancelled. *)
Inductive reach : L → nat → nat → Prop :=
  | reach_init s rc : tcp_src_init the_link tcp_zero = Ret (rc, s) → reach s 0 0
  | reach_step s e s' n c : reach s n c → enabled e s → exec e s = Ret (tt, s') → reach s' (n + started e) (c + cancelled e s).

Lemma step_wp e s : inv s → enabled e s →
  wp (exec e) (λ _ s', inv s' ∧ (length (tlog (lrest s')) + attempt (lrest s') + cancelled e s =
    length (tlog (lrest s)) + attempt (lrest s) + started e)%nat) s.
Proof.
  intros Hi He. unfold accounted in *. destruct e; cbn [exec started cancelled].
  - wp_call (by apply connect_wp). intros r s' (-> & Hi' & Ht & Hc & Hr). wp_simpl. split; [done|].
    destruct He as (_ & Hr0 & Hc0). unfold attempt at 2. rewrite Ht, Hr0, Hc0. unfold attempt. rewrite Hc.
    destruct (Z.eqb_spec rc 0), (resolve_req (tcp (lrest s'))); try lia.
    + by destruct Hr as [_ [? ?]].
    + by destruct Hr as [Hr _]; rewrite Hr in *.
  - eapply wp_mono; [by apply cancel_wp|]. intros [] s' (Hi' & Hr & Hc & Ht). split; [done|].
    unfold attempt at 1. rewrite Ht, Hr, Hc. lia.
  - eapply wp_mono; [by apply release_wp|]. intros [] s' (Hi' & Hw). split; [done|]. rewrite Hw. unfold attempt. cbn. lia.
  - eapply wp_mono; [by apply client_close_wp|]. intros [] s' (Hi' & ->). done.
  - unfold tcp_src_free. eapply wp_mono; [apply wp_conj; [by apply free_wp|]|].
    + instantiate (1 := λ _ s', tlog (lrest s') = tlog (lrest s) ∧ attempt (lrest s') = attempt (lrest s)).
      unfold tcp_src_free. tcp_unfold. wp_simpl. by destruct (ts_link (tcp (lrest s))); wp_simpl.
    + intros [] s' (Hi' & -> & ->). done.
  - eapply wp_mono; [by apply resolve_wp|]. intros [] s' (Hi' & Ha). split; [done|]. unfold accounted in Ha. lia.
  - eapply wp_mono; [by apply connected_wp|]. intros [] s' (Hi' & Ha). split; [done|]. unfold accounted in Ha. lia.
  - eapply wp_mono; [by apply closed_wp|]. intros [] s' (Hi' & -> & ->). done.
Qed.

Lemma inv_init s rc : tcp_src_init the_link tcp_zero = Ret (rc, s) → inv s.
Proof.
  intros [= <- <-]. split; cbn; try done; try by left. all: intros; rewrite ?lookup_empty; naive_solver.
Qed.

Lemma reach_inv s n c : reach s n c →
  inv s ∧ n = (length (tlog (lrest s)) + attempt (lrest s) + c)%nat.
Proof.
  induction 1 as [s rc H|s e s' n c Hr [Hi Hn] He Hx].
  - split; [by eapply inv_init|]. by injection H as <- <-.
  - pose proof (step_wp e s Hi He) as Hw. unfold wp in Hw. rewrite Hx in Hw. destruct Hw as [Hi' Hc]. split; [done|]. lia.
Qed.


(** C12: every connection attempt is answered: it is under way, or was cancelled, or has had
    exactly one callback. *)
Theorem tcp_connect_answered s n c : reach s n c → n = (length (tlog (lrest s)) + attempt (lrest s) + c)%nat.
Proof. by intros [_ ?]%reach_inv. Qed.
End TcpProofs.

(** ** Witnesses *)

(** A connection is made, the client closes it and releases it. *)
Definition session : list entry :=
  [EConnect 5 0; EResolved 0 0 0 0; EConnected 0 0; EClientClose 7; EClosed 0; ERelease].

Fixpoint run (l : list entry) (s : lstate unit tcp_world) : outcome (unit * lstate unit tcp_world) :=
  match l with [] => Ret (tt, s) | e :: l => match exec (-125) 3 e s with Ret (_, s) => run l s | Fault f => Fault f end end.
Definition tcp_new : lstate unit tcp_world := match tcp_src_init 3 tcp_zero with Ret (_, s) => s | Fault _ => tcp_zero end.
Definition after (n : nat) : lstate unit tcp_world := match run (take n session) tcp_new with Ret (_, s) => s | Fault _ => tcp_zero end.

Lemma after_1 : reach (-125) 3 (after 1) 1 0.
Proof.
  apply (reach_step (-125) 3 tcp_new (EConnect 5 0) (after 1) 0 0); [apply (reach_init (-125) 3 tcp_new 0)| |];
    [vm_compute; reflexivity|vm_compute; auto|vm_compute; reflexivity].
Qed.
Lemma after_2 : reach (-125) 3 (after 2) 1 0.
Proof.
  apply (reach_step (-125) 3 (after 1) (EResolved 0 0 0 0) (after 2) 1 0); [apply after_1| |].
  - exists true. vm_compute. reflexivity.
  - vm_compute. reflexivity.
Qed.
Lemma after_2_enabled : enabled (-125) 3 (EConnected 0 0) (after 2).
Proof.
  exists true, 0, (mkstream None false). split_and!; [vm_compute; reflexivity|vm_compute; reflexivity|split; discriminate|].
  intros (h & l & Hh). assert (streams (after 2) = {[ 0 := mkstream None false ]}) as Hs by (vm_compute; reflexivity).
  rewrite Hs in Hh. by apply lookup_singleton_Some in Hh as [_ [=]].
Qed.


Lemma tcp_connect_answered_witness :
  1%nat = (length (tlog (lrest (after 3))) + attempt (lrest (after 3)) + 0)%nat ∧ tlog (lrest (after 3)) = [TConnectCb 5 0].
Proof.
  split; [|vm_compute; reflexivity]. apply (tcp_connect_answered (-125) 3 (after 3) 1 0).
  apply (reach_step (-125) 3 (after 2) (EConnected 0 0) (after 3) 1 0 after_2 after_2_enabled). vm_compute. reflexivity.
Defined.

(** The whole session leaves nothing behind. *)
Lemma session_clean : ∃ s, run session tcp_new = Ret (tt, s) ∧ streams s = ∅ ∧ creqs (lrest s) = ∅ ∧ rreqs (lrest s) = ∅ ∧
  llog s = [LUvClose 0; LClosed 7 3].
Proof. eexists. split; [vm_compute; reflexivity|]. repeat split. Qed.

(** When [uv_tcp_init_ex] fails the handle made for it is neither kept nor freed. *)
Theorem init_failure_leaks : ∃ s, run [EConnect 5 0; EResolved 0 0 (-24) 0] tcp_new = Ret (tt, s) ∧
  streams s = {[ 0 := mkstream None false ]} ∧ conn (tcp (lrest s)) = None ∧ creqs (lrest s) = ∅ ∧ free_on_close (lrest s) = ∅.
Proof. eexists. split; [vm_compute; reflexivity|]. repeat split. Qed.
