(* ===== verification/Stream.v ===== *)
(** * The TLS stream (src/tlsuv.c, include/tlsuv/tlsuv.h)

    A client of the library that looks like a libuv stream: it connects with a TCP source
    (TcpSrc.v), puts a TLS link (TlsLink.v) with an engine of its own on the source link
    and its own link on top, and reports the end of the handshake to its user.  The user's
    requests are memory of the user: what is kept of them is their callback. *)
From S2P Require Import Prelude UvLink TlsEngine TlsLink TcpSrc.
From stdpp Require Import base gmap numbers list.
From Stdlib Require Import ZArith Lia.
Open Scope Z_scope.

(** The fields of [tlsuv_stream_t] after those of its link; [socket] is not NULL or is,
    the source itself being [sock] below. *)
Record tlsuv_stream_s := mkclt {
  socket : bool;
  tls : option tls_context;
  tls_engine : option Z;
  host : option (list Z);
  stream_req : option Z;      (* conn_req *)
  stream_close_cb : option Z; (* close_cb *)
}.
#[export] Instance tlsuv_stream_upd : Updatable tlsuv_stream_s := fun c =>
  mkclt (socket c) (tls c) (tls_engine c) (host c) (stream_req c) (stream_close_cb c).

(** Calls of the user. *)
Inductive sevent := SConnectCb (req cb st : Z) | SWriteCb (req cb st : Z) | SCloseCb (cb : Z).

Record stream_world := mksw {
  clt : tlsuv_stream_s;
  sock : tcp_world;
  tls_vars : tls_globals;
  conn_cbs : gmap Z Z;    (* uv_connect_t: cb *)
  write_cbs : gmap Z Z;   (* uv_write_t: cb *)
  slog : list sevent;
}.
#[export] Instance stream_world_upd : Updatable stream_world := fun w =>
  mksw (clt w) (sock w) (tls_vars w) (conn_cbs w) (write_cbs w) (slog w).

#[export] Instance stream_has_tcp `{TlsEngine} : HasTcp (tls_state stream_world) :=
  mkHasTcp _ (λ r, sock (more r)) (λ f r, r <| more := (more r) <| sock := f (sock (more r)) |> |>).

(** The callbacks of tlsuv.c that are handed to other components. *)
Definition ON_MBED_CLOSE : Z := 2.
Definition ON_SRC_CONNECT : Z := 3.
Definition ON_TLS_HS : Z := 4.
(** The kind of [mbed_methods]. *)
Definition KStream : kind := KUser 0.
Definition UINT16_MAX : Z := 65535.

Section Stream.
Context `{TlsEngine}.
Abbreviation L := (lstate write_fn (tls_state stream_world)).
Context (vt : kind → uv_link_methods_t write_fn (tls_state stream_world)).
Context (UV_ERRNO_MAX UV_EINVAL UV_EFAULT UV_ECANCELED UV_ECONNABORTED UV_EALREADY : Z).
(** The addresses of the three links: of the source, the TLS link and the stream. *)
Context (src_link tls_link self : lid).
(** The TLS implementation makes an engine for a host; the user's callbacks. *)
Context (new_engine : tls_context → option (list Z) → engine_t)
  (user_connect : Z → Z → M L unit) (user_close : Z → M L unit).

Definition sw : M L stream_world := gets (λ s, more (lrest s)).
Definition set_sw (f : stream_world → stream_world) : M L unit := set_rest (λ r, r <| more := f (more r) |>).
Definition the_clt : M L tlsuv_stream_s := w ← sw; mret (clt w).
Definition set_clt (f : tlsuv_stream_s → tlsuv_stream_s) : M L unit := set_sw (λ w, w <| clt := f (clt w) |>).
Definition semit (e : sevent) : M L unit := set_sw (λ w, w <| slog := slog w ++ [e] |>).

(** [req->cb(req, status)] *)
Definition call_conn_cb (req st : Z) : M L unit :=
  w ← sw; cb ← from_opt UseAfterFree (conn_cbs w !! req); semit (SConnectCb req cb st);; user_connect req st.

(** [calloc] and [free] of the source *)
Definition alloc_src : M L unit :=
  set_world (λ w, w <| tcp := mktcp None None None None None 0 false |> <| src_live := true |>).
Definition free_src : M L unit :=
  w ← world; if src_live w then set_world (λ w, w <| src_live := false |>) else fail_with DoubleFree.
(** [calloc], [tcp_src_init] *)
Definition make_socket : M L unit :=
  alloc_src;; set_clt (λ c, c <| socket := true |>);; tcp_src_init src_link;; mret tt.

(** [get_default_tls()] *)
Definition run_tls_vars {A} (m : M tls_globals A) : M L A :=
  w ← sw; '(a, g) ← liftO (m (tls_vars w)); set_sw (λ w, w <| tls_vars := g |>);; mret a.

Definition tlsuv_stream_init (ctx : option tls_context) : M L Z :=
  make_socket;;
  uv_link_init self KStream;;
  t ← match ctx with Some t => mret (Some t) | None => run_tls_vars get_default_tls end;
  set_clt (λ c, c <| tls := t |> <| tls_engine := None |> <| host := None |> <| stream_req := None |>
                  <| stream_close_cb := None |>);;
  mret 0.

(** [clt->tls->api->free_engine(clt->tls_engine)] *)
Definition free_engine : M L unit :=
  c ← the_clt;
  match tls_engine c with
  | Some e =>
    from_opt NullDeref (tls c);;
    s ← get;
    if bool_decide (engines (lrest s) !! e = None) then fail_with DoubleFree
    else set_rest (λ r, r <| engines := delete e (engines r) |>)
  | None => mret tt
  end.

(** The close callback of tcp_src.c runs inside [socket->cancel] only. *)
Definition no_close (cb : Z) (l : lid) : M L unit := fail_with BadCast.

Definition on_mbed_close : M L unit :=
  c ← the_clt;
  match stream_req c with
  | Some req => set_clt (λ c, c <| stream_req := None |>);; call_conn_cb req UV_ECANCELED
  | None => mret tt
  end;;
  c ← the_clt;
  when (socket c)
    (tcp_src_cancel no_close;; tcp_src_release;; tcp_src_free;; free_src;;
     set_clt (λ c, c <| socket := false |>));;
  c ← the_clt;
  match stream_close_cb c with
  | Some cb => semit (SCloseCb cb);; user_close cb
  | None => mret tt
  end.

(** The close callbacks of the program. *)
Definition stream_app_close (cb : Z) (l : lid) : M L unit :=
  if cb =? ON_MBED_CLOSE then on_mbed_close else tcp_app_close no_close cb l.

Definition tlsuv_stream_close (cb : option Z) : M L Z :=
  set_clt (λ c, c <| stream_close_cb := cb |>);;
  uv_link_propagate_close vt UV_EINVAL self self ON_MBED_CLOSE;;
  mret 0.

(** [clt->socket] as an argument of the source's functions, which read it. *)
Definition with_socket {A} (m : M L A) : M L A :=
  c ← the_clt; if socket c then m else fail_with NullDeref.
(** [rc] is libuv's result for an open connection. *)
Definition tlsuv_stream_keepalive (on : bool) (delay rc : Z) : M L Z := with_socket (tcp_src_keepalive on delay rc).
Definition tlsuv_stream_nodelay (v : bool) (rc : Z) : M L Z := with_socket (tcp_src_nodelay v rc).

Definition on_tls_hs (st : tls_handshake_state) : M L unit :=
  c ← the_clt;
  match stream_req c with
  | None => mret tt
  | Some req =>
    match st with
    | TLS_HS_COMPLETE => call_conn_cb req 0
    | TLS_HS_ERROR => call_conn_cb req UV_ECONNABORTED
    | _ => call_conn_cb req UV_EINVAL
    end;;
    set_clt (λ c, c <| stream_req := None |>)
  end.
(** The handshake callbacks of the program. *)
Definition stream_app_hs (cb : Z) (l : lid) (st : tls_handshake_state) : M L unit :=
  if cb =? ON_TLS_HS then on_tls_hs st else fail_with BadCast.

Definition on_src_connect (st : Z) : M L unit :=
  c ← the_clt;
  if st =? 0 then
    free_engine;;
    ctx ← from_opt NullDeref (tls c);
    s ← get;
    let e := fresh (dom (engines (lrest s))) in
    set_rest (λ r, r <| engines := <[e := new_engine ctx (host c)]> (engines r) |>);;
    set_clt (λ c, c <| tls_engine := Some e |>);;
    tlsuv_tls_link_init tls_link (Some e) ON_TLS_HS;;
    uv_link_init self KStream;;
    t ← src;
    l ← from_opt NullDeref (ts_link t);
    uv_link_chain vt UV_EINVAL l tls_link;;
    uv_link_chain vt UV_EINVAL tls_link self;;
    uv_link_read_start vt UV_ERRNO_MAX UV_EFAULT (Some self);;
    mret tt
  else
    req ← from_opt NullDeref (stream_req c);
    call_conn_cb req st;;
    set_clt (λ c, c <| stream_req := None |>).
(** The connect callbacks of the program. *)
Definition stream_app_connect (cb st : Z) : M L unit :=
  if cb =? ON_SRC_CONNECT then on_src_connect st else fail_with BadCast.

(** [rc] is the result of [uv_getaddrinfo]. *)
Definition tlsuv_stream_connect (req : option Z) (h : list Z) (port cb rc : Z) : M L Z :=
  match req with
  | None => mret UV_EINVAL
  | Some req =>
    if (port <=? 0) || (UINT16_MAX <? port) then mret UV_EINVAL else
    c ← the_clt;
    match stream_req c with
    | Some _ => mret UV_EALREADY
    | None =>
      set_sw (λ w, w <| conn_cbs := <[req := cb]> (conn_cbs w) |>);;
      set_clt (λ c, c <| host := Some h |> <| stream_req := Some req |>);;
      c ← the_clt;
      when (negb (socket c)) make_socket;;
      tcp_src_connect no_close ON_SRC_CONNECT rc
    end
  end.

Definition tlsuv_stream_read (alloc read : option Z) : M L Z :=
  link_modify self (λ k, k <| alloc_cb := CbApp <$> alloc |> <| read_cb := CbApp <$> read |>);; mret 0.

(** A write request is the argument of the link's write callback. *)
Definition on_mbed_link_write (req : Z) (l : option lid) (st : Z) : M L unit :=
  w ← sw; cb ← from_opt UseAfterFree (write_cbs w !! req); semit (SWriteCb req cb st).
Definition tlsuv_stream_write (req : Z) (buf : list Z) (cb : Z) : M L Z :=
  set_sw (λ w, w <| write_cbs := <[req := cb]> (write_cbs w) |>);;
  uv_link_write vt UV_ERRNO_MAX UV_EFAULT self [buf] (WUser req).

Definition tlsuv_stream_free : M L Z :=
  set_clt (λ c, c <| host := None |>);;
  free_engine;;
  set_clt (λ c, c <| tls_engine := None |>);;
  c ← the_clt;
  when (socket c) (tcp_src_free;; free_src;; set_clt (λ c, c <| socket := false |>));;
  mret 0.
End Stream.
