(* ===== verification/StreamProofs.v ===== *)
(** * The TLS stream: properties of Stream.v

    The whole connection at work: the TCP source, the chain of three links, an arbitrary
    TLS engine and the stream, with the method tables of the program ([stream_vt]).  The
    user of the stream only notes the calls it gets. *)
From S2P Require Import Prelude UvLink UvLinkProofs TlsEngine TlsLink TlsLinkProofs TcpSrc TcpProofs Stream.
From stdpp Require Import base gmap numbers list.
From Stdlib Require Import ZArith Lia.
Open Scope Z_scope.

Section StreamProofs.
Context `{TlsEngine}.
Abbreviation L := (lstate write_fn (tls_state stream_world)).
Context (UV_ERRNO_MAX UV_EINVAL UV_EFAULT UV_EOF UV_ENOBUFS UV_ENOMEM UV_ECANCELED UV_ECONNABORTED UV_EALREADY : Z).
Context (uv_rc : list levent → Z) (app_alloc : Z → lid → Z → M L (option (list Z)))
  (app_read : Z → lid → Z → option (list Z) → M L unit) (malloc_ok : list levent → bool) (read_fuel : nat).
Context (src_link tls_link self : lid) (new_engine : tls_context → option (list Z) → engine_t).
Implicit Types s : L.

(** The user. *)
Definition note_conn (req st : Z) : M L unit := mret tt.
Definition note_user_close (cb : Z) : M L unit := mret tt.

Abbreviation app_close := (stream_app_close UV_ECANCELED note_conn note_user_close).
Abbreviation app_hs := (stream_app_hs UV_EINVAL UV_ECONNABORTED note_conn).
Definition stream_vt (depth : nat) : kind → uv_link_methods_t write_fn (tls_state stream_world) :=
  link_table UV_ERRNO_MAX UV_EFAULT UV_EOF UV_ENOBUFS UV_ECONNABORTED UV_ENOMEM uv_rc app_close app_alloc app_read
    malloc_ok app_hs read_fuel (λ _, None) depth.
Context (d : nat).
Abbreviation vt := (stream_vt (S (S (S (S d))))).
Abbreviation on_connect := (on_src_connect vt UV_ERRNO_MAX UV_EINVAL UV_EFAULT tls_link self new_engine note_conn).

(** A link as [uv_link_init] leaves it, and the three links of a connection. *)
Definition link0 (m : kind) : uv_link_s :=
  mklink None None (Some CbDef) (Some CbDef) m None None (prefix_of 1) 0 0 None None.
Definition src_up : uv_link_s := chained_from tls_link (link0 KSource) (link0 KTls).
Definition tls_up : uv_link_s := chained_from self (chained_to src_link (link0 KSource) (link0 KTls)) (link0 KStream).
Definition self_up : uv_link_s := chained_to tls_link (chained_to src_link (link0 KSource) (link0 KTls)) (link0 KStream).

(** The connection over handle [st] is set up, with engine [e] in state [x]. *)
Record up s (st e : Z) (x : engine_t) : Prop := {
  up_apart : NoDup [src_link; tls_link; self];
  up_src : links s !! src_link = Some src_up;
  up_tls : links s !! tls_link = Some tls_up;
  up_self : links s !! self = Some self_up;
  up_source : ∃ sr, sources s !! src_link = Some sr ∧ stream sr = Some st;
  up_stream : streams s !! st = Some (mkstream (Some src_link) false);
  up_link : tls_links (lrest s) !! tls_link = Some (mktls (Some e) ON_TLS_HS);
  up_engine : engines (lrest s) !! e = Some x;
}.

(** The source has just connected, as [tcp_connected] leaves it. *)
Record src_connected s (st : Z) : Prop := {
  sc_link : links s !! src_link = Some (link0 KSource);
  sc_source : ∃ sr, sources s !! src_link = Some sr ∧ stream sr = Some st;
  sc_stream : streams s !! st = Some (mkstream (Some src_link) false);
  sc_live : src_live (sock (more (lrest s))) = true;
  sc_ptr : ts_link (tcp (sock (more (lrest s)))) = Some src_link;
}.

Context (Happ : NoDup [src_link; tls_link; self]) (Hmalloc : ∀ lg, malloc_ok lg = true) (Hrc : ∀ lg, uv_rc lg = 0)
  (Hmax : UV_ERRNO_MAX < 0).

Lemma apart : src_link ≠ tls_link ∧ src_link ≠ self ∧ tls_link ≠ self.
Proof.
  apply NoDup_cons in Happ as [H1 [H2 _]%NoDup_cons]. apply not_elem_of_cons in H1 as [? [? _]%not_elem_of_cons]. by apply not_elem_of_cons in H2 as [? _].
Qed.

(** Two heaps with the same links. *)
Ltac same_links :=
  apply map_eq; intros i;
  destruct (decide (i = self)) as [->|]; [|destruct (decide (i = tls_link)) as [->|]; [|destruct (decide (i = src_link)) as [->|]]];
  repeat first [rewrite lookup_insert_eq | rewrite lookup_insert_ne by congruence]; done.

(** What [on_src_connect] does to the state but for the handshake. *)
Definition linked_up e ctx s : L :=
  let w := more (lrest s) in
  s <| links := <[self := self_up]> (<[tls_link := tls_up]> (<[src_link := src_up]> (links s))) |>
    <| lrest := mkts (<[e := new_engine ctx (host (clt w))]> (match tls_engine (clt w) with Some e0 => delete e0 | None => λ m, m end (engines (lrest s))))
                  (<[tls_link := mktls (Some e) ON_TLS_HS]> (tls_links (lrest s)))
                  (w <| clt := (clt w) <| tls_engine := Some e |> |>) |>.

Lemma wp_free_engine (Q : unit → L → Prop) s : (∀ e, tls_engine (clt (more (lrest s))) = Some e → is_Some (engines (lrest s) !! e)) →
  is_Some (tls (clt (more (lrest s)))) →
  Q tt (s <| lrest := (lrest s) <| engines := match tls_engine (clt (more (lrest s))) with Some e0 => delete e0 | None => λ m, m end (engines (lrest s)) |> |>) →
  wp free_engine Q s.
Proof.
  intros He [ctx Hctx] HQ. unfold free_engine, the_clt, sw, set_rest. wp_simpl. destruct (tls_engine (clt (more (lrest s)))) as [e0|].
  - rewrite Hctx. wp_simpl. destruct (He e0 eq_refl) as [x Hx]. rewrite bool_decide_eq_false_2 by (by rewrite Hx). by wp_simpl.
  - wp_simpl. by destruct s as [? ? ? ? ? ? ? []].
Qed.

(** The chain is built, with a new engine in place of the old one, and reading starts. *)
Lemma link_up_wp ctx st (Q : unit → L → Prop) s : src_connected s st → tls (clt (more (lrest s))) = Some ctx →
  (∀ e, tls_engine (clt (more (lrest s))) = Some e → is_Some (engines (lrest s) !! e)) →
  (∀ e, wp (uv_link_read_start vt UV_ERRNO_MAX UV_EFAULT (Some self);; mret tt) Q (linked_up e ctx s)) →
  wp (on_connect 0) Q s.
Proof.
  intros [Hl _ _ Hlive Hptr] Hctx He HQ. pose proof apart as (H12 & H13 & H23). unfold on_src_connect, the_clt, sw. wp_simpl.
  cbn [Z.eqb]. wp_simpl. apply wp_free_engine; [done|by eexists|]. wp_simpl. rewrite Hctx. wp_simpl.
  unfold tlsuv_tls_link_init, uv_link_init, set_clt, set_sw, set_rest, src, world. wp_simpl.
  set (ens := match tls_engine (clt (more (lrest s))) with Some e0 => delete e0 | None => λ m, m end (engines (lrest s))).
  change (engines (lrest (s <| lrest := _ |>))) with ens. set (e := fresh (dom ens)).
  apply wp_link_put. wp_simpl. apply wp_link_put. wp_simpl. set (s1 := s <| links := <[self := link0 KStream]> (<[tls_link := link0 KTls]> (links s)) |>
    <| lrest := mkts (<[e := new_engine ctx (host (clt (more (lrest s))))]> ens)
                  (<[tls_link := mktls (Some e) ON_TLS_HS]> (tls_links (lrest s)))
                  ((more (lrest s)) <| clt := (clt (more (lrest s))) <| tls_engine := Some e |> |>) |>).
  match goal with |- context [tcp_of (lrest ?s0)] => change s0 with s1 end. change (tcp_of (lrest s1)) with (sock (more (lrest s))).
  rewrite Hlive. wp_simpl. rewrite Hptr. wp_simpl.
  wp_call (eapply (chain_exact vt UV_EINVAL src_link tls_link (link0 KSource) (link0 KTls)); try done; cbn [links update_with s1]; find_link).
  intros rc s2 [-> ->]. wp_call (eapply (chain_exact vt UV_EINVAL tls_link self _ (link0 KStream)); try done; cbn [links update_with s1]; find_link).
  intros rc s3 [-> ->]. specialize (HQ e). autorewrite with wp in HQ. wp_simpl. revert HQ.
  match goal with |- wp _ _ ?a → wp _ _ ?b => replace b with a; [done|] end.
  transitivity (s1 <| links := <[self := self_up]> (<[tls_link := tls_up]> (<[src_link := src_up]> (links s))) |>); [done|].
  rewrite links_links, links_get. apply links_eq. cbn [links update_with s1]. same_links.
Qed.

(** The tables. *)
Lemma vt_self n : stream_vt (S n) KStream = mbed_methods (stream_vt n) UV_ERRNO_MAX UV_EFAULT app_close app_alloc app_read malloc_ok.
Proof. done. Qed.
Lemma vt_tls n : stream_vt (S n) KTls = tls_methods (stream_vt n) UV_ERRNO_MAX UV_EFAULT UV_EOF UV_ENOBUFS UV_ECONNABORTED
  app_close app_alloc app_read malloc_ok app_hs read_fuel.
Proof. done. Qed.
Lemma vt_src n : stream_vt (S n) KSource = uv_link_source_methods UV_ENOMEM uv_rc app_close malloc_ok.
Proof. done. Qed.

Lemma steady_up l k s : links s !! l = Some k → (k = src_up ∨ k = tls_up ∨ k = self_up) → steady s l k.
Proof. intros Hl Hk. split; [done|]. by destruct Hk as [-> | [-> | ->]]. Qed.

(** Reading starts at the source, and the first message of the handshake goes out. *)
Lemma read_start_up st e x hs0 hello x1 s : up s st e x → e_handshake_state x = TLS_HS_BEFORE →
  e_handshake x None TLS_BUF_SZ = Ret (hs0, hello, x1) →
  wp (uv_link_read_start vt UV_ERRNO_MAX UV_EFAULT (Some self)) (λ rc s', rc = 0 ∧ ∃ ws,
    s' = with_engine e x1 (s <| llog := llog s ++ [LReadStart st; LWrite st hello] |> <| writes := ws |>)) s.
Proof.
  intros [_ Hs Ht Hc (sr & Hsr & Hst) _ Htl He] Hb Hh. pose proof apart as (H12 & H13 & H23).
  eapply read_start_wp; [eapply steady_up; [exact Hc|auto]|]. change (methods self_up) with KStream. rewrite vt_self. cbn [mbed_methods client_methods m_read_start].
  unfold uv_link_default_read_start. link_step. change (parent (self_up <| close_depth := 1 |>)) with (Some tls_link).
  eapply read_start_wp; [eapply steady_up; [find_link|auto]|]. change (methods tls_up) with KTls. rewrite vt_tls. cbn [tls_methods m_read_start].
  unfold tls_read_start. wp_simpl. eapply wp_engine_st; [exact Htl|done|exact He|]. rewrite Hb. rewrite bool_decide_eq_false_2 by done. cbn [when]. wp_simpl.
  unfold uv_link_default_read_start. link_step. change (parent (tls_up <| close_depth := 1 |>)) with (Some src_link).
  eapply read_start_wp; [eapply steady_up; [find_link|auto]|]. change (methods src_up) with KSource. rewrite vt_src. cbn [uv_link_source_methods m_read_start].
  unfold uv_link_source_read_start, the_stream, source_get, uv_call, lemit. wp_simpl. cbn [sources update_with]. rewrite Hsr. wp_simpl. rewrite Hst. wp_simpl.
  split; [done|]. set (lk := <[tls_link := tls_up <| close_depth := 1 |>]> (<[self := self_up <| close_depth := 1 |>]> (links s))).
  match goal with |- wp _ _ ?s0 => change s0 with (s <| links := lk |> <| llog := llog s ++ [LReadStart st] |>) end.
  eapply wp_engine_op; [exact Htl|done|exact He|exact Hh|]. wp_simpl. eapply wp_link_get; [cbn [links update_with with_engine]; unfold lk; find_link|].
  eapply propagate_write_wp with (kp := src_up) (st := st); [exact Hmalloc|by rewrite vt_src|done| |apply Hrc|].
  - split; [done| |done|by exists sr]. apply steady_up; [|auto]. cbn [links update_with with_engine]. unfold lk. find_link.
  - split; [done|]. split; [done|]. unfold uv_link_error. destruct (Z.leb_spec UV_ERRNO_MAX 0); [|lia].
    destruct (Z.leb_spec UV_ERRNO_MAX 0); [|lia]. split; [done|]. eexists. unfold with_engine. cbn. rewrite <-app_assoc. reflexivity.
Qed.

(** The stream waits for the end of the handshake, on behalf of [req]. *)
Definition waiting s (req cb : Z) : Prop :=
  stream_req (clt (more (lrest s))) = Some req ∧ conn_cbs (more (lrest s)) !! req = Some cb.

Lemma linked_up_up st e ctx s : src_connected s st → up (linked_up e ctx s) st e (new_engine ctx (host (clt (more (lrest s))))).
Proof.
  intros [_ Hsr Hst _ _]. pose proof apart as (H12 & H13 & H23).
  split; try done; cbn; rewrite ?lookup_insert_eq; try done; repeat first [rewrite lookup_insert_eq | rewrite lookup_insert_ne by congruence]; done.
Qed.
Lemma up_rest s st e x x' lg ws w : up s st e x → up (s <| llog := lg |> <| writes := ws |>
  <| lrest := mkts (<[e := x']> (engines (lrest s))) (tls_links (lrest s)) w |>) st e x'.
Proof. intros []. split; try done. cbn. apply lookup_insert_eq. Qed.

(** libuv gives the source what it received in a buffer the source's [alloc_cb] made. *)
Definition received (st : Z) (bytes : list Z) : M L unit :=
  b ← uv_link_source_wrap_alloc_cb vt app_alloc malloc_ok st 65536;
  mem ← from_opt NullDeref b;
  mem ← liftO (store mem bytes);
  uv_link_source_wrap_read_cb vt UV_ERRNO_MAX UV_EFAULT app_read st (Z.of_nat (length bytes)) (Some mem).

Lemma alloc_up st e x n s (Q : option (list Z) → L → Prop) : up s st e x → e_handshake_state x = TLS_HS_CONTINUE →
  Q (Some (replicate (Z.to_nat n) 0)) s → wp (uv_link_source_wrap_alloc_cb vt app_alloc malloc_ok st n) Q s.
Proof.
  intros [_ Hs Ht Hc _ Hst Htl He] Hx HQ. pose proof apart as (H12 & H13 & H23).
  unfold uv_link_source_wrap_alloc_cb, stream_get. wp_simpl. rewrite Hst. wp_simpl. cbn [st_data]. wp_simpl.
  unfold uv_link_propagate_alloc_cb. link_step. change (default src_link (child src_up)) with tls_link.
  eapply guarded_steady; [eapply steady_up; [exact Ht|auto]|]. link_step. change (alloc_cb src_up) with (Some (CbOf KTls)). wp_simpl.
  cbn [call_alloc]. rewrite vt_tls. cbn [tls_methods m_alloc_cb_override]. wp_simpl. unfold tls_alloc. wp_simpl.
  eapply wp_engine_st; [exact Htl|done|exact He|]. rewrite Hx. wp_simpl. split; [done|]. by destruct s.
Qed.

(** The end of the handshake, for the user. *)
Definition hs_status (hs : tls_handshake_state) : option Z :=
  match hs with TLS_HS_COMPLETE => Some 0 | TLS_HS_ERROR => Some UV_ECONNABORTED | _ => None end.
Definition answered (req cb : Z) (hs : tls_handshake_state) (w : stream_world) : stream_world :=
  match hs_status hs with
  | Some st => w <| slog := slog w ++ [SConnectCb req cb st] |> <| clt := (clt w) <| stream_req := None |> |>
  | None => w
  end.

Lemma on_tls_hs_wp req cb hs st s : waiting s req cb → hs_status hs = Some st →
  wp (on_tls_hs UV_EINVAL UV_ECONNABORTED note_conn hs)
    (λ _ s', s' = s <| lrest := (lrest s) <| more := answered req cb hs (more (lrest s)) |> |>) s.
Proof.
  intros [Hr Hc] Hst. unfold answered. rewrite Hst. unfold on_tls_hs, the_clt, sw. wp_simpl. rewrite Hr.
  destruct hs; try done; injection Hst as <-; wp_simpl; unfold call_conn_cb, sw, semit, set_clt, set_sw, set_rest, note_conn; wp_simpl;
    rewrite Hc; wp_simpl; by destruct s as [? ? ? ? ? ? ? []].
Qed.

(** An error read by the stream, which nobody reads yet, changes nothing. *)
Lemma read_error_up st e x n s : up s st e x →
  wp (uv_link_propagate_read_cb (stream_vt (S (S (S d)))) UV_ERRNO_MAX UV_EFAULT app_read tls_link n None)
    (λ _ s', s' = s <| links := <[tls_link := tls_up <| close_depth := 1 |>]> (links s) |>)
    (s <| links := <[tls_link := tls_up <| close_depth := 1 |>]> (links s) |>).
Proof.
  intros [_ Hs Ht Hc _ Hst Htl He]. pose proof apart as (H12 & H13 & H23).
  unfold uv_link_propagate_read_cb at 1. link_step. change (default tls_link (child (tls_up <| close_depth := 1 |>))) with self.
  eapply guarded_steady; [eapply steady_up; [find_link|auto]|]. link_step.
  change (read_cb (tls_up <| close_depth := 1 |>)) with (Some (CbOf KStream)). wp_simpl. cbn [call_read]. rewrite vt_self.
  cbn [mbed_methods client_methods m_read_cb_override]. wp_simpl. unfold uv_link_default_read_cb_override, uv_link_propagate_read_cb. link_step.
  change (default self (child (self_up <| close_depth := 1 |>))) with self. set (n2 := if _ <? 0 then _ else _).
  eapply guarded_nested; [find_link|done|]. link_step. match goal with |- context [read_cb ?k] => change (read_cb k) with (Some CbDef) end. wp_simpl.
  cbn [call_read]. unfold uv_link_def_read_cb, uv_link_read_stop, on_link. destruct (n2 <? 0); cbn [when]; wp_simpl; [|done].
  link_step. match goal with |- context [methods ?k] => change (methods k) with KStream end. rewrite vt_self. cbn [mbed_methods client_methods m_read_stop]. by wp_simpl.
Qed.

Abbreviation guard_tls s := (s <| links := <[tls_link := tls_up <| close_depth := 1 |>]> (links s) |>).

(** The last part of a handshake step. *)
Lemma hs_end_up st e x req cb hs s : up s st e x → waiting s req cb →
  wp (match hs with
      | TLS_HS_COMPLETE => t ← tls_get tls_link; app_hs (hs_cb t) tls_link TLS_HS_COMPLETE
      | TLS_HS_ERROR => t ← tls_get tls_link; app_hs (hs_cb t) tls_link hs;;
          uv_link_propagate_read_cb (stream_vt (S (S (S d)))) UV_ERRNO_MAX UV_EFAULT app_read tls_link UV_ECONNABORTED None
      | _ => mret tt
      end) (λ _ s', s' = guard_tls (s <| lrest := (lrest s) <| more := answered req cb hs (more (lrest s)) |> |>)) (guard_tls s).
Proof.
  intros Hup Hw. pose proof (up_link _ _ _ _ Hup) as Htl.
  destruct hs; wp_simpl; [by destruct s as [? ? ? ? ? ? ? []]..| |]; unfold tls_get; wp_simpl; cbn [lrest update_with]; rewrite Htl; wp_simpl;
    unfold stream_app_hs; change (hs_cb _ =? ON_TLS_HS) with true; cbn iota.
  - by eapply wp_mono; [eapply (on_tls_hs_wp req cb _ 0); [exact Hw|done]|].
  - eapply wp_mono; [eapply (on_tls_hs_wp req cb _ UV_ECONNABORTED); [exact Hw|done]|]. intros [] s' ->.
    set (s2 := s <| lrest := (lrest s) <| more := answered req cb TLS_HS_ERROR (more (lrest s)) |> |>).
    match goal with |- wp _ _ ?s0 => change s0 with (guard_tls s2) end.
    eapply wp_mono; [eapply (read_error_up st e x)|done]. destruct Hup; by split.
Qed.

(** What goes to the peer. *)
Definition sent (st : Z) (out : list Z) : list levent := match out with [] => [] | _ => [LWrite st out] end.

(** A handshake step: bytes arrive, the engine answers, the user is told of the end. *)
Lemma hs_step_up st e x bytes hs out x' req cb s : up s st e x → waiting s req cb → e_handshake_state x = TLS_HS_CONTINUE →
  0 < Z.of_nat (length bytes) ≤ 65536 → e_handshake x (Some bytes) TLS_BUF_SZ = Ret (hs, out, x') →
  wp (received st bytes) (λ _ s', ∃ ws, s' = s <| llog := llog s ++ sent st out |> <| writes := ws |>
    <| lrest := mkts (<[e := x']> (engines (lrest s))) (tls_links (lrest s)) (answered req cb hs (more (lrest s))) |>) s.
Proof.
  intros Hup Hw Hx Hlen Hh. pose proof apart as (H12 & H13 & H23). unfold received. wp_simpl.
  eapply alloc_up; [exact Hup|exact Hx|]. wp_simpl. apply wp_store_out; [rewrite length_replicate; lia|].
  set (mem := bytes ++ _). assert (take (Z.to_nat (Z.of_nat (length bytes))) mem = bytes) as Hmem by (unfold mem; by rewrite Nat2Z.id, take_app_length).
  clearbody mem. pose proof Hup as [_ Hs Ht Hc (sr & Hsr & Hst2) Hst Htl He].
  unfold uv_link_source_wrap_read_cb, stream_get. wp_simpl. rewrite Hst. wp_simpl. cbn [st_data]. wp_simpl.
  unfold uv_link_propagate_read_cb at 1. link_step. change (default src_link (child src_up)) with tls_link.
  destruct (Z.ltb_spec (Z.of_nat (length bytes)) 0); [lia|].
  eapply guarded_steady; [eapply steady_up; [exact Ht|auto]|]. link_step. change (read_cb src_up) with (Some (CbOf KTls)). wp_simpl.
  cbn [call_read]. rewrite vt_tls. cbn [tls_methods m_read_cb_override]. wp_simpl. unfold tls_read_cb. wp_simpl.
  eapply wp_engine_st; [exact Htl|done|exact He|]. destruct (Z.ltb_spec (Z.of_nat (length bytes)) 0); [lia|]. rewrite Hx.
  destruct (Z.eqb_spec (Z.of_nat (length bytes)) 0); [lia|]. unfold tls_continue. wp_simpl.
  eapply wp_engine_op; [exact Htl|done|exact He|by rewrite Hmem|]. wp_simpl.
  set (s1 := λ ws, with_engine e x' (s <| llog := llog s ++ sent st out |> <| writes := ws |>)).
  assert (∀ ws, up (s1 ws) st e x') as Hup1 by (intros ws; destruct Hup; split; try done; apply lookup_insert_eq).
  destruct out as [|b out].
  - change (0 <? Z.of_nat (length (@nil Z))) with false. cbn [when]. wp_simpl. eapply wp_mono.
    + pose proof (hs_end_up st e x' req cb hs (s1 (writes s)) (Hup1 _) Hw) as Hend. unfold s1 in Hend. cbn [sent] in Hend.
      rewrite app_nil_r in Hend. exact Hend.
    + intros [] s' ->. split; [done|]. exists (writes s). cbn [sent]. by rewrite app_nil_r.
  - change (0 <? Z.of_nat (length (b :: out))) with true. cbn [when]. wp_simpl.
    eapply wp_link_get; [cbn [links update_with with_engine]; find_link|]. wp_simpl.
    eapply propagate_write_wp with (kp := src_up) (st := st); [exact Hmalloc|by rewrite vt_src|done| |apply Hrc|].
    { split; [done| |done|by exists sr]. apply steady_up; [|auto]. cbn [links update_with with_engine]. find_link. }
    cbn [Z.eqb negb when]. wp_simpl. set (ws := <[_ := _]> (writes _)). eapply wp_mono.
    + exact (hs_end_up st e x' req cb hs (s1 ws) (Hup1 _) Hw).
    + intros [] s' ->. split; [done|]. by exists ws.
Qed.

(** ** A whole connection *)

(** The bytes [bs] received during the handshake make engine [x] answer with [outs] and end
    the handshake in state [hs]. *)
Inductive hs_run : engine_t → list (list Z) → list (list Z) → tls_handshake_state → engine_t → Prop :=
  | hs_last x b hs out x' : e_handshake_state x = TLS_HS_CONTINUE → 0 < Z.of_nat (length b) ≤ 65536 →
      e_handshake x (Some b) TLS_BUF_SZ = Ret (hs, out, x') → is_Some (hs_status hs) → hs_run x [b] [out] hs x'
  | hs_more x b hs1 out x1 bs outs hs x' : e_handshake_state x = TLS_HS_CONTINUE → 0 < Z.of_nat (length b) ≤ 65536 →
      e_handshake x (Some b) TLS_BUF_SZ = Ret (hs1, out, x1) → hs_status hs1 = None →
      hs_run x1 bs outs hs x' → hs_run x (b :: bs) (out :: outs) hs x'.
Fixpoint receive_all (st : Z) (bs : list (list Z)) : M L unit :=
  match bs with [] => mret tt | b :: bs => received st b;; receive_all st bs end.

Lemma handshake_up x bs outs hs x' st e req cb : hs_run x bs outs hs x' → ∀ s, up s st e x → waiting s req cb →
  wp (receive_all st bs) (λ _ s', up s' st e x' ∧ llog s' = llog s ++ concat (sent st <$> outs) ∧
    more (lrest s') = answered req cb hs (more (lrest s))) s.
Proof.
  induction 1 as [x b hs out x' Hx Hb Hh Hend|x b hs1 out x1 bs outs hs x' Hx Hb Hh Hgo Hrun IH]; intros s Hup Hw; cbn [receive_all]; wp_simpl;
    (eapply wp_mono; [by eapply hs_step_up|]); intros [] s' (ws & ->); wp_simpl.
  - split; [by eapply up_rest|]. cbn. by rewrite app_nil_r.
  - assert (answered req cb hs1 (more (lrest s)) = more (lrest s)) as -> by (unfold answered; by rewrite Hgo). eapply wp_mono; [apply IH; [by eapply up_rest|exact Hw]|]. intros [] s' (Hup' & Hl & Hm).
    split; [done|]. cbn in Hl, Hm. split; [|done]. rewrite Hl. cbn. by rewrite app_assoc.
Qed.

Lemma up_chain s st e x : up s st e x → chain (links s) [src_link; tls_link; self] ∧ numbered (links s) 1 [src_link; tls_link; self].
Proof.
  intros [Hnd Hs Ht Hc _ _ _ _]. split; [split; [done|]|]; cbn; eauto 20.
Qed.

(** C13: a connection, from the source's report on: the three links are chained, an engine
    for the host replaces the old one, the source is read and the engine's first message
    sent; whatever the peer sends then, every answer of the engine is sent in order; when
    the engine ends the handshake the user's connect callback is called, exactly once, with
    success or [UV_ECONNABORTED], and the stream is ready for another request. *)
Theorem stream_connects st ctx req cb hs0 hello x1 bs outs hs x' s :
  let x0 := new_engine ctx (host (clt (more (lrest s)))) in
  src_connected s st → waiting s req cb → tls (clt (more (lrest s))) = Some ctx →
  (∀ e, tls_engine (clt (more (lrest s))) = Some e → is_Some (engines (lrest s) !! e)) →
  e_handshake_state x0 = TLS_HS_BEFORE → e_handshake x0 None TLS_BUF_SZ = Ret (hs0, hello, x1) → hs_run x1 bs outs hs x' →
  ∃ s' e status, (on_connect 0;; receive_all st bs) s = Ret (tt, s') ∧ hs_status hs = Some status ∧
    llog s' = llog s ++ LReadStart st :: LWrite st hello :: concat (sent st <$> outs) ∧
    slog (more (lrest s')) = slog (more (lrest s)) ++ [SConnectCb req cb status] ∧
    stream_req (clt (more (lrest s'))) = None ∧ tls_engine (clt (more (lrest s'))) = Some e ∧
    chain (links s') [src_link; tls_link; self] ∧ numbered (links s') 1 [src_link; tls_link; self] ∧
    engines (lrest s') !! e = Some x'.
Proof.
  intros x0 Hsc Hw Hctx He Hb Hh Hrun. assert (is_Some (hs_status hs)) as [status Hstatus] by (clear -Hrun; by induction Hrun).
  assert (wp (on_connect 0;; receive_all st bs) (λ _ s', ∃ e, up s' st e x' ∧
    llog s' = llog s ++ LReadStart st :: LWrite st hello :: concat (sent st <$> outs) ∧
    more (lrest s') = answered req cb hs ((more (lrest s)) <| clt := (clt (more (lrest s))) <| tls_engine := Some e |> |>)) s) as Hwp.
  { wp_simpl. eapply link_up_wp; [done..|]. intros e. wp_simpl.
    pose proof (linked_up_up st e ctx s Hsc) as Hup. eapply wp_mono; [by eapply read_start_up|]. intros rc s1 (-> & ws & ->). wp_simpl.
    eapply wp_mono; [eapply (handshake_up x1 bs outs hs x' st e req cb); [done|exact (up_rest _ st e _ x1 _ ws (more (lrest (linked_up e ctx s))) Hup)|exact Hw]|].
    intros [] s' (Hup' & Hl & Hm). exists e. split; [done|]. cbn in Hl, Hm. split; [|done]. rewrite Hl. by rewrite <-app_assoc. }
  apply wp_run in Hwp as ([] & s' & Hrun' & e & Hup & Hl & Hm). exists s', e, status.
  rewrite Hm. unfold answered. rewrite Hstatus. destruct (up_chain _ _ _ _ Hup). split_and!; try done. by destruct Hup.
Qed.

(** ** Closing *)

(** The connection over [st] is set up; the user may have set the callbacks of its link. *)
Record open_conn s (st e : Z) (x : engine_t) (kc : uv_link_s) : Prop := {
  oc_src : links s !! src_link = Some src_up;
  oc_tls : links s !! tls_link = Some tls_up;
  oc_self : links s !! self = Some kc;
  oc_kc : ∃ a r, kc = self_up <| alloc_cb := a |> <| read_cb := r |>;
  oc_source : ∃ sr, sources s !! src_link = Some sr ∧ stream sr = Some st;
  oc_stream : streams s !! st = Some (mkstream (Some src_link) false);
  oc_link : tls_links (lrest s) !! tls_link = Some (mktls (Some e) ON_TLS_HS);
  oc_engine : engines (lrest s) !! e = Some x;
}.

Lemma size_3 s st e x kc : open_conn s st e x kc → ∃ n, size (links s) = S (S (S n)).
Proof.
  intros [Hs Ht Hc (a & r & Hkc) _ _ _ _].
  assert (chain (links s) [src_link; tls_link; self]) as Hch by (split; [done|]; subst kc; cbn; eauto 20).
  apply chain_size in Hch. cbn in Hch. destruct (size (links s)) as [|[|[|n]]]; try lia. by exists n.
Qed.

(** The state while libuv closes the handle. *)
Definition closing_links kc s : gmap lid uv_link_s :=
  <[self := kc <| parent := None |> <| close_waiting := 1 |> <| saved_close_cb := Some (CCall ON_MBED_CLOSE) |>]>
    (<[tls_link := unchained_from tls_up <| parent := None |>]> (<[src_link := unchained_from src_up]> (links s))).
Definition closing st e x kc sr s : L :=
  s <| links := closing_links kc s |>
    <| sources := <[src_link := sr <| src_close_cb := Some CJoin |> <| close_source := Some self |>]> (sources s) |>
    <| streams := <[st := mkstream (Some src_link) true]> (streams s) |>
    <| llog := llog s ++ [LUvClose st] |>
    <| lrest := (lrest s) <| engines := match e_reset with Some f => <[e := f x]> | None => λ m, m end (engines (lrest s)) |> |>.

(** A field of a link that is known. *)
Ltac reveal f v := match goal with |- context [f ?k] => change (f k) with v end.

(** The TLS link closes. *)
Lemma tls_close_wp e x kl source k s (Q : unit → L → Prop) : tls_links (lrest s) !! kl = Some (mktls (Some e) ON_TLS_HS) →
  engines (lrest s) !! e = Some x → links s !! source = Some k → 1 < close_waiting k < 1000 →
  Q tt (s <| lrest := (lrest s) <| engines := match e_reset with Some f => <[e := f x]> | None => λ m, m end (engines (lrest s)) |> |>
          <| links := <[source := k <| close_waiting := close_waiting k - 1 |>]> (links s) |>) →
  wp (tls_close app_close kl source CJoin) Q s.
Proof.
  intros Htl He Hk Hw HQ. unfold tls_close, tls_reset. wp_simpl.
  assert (∀ s1, links s1 = links s → Q tt (s1 <| links := <[source := k <| close_waiting := close_waiting k - 1 |>]> (links s) |>) →
    wp (run_close_cb app_close CJoin source) Q s1) as Hjoin.
  { intros s1 Hl HQ1. cbn [run_close_cb]. unfold uv_link_close_join. wp_simpl. eapply wp_link_modify; [by rewrite Hl|]. rewrite Hl. wp_simpl.
    eapply wp_link_get; [apply lookup_insert_eq|]. cbn. rewrite i32_small by lia. destruct (Z.eqb_spec (close_waiting k - 1) 0); [lia|]. by wp_simpl. }
  destruct e_reset as [f|]; wp_simpl.
  - unfold engine_of, tls_get, engine_get, engine_put, set_rest. wp_simpl. rewrite Htl. wp_simpl. cbn [tl_engine]. wp_simpl. rewrite He. wp_simpl.
    by apply Hjoin.
  - apply Hjoin; [done|]. by destruct s as [? ? ? ? ? ? ? []].
Qed.

Lemma propagate_close_wp st e x kc s : open_conn s st e x kc →
  wp (uv_link_propagate_close vt UV_EINVAL self self ON_MBED_CLOSE) (λ _ s', ∃ sr, sources s !! src_link = Some sr ∧ stream sr = Some st ∧
    s' = closing st e x kc sr s) s.
Proof.
  intros Hoc. pose proof apart as (H12 & H13 & H23). destruct (size_3 _ _ _ _ _ Hoc) as [n Hn].
  destruct Hoc as [Hs Ht Hc (a & r & Hkc) (sr & Hsr & Hst2) Hst Htl He].
  unfold uv_link_propagate_close. link_step. subst kc. reveal child (@None lid). rewrite bool_decide_eq_false_2 by (by intros []). wp_simpl.
  rewrite Hn. assert (find_root (S (S (S n))) self 1 s = Ret ((src_link, 3), s)) as Hroot.
  { unfold find_root, link_get, mbind, M_bind, get. rewrite Hc. cbn. rewrite Ht. cbn. rewrite Hs. done. }
  unfold wp at 1. rewrite Hroot. wp_simpl. link_step. reveal close_waiting 0. change (i32 (0 + 3)) with 3.
  set (kc := self_up <| alloc_cb := a |> <| read_cb := r |>).
  cbn [close_loop]. link_step. reveal child (Some tls_link). wp_simpl.
  eapply wp_mono; [eapply unchain_exact; [done|find_link|find_link|done|done]|]. intros rc s1 [-> ->]. change (negb (0 =? 0)) with false. cbn [when]. wp_simpl.
  link_step. reveal close_depth 0. change (0 =? 0) with true. cbn iota. reveal methods KSource. rewrite vt_src.
  cbn [uv_link_source_methods m_close]. unfold uv_link_source_close, source_get, stream_get, source_put, stream_put, lemit. wp_simpl.
  cbn [sources update_with]. rewrite Hsr. wp_simpl. rewrite Hst2. wp_simpl. cbn [streams update_with]. rewrite Hst. wp_simpl. cbn [st_closing]. wp_simpl.
  set (s2 := s <| sources := <[src_link := sr <| src_close_cb := Some CJoin |> <| close_source := Some self |>]> (sources s) |>
    <| streams := <[st := mkstream (Some src_link) true]> (streams s) |> <| llog := llog s ++ [LUvClose st] |>).
  match goal with |- wp _ _ (s <| links := ?lk |> <| sources := _ |> <| streams := _ |> <| llog := _ |>) =>
    match goal with |- wp _ _ ?s0 => change s0 with (s2 <| links := lk |>) end end.
  link_step. reveal child (Some self). wp_simpl.
  eapply wp_mono; [eapply unchain_exact; [done|find_link|find_link|done|done]|]. intros rc s1 [-> ->]. change (negb (0 =? 0)) with false. cbn [when]. wp_simpl.
  rewrite links_links, links_get. link_step. reveal close_depth 0. change (0 =? 0) with true. cbn iota. reveal methods KTls. rewrite vt_tls. cbn [tls_methods m_close].
  wp_simpl. eapply tls_close_wp; [exact Htl|exact He|find_link|done|]. reveal close_waiting 3. change (3 - 1) with 2.
  set (lr := (lrest s) <| engines := match e_reset with Some f => <[e := f x]> | None => λ m, m end (engines (lrest s)) |>). rewrite links_get.
  match goal with |- wp _ _ (_ <| links := ?lk |>) => match goal with |- wp _ _ ?s0 => change s0 with (s2 <| lrest := lr |> <| links := lk |>) end end.
  link_step. reveal child (@None lid). wp_simpl. link_step. reveal close_depth 0. change (0 =? 0) with true. cbn iota.
  reveal methods KStream. rewrite vt_self. cbn [mbed_methods client_methods m_close]. unfold uv_link_default_close. cbn [run_close_cb].
  unfold uv_link_close_join. link_step. reveal close_waiting 2. change (i32 (2 - 1)) with 1. link_step. reveal close_waiting 1. change (1 =? 0) with false. wp_simpl.
  exists sr. split; [done|]. split; [done|]. unfold closing.
  match goal with |- _ = ?b => transitivity (s2 <| lrest := lr |> <| links := closing_links kc s |>); [|done] end.
  apply links_eq. unfold closing_links. clear -H12 H13 H23. same_links.
Qed.

(** The source as part of the stream. *)
Lemma wp_stream_src (Q : tcp_src_s → L → Prop) s : src_live (sock (more (lrest s))) = true →
  wp src Q s ↔ Q (tcp (sock (more (lrest s)))) s.
Proof. intros Hl. unfold src. wp_simpl. unfold world. wp_simpl. cbn [tcp_of stream_has_tcp]. by rewrite Hl. Qed.
Lemma wp_stream_set_tcp f (Q : unit → L → Prop) s : src_live (sock (more (lrest s))) = true →
  wp (set_tcp f) Q s ↔ wp (set_world (λ w, w <| tcp := f (tcp w) |>)) Q s.
Proof. intros Hl. unfold set_tcp. wp_simpl. by rewrite wp_stream_src. Qed.

(** The source is done: its handle is closed and nothing else is going on. *)
Record src_closed s (st : Z) : Prop := {
  sd_live : src_live (sock (more (lrest s))) = true;
  sd_ptr : ts_link (tcp (sock (more (lrest s)))) = Some src_link;
  sd_resolve : resolve_req (tcp (sock (more (lrest s)))) = None;
  sd_connect : conn_req (tcp (sock (more (lrest s)))) = None;
  sd_conn : conn (tcp (sock (more (lrest s)))) = Some st;
  sd_closed : st ∈ closed (sock (more (lrest s)));
  sd_handle : streams s !! st = Some (mkstream None true);
}.

(** What is left of the source when the stream has released it. *)
Definition released st s : L :=
  s <| links := delete src_link (links s) |> <| sources := delete src_link (sources s) |> <| streams := delete st (streams s) |>
    <| lrest := (lrest s) <| more := (more (lrest s))
      <| sock := (sock (more (lrest s))) <| closed := closed (sock (more (lrest s))) ∖ {[st]} |> <| src_live := false |>
           <| tcp := (tcp (sock (more (lrest s)))) <| conn := None |> <| ts_link := None |> |> |>
      <| clt := (clt (more (lrest s))) <| socket := false |> |> |> |>.

Lemma release_socket_wp st s : src_closed s st →
  wp (tcp_src_cancel no_close;; tcp_src_release;; tcp_src_free;; free_src;; set_clt (λ c, c <| socket := false |>))
    (λ _ s', s' = released st s) s.
Proof.
  intros [Hlive Hptr Hr Hc Hconn Hcl Hst]. unfold tcp_src_cancel, cancel_resolve, cancel_connect, cancel_conn. wp_simpl.
  rewrite wp_stream_src by done. unfold world. wp_simpl. rewrite Hr. wp_simpl. rewrite wp_stream_src by done. rewrite Hc. wp_simpl.
  rewrite wp_stream_src by done. rewrite Hconn. unfold stream_get. wp_simpl. rewrite Hst. wp_simpl. cbn [st_closing negb when]. wp_simpl.
  unfold tcp_src_release. wp_simpl. rewrite wp_stream_src by done. rewrite Hconn. unfold free_handle. wp_simpl.
  rewrite bool_decide_eq_false_2 by (by rewrite Hst). rewrite bool_decide_eq_false_2 by (intros Hn; by apply Hn). unfold set_world. wp_simpl.
  rewrite wp_stream_set_tcp by done. unfold set_world. wp_simpl. unfold tcp_src_free. wp_simpl. rewrite wp_stream_src by done.
  match goal with |- context [match ?o with Some l => modify _ | None => _ end] => change o with (ts_link (tcp (sock (more (lrest s))))) end.
  rewrite Hptr. wp_simpl. rewrite wp_stream_set_tcp by done. unfold set_world. wp_simpl. unfold free_src, world. wp_simpl.
  match goal with |- context [src_live ?w] => change (src_live w) with (src_live (sock (more (lrest s)))) end. rewrite Hlive.
  unfold set_world, set_clt, set_sw, set_rest. by wp_simpl.
Qed.

(** The call that tells the user of a request that it was cancelled. *)
Definition cancelled_req (w : stream_world) : list sevent :=
  match stream_req (clt w) with
  | Some req => match conn_cbs w !! req with Some cb => [SConnectCb req cb UV_ECANCELED] | None => [] end
  | None => []
  end.
Definition req_cancelled s : L := s <| lrest := (lrest s) <| more := (more (lrest s))
  <| slog := slog (more (lrest s)) ++ cancelled_req (more (lrest s)) |> <| clt := (clt (more (lrest s))) <| stream_req := None |> |> |> |>.
Definition req_known s : Prop := ∀ req, stream_req (clt (more (lrest s))) = Some req → is_Some (conn_cbs (more (lrest s)) !! req).

Lemma on_mbed_close_wp st cb s : src_closed s st → req_known s → socket (clt (more (lrest s))) = true →
  stream_close_cb (clt (more (lrest s))) = Some cb →
  wp (on_mbed_close UV_ECANCELED note_conn note_user_close) (λ _ s', let s2 := released st (req_cancelled s) in
    s' = s2 <| lrest := (lrest s2) <| more := (more (lrest s2)) <| slog := slog (more (lrest s2)) ++ [SCloseCb cb] |> |> |>) s.
Proof.
  intros Hd Hk Hso Hcb. unfold on_mbed_close, the_clt, sw. wp_simpl.
  assert (wp (match stream_req (clt (more (lrest s))) with
    | Some req => set_clt (λ c, c <| stream_req := None |>);; call_conn_cb note_conn req UV_ECANCELED | None => mret tt end)
    (λ _ s', s' = req_cancelled s) s) as Hreq.
  { unfold req_cancelled, cancelled_req. specialize (Hk). destruct (stream_req (clt (more (lrest s)))) as [req|] eqn:Hr; wp_simpl.
    - destruct (Hk req Hr) as [c Hc]. unfold set_clt, set_sw, set_rest, call_conn_cb, sw, semit, note_conn, set_sw, set_rest. wp_simpl.
      cbn [lrest more conn_cbs update_with]. rewrite Hc. by wp_simpl.
    - rewrite app_nil_r. by destruct s as [? ? ? ? ? ? ? [? ? [[] ? ? ? ? ?]]]; cbn in *; subst. }
  eapply wp_mono; [exact Hreq|]. intros [] s1 ->. wp_simpl.
  match goal with |- context [when ?b _] => change b with (socket (clt (more (lrest s)))) end. rewrite Hso. cbn [when].
  assert (src_closed (req_cancelled s) st) as Hd1 by (destruct Hd; by split).
  eapply wp_mono; [exact (release_socket_wp st _ Hd1)|]. intros [] s2 ->. wp_simpl.
  match goal with |- context [stream_close_cb ?c] => change (stream_close_cb c) with (stream_close_cb (clt (more (lrest s)))) end. rewrite Hcb.
  unfold semit, note_user_close, set_sw, set_rest. by wp_simpl.
Qed.

(** The source has an open connection. *)
Record src_open s (st : Z) : Prop := {
  so_live : src_live (sock (more (lrest s))) = true;
  so_ptr : ts_link (tcp (sock (more (lrest s)))) = Some src_link;
  so_resolve : resolve_req (tcp (sock (more (lrest s)))) = None;
  so_connect : conn_req (tcp (sock (more (lrest s)))) = None;
  so_conn : conn (tcp (sock (more (lrest s)))) = Some st;
  so_free : st ∉ free_on_close (sock (more (lrest s)));
}.

(** libuv is done with the handle: the stream takes it from there. *)
Definition handle_gone st kc sr s : L :=
  s <| streams := <[st := mkstream None true]> (streams s) |>
    <| sources := <[src_link := sr <| stream := None |>]> (sources s) |>
    <| links := <[self := kc <| close_waiting := 0 |>]> (links s) |>
    <| lrest := (lrest s) <| more := (more (lrest s)) <| sock := (sock (more (lrest s))) <| closed := closed (sock (more (lrest s))) ∪ {[st]} |> |> |> |>.
Lemma handle_closed_wp st kc sr s (Q : unit → L → Prop) : st ∉ free_on_close (sock (more (lrest s))) →
  streams s !! st = Some (mkstream (Some src_link) true) → sources s !! src_link = Some sr → src_close_cb sr = Some CJoin → close_source sr = Some self →
  links s !! self = Some kc → close_waiting kc = 1 → saved_close_cb kc = Some (CCall ON_MBED_CLOSE) →
  wp (on_mbed_close UV_ECANCELED note_conn note_user_close) Q (handle_gone st kc sr s) → wp (handle_closed app_close st) Q s.
Proof.
  intros Hf Hst Hsr Hcb Hto Hk Hw Hsv HQ. unfold handle_closed, set_world, world. wp_simpl.
  rewrite bool_decide_eq_false_2 by done. unfold uv_link_source_close_cb, stream_get, stream_put, source_get, source_put. wp_simpl.
  cbn [streams update_with]. rewrite Hst. wp_simpl. cbn [st_data]. wp_simpl. cbn [sources update_with]. rewrite Hsr. wp_simpl. rewrite Hcb, Hto. wp_simpl.
  cbn [run_close_cb]. unfold uv_link_close_join. wp_simpl. eapply wp_link_modify; [exact Hk|]. rewrite Hw. wp_simpl.
  eapply wp_link_get; [apply lookup_insert_eq|]. reveal close_waiting 0. change (0 =? 0) with true. cbn iota.
  reveal saved_close_cb (saved_close_cb kc). rewrite Hsv. exact HQ.
Qed.

Abbreviation stream_close := (tlsuv_stream_close vt UV_EINVAL self).

(** C14: closing a stream with an open connection takes the chain apart and closes the handle,
    once; when libuv is done with it the user is told of a request that was still waiting,
    and then of the close, once each, and the handle, the source and its link are freed. *)
Theorem stream_close_releases st e x kc cb s : open_conn s st e x kc → src_open s st → req_known s → socket (clt (more (lrest s))) = true →
  ∃ s1 s2, stream_close (Some cb) s = Ret (0, s1) ∧ llog s1 = llog s ++ [LUvClose st] ∧ slog (more (lrest s1)) = slog (more (lrest s)) ∧
    (∀ l k, l ∈ [src_link; tls_link; self] → links s1 !! l = Some k → parent k = None ∧ child k = None) ∧
    handle_closed app_close st s1 = Ret (tt, s2) ∧ llog s2 = llog s1 ∧
    slog (more (lrest s2)) = slog (more (lrest s)) ++ cancelled_req (more (lrest s)) ++ [SCloseCb cb] ∧
    streams s2 = delete st (streams s) ∧ sources s2 = delete src_link (sources s) ∧ links s2 !! src_link = None ∧
    stream_req (clt (more (lrest s2))) = None ∧ socket (clt (more (lrest s2))) = false ∧ src_live (sock (more (lrest s2))) = false.
Proof.
  intros Hoc Hso Hk Hsock. pose proof apart as (H12 & H13 & H23).
  set (s0 := s <| lrest := (lrest s) <| more := (more (lrest s)) <| clt := (clt (more (lrest s))) <| stream_close_cb := Some cb |> |> |> |>).
  assert (open_conn s0 st e x kc) as Hoc0 by (destruct Hoc; by split).
  assert (∃ sr, sources s !! src_link = Some sr ∧ stream_close (Some cb) s = Ret (0, closing st e x kc sr s0)) as (sr & Hsr & Hrun).
  { assert (wp (stream_close (Some cb)) (λ rc s', rc = 0 ∧ ∃ sr, sources s !! src_link = Some sr ∧ s' = closing st e x kc sr s0) s) as Hw.
    { unfold tlsuv_stream_close, set_clt, set_sw, set_rest. wp_simpl. eapply wp_mono; [exact (propagate_close_wp st e x kc s0 Hoc0)|].
      intros [] s' (sr & Hsr & _ & ->). wp_simpl. split; [done|]. by exists sr. }
    apply wp_run in Hw as (rc & s' & Hr & -> & sr & Hsr & ->). by exists sr. }
  set (s1 := closing st e x kc sr s0) in *.
  assert (wp (handle_closed app_close st) (λ _ s2, let s3 := handle_gone st (kc <| parent := None |> <| close_waiting := 1 |> <| saved_close_cb := Some (CCall ON_MBED_CLOSE) |>)
    (sr <| src_close_cb := Some CJoin |> <| close_source := Some self |>) s1 in let s4 := released st (req_cancelled s3) in
    s2 = s4 <| lrest := (lrest s4) <| more := (more (lrest s4)) <| slog := slog (more (lrest s4)) ++ [SCloseCb cb] |> |> |>) s1) as Hw.
  { destruct Hso. eapply handle_closed_wp; [done|apply lookup_insert_eq|apply lookup_insert_eq|reflexivity|reflexivity|apply lookup_insert_eq|reflexivity|reflexivity|].
    apply on_mbed_close_wp; [|exact Hk|exact Hsock|done]. split; try done; [by apply elem_of_union_r, elem_of_singleton|apply lookup_insert_eq]. }
  apply wp_run in Hw as ([] & s2 & Hrun2 & ->). eexists _, _. split; [exact Hrun|]. split; [done|]. split; [done|].
  split; [|split; [exact Hrun2|]].
  - intros l k Hl Hlk. cbn in Hlk. unfold closing_links in Hlk. destruct Hoc as [_ _ _ (a & r & ->) _ _ _ _].
    apply elem_of_cons in Hl as [->|[->|[->|[]%elem_of_nil]%elem_of_cons]%elem_of_cons];
      repeat first [rewrite lookup_insert_eq in Hlk | rewrite lookup_insert_ne in Hlk by congruence]; by injection Hlk as <-.
  - cbn. split_and!; try done; [by rewrite app_assoc|by rewrite !delete_insert_eq|by rewrite !delete_insert_eq|apply lookup_delete_eq].
Qed.
End StreamProofs.

(** ** Witnesses *)

(** A stream with the engine of [ToyTls] is made, connects, and is closed. *)
Module ToyStream.
#[local] Existing Instance ToyTls.engine.
Definition S0 : Type := lstate write_fn (tls_state stream_world).
Definition new_engine (ctx : tls_context) (h : option (list Z)) : engine_t := ToyTls.mkeng TLS_HS_BEFORE [] [].
Definition app_alloc (cb : Z) (l : lid) (n : Z) : M S0 (option (list Z)) := mret None.
Definition app_read (cb : Z) (l : lid) (n : Z) (b : option (list Z)) : M S0 unit := mret tt.
Definition vt := stream_vt (-4096) (-22) (-14) (-4095) (-105) (-12) (-125) (-103) (λ _, 0) app_alloc app_read (λ _, true) 10 4.
Definition connect_cb := stream_app_connect vt (-4096) (-22) (-14) 2 3 new_engine note_conn.
Definition blank : S0 :=
  mkl ∅ ∅ ∅ ∅ ∅ ∅ [] (mkts ∅ ∅ (mksw (mkclt false None None None None None)
    (mkworld (mktcp None None None None None 0 false) false ∅ ∅ ∅ ∅ []) (mktlsg None None 0 []) ∅ ∅ [])).
(** Links 1, 2 and 3; request 7 with callback 8. *)
Definition start : M S0 unit :=
  tlsuv_stream_init 1 3 (Some 5);; tlsuv_stream_connect (-22) (-114) 1 (Some 7) [104; 105] 443 8 0;; resolve_cb connect_cb 0 0 0 0.
Definition state_of {A} (m : M S0 A) : S0 := match m blank with Ret (_, s) => s | Fault _ => blank end.
(** The source, before it reports. *)
Definition connected : S0 := state_of (start;; set_tcp (λ t, t <| conn_req := None |>);; tcp_connected 0).
(** The connection is up and the handshake has begun. *)
Definition shaking : S0 := state_of (start;; tcp_connect_cb (-125) connect_cb 0 0).
End ToyStream.

Lemma stream_connects_witness : ∃ s' e status,
  (on_src_connect ToyStream.vt (-4096) (-22) (-14) 2 3 ToyStream.new_engine note_conn 0;;
   receive_all (-4096) (-22) (-14) (-4095) (-105) (-12) (-125) (-103) (λ _, 0) ToyStream.app_alloc ToyStream.app_read (λ _, true) 10 0 0 [[22; 9]])
    ToyStream.connected = Ret (tt, s') ∧ hs_status (-103) TLS_HS_COMPLETE = Some status ∧
  llog s' = llog ToyStream.connected ++ [LReadStart 0; LWrite 0 [22; 1]; LWrite 0 [22; 2]] ∧
  slog (more (lrest s')) = slog (more (lrest ToyStream.connected)) ++ [SConnectCb 7 8 status] ∧
  stream_req (clt (more (lrest s'))) = None ∧ tls_engine (clt (more (lrest s'))) = Some e ∧
  chain (links s') [1; 2; 3] ∧ numbered (links s') 1 [1; 2; 3] ∧ engines (lrest s') !! e = Some (ToyTls.mkeng TLS_HS_COMPLETE [] []).
Proof.
  apply (stream_connects (-4096) (-22) (-14) (-4095) (-105) (-12) (-125) (-103) (λ _, 0) ToyStream.app_alloc ToyStream.app_read (λ _, true) 10
    1 2 3 ToyStream.new_engine 0 ltac:(by apply (bool_decide_unpack _)) (λ _, eq_refl) (λ _, eq_refl) ltac:(lia)
    0 5 7 8 TLS_HS_CONTINUE [22; 1] (ToyTls.mkeng TLS_HS_CONTINUE [] []) [[22; 9]] [[22; 2]] TLS_HS_COMPLETE
    (ToyTls.mkeng TLS_HS_COMPLETE [] []) ToyStream.connected).
  - split; [vm_compute; reflexivity|eexists; vm_compute; split; reflexivity|vm_compute; reflexivity..].
  - split; vm_compute; reflexivity.
  - vm_compute. reflexivity.
  - intros e. vm_compute. discriminate.
  - reflexivity.
  - reflexivity.
  - apply hs_last; [reflexivity|cbn; lia|reflexivity|by eexists].
Defined.

Lemma stream_close_releases_witness : ∃ s1 s2,
  tlsuv_stream_close ToyStream.vt (-22) 3 (Some 9) ToyStream.shaking = Ret (0, s1) ∧
  llog s1 = llog ToyStream.shaking ++ [LUvClose 0] ∧ slog (more (lrest s1)) = slog (more (lrest ToyStream.shaking)) ∧
  (∀ l k, l ∈ [1; 2; 3] → links s1 !! l = Some k → parent k = None ∧ child k = None) ∧
  handle_closed (stream_app_close (-125) note_conn note_user_close) 0 s1 = Ret (tt, s2) ∧ llog s2 = llog s1 ∧
  slog (more (lrest s2)) = slog (more (lrest ToyStream.shaking)) ++ [SConnectCb 7 8 (-125); SCloseCb 9] ∧
  streams s2 = delete 0 (streams ToyStream.shaking) ∧ sources s2 = delete 1 (sources ToyStream.shaking) ∧ links s2 !! 1 = None ∧
  stream_req (clt (more (lrest s2))) = None ∧ socket (clt (more (lrest s2))) = false ∧ src_live (sock (more (lrest s2))) = false.
Proof.
  apply (stream_close_releases (-4096) (-22) (-14) (-4095) (-105) (-12) (-125) (-103) (λ _, 0) ToyStream.app_alloc ToyStream.app_read (λ _, true) 10
    1 2 3 0 ltac:(by apply (bool_decide_unpack _)) 0 0 (ToyTls.mkeng TLS_HS_CONTINUE [] []) (self_up 1 2) 9 ToyStream.shaking).
  - split; try (vm_compute; reflexivity); [|eexists; vm_compute; split; reflexivity]. exists (Some CbDef), (Some CbDef). reflexivity.
  - split; try (vm_compute; reflexivity). apply (bool_decide_unpack _). vm_compute. reflexivity.
  - intros req. vm_compute. intros [= <-]. by eexists.
  - vm_compute. reflexivity.
Defined.

(** How a run from the blank state ends. *)
Definition result_of {A} (m : M ToyStream.S0 A) : A + fault := match m ToyStream.blank with Ret (a, _) => inl a | Fault f => inr f end.
Definition connect_to (req rc : Z) : M ToyStream.S0 Z := tlsuv_stream_connect (-22) (-114) 1 (Some req) [104; 105] 443 8 rc.

(** A connect that fails at once leaves its request behind: every later one is refused. *)
Theorem failed_connect_blocks :
  result_of (tlsuv_stream_init 1 3 (Some 5);; a ← connect_to 7 (-12); b ← connect_to 6 0; mret (a, b)) = inl (-12, -114).
Proof. vm_compute. reflexivity. Qed.

(** A user who closes the stream in the callback that reports a failure. *)
Definition closing_user (req st : Z) : M ToyStream.S0 unit := tlsuv_stream_close ToyStream.vt (-22) 3 (Some 9);; mret tt.
Definition closing_connect_cb := stream_app_connect ToyStream.vt (-4096) (-22) (-14) 2 3 ToyStream.new_engine closing_user.

(** The callback is called a second time, from the close it asked for ... *)
Theorem close_in_connect_cb_twice :
  result_of (ToyStream.start;; tcp_connect_cb (-125) closing_connect_cb 0 (-111);; gets (λ s, slog (more (lrest s)))) =
  inl [SConnectCb 7 8 (-111); SConnectCb 7 8 (-125); SCloseCb 9].
Proof. vm_compute. reflexivity. Qed.
(** ... and when the name was not resolved the source is used after it was freed. *)
Theorem close_in_connect_cb_dangles :
  result_of (tlsuv_stream_init 1 3 (Some 5);; connect_to 7 0;; resolve_cb closing_connect_cb 0 (-3008) 0 0) = inr UseAfterFree.
Proof. vm_compute. reflexivity. Qed.
